(* ===== verification/_CoqProject ===== *)
-Q . S2P
Prelude.v
Float.v
Text.v
Strconv.v
Utf8.v
Regexp.v
Sha256.v
Cbor.v
CborRef.v
LedgerCodec.v
LedgerEvent.v
LedgerRecord.v
LedgerChain.v
Ecdsa.v
Endorsement.v
Effects.v
Programs.v
Store.v
Signer.v
Admission.v
Identity.v
Graph.v
Evaluator.v
EvaluatorSpec.v
EvaluatorProps.v
Projector.v
Net.v
Json.v
HttpApi.v
HttpProps.v
Router.v
Bodies.v
Payloads.v
Config.v
Proc.v
Observability.v
Logging.v
Latency.v
App.v
Providers.v
Fallback.v
Main.v
Golden.v
Vectors.v
