(* ===== verification/Prelude.v ===== *)
(** * Attribution Chain application: verification library

    The application keeps append-only ledgers of signed records in PostgreSQL
    and derives a graph of endorsements from them.  A record is deterministic
    CBOR: an event (ledger, sequence, digest of the previous record, time, kind,
    payload) inside a record body (event, its digest, signer reference,
    signature) inside a ledger record (body and its digest).  Endorsement and
    revocation payloads carry the signatures of the parties.  The admission
    service builds, signs and stores records, retrying when another writer took
    the sequence; the projector replays a ledger into the graph; the evaluator
    derives the confidence in an identity from the paths of the graph; an HTTP
    API serves all of it, in a process configured by its environment.

    ** Files and what they model (paths under [src/])

    - [Prelude]: results and errors of Go calls, machine integers, bytes, fixed
      arrays, slices with nil, UTF-8, the tactics and hint databases.
    - [Float]: [float64] and [float32] on Rocq's [SpecFloat], and what the score
      needs of rounding: products, complements and conversions of numbers of the
      unit interval stay in it and are monotone.
    - [Text], [Strconv], [Utf8], [Regexp]: what the sources use of [sort],
      [bytes], [encoding/hex], [unicode/utf8], [fmt], [strings], [strconv], [time]
      and [regexp]; regular expressions are matched by derivatives, proved to
      decide the language of the expression.
    - [Json]: [encoding/json]: reading the first value of a text, storing it into
      the fields of a struct, writing values; what is written is read again, and
      what is read has valid strings and numbers.
    - [Sha256]: [crypto/sha256], executable.  [collide m1 m2] names two given
      messages with one digest; injectivity is never assumed.
    - [Cbor]: [github.com/fxamacker/cbor/v2] as a parameter, the class [Cbor]
      with the laws [CborOk] (marshalling a struct of [keyasint] fields gives its
      RFC 8949 deterministic encoding, which is written out; unmarshalling
      inverts it; what is unmarshalled has its Go types).  [CborRef] is an
      executable instance with the proof of the laws, and shows that
      deterministic encodings are prefix codes.
    - [LedgerCodec], [LedgerEvent], [LedgerRecord], [LedgerChain]:
      [internal/ledger/v1], one file per source file or two; every function of
      the package.  [LedgerChain] has the abstract chain ([valid_chain]) that the
      state machine [ValidateChainConsistency] implements.
    - [Ecdsa]: [crypto/ecdsa] as a parameter with the documented laws, and a toy
      instance for the witnesses.
    - [Endorsement], Module [endorsementv1]: [internal/endorsement/v1], every
      function.
    - [Effects]: programs as trees of requests (database, clock, entropy, remote
      signer, context), the table [ledger_record] with the constraints of
      [db/migrations] as an executable [exec_insert] and queries, what may be
      answered to a request ([answers]: a lost connection may leave an insert
      committed or not), a failure-free environment ([run]), the interleaving of
      several programs ([sys_step]), and the verification conditions of a program
      that shares the table with others: [safe], whatever is replied, and
      [serves], which ties its result to the tables between its start and its end
      and to the class of the replies it gets ([beside]).  [Programs]: equivalence of
      programs, and that runs and safety respect it.
    - [Store], Module [ledgerstore]: [internal/ledgerstore].
    - [Signer], Module [signer]: [internal/signer]; the interface is a record of
      operations with the class [SignerOk].
    - [Admission], Module [admission]: [internal/admission/service.go], with the
      retry loop.
    - [Identity], [Graph], [Projector]: [internal/graph/v1] ([identity.go];
      [edge.go] and [graph.go]; [projector.go]).  Edge objects live in a heap,
      since the indexes of the graph share them and revocation mutates them.
    - [Evaluator], [EvaluatorSpec], [EvaluatorProps]: [policy.go],
      [provenance.go] and [evaluator.go] of [internal/graph/v1]; the attestation
      paths as a relation ([attests]) and the proof that the search enumerates
      them; the properties of scores and provenance.
    - [HttpApi], [HttpProps]: [internal/httpapi]: the handlers of [server.go] as
      programs over the store and the admission service, and of [openapi.gen.go]
      the types, response writers, strict handlers and parameter wrappers; the
      requests as a concurrent system.  [Router], Module [router]: the rest of
      [openapi.gen.go] (options, middlewares, type assertions, the route table)
      and [NewHandler], over the router [chi] as a parameter ([ChiOk]) and the
      decoder of bodies as an interface ([Router.Json]).  [Bodies], Module
      [bodies]: the JSON names of the request types, and the instance of that
      interface.  [Payloads], Module [payloads]: what requests can store, from
      the text of a body to the projection of a ledger.
    - [Net]: what the sources use of [net], [net/http], [net/netip] and
      [net/url]: headers, case folding, IP addresses, request URIs.
    - [Proc]: functions of the process as trees of effects, their executions as
      traces, and the interpretation of one kind of effects by another.
    - [Config], Module [config]: [internal/config/config.go].
    - [Observability], [Logging], [Providers]: [internal/observability].
      [Observability] has the construction of telemetry, endpoints, trace contexts
      and the sanitized request of [runtime.go] and [trace.go]; [Logging] has
      [logging.go], [New], [WrapHTTP] and [Shutdown]; [Providers] has
      [shutdownProviders], with its goroutines and channel, as a step relation.
      OpenTelemetry and [otelhttp] are parameters ([OtelOk], [OtelhttpOk]).
      [Latency] has the exactness of the logged latency.
    - [App], Module [app]: [internal/app], the lifecycle of the process as a
      program over its effects.
    - [Fallback], [Main]: [cmd/chain-api/main.go].  [Fallback] has the filter of
      sync errors and the bounded message; [Main] has [run], the process from its
      environment to its exit code, with [Open] and [Close] of
      [internal/ledgerstore/store.go]; the handler of the HTTP server stands for
      the API server it is built from.
    - [Golden]: the published conformance vector, evaluated; [Vectors]: the script
      that writes the vectors to files.

    ** What the theorems show

    - Protocol: validation accepts exactly the deterministic encodings of
      well-formed events and records; constructors succeed exactly on valid
      inputs and what they build is read back; record digests bind records, and
      the head digest of a chain binds the whole chain, up to an explicit
      SHA-256 collision; the chain state machine accepts exactly the abstract
      chains; the sequence never wraps.
    - Endorsements: payloads round trip; verification succeeds exactly for
      signatures over the statements; what the subject signs binds the whole
      endorsement; the five digest domains never mix; the protocol completes for
      topics of valid UTF-8.
    - Store and admission: the outcome of an insert on every branch; scans and
      lookups; under any interleaving and failures every ledger in the database
      stays a chain the validators accept, direct admissions of the genesis kind
      excepted (a finding), returned records are durable, at most
      [maxRetries + 1] inserts are tried; without failures admission succeeds.
    - Graph: adding, revoking and querying implement the log of edges under
      aliasing; replay terminates and projects the chain for every batch size.
    - Evaluator: an evaluation terminates and finds exactly the attestation paths,
      each once; for policies without a NaN (which validation lets pass, a finding)
      scores and path weights are binary64 numbers of the unit interval; provenance is what lies on the paths; a revocation never raises a
      score and an endorsement never lowers one; which policies validate.
    - HTTP: under any interleaving of requests and failures the ledgers stay
      valid chains, an answer is tied to its request and to the tables it ran
      between, created records can be read; the statuses each operation can answer
      with; reads, endorsements and confidence requests end to end, with every
      field of a confidence determined by the request and the chain.  The routed
      handler is exactly these operations.  The requests that bodies decode to are
      exactly those of valid strings, 64-bit integers and finite [float32]; so
      everything stored over HTTP decodes again and verifies, and only a revocation
      the graph refuses stops the projection of a ledger.  The texts of internal
      errors that the handlers put into a 400 are not constrained.
    - Observability: what the request copy given to the instrumentation holds, the
      context aside; exporters are connected with TLS, or in plain text to a
      loopback address or a spelling of localhost, and are owned by the providers
      or closed; what serving a request logs, panics included, with a latency that
      is exact though computed in floating point; the instrumented handler gets
      the original request; shutting down the providers returns under every
      schedule.
    - Process: a loaded configuration satisfies everything the program relies on
      and errors hold no values; shutting down closes every resource once and in
      order, and reports every failure; however the process ends it releases what
      it holds, and it exits with 0 exactly when it served and reported nothing;
      sync errors are filtered exactly and the fallback message is cut between
      runes.

    ** Bounds

    Integers are [Z] with their ranges as hypotheses or by construction, and
    wrap-around written out ([u64_add], [int_add]).  Fuel bounds the replay loop
    (one iteration per stored record and one more suffice), the search for paths
    (recursion deeper than the number of identities is never needed) and, over
    HTTP, both (twice the number of records); that it suffices is part of the
    theorems.  The retry loop recurses on its attempts; the parsers recurse on
    the text or on its length, the JSON reader also on the nesting that
    [encoding/json] allows.

    ** Not modelled

    Libraries are parameters: CBOR, ECDSA, chi, the parameter binder,
    OpenTelemetry and zap; so are PostgreSQL beyond the one table, the network and
    the operating system.  A response holds the value that is encoded: the texts of
    the errors in it are not modelled, so neither is its own; nor is the text of
    log entries, nor that a response may not arrive.  The error types of
    [openapi.gen.go] that no client sees are left out.  The mutexes of the graph
    are not modelled: each of its methods is one atomic step.  Accessors are the
    projections of the records. *)

From stdpp Require Export base gmap sets list strings countable sorting.
From Stdlib Require Export ZArith Lia.
From Corelib Require Export Init.Byte.
From Stdlib Require Export Strings.Byte.

#[global] Open Scope Z_scope.
#[global] Set Default Goal Selector "!".

(** ** Results

    A Go function returning [(T, error)] is a function into [result E T]; the
    zero value that accompanies a non-nil error is dropped, no caller of the
    modelled code reads it. *)

Inductive result (E A : Type) : Type :=
  | Ok (a : A)
  | Err (e : E).
Arguments Ok {E A} _.
Arguments Err {E A} _.

Declare Scope go_scope.
Delimit Scope go_scope with go.
#[global] Open Scope go_scope.

Definition rbind {E A B} (m : result E A) (k : A -> result E B) : result E B :=
  match m with
  | Ok a => k a
  | Err e => Err e
  end.

Definition rmap_err {E F A} (f : E -> F) (m : result E A) : result F A :=
  match m with
  | Ok a => Ok a
  | Err e => Err (f e)
  end.

(** [x <~ m ;; k] is the Go idiom [x, err := m; if err != nil { return err }; k]. *)
Notation "x <~ m ;; k" := (rbind m (fun x => k))
  (at level 100, m at next level, right associativity) : go_scope.

Notation "' pat <~ m ;; k" := (rbind m (fun x => let ' pat := x in k))
  (at level 20, pat pattern, m at level 99, k at level 200, only parsing) : go_scope.

(** [require c else e ;; k] is the Go idiom [if !c { return e }; k]. *)
Definition check {E} (c : bool) (e : E) : result E unit :=
  if c then Ok tt else Err e.

Notation "'require' c 'else' e ;; k" := (rbind (check c e) (fun _ => k))
  (at level 100, c at next level, e at next level, right associativity) : go_scope.

Definition is_ok {E A} (m : result E A) : bool :=
  match m with Ok _ => true | Err _ => false end.

Lemma rbind_Ok {E A B} (m : result E A) (k : A -> result E B) b :
  rbind m k = Ok b <-> exists a, m = Ok a /\ k a = Ok b.
Proof.
  destruct m as [a|e]; simpl; split; eauto.
  - by intros (? & [= ->] & ?).
  - discriminate.
  - by intros (? & ? & ?).
Qed.

Lemma rmap_err_Ok {E F A} (f : E -> F) (m : result E A) a :
  rmap_err f m = Ok a <-> m = Ok a.
Proof. destruct m; simpl; split; congruence. Qed.

Lemma check_Ok {E} c (e : E) u : check c e = Ok u <-> c = true.
Proof. destruct c, u; simpl; split; congruence. Qed.

(** Peel a successful monadic computation into the successes of its steps. *)
Ltac inv_steps :=
  repeat match goal with
  | H : rbind _ _ = Ok _ |- _ =>
      let a := fresh "a" in let H1 := fresh "Hok" in
      apply rbind_Ok in H as (a & H1 & H)
  | H : check _ _ = Ok _ |- _ => apply check_Ok in H
  | H : rmap_err _ _ = Ok _ |- _ => apply rmap_err_Ok in H
  | H : Err _ = Ok _ |- _ => discriminate H
  | H : Ok _ = Err _ |- _ => discriminate H
  end.

(** The same, and case on the tests in between. *)
Ltac inv_ok :=
  repeat (inv_steps; match goal with
  | H : match ?x with _ => _ end = Ok _ |- _ =>
      let E := fresh "E" in destruct x eqn:E; try discriminate H
  end); inv_steps.

(** Turn boolean tests into propositions. *)
Ltac prep_bool :=
  repeat match goal with
  | H : negb _ = false |- _ => apply negb_false_iff in H
  | H : negb _ = true |- _ => apply negb_true_iff in H
  | H : bool_decide _ = true |- _ => apply bool_decide_eq_true in H
  | H : bool_decide _ = false |- _ => apply bool_decide_eq_false in H
  | H : _ || _ = false |- _ => apply orb_false_iff in H as [? ?]
  | H : _ && _ = true |- _ => apply andb_true_iff in H as [? ?]
  end.

(** ** Go errors

    An [error] value is a package-level sentinel, a message with the numbers
    formatted into it, a context around another error ([%w]), or an error of a
    library, told apart by its type and fields; [errors.Is] looks through the
    contexts.  A call may also panic. *)

Inductive goerror :=
  | Sentinel (name : string)
  | Errorf (format : string) (args : list Z)
  | Wrapped (context : string) (args : list Z) (cause : goerror)
  | Foreign (type : string) (fields : list string).

Inductive failure :=
  | Fail (err : goerror)
  | Panic (msg : string).

Abbreviation gores := (result failure).

#[global] Instance goerror_eq_dec : EqDecision goerror.
Proof. solve_decision. Defined.

Fixpoint errors_Is (err target : goerror) : bool :=
  bool_decide (err = target) ||
  match err with
  | Wrapped _ _ cause => errors_Is cause target
  | _ => false
  end.

Lemma errors_Is_refl err : errors_Is err err = true.
Proof. destruct err; cbn; by rewrite bool_decide_eq_true_2. Qed.

Lemma errors_Is_wrapped context args err target :
  errors_Is err target = true -> errors_Is (Wrapped context args err) target = true.
Proof. intros H. cbn. by rewrite H, orb_true_r. Qed.

(** [if err != nil { return fmt.Errorf("context: %w", err) }]: a panic is not
    an error and passes through. *)
Definition wrap (context : string) (f : failure) : failure :=
  match f with
  | Fail err => Fail (Wrapped context [] err)
  | Panic msg => Panic msg
  end.

(** The same with numbers formatted into the context. *)
Definition wrapf (context : string) (args : list Z) (f : failure) : failure :=
  match f with
  | Fail err => Fail (Wrapped context args err)
  | Panic msg => Panic msg
  end.

Definition fail {A} (err : goerror) : gores A := Err (Fail err).


(** ** Machine integers

    A [uint64] is a [Z] in range, with wrap-around written out where the code
    computes with it; an [int] is a 64-bit two's complement integer. *)

Definition two64 : Z := 18446744073709551616.
Definition two63 : Z := 9223372036854775808.
Definition MaxUint64 : Z := 18446744073709551615.
Definition is_u64 (z : Z) : Prop := 0 <= z < two64.
Definition u64 (z : Z) : Z := z mod two64.
Definition u64_add (a b : Z) : Z := u64 (a + b).

(** Numeric constants and ranges, unfolded before [lia]. *)
Create HintDb consts.
#[export] Hint Unfold two64 two63 MaxUint64 is_u64 : consts.

Ltac clia := autounfold with consts in *; lia.

#[global] Instance is_u64_dec z : Decision (is_u64 z).
Proof. unfold is_u64. apply _. Defined.

Lemma u64_range z : is_u64 (u64 z).
Proof. unfold is_u64, u64. apply Z.mod_pos_bound. reflexivity. Qed.

Lemma u64_small z : is_u64 z -> u64 z = z.
Proof. apply Z.mod_small. Qed.

Lemma u64_add_small a b : is_u64 a -> 0 <= b -> a + b < two64 -> u64_add a b = a + b.
Proof. intros [] ? ?. apply u64_small. unfold is_u64. lia. Qed.

(** Conversion of an unsigned 64-bit value to Go's [int]. *)
Definition int_of_u64 (z : Z) : Z :=
  if z <? two63 then z else z - two64.

(** ** Bytes *)

Abbreviation byte := Corelib.Init.Byte.byte.
Abbreviation bytes := (list byte).

#[global] Instance byte_eq_dec : EqDecision byte := Byte.byte_eq_dec.

#[global] Instance byte_countable : Countable byte :=
  inj_countable Byte.to_N Byte.of_N Byte.of_to_N.

#[global] Instance byte_inhabited : Inhabited byte := populate x00.

Definition byte_Z (b : byte) : Z := Z.of_N (Byte.to_N b).

Definition Z_byte (z : Z) : byte :=
  match Byte.of_N (Z.to_N (z mod 256)) with
  | Some b => b
  | None => x00
  end.

Lemma byte_Z_range b : 0 <= byte_Z b < 256.
Proof. unfold byte_Z. pose proof (Byte.to_N_bounded b). lia. Qed.

Lemma Z_byte_Z b : Z_byte (byte_Z b) = b.
Proof.
  unfold Z_byte. rewrite Z.mod_small by apply byte_Z_range.
  unfold byte_Z. by rewrite N2Z.id, Byte.of_to_N.
Qed.

Lemma byte_Z_byte z : 0 <= z < 256 -> byte_Z (Z_byte z) = z.
Proof.
  intros Hz. unfold Z_byte. rewrite Z.mod_small by lia.
  destruct (Byte.of_N (Z.to_N z)) as [b|] eqn:E.
  - unfold byte_Z. apply Byte.to_of_N in E. rewrite E. lia.
  - apply Byte.of_N_None_iff in E. lia.
Qed.

Lemma byte_Z_byte_mod z : byte_Z (Z_byte z) = z mod 256.
Proof.
  rewrite <- (byte_Z_byte (z mod 256)) by (apply Z.mod_pos_bound; lia).
  unfold Z_byte. by rewrite Zmod_mod.
Qed.

Lemma byte_Z_inj b c : byte_Z b = byte_Z c -> b = c.
Proof. intros H. by rewrite <- (Z_byte_Z b), <- (Z_byte_Z c), H. Qed.

(** Lengths are [Z] throughout: the protocol bounds are large. *)
Definition len {A} (l : list A) : Z := Z.of_nat (length l).

Lemma len_nonneg {A} (l : list A) : 0 <= len l.
Proof. unfold len. lia. Qed.

Lemma len_app {A} (l k : list A) : len (l ++ k) = len l + len k.
Proof. unfold len. rewrite length_app. lia. Qed.

Lemma len_cons {A} (x : A) l : len (x :: l) = 1 + len l.
Proof. unfold len. simpl. lia. Qed.

Lemma len_nil {A} : len (@nil A) = 0.
Proof. reflexivity. Qed.

Lemma len_zero {A} (l : list A) : len l = 0 <-> l = [].
Proof. unfold len. destruct l; simpl; split; intros; congruence || lia. Qed.

Lemma NoDup_map_inj {A B} (f : A -> B) l x y :
  NoDup (map f l) -> x ∈ l -> y ∈ l -> f x = f y -> x = y.
Proof.
  induction l as [|a l IH]; [by intros _ ?%not_elem_of_nil|]. cbn.
  intros [Ha Hl]%NoDup_cons [->|Hx]%elem_of_cons [->|Hy]%elem_of_cons Hf; [done|..|by apply IH];
    destruct Ha; [rewrite Hf|rewrite <- Hf]; by apply list_elem_of_fmap_2.
Qed.

Create Rewrite HintDb lens.
#[export] Hint Rewrite @len_app @len_cons @len_nil : lens.

(** ** Big-endian integers *)

Fixpoint be_bytes (n : nat) (z : Z) : bytes :=
  match n with
  | O => []
  | S m => Z_byte (z / 256 ^ Z.of_nat m) :: be_bytes m z
  end.

Definition be_step (acc : Z) (b : byte) : Z := acc * 256 + byte_Z b.
Definition be_Z (l : bytes) : Z := foldl be_step 0 l.

Lemma length_be_bytes n z : length (be_bytes n z) = n.
Proof. induction n; simpl; auto. Qed.

Lemma be_foldl_bytes n z acc :
  foldl be_step acc (be_bytes n z) = acc * 256 ^ Z.of_nat n + z mod 256 ^ Z.of_nat n.
Proof.
  revert acc. induction n as [|n IH]; intros acc.
  - simpl. rewrite Z.mod_1_r. lia.
  - cbn [be_bytes foldl]. rewrite IH. unfold be_step.
    rewrite byte_Z_byte_mod, Nat2Z.inj_succ, Z.pow_succ_r by lia.
    set (p := 256 ^ Z.of_nat n).
    assert (Hp : 0 < p) by (apply Z.pow_pos_nonneg; lia).
    rewrite (Z.mul_comm 256 p).
    rewrite (Z.rem_mul_r z p 256) by lia. lia.
Qed.

Lemma be_Z_bytes n z : be_Z (be_bytes n z) = z mod 256 ^ Z.of_nat n.
Proof. unfold be_Z. rewrite be_foldl_bytes. lia. Qed.

Lemma be_Z_bytes_small n z : 0 <= z < 256 ^ Z.of_nat n -> be_Z (be_bytes n z) = z.
Proof. intros. rewrite be_Z_bytes. by apply Z.mod_small. Qed.

Lemma be_foldl_range l acc :
  0 <= acc -> acc * 256 ^ len l <= foldl be_step acc l < (acc + 1) * 256 ^ len l.
Proof.
  revert acc. induction l as [|b l IH]; intros acc Hacc.
  - rewrite len_nil, Z.pow_0_r. cbn [foldl]. lia.
  - cbn [foldl]. pose proof (byte_Z_range b).
    assert (0 <= be_step acc b) as Hs by (unfold be_step; lia).
    specialize (IH _ Hs). unfold be_step in IH |- *.
    rewrite len_cons, Z.pow_add_r by (pose proof (len_nonneg l); lia).
    change (256 ^ 1) with 256.
    pose proof (Z.pow_pos_nonneg 256 (len l) ltac:(lia) (len_nonneg l)). nia.
Qed.

Lemma be_Z_range l : 0 <= be_Z l < 256 ^ len l.
Proof. pose proof (be_foldl_range l 0 ltac:(lia)). unfold be_Z. lia. Qed.

(** ** Fixed-size arrays

    [[n]byte] is a list with its length fixed by a boolean proof, so that two
    arrays are equal exactly when their contents are. *)

Record array (n : nat) : Type := MkArray {
  arr_list : bytes;
  arr_ok : Nat.eqb (length arr_list) n = true
}.
Arguments MkArray {n} _ _.
Arguments arr_list {n} _.
Arguments arr_ok {n} _.

Lemma array_eq {n} (a b : array n) : arr_list a = arr_list b -> a = b.
Proof.
  destruct a as [l Hl], b as [k Hk]. cbn. intros <-. f_equal. apply proof_irrel.
Qed.

Lemma length_arr {n} (a : array n) : length (arr_list a) = n.
Proof. apply Nat.eqb_eq, arr_ok. Qed.

Lemma len_arr {n} (a : array n) : len (arr_list a) = Z.of_nat n.
Proof. unfold len. by rewrite length_arr. Qed.

Lemma len_arr32 (a : array 32) : len (arr_list a) = 32.
Proof. by rewrite len_arr. Qed.

#[global] Instance array_eq_dec n : EqDecision (array n).
Proof.
  refine (fun a b => cast_if (decide (arr_list a = arr_list b))).
  - by apply array_eq.
  - by intros ->.
Defined.

(** Replace a proof of [b = true] by one that computes on closed terms. *)
Definition norm_true (b : bool) : b = true -> b = true :=
  match b with
  | true => fun _ => eq_refl
  | false => fun H => H
  end.

Definition array_of (n : nat) (l : bytes) : option (array n) :=
  match decide (Nat.eqb (length l) n = true) with
  | left H => Some (MkArray l (norm_true _ H))
  | right _ => None
  end.

Lemma array_of_Some {n} l (a : array n) : array_of n l = Some a <-> arr_list a = l.
Proof.
  unfold array_of. split.
  - case_decide; [|done]. by intros [= <-].
  - intros <-. case_decide as Hd; [f_equal; by apply array_eq|]. destruct Hd. apply arr_ok.
Qed.

#[global] Instance array_countable n : Countable (array n).
Proof.
  refine (inj_countable arr_list (array_of n) _).
  intros [l H]. unfold array_of. cbn. case_decide; [|done].
  f_equal. by apply array_eq.
Defined.

Lemma length_copy n (l : bytes) :
  Nat.eqb (length (take n (l ++ replicate n x00))) n = true.
Proof.
  apply Nat.eqb_eq. rewrite length_take, length_app, length_replicate. lia.
Qed.

(** [var a [n]byte; copy(a[:], l)]: at most [n] bytes are copied, the rest
    stays zero. *)
Definition copy_array (n : nat) (l : bytes) : array n :=
  MkArray (take n (l ++ replicate n x00)) (norm_true _ (length_copy n l)).

Definition zero_array (n : nat) : array n := copy_array n [].

#[global] Arguments copy_array _ _ : simpl never.
#[global] Arguments zero_array _ : simpl never.

Lemma copy_array_list n l : length l = n -> arr_list (copy_array n l) = l.
Proof. intros <-. unfold copy_array. cbn [arr_list]. by rewrite take_app_length. Qed.

Lemma copy_array_arr {n} (a : array n) : copy_array n (arr_list a) = a.
Proof. apply array_eq, copy_array_list, length_arr. Qed.

Lemma copy_array_inj n l k :
  length l = n -> length k = n -> copy_array n l = copy_array n k -> l = k.
Proof.
  intros Hl Hk H. apply (f_equal arr_list) in H.
  by rewrite !copy_array_list in H by done.
Qed.

(** ** Slices and strings

    A [[]byte] whose nil-ness the code observes (it is marshalled as null) is
    an [option]; a Go string is its bytes. *)

Abbreviation slice := (option (list byte)).

Definition slen (s : slice) : Z := match s with Some b => len b | None => 0 end.
Definition sbytes (s : slice) : bytes := match s with Some b => b | None => [] end.

Abbreviation gostring := (list byte).
Definition gostr (s : string) : gostring := String.list_byte_of_string s.

Lemma slen_sbytes s : slen s = len (sbytes s).
Proof. by destruct s. Qed.

(** A slice of a length between positive bounds is not nil. *)
Lemma slen_Some (s : slice) lo hi :
  1 <= lo -> lo <= slen s <= hi -> exists b, s = Some b /\ lo <= len b <= hi.
Proof. destruct s as [b|]; cbn; intros; [by exists b|lia]. Qed.

Lemma slen_Some_pos (s : slice) hi :
  1 <= slen s <= hi -> exists b, s = Some b /\ 1 <= len b <= hi.
Proof. by apply slen_Some. Qed.

(** ** UTF-8 validity, as [utf8.Valid] decides it *)

Definition in_range (lo hi : Z) (b : byte) : bool :=
  (lo <=? byte_Z b) && (byte_Z b <=? hi).

Fixpoint utf8_valid (l : bytes) : bool :=
  match l with
  | [] => true
  | b0 :: t0 =>
      if in_range 0 127 b0 then utf8_valid t0
      else match t0 with
      | [] => false
      | b1 :: t1 =>
          if in_range 194 223 b0 then in_range 128 191 b1 && utf8_valid t1
          else match t1 with
          | [] => false
          | b2 :: t2 =>
              let three lo hi :=
                in_range lo hi b1 && in_range 128 191 b2 && utf8_valid t2 in
              if in_range 224 224 b0 then three 160 191
              else if in_range 225 236 b0 then three 128 191
              else if in_range 237 237 b0 then three 128 159
              else if in_range 238 239 b0 then three 128 191
              else match t2 with
              | [] => false
              | b3 :: t3 =>
                  let four lo hi :=
                    in_range lo hi b1 && in_range 128 191 b2 &&
                    in_range 128 191 b3 && utf8_valid t3 in
                  if in_range 240 240 b0 then four 144 191
                  else if in_range 241 243 b0 then four 128 191
                  else if in_range 244 244 b0 then four 128 143
                  else false
              end
          end
      end
  end.

Lemma utf8_valid_ascii l : forallb (in_range 0 127) l = true -> utf8_valid l = true.
Proof.
  induction l as [|b l IH]; [done|]. cbn [forallb utf8_valid].
  intros [-> ?]%andb_prop. by apply IH.
Qed.
