(* ===== verification/Float.v ===== *)
(** * Binary floating point

    Go's [float64] and [float32] are the IEEE 754 binary64 and binary32 formats
    with rounding to nearest, ties to even: the executable operations of the
    Standard Library's [SpecFloat].  This file has the facts about rounding the
    scores need: rounding is monotone and never passes a representable number,
    so that products and complements of numbers of the unit interval stay in it,
    and are ordered as the exact results are. *)

From S2P Require Import Prelude.
From Stdlib Require Export Floats.SpecFloat.

(** ** Magnitudes

    The magnitude [m * 2 ^ e] as an integer, in units of [2 ^ b] for some
    [b <= e]. *)
Definition mag (b m e : Z) : Z := m * 2 ^ (e - b).

Definition mag_le (m1 e1 m2 e2 : Z) : Prop :=
  let b := Z.min e1 e2 in mag b m1 e1 <= mag b m2 e2.

Lemma pow2_pos n : 0 <= n -> 0 < 2 ^ n.
Proof. intros. apply Z.pow_pos_nonneg; lia. Qed.

Lemma pow2_split a b : 0 <= a -> 0 <= b -> 2 ^ (a + b) = 2 ^ a * 2 ^ b.
Proof. intros. apply Z.pow_add_r; lia. Qed.

Lemma mag_base b c m e : c <= b -> b <= e -> mag c m e = mag b m e * 2 ^ (b - c).
Proof.
  intros. unfold mag. rewrite <- Z.mul_assoc, <- pow2_split by lia. do 2 f_equal. lia.
Qed.

Lemma mag_le_base b m1 e1 m2 e2 :
  b <= e1 -> b <= e2 -> mag_le m1 e1 m2 e2 <-> mag b m1 e1 <= mag b m2 e2.
Proof.
  intros. unfold mag_le. set (c := Z.min e1 e2).
  rewrite (mag_base c b m1), (mag_base c b m2) by lia.
  pose proof (pow2_pos (c - b) ltac:(lia)). nia.
Qed.

Lemma mag_le_trans m1 e1 m2 e2 m3 e3 :
  mag_le m1 e1 m2 e2 -> mag_le m2 e2 m3 e3 -> mag_le m1 e1 m3 e3.
Proof.
  set (b := Z.min e1 (Z.min e2 e3)). rewrite !(mag_le_base b) by lia. lia.
Qed.

Lemma mag_le_refl m e : mag_le m e m e.
Proof. unfold mag_le. lia. Qed.

(** Shifting a mantissa. *)
Lemma mag_shift b m e f : b <= f -> f <= e -> mag b (m * 2 ^ (e - f)) f = mag b m e.
Proof.
  intros. unfold mag. rewrite <- Z.mul_assoc, <- pow2_split by lia. do 2 f_equal. lia.
Qed.

Lemma digits_bounds m :
  2 ^ (Zpos (digits2_pos m) - 1) <= Zpos m < 2 ^ Zpos (digits2_pos m).
Proof.
  induction m as [m IH|m IH|]; cbn [digits2_pos]; [| |done];
    rewrite Pos2Z.inj_succ;
    replace (Z.succ (Z.pos (digits2_pos m)) - 1) with (Z.succ (Z.pos (digits2_pos m) - 1)) by lia;
    rewrite !Z.pow_succ_r by lia; lia.
Qed.

Lemma pow2_lt_inv a b : 2 ^ a < 2 ^ b -> a < b.
Proof.
  intros H. destruct (Z.lt_ge_cases a b) as [|Hge]; [done|].
  pose proof (Z.pow_le_mono_r 2 b a ltac:(lia) Hge). lia.
Qed.

Lemma digits_unique m d : 2 ^ (d - 1) <= Zpos m < 2 ^ d -> Zpos (digits2_pos m) = d.
Proof.
  intros [H1 H2]. pose proof (digits_bounds m) as [H3 H4].
  assert (2 ^ (d - 1) < 2 ^ Zpos (digits2_pos m)) as Ha by lia.
  assert (2 ^ (Zpos (digits2_pos m) - 1) < 2 ^ d) as Hb by lia.
  apply pow2_lt_inv in Ha, Hb. lia.
Qed.

(** ** Shifting right *)

Lemma shr_1_step m r s :
  0 <= m ->
  shr_1 (Build_shr_record m r s) = Build_shr_record (m / 2) (Z.odd m) (r || s).
Proof.
  intros Hm. destruct m as [|[p|p|]|p]; try lia; cbn [shr_1 Z.odd]; try done.
  - by rewrite Pos2Z.inj_xI, Z.mul_comm, Z.div_add_l by lia.
  - by rewrite Pos2Z.inj_xO, Z.mul_comm, Z.div_mul by lia.
Qed.

(** The remainder of a division by [2 ^ k] as a rounding location. *)
Definition loc_of_rem (r k : Z) : location :=
  if r =? 0 then loc_Exact else loc_Inexact (Z.compare (2 * r) (2 ^ k)).

(** The state of the loop after [k] shifts of [m]. *)
Definition shr_state (m k : Z) (mrs : shr_record) : Prop :=
  let r := m mod 2 ^ k in
  mrs = Build_shr_record (m / 2 ^ k) (2 ^ k <=? 2 * r)
          (negb (r =? 0) && negb (2 * r =? 2 ^ k)).

Lemma shr_state_step m k mrs :
  0 <= m -> 0 <= k -> shr_state m k mrs -> shr_state m (k + 1) (shr_1 mrs).
Proof.
  intros Hm Hk ->. pose proof (pow2_pos k Hk) as Hp.
  rewrite shr_1_step by (apply Z.div_pos; lia). unfold shr_state.
  replace (2 ^ (k + 1)) with (2 ^ k * 2) by (rewrite pow2_split; lia).
  rewrite <- Z.div_div by lia. rewrite (Z.rem_mul_r m (2 ^ k) 2) by lia.
  set (q := m / 2 ^ k). set (r := m mod 2 ^ k).
  assert (0 <= r < 2 ^ k) as Hr by (apply Z.mod_pos_bound; lia).
  rewrite (Zmod_odd q). f_equal; destruct (Z.odd q); lia.
Qed.

Lemma iter_pos_invariant {A} (f : A -> A) (Inv : Z -> A -> Prop) :
  (forall k x, 0 <= k -> Inv k x -> Inv (k + 1) (f x)) ->
  forall p k x, 0 <= k -> Inv k x -> Inv (k + Zpos p) (iter_pos f p x).
Proof.
  intros Hf p. induction p as [p IH|p IH|]; intros k x Hk Hx; cbn [iter_pos].
  - replace (k + Z.pos p~1) with (k + 1 + Zpos p + Zpos p) by lia.
    apply IH; [lia|]. apply IH; [lia|]. by apply Hf.
  - replace (k + Z.pos p~0) with (k + Zpos p + Zpos p) by lia.
    apply IH; [lia|]. by apply IH.
  - by apply Hf.
Qed.

Lemma shr_spec m e n :
  0 <= m -> 0 <= n ->
  exists mrs, shr (Build_shr_record m false false) e n = (mrs, e + n) /\
    shr_m mrs = m / 2 ^ n /\ loc_of_shr_record mrs = loc_of_rem (m mod 2 ^ n) n.
Proof.
  intros Hm Hn. assert (Hloc : forall mrs, shr_state m n mrs ->
    shr_m mrs = m / 2 ^ n /\ loc_of_shr_record mrs = loc_of_rem (m mod 2 ^ n) n).
  { intros mrs ->. split; [done|]. unfold loc_of_rem. cbn [loc_of_shr_record].
    pose proof (Z.mod_pos_bound m (2 ^ n) (pow2_pos n Hn)).
    destruct (Z.compare_spec (2 * (m mod 2 ^ n)) (2 ^ n)); destruct (Z.eqb_spec (m mod 2 ^ n) 0);
      destruct (Z.leb_spec (2 ^ n) (2 * (m mod 2 ^ n)));
      destruct (Z.eqb_spec (2 * (m mod 2 ^ n)) (2 ^ n)); try lia; done. }
  assert (H0 : shr_state m 0 (Build_shr_record m false false)).
  { unfold shr_state. by rewrite Z.mod_1_r, Z.div_1_r. }
  destruct n as [|p|p]; [| |lia]; cbn [shr]; eexists; (split; [|apply Hloc]).
  - by rewrite Z.add_0_r.
  - done.
  - done.
  - apply (iter_pos_invariant shr_1 (shr_state m)) with (k := 0); [|done..].
    intros. by apply shr_state_step.
Qed.

(** ** Rounding to an exponent *)

(** The integer nearest to [m / 2 ^ k], ties to even. *)
Definition round_at (m k : Z) : Z :=
  round_nearest_even (m / 2 ^ k) (loc_of_rem (m mod 2 ^ k) k).

(** It is the one or the other neighbour, as twice the remainder says. *)
Lemma round_at_cases m k :
  0 <= m -> 0 <= k ->
  let q := m / 2 ^ k in let r := m mod 2 ^ k in
  (round_at m k = q /\ 2 * r <= 2 ^ k /\ (2 * r = 2 ^ k -> Z.even q = true)) \/
  (round_at m k = q + 1 /\ 0 < r /\ 2 ^ k <= 2 * r /\ (2 * r = 2 ^ k -> Z.even q = false)).
Proof.
  intros Hm Hk q r. unfold round_at, loc_of_rem. fold q r.
  pose proof (Z.mod_pos_bound m (2 ^ k) (pow2_pos k Hk)) as Hr. fold r in Hr.
  destruct (Z.eqb_spec r 0); cbn [round_nearest_even]; [left; lia|].
  destruct (Z.compare_spec (2 * r) (2 ^ k)); [destruct (Z.even q) eqn:E|..];
    cbn; (left + right); split_and!; lia || done.
Qed.

Lemma div_mod_pow2 m k : 0 <= k -> m = 2 ^ k * (m / 2 ^ k) + m mod 2 ^ k /\ 0 <= m mod 2 ^ k < 2 ^ k.
Proof.
  intros Hk. pose proof (pow2_pos k Hk). split; [apply Z.div_mod; lia|by apply Z.mod_pos_bound].
Qed.

Lemma round_at_mono m1 m2 k : 0 <= m1 <= m2 -> 0 <= k -> round_at m1 k <= round_at m2 k.
Proof.
  intros Hm Hk. pose proof (pow2_pos k Hk).
  pose proof (div_mod_pow2 m1 k Hk) as [E1 R1]. pose proof (div_mod_pow2 m2 k Hk) as [E2 R2].
  assert (m1 / 2 ^ k <= m2 / 2 ^ k) as Hq by (apply Z.div_le_mono; lia).
  pose proof (round_at_cases m1 k ltac:(lia) Hk) as C1.
  pose proof (round_at_cases m2 k ltac:(lia) Hk) as C2. cbn zeta in C1, C2.
  destruct (Z.eq_dec (m1 / 2 ^ k) (m2 / 2 ^ k)) as [Heq|Hne]; [|lia].
  rewrite Heq in *. destruct C1 as [C1|C1], C2 as [C2|C2]; try lia.
  assert (2 * (m1 mod 2 ^ k) = 2 ^ k) by lia. assert (2 * (m2 mod 2 ^ k) = 2 ^ k) by lia.
  intuition congruence.
Qed.

(** An integer is rounded to itself, so rounding never passes one. *)
Lemma round_at_exact n k : 0 <= k -> round_at (n * 2 ^ k) k = n.
Proof.
  intros Hk. pose proof (pow2_pos k Hk). unfold round_at.
  by rewrite Z.div_mul, Z.mod_mul by lia.
Qed.

Lemma round_at_le m n k : 0 <= m <= n * 2 ^ k -> 0 <= k -> round_at m k <= n.
Proof. intros. rewrite <- (round_at_exact n k) by done. by apply round_at_mono. Qed.

Lemma round_at_ge m n k : 0 <= n -> n * 2 ^ k <= m -> 0 <= k -> n <= round_at m k.
Proof.
  intros. pose proof (pow2_pos k ltac:(lia)). rewrite <- (round_at_exact n k) at 1 by done.
  apply round_at_mono; [nia|done].
Qed.

Lemma round_at_scale m k j : 0 <= k -> 0 <= j -> round_at (m * 2 ^ j) (k + j) = round_at m k.
Proof.
  intros Hk Hj. unfold round_at, loc_of_rem.
  pose proof (pow2_pos k Hk). pose proof (pow2_pos j Hj).
  rewrite pow2_split by lia. rewrite Z.div_mul_cancel_r, Z.mul_mod_distr_r by lia.
  replace (m mod 2 ^ k * 2 ^ j =? 0) with (m mod 2 ^ k =? 0) by nia.
  replace (2 * (m mod 2 ^ k * 2 ^ j) ?= 2 ^ k * 2 ^ j) with (2 * (m mod 2 ^ k) ?= 2 ^ k); [done|].
  rewrite Z.mul_assoc. apply Zmult_compare_compat_r. lia.
Qed.

(** ** A format *)

Section Format.
Context (prec emax : Z) (Hprec : 1 < prec) (Hemax : prec < emax).
Local Abbreviation fexp := (fexp prec emax).
Local Abbreviation emin := (emin prec emax).

(** The exponent the format gives a magnitude. *)
Definition exponent (m : positive) (e : Z) : Z := fexp (Zpos (digits2_pos m) + e).

Definition canonical (m : positive) (e : Z) : Prop := exponent m e = e.

Lemma fexp_mono a b : a <= b -> fexp a <= fexp b.
Proof. unfold SpecFloat.fexp. lia. Qed.

Lemma exponent_bounds m e :
  emin <= exponent m e /\ Zpos (digits2_pos m) + e - prec <= exponent m e /\
  (exponent m e = emin \/ exponent m e = Zpos (digits2_pos m) + e - prec).
Proof. unfold exponent, SpecFloat.fexp. lia. Qed.

Lemma mag_digits b m e :
  b <= e ->
  2 ^ (Zpos (digits2_pos m) - 1 + e - b) <= mag b (Zpos m) e < 2 ^ (Zpos (digits2_pos m) + e - b).
Proof.
  intros Hb. unfold mag. pose proof (digits_bounds m). pose proof (pow2_pos (e - b) ltac:(lia)).
  replace (Zpos (digits2_pos m) - 1 + e - b) with (Zpos (digits2_pos m) - 1 + (e - b)) by lia.
  replace (Zpos (digits2_pos m) + e - b) with (Zpos (digits2_pos m) + (e - b)) by lia.
  rewrite !pow2_split by lia. nia.
Qed.

Lemma mag_le_digits m1 e1 m2 e2 :
  mag_le (Zpos m1) e1 (Zpos m2) e2 ->
  Zpos (digits2_pos m1) + e1 <= Zpos (digits2_pos m2) + e2.
Proof.
  set (b := Z.min e1 e2). rewrite (mag_le_base b) by lia. intros H.
  pose proof (mag_digits b m1 e1 ltac:(lia)). pose proof (mag_digits b m2 e2 ltac:(lia)).
  assert (2 ^ (Zpos (digits2_pos m1) - 1 + e1 - b) < 2 ^ (Zpos (digits2_pos m2) + e2 - b)) as Hlt
    by lia.
  apply pow2_lt_inv in Hlt. lia.
Qed.

(** *** Canonical magnitudes are ordered by exponent, then mantissa *)

Lemma canonical_mantissa_lt m e : canonical m e -> Zpos m < 2 ^ prec.
Proof.
  intros Hc. pose proof (exponent_bounds m e). unfold canonical in Hc.
  pose proof (digits_bounds m).
  assert (2 ^ Zpos (digits2_pos m) <= 2 ^ prec) by (apply Z.pow_le_mono_r; lia). lia.
Qed.

Lemma canonical_normal m e : canonical m e -> emin < e -> 2 ^ (prec - 1) <= Zpos m.
Proof.
  intros Hc He. pose proof (exponent_bounds m e). unfold canonical in Hc.
  replace (prec - 1) with (Zpos (digits2_pos m) - 1) by lia. apply digits_bounds.
Qed.

Lemma canonical_lt b m1 e1 m2 e2 :
  canonical m1 e1 -> canonical m2 e2 -> b <= e1 -> e1 < e2 ->
  mag b (Zpos m1) e1 < mag b (Zpos m2) e2.
Proof.
  intros H1 H2 Hb He. pose proof (canonical_mantissa_lt m1 e1 H1) as Hm1.
  assert (emin <= e1) as Hmin by (pose proof (exponent_bounds m1 e1); unfold canonical in H1; lia).
  pose proof (canonical_normal m2 e2 H2 ltac:(lia)) as Hm2. unfold mag.
  replace (e2 - b) with (e1 - b + 1 + (e2 - e1 - 1)) by lia. rewrite !pow2_split by lia.
  change (2 ^ 1) with 2. pose proof (pow2_pos (e1 - b) ltac:(lia)).
  pose proof (pow2_pos (e2 - e1 - 1) ltac:(lia)).
  assert (2 ^ prec = 2 ^ (prec - 1) * 2) as Hp.
  { replace prec with (prec - 1 + 1) at 1 by lia. rewrite pow2_split by lia. done. }
  apply Z.lt_le_trans with (2 ^ prec * 2 ^ (e1 - b)); [nia|].
  apply Z.le_trans with (Z.pos m2 * (2 ^ (e1 - b) * 2)); [nia|].
  rewrite (Z.mul_assoc (Z.pos m2) (2 ^ (e1 - b) * 2)). apply Z.le_mul_diag_r; nia.
Qed.

Lemma canonical_le m1 e1 m2 e2 :
  canonical m1 e1 -> canonical m2 e2 ->
  mag_le (Zpos m1) e1 (Zpos m2) e2 <->
    SFleb (S754_finite false m1 e1) (S754_finite false m2 e2) = true.
Proof.
  intros H1 H2. unfold SFleb, SFcompare. rewrite (mag_le_base (Z.min e1 e2)) by lia.
  destruct (Z.compare_spec e1 e2) as [->|Hlt|Hlt].
  - rewrite Z.min_id. unfold mag. rewrite Z.sub_diag, !Z.mul_1_r.
    change (Pos.compare_cont Eq m1 m2) with (Pos.compare m1 m2).
    destruct (Pos.compare_spec m1 m2); split; intros; subst; lia || done.
  - pose proof (canonical_lt (Z.min e1 e2) m1 e1 m2 e2 H1 H2 ltac:(lia) Hlt). split; [done|lia].
  - pose proof (canonical_lt (Z.min e1 e2) m2 e2 m1 e1 H2 H1 ltac:(lia) Hlt).
    split; [lia|done].
Qed.

(** *** Rounding in the format *)

(** The mantissa and exponent a magnitude is rounded to, before a carry out of
    the mantissa is renormalized. *)
Definition rounded (m : positive) (e : Z) : Z := round_at (Zpos m) (exponent m e - e).

(** [r] is the nonnegative float of magnitude [n * 2 ^ f], or infinity when
    that is out of range. *)
Definition stands_for (n f : Z) (s : bool) (r : spec_float) : Prop :=
  (n = 0 /\ r = S754_zero s) \/
  (exists m e, canonical m e /\ f <= e /\ n = Zpos m * 2 ^ (e - f) /\
     r = if e <=? emax - prec then S754_finite s m e else S754_infinity s).

Lemma rounded_bounds m e :
  e <= exponent m e ->
  0 <= rounded m e <= 2 ^ prec /\
  (emin < exponent m e -> 2 ^ (prec - 1) <= rounded m e).
Proof.
  intros He. unfold rounded. set (k := exponent m e - e).
  pose proof (exponent_bounds m e) as (Hmin & Hd & Hc). pose proof (digits_bounds m) as Hm.
  split; [split|].
  - apply round_at_ge; lia.
  - apply round_at_le; [|lia]. rewrite <- pow2_split by lia.
    assert (2 ^ Zpos (digits2_pos m) <= 2 ^ (prec + k)) by (apply Z.pow_le_mono_r; lia). lia.
  - intros Hn. apply round_at_ge; [apply Z.pow_nonneg; lia| |lia]. rewrite <- pow2_split by lia.
    replace (prec - 1 + k) with (Zpos (digits2_pos m) - 1) by lia. lia.
Qed.

Lemma shr_fexp_spec m e :
  0 <= m -> 0 <= fexp (Zdigits2 m + e) - e ->
  exists mrs, shr_fexp prec emax m e loc_Exact = (mrs, fexp (Zdigits2 m + e)) /\
    round_nearest_even (shr_m mrs) (loc_of_shr_record mrs) = round_at m (fexp (Zdigits2 m + e) - e) /\
    shr_m mrs = m / 2 ^ (fexp (Zdigits2 m + e) - e).
Proof.
  intros Hm Hk. unfold shr_fexp. cbn [shr_record_of_loc].
  destruct (shr_spec m e _ Hm Hk) as (mrs & -> & Hq & Hl). exists mrs.
  split; [f_equal; lia|]. unfold round_at. by rewrite Hq, Hl.
Qed.

(** A mantissa of at most [prec] digits is canonical; the carry [2 ^ prec] has
    one digit too many. *)
Lemma carry_exponent m f :
  Zpos m = 2 ^ prec -> emin <= f -> exponent m f = f + 1.
Proof.
  intros Hm Hf. unfold exponent. rewrite (digits_unique m (prec + 1)).
  - unfold SpecFloat.fexp. lia.
  - rewrite Hm. replace (prec + 1 - 1) with prec by lia. rewrite pow2_split by lia. lia.
Qed.

Lemma no_carry_canonical m f :
  Zpos m < 2 ^ prec -> emin <= f -> (emin < f -> 2 ^ (prec - 1) <= Zpos m) -> canonical m f.
Proof.
  intros Hm Hf Hnormal. unfold canonical, exponent, SpecFloat.fexp.
  pose proof (digits_bounds m) as Hd. destruct (Z.eq_dec f emin) as [->|].
  - assert (2 ^ (Zpos (digits2_pos m) - 1) < 2 ^ prec) as Hlt by lia.
    apply pow2_lt_inv in Hlt. lia.
  - rewrite (digits_unique m prec); [lia|]. split; [apply Hnormal; lia|lia].
Qed.

Lemma renormalize s n f :
  0 <= n <= 2 ^ prec -> emin <= f -> (emin < f -> 2 ^ (prec - 1) <= n) ->
  stands_for n f s
    (let '(mrs, e) := shr_fexp prec emax n f loc_Exact in
     match shr_m mrs with
     | Z0 => S754_zero s
     | Zpos m => if e <=? emax - prec then S754_finite s m e else S754_infinity s
     | _ => S754_nan
     end).
Proof.
  intros Hn Hf Hnormal. destruct n as [|m|]; [| |lia].
  { assert (0 <= fexp (Zdigits2 0 + f) - f) by (cbn [Zdigits2]; unfold SpecFloat.fexp; lia).
    destruct (shr_fexp_spec 0 f) as (mrs & -> & _ & ->); [lia..|].
    rewrite Z.div_0_l by (apply Z.pow_nonzero; lia). by left. }
  assert (Hk : f <= exponent m f).
  { destruct (Z.eq_dec (Zpos m) (2 ^ prec)).
    - rewrite carry_exponent; lia.
    - rewrite no_carry_canonical; lia. }
  destruct (shr_fexp_spec (Zpos m) f) as (mrs & -> & _ & ->); [lia|cbn; fold (exponent m f); lia|].
  cbn [Zdigits2]. fold (exponent m f). right. destruct (Z.eq_dec (Zpos m) (2 ^ prec)) as [Heq|].
  - rewrite carry_exponent by lia. replace (f + 1 - f) with 1 by lia.
    assert (Zpos m = 2 ^ (prec - 1) * 2) as Hm.
    { rewrite Heq. replace prec with (prec - 1 + 1) at 1 by lia. by rewrite pow2_split by lia. }
    change (2 ^ 1) with 2. rewrite Hm, Z.div_mul by lia.
    pose proof (pow2_pos (prec - 1) ltac:(lia)) as Hpos.
    destruct (2 ^ (prec - 1)) as [|m'|] eqn:E; [lia| |lia]. exists m', (f + 1).
    replace (f + 1 - f) with 1 by lia. split_and!; [|lia|done..].
    apply no_carry_canonical; lia.
  - assert (canonical m f) as Hc by (apply no_carry_canonical; lia).
    rewrite Hc, Z.sub_diag, Z.div_1_r. exists m, f.
    rewrite Z.sub_diag, Z.mul_1_r. by split_and!.
Qed.

Lemma round_aux_spec s m e :
  e <= exponent m e ->
  stands_for (rounded m e) (exponent m e) s (binary_round_aux prec emax s (Zpos m) e loc_Exact).
Proof.
  intros He. unfold binary_round_aux.
  destruct (shr_fexp_spec (Zpos m) e) as (mrs & -> & Hr & _); [lia|cbn; fold (exponent m e); lia|].
  cbn [Zdigits2] in *. fold (exponent m e) in *. rewrite Hr. fold (rounded m e).
  destruct (rounded_bounds m e He) as [Hb Hn].
  apply renormalize; [done|apply exponent_bounds|done].
Qed.

(** *** Rounding is monotone *)

Lemma rounded_at b m e f :
  b <= e -> e <= f -> f = exponent m e -> rounded m e = round_at (mag b (Zpos m) e) (f - b).
Proof.
  intros Hb He ->. unfold rounded, mag.
  rewrite <- (round_at_scale (Zpos m) (exponent m e - e) (e - b)) by lia. f_equal. lia.
Qed.

Lemma rounded_mono m1 e1 m2 e2 :
  e1 <= exponent m1 e1 -> e2 <= exponent m2 e2 ->
  mag_le (Zpos m1) e1 (Zpos m2) e2 ->
  mag_le (rounded m1 e1) (exponent m1 e1) (rounded m2 e2) (exponent m2 e2).
Proof.
  intros He1 He2 Hle. pose proof (mag_le_digits _ _ _ _ Hle) as Hd.
  set (b := Z.min e1 e2). rewrite (mag_le_base b) in Hle by lia.
  pose proof (exponent_bounds m1 e1) as (Hm1 & Hd1 & Hx1).
  pose proof (exponent_bounds m2 e2) as (Hm2 & Hd2 & Hx2).
  set (f1 := exponent m1 e1) in *. set (f2 := exponent m2 e2) in *.
  assert (f1 <= f2) as Hf by (apply fexp_mono; lia).
  pose proof (mag_digits b m1 e1 ltac:(lia)) as Hmag.
  rewrite (mag_le_base b) by lia. destruct (Z.eq_dec f1 f2) as [Heq|Hne].
  - rewrite (rounded_at b m1 e1 f1), (rounded_at b m2 e2 f2) by (lia || done).
    rewrite Heq. unfold mag at 1 3. apply Z.mul_le_mono_nonneg_r; [apply Z.pow_nonneg; lia|].
    apply round_at_mono; [|lia]. unfold mag in *. split; [|lia].
    pose proof (pow2_pos (e1 - b) ltac:(lia)). lia.
  - set (T := Z.max (Zpos (digits2_pos m1) + e1) f1).
    assert (rounded m1 e1 <= 2 ^ (T - f1)) as Hup.
    { rewrite (rounded_at b m1 e1 f1) by (lia || done). apply round_at_le; [|lia].
      rewrite <- pow2_split by lia.
      assert (2 ^ (Zpos (digits2_pos m1) + e1 - b) <= 2 ^ (T - f1 + (f1 - b)))
        by (apply Z.pow_le_mono_r; lia).
      pose proof (pow2_pos (Zpos (digits2_pos m1) - 1 + e1 - b)).
      pose proof (pow2_pos (e1 - b) ltac:(lia)). unfold mag in *. lia. }
    destruct (rounded_bounds m2 e2 He2) as [_ Hlow]. specialize (Hlow ltac:(fold f2; lia)).
    unfold mag. pose proof (pow2_pos (f1 - b) ltac:(lia)). pose proof (pow2_pos (f2 - b) ltac:(lia)).
    apply Z.le_trans with (2 ^ (T - f1) * 2 ^ (f1 - b)); [nia|].
    apply Z.le_trans with (2 ^ (prec - 1) * 2 ^ (f2 - b)); [|nia].
    rewrite <- !pow2_split by lia. apply Z.pow_le_mono_r; lia.
Qed.

Lemma stands_for_le n1 f1 s1 r1 n2 f2 s2 r2 :
  stands_for n1 f1 s1 r1 -> stands_for n2 f2 s2 r2 ->
  (n1 = 0 \/ s1 = false) -> (n2 = 0 \/ s2 = false) ->
  mag_le n1 f1 n2 f2 -> SFleb r1 r2 = true.
Proof.
  intros H1 H2 Hs1 Hs2 Hle.
  assert (Hpos : forall m k, 0 <= k -> Zpos m * 2 ^ k <> 0).
  { intros m k Hk. pose proof (pow2_pos k Hk). lia. }
  destruct H1 as [[-> ->]|(m1 & e1 & Hc1 & Hf1 & -> & ->)].
  { destruct H2 as [[-> ->]|(m2 & e2 & Hc2 & Hf2 & -> & ->)]; [done|].
    destruct Hs2 as [Hs2 | ->]; [by apply Hpos in Hs2; lia|].
    by destruct (e2 <=? emax - prec). }
  destruct Hs1 as [Hs1 | ->]; [by apply Hpos in Hs1; lia|].
  set (b := Z.min f1 f2). rewrite (mag_le_base b) in Hle by lia.
  rewrite mag_shift in Hle by lia.
  destruct H2 as [[-> ->]|(m2 & e2 & Hc2 & Hf2 & -> & ->)].
  { unfold mag in Hle. pose proof (pow2_pos (e1 - b) ltac:(lia)). lia. }
  destruct Hs2 as [Hs2 | ->]; [by apply Hpos in Hs2; lia|]. rewrite mag_shift in Hle by lia. rewrite <- mag_le_base in Hle by lia.
  apply canonical_le in Hle; [|done..]. revert Hle. unfold SFleb, SFcompare.
  destruct (Z.leb_spec e1 (emax - prec)); destruct (Z.leb_spec e2 (emax - prec)); [done|done| |done].
  destruct (Z.compare_spec e1 e2); [lia..|done].
Qed.

(** *** Exact values and what they are rounded to *)

(** A finite nonnegative float with its magnitude. *)
Definition magnitude (x : spec_float) (n f : Z) : Prop :=
  (exists s, x = S754_zero s /\ n = 0 /\ f = emin) \/
  (exists m, x = S754_finite false m f /\ n = Zpos m /\ canonical m f /\ f <= emax - prec).

(** The exact value [n * 2 ^ e], with enough digits to be rounded, and a
    correctly rounded result [r] for it. *)
Definition fits (n e : Z) : Prop :=
  match n with Z0 => True | Zpos m => e <= exponent m e | Zneg _ => False end.

Definition rnd (n e : Z) : Z * Z :=
  match n with Zpos m => (rounded m e, exponent m e) | _ => (0, emin) end.

Definition rounds_from (n e : Z) (r : spec_float) : Prop :=
  exists s, stands_for (rnd n e).1 (rnd n e).2 s r /\ (n = 0 \/ s = false).

Lemma round_aux_rounds m e :
  e <= exponent m e -> rounds_from (Zpos m) e (binary_round_aux prec emax false (Zpos m) e loc_Exact).
Proof. intros He. exists false. split; [by apply round_aux_spec|by right]. Qed.

Lemma zero_rounds e s : rounds_from 0 e (S754_zero s).
Proof. exists s. split; [by left|by left]. Qed.

Lemma magnitude_rounds x n f : magnitude x n f -> fits n f /\ rounds_from n f x.
Proof.
  intros [(s & -> & -> & ->)|(m & -> & -> & Hc & Hf)].
  - split; [done|apply zero_rounds].
  - split; [cbn; rewrite Hc; lia|]. exists false. split; [|by right]. right. exists m, f.
    cbn. rewrite Hc. unfold rounded. rewrite Hc, Z.sub_diag, Z.mul_1_r. split_and!; [done|lia| |].
    + pose proof (round_at_exact (Zpos m) 0 ltac:(lia)) as Hx. by rewrite Z.pow_0_r, Z.mul_1_r in Hx.
    + destruct (Z.leb_spec f (emax - prec)); [done|lia].
Qed.

Lemma rnd_mono n1 e1 n2 e2 :
  fits n1 e1 -> fits n2 e2 -> mag_le n1 e1 n2 e2 ->
  mag_le (rnd n1 e1).1 (rnd n1 e1).2 (rnd n2 e2).1 (rnd n2 e2).2.
Proof.
  intros H1 H2 Hle. destruct n1 as [|m1|]; [| |done]; (destruct n2 as [|m2|]; [| |done]); cbn.
  - apply mag_le_refl.
  - rewrite (mag_le_base (Z.min emin (exponent m2 e2))) by lia. unfold mag.
    pose proof (rounded_bounds m2 e2 H2) as [[Hr _] _].
    pose proof (pow2_pos (exponent m2 e2 - Z.min emin (exponent m2 e2)) ltac:(lia)). lia.
  - rewrite (mag_le_base (Z.min e1 e2)) in Hle by lia. unfold mag in Hle.
    pose proof (pow2_pos (e1 - Z.min e1 e2) ltac:(lia)). lia.
  - by apply rounded_mono.
Qed.

(** Correctly rounded results are ordered as the exact values. *)
Lemma rounds_le n1 e1 r1 n2 e2 r2 :
  fits n1 e1 -> fits n2 e2 -> rounds_from n1 e1 r1 -> rounds_from n2 e2 r2 ->
  mag_le n1 e1 n2 e2 -> SFleb r1 r2 = true.
Proof.
  intros F1 F2 (s1 & S1 & Z1) (s2 & S2 & Z2) Hle.
  eapply stands_for_le; [exact S1|exact S2|..].
  - destruct Z1 as [-> |]; [by left|by right].
  - destruct Z2 as [-> |]; [by left|by right].
  - by apply rnd_mono.
Qed.

Lemma magnitude_le x n1 f1 y n2 f2 :
  magnitude x n1 f1 -> magnitude y n2 f2 -> SFleb x y = true <-> mag_le n1 f1 n2 f2.
Proof.
  intros Hx Hy. split.
  - intros Hle. destruct Hx as [(s & -> & -> & ->)|(m1 & -> & -> & Hc1 & Hf1)],
      Hy as [(s' & -> & -> & ->)|(m2 & -> & -> & Hc2 & Hf2)].
    + apply mag_le_refl.
    + unfold mag_le, mag. pose proof (pow2_pos (f2 - Z.min emin f2) ltac:(lia)). lia.
    + done.
    + by apply canonical_le.
  - destruct (magnitude_rounds _ _ _ Hx), (magnitude_rounds _ _ _ Hy). by apply rounds_le.
Qed.

(** Rounding never passes a float. *)
Lemma rounds_below n e r x nx fx :
  fits n e -> rounds_from n e r -> magnitude x nx fx -> mag_le n e nx fx ->
  SFleb r x = true /\ exists n' f', magnitude r n' f' /\ mag_le n' f' nx fx.
Proof.
  intros F R Hx Hle. destruct (magnitude_rounds _ _ _ Hx) as [Fx Rx].
  assert (SFleb r x = true) as Hr by (by apply (rounds_le n e r nx fx x)). split; [done|].
  assert (exists n' f', magnitude r n' f') as (n' & f' & Hm).
  { destruct R as (s & [[_ ->]|(m & f & Hc & _ & Hn & ->)] & Hs).
    - exists 0, emin. left. by exists s.
    - destruct Hs as [-> | ->].
      { cbn in Hn. destruct (Z.le_gt_cases emin f).
        - pose proof (pow2_pos (f - emin) ltac:(lia)). lia.
        - pose proof (exponent_bounds m f). unfold canonical in Hc. lia. }
      revert Hr. destruct (Z.leb_spec f (emax - prec)); intros Hr.
      + exists (Zpos m), f. right. by exists m.
      + destruct Hx as [(s & -> & _)|(m' & -> & _)]; discriminate Hr. }
  exists n', f'. split; [done|]. by apply (magnitude_le r _ _ x).
Qed.

(** *** The unit interval *)

Definition unit_float (x : spec_float) : Prop :=
  exists n f, magnitude x n f /\ mag_le n f 1 0.

Lemma magnitude_emin x n f : magnitude x n f -> 0 <= n /\ emin <= f.
Proof.
  intros [(s & -> & -> & ->)|(m & -> & -> & Hc & Hf)]; [lia|].
  pose proof (exponent_bounds m f). unfold canonical in Hc. lia.
Qed.

(** A factor below 1 leaves digits to round. *)
Lemma unit_exponent m f : canonical m f -> mag_le (Zpos m) f 1 0 -> f <= 1 - prec.
Proof.
  intros Hc Hle. apply (mag_le_digits m f 1 0), fexp_mono in Hle. fold (exponent m f) in Hle.
  rewrite Hc in Hle. cbn [digits2_pos] in Hle. unfold SpecFloat.fexp, SpecFloat.emin in Hle. lia.
Qed.

Lemma product_fits m1 f1 m2 f2 :
  canonical m1 f1 -> canonical m2 f2 -> mag_le (Zpos m2) f2 1 0 ->
  f1 + f2 <= exponent (m1 * m2) (f1 + f2).
Proof.
  intros H1 H2 Hle. pose proof (unit_exponent m2 f2 H2 Hle).
  pose proof (exponent_bounds (m1 * m2) (f1 + f2)) as (Hmin & Hd & _).
  destruct (Z.le_gt_cases f1 emin); [lia|].
  pose proof (canonical_normal m1 f1 H1 ltac:(lia)) as Hn.
  pose proof (digits_bounds (m1 * m2)) as [_ Hd2]. rewrite Pos2Z.inj_mul in Hd2 at 1.
  assert (2 ^ (prec - 1) < 2 ^ Zpos (digits2_pos (m1 * m2))) as Hlt by nia.
  apply pow2_lt_inv in Hlt. lia.
Qed.

Lemma SFmul_rounds x n1 f1 y n2 f2 :
  magnitude x n1 f1 -> magnitude y n2 f2 -> mag_le n2 f2 1 0 ->
  fits (n1 * n2) (f1 + f2) /\ rounds_from (n1 * n2) (f1 + f2) (SFmul prec emax x y).
Proof.
  intros [(s1 & -> & -> & ->)|(m1 & -> & -> & Hc1 & Hf1)]
    [(s2 & -> & -> & ->)|(m2 & -> & -> & Hc2 & Hf2)] Hle;
    rewrite ?Z.mul_0_l, ?Z.mul_0_r; cbn [SFmul]; try (split; [done|apply zero_rounds]).
  pose proof (product_fits m1 f1 m2 f2 Hc1 Hc2 Hle). split; [done|]. by apply round_aux_rounds.
Qed.

Lemma mag_le_mul_l n1 f1 n2 f2 :
  0 <= n1 -> mag_le n2 f2 1 0 -> mag_le (n1 * n2) (f1 + f2) n1 f1.
Proof.
  intros Hn. set (b := Z.min f2 0). rewrite (mag_le_base b), (mag_le_base (f1 + b)) by lia.
  unfold mag. intros H. replace (f1 + f2 - (f1 + b)) with (f2 - b) by lia.
  replace (f1 - (f1 + b)) with (0 - b) by lia. nia.
Qed.

Lemma mag_le_mul_mono n1 f1 n1' f1' n2 f2 :
  0 <= n2 -> mag_le n1 f1 n1' f1' -> mag_le (n1 * n2) (f1 + f2) (n1' * n2) (f1' + f2).
Proof.
  intros Hn. set (b := Z.min f1 f1'). rewrite (mag_le_base b), (mag_le_base (b + f2)) by lia.
  unfold mag. intros H. replace (f1 + f2 - (b + f2)) with (f1 - b) by lia.
  replace (f1' + f2 - (b + f2)) with (f1' - b) by lia. nia.
Qed.

(** Products stay in the unit interval, below the first factor. *)
Lemma unit_mul x y :
  unit_float x -> unit_float y ->
  unit_float (SFmul prec emax x y) /\ SFleb (SFmul prec emax x y) x = true.
Proof.
  intros (n1 & f1 & Hx & Hx1) (n2 & f2 & Hy & Hy1).
  destruct (SFmul_rounds x n1 f1 y n2 f2 Hx Hy Hy1) as [F R].
  destruct (rounds_below _ _ _ x n1 f1 F R Hx) as (Hle & n & f & Hm & Hmle).
  { apply mag_le_mul_l; [by eapply magnitude_emin|done]. }
  split; [|done]. exists n, f. split; [done|]. by eapply mag_le_trans.
Qed.

(** Multiplying by a number of the unit interval is monotone. *)
Lemma unit_mul_mono x x' y :
  unit_float x -> unit_float x' -> unit_float y -> SFleb x x' = true ->
  SFleb (SFmul prec emax x y) (SFmul prec emax x' y) = true.
Proof.
  intros (n1 & f1 & Hx & _) (n1' & f1' & Hx' & _) (n2 & f2 & Hy & Hy1) Hle.
  destruct (SFmul_rounds x n1 f1 y n2 f2 Hx Hy Hy1) as [F R].
  destruct (SFmul_rounds x' n1' f1' y n2 f2 Hx' Hy Hy1) as [F' R'].
  eapply rounds_le; [exact F|exact F'|exact R|exact R'|].
  apply mag_le_mul_mono; [by eapply magnitude_emin|by apply (magnitude_le x n1 f1 x')].
Qed.

(** *** Differences *)

Lemma iter_xO m p : Zpos (Pos.iter xO m p) = Zpos m * 2 ^ Zpos p.
Proof.
  induction p as [|p IH] using Pos.peano_ind; [cbn; lia|].
  rewrite Pos.iter_succ, Pos2Z.inj_succ, Z.pow_succ_r by lia. rewrite (Pos2Z.inj_xO (Pos.iter _ _ _)). lia.
Qed.

Lemma shl_align_spec m e e' :
  shl_align m e e' = (m, e) /\ e <= e' \/
  exists m', shl_align m e e' = (m', e') /\ e' < e /\ Zpos m' = Zpos m * 2 ^ (e - e').
Proof.
  unfold shl_align. destruct (e' - e) as [|p|p] eqn:E; [left; split; [done|lia]..|].
  right. exists (Pos.iter xO m p). split; [done|]. split; [lia|]. rewrite iter_xO.
  do 2 f_equal. lia.
Qed.

(** The value of [n1 * 2 ^ e1] is that of [n2 * 2 ^ e2]. *)
Definition mag_eq (n1 e1 n2 e2 : Z) : Prop := forall b, b <= e1 -> b <= e2 -> mag b n1 e1 = mag b n2 e2.

Lemma binary_round_aligned s m e :
  exists m' e', binary_round prec emax s m e = binary_round_aux prec emax s (Zpos m') e' loc_Exact /\
    e' <= exponent m' e' /\ mag_eq (Zpos m') e' (Zpos m) e.
Proof.
  unfold binary_round. fold (exponent m e).
  destruct (shl_align_spec m e (exponent m e)) as [[-> Hle]|(m' & -> & Hlt & Hm)].
  - by exists m, e.
  - assert (Hx : exponent m' (exponent m e) = exponent m e).
    { unfold exponent at 1. rewrite (digits_unique m' (Zpos (digits2_pos m) + (e - exponent m e))).
      - unfold exponent. f_equal. unfold SpecFloat.fexp. lia.
      - rewrite Hm. pose proof (digits_bounds m) as [H1 H2].
        pose proof (pow2_pos (e - exponent m e) ltac:(lia)).
        replace (Zpos (digits2_pos m) + (e - exponent m e) - 1)
          with (Zpos (digits2_pos m) - 1 + (e - exponent m e)) by lia.
        rewrite !pow2_split by lia. nia. }
    exists m', (exponent m e). rewrite Hx. split; [done|]. split; [lia|].
    intros b Hb1 Hb2. rewrite Hm. apply mag_shift; lia.
Qed.

Lemma binary_round_rounds m e :
  exists m' e', fits (Zpos m') e' /\ rounds_from (Zpos m') e' (binary_round prec emax false m e) /\
    mag_eq (Zpos m') e' (Zpos m) e.
Proof.
  destruct (binary_round_aligned false m e) as (m' & e' & -> & He & Hm). exists m', e'.
  split; [done|]. split; [by apply round_aux_rounds|done].
Qed.

(** A rounded number is one of the format. *)
Lemma binary_round_valid s m e :
  valid_binary prec emax (binary_round prec emax s m e) = true /\
  binary_round prec emax s m e <> S754_nan.
Proof.
  destruct (binary_round_aligned s m e) as (m' & e' & -> & He & _).
  destruct (round_aux_spec s m' e' He) as [[_ ->]|(m2 & e2 & Hc & _ & _ & ->)]; [done|].
  destruct (Z.leb_spec e2 (emax - prec)) as [Hle|]; [|done]. split; [|done].
  unfold valid_binary, bounded, canonical_mantissa. apply andb_true_iff.
  split; [by apply Z.eqb_eq|by apply Z.leb_le].
Qed.

(** *** Inexact quotients

    A mantissa with a location is the exact mantissa with two more bits. *)
Definition loc_code (l : location) : Z :=
  match l with loc_Exact => 0 | loc_Inexact Lt => 1 | loc_Inexact Eq => 2 | loc_Inexact Gt => 3 end.

Lemma loc_code_range l : 0 <= loc_code l <= 3.
Proof. destruct l as [|[]]; cbn; lia. Qed.

Lemma loc_state q l : 0 <= q -> shr_state (4 * q + loc_code l) 2 (shr_record_of_loc q l).
Proof.
  intros Hq. pose proof (loc_code_range l). unfold shr_state. change (2 ^ 2) with 4.
  replace ((4 * q + loc_code l) / 4) with q by (Z.to_euclidean_division_equations; lia).
  replace ((4 * q + loc_code l) mod 4) with (loc_code l) by (Z.to_euclidean_division_equations; lia).
  by destruct l as [|[]].
Qed.

Lemma shr_shifts m k mrs e n :
  0 <= m -> 0 <= k -> 0 <= n -> shr_state m k mrs ->
  exists mrs', shr mrs e n = (mrs', e + n) /\ shr_state m (k + n) mrs'.
Proof.
  intros Hm Hk Hn Hs. destruct n as [|p|]; [| |lia]; cbn [shr].
  - rewrite !Z.add_0_r. by exists mrs.
  - eexists. split; [done|]. apply (iter_pos_invariant shr_1 (shr_state m)); [|done..].
    intros. by apply shr_state_step.
Qed.

Lemma shr_code q l e n :
  0 <= q -> 0 <= n ->
  shr (shr_record_of_loc q l) e n
    = shr (Build_shr_record (4 * q + loc_code l) false false) (e - 2) (n + 2).
Proof.
  intros Hq Hn. pose proof (loc_code_range l). set (m := 4 * q + loc_code l).
  destruct (shr_shifts m 2 (shr_record_of_loc q l) e n) as (r1 & -> & H1); [lia..|by apply loc_state|].
  assert (H0 : shr_state m 0 (Build_shr_record m false false))
    by (unfold shr_state; by rewrite Z.mod_1_r, Z.div_1_r).
  destruct (shr_shifts m 0 _ (e - 2) (n + 2) ltac:(lia) ltac:(lia) ltac:(lia) H0) as (r2 & -> & H2).
  unfold shr_state in H1, H2. rewrite H1, H2. f_equal; [|lia]. by replace (0 + (n + 2)) with (2 + n) by lia.
Qed.

Lemma code_exponent q l e :
  0 <= q -> 0 < 4 * q + loc_code l -> (q = 0 -> e = emin) ->
  fexp (Zdigits2 (4 * q + loc_code l) + (e - 2)) = fexp (Zdigits2 q + e).
Proof.
  intros Hq Hpos H0. pose proof (loc_code_range l). destruct q as [|p|]; [| |lia].
  - rewrite (H0 eq_refl). change (Zdigits2 0) with 0.
    assert (0 <= Zdigits2 (4 * 0 + loc_code l) <= 2) by (destruct l as [|[]]; vm_compute; split; discriminate).
    unfold SpecFloat.fexp. lia.
  - destruct (4 * Zpos p + loc_code l) as [|m|] eqn:E; [lia| |lia]. cbn [Zdigits2].
    rewrite (digits_unique m (Zpos (digits2_pos p) + 2)); [f_equal; lia|].
    pose proof (digits_bounds p) as [H1 H2]. rewrite <- E.
    replace (Zpos (digits2_pos p) + 2 - 1) with (Zpos (digits2_pos p) - 1 + 2) by lia.
    rewrite !(pow2_split _ 2) by lia. change (2 ^ 2) with 4. lia.
Qed.

Lemma round_aux_code s q e l :
  0 <= q -> 0 < 4 * q + loc_code l -> (q = 0 -> e = emin) -> e <= fexp (Zdigits2 q + e) ->
  binary_round_aux prec emax s q e l
    = binary_round_aux prec emax s (4 * q + loc_code l) (e - 2) loc_Exact.
Proof.
  intros Hq Hpos H0 He. unfold binary_round_aux, shr_fexp at 1 3. rewrite (shr_code q l e) by lia.
  cbn [shr_record_of_loc]. rewrite (code_exponent q l e) by done.
  by replace (fexp (Zdigits2 q + e) - e + 2) with (fexp (Zdigits2 q + e) - (e - 2)) by lia.
Qed.

(** A number that stands for a magnitude is one of the format. *)
Lemma stands_for_valid n f s r : stands_for n f s r -> valid_binary prec emax r = true.
Proof.
  intros [[_ ->]|(m & e & Hc & _ & _ & ->)]; [done|].
  destruct (Z.leb_spec e (emax - prec)) as [Hle|]; [|done].
  unfold valid_binary, bounded, canonical_mantissa. apply andb_true_iff.
  split; [by apply Z.eqb_eq|by apply Z.leb_le].
Qed.

Lemma round_aux_valid s q e l :
  0 <= q -> 0 < 4 * q + loc_code l -> (q = 0 -> e = emin) -> e <= fexp (Zdigits2 q + e) ->
  valid_binary prec emax (binary_round_aux prec emax s q e l) = true.
Proof.
  intros Hq Hpos H0 He. rewrite round_aux_code by done. pose proof (code_exponent q l e Hq Hpos H0) as Hx.
  destruct (4 * q + loc_code l) as [|m|]; [lia| |lia]. cbn [Zdigits2] in Hx.
  eapply stands_for_valid, round_aux_spec. unfold exponent. lia.
Qed.

(** The quotient of two mantissas, to at least the precision of the format. *)
Lemma div_core m d :
  0 < d -> exists q r f, SFdiv_core_binary prec emax (Zpos m) 0 d 0 = (q, f, new_location d r) /\
    f = Z.min (fexp (Zpos (digits2_pos m) - Zdigits2 d)) 0 /\
    Zpos m * 2 ^ (- f) = d * q + r /\ 0 <= r < d /\ 0 <= q.
Proof.
  intros Hd. unfold SFdiv_core_binary. cbv zeta. cbn [Zdigits2]. rewrite !Z.add_0_r, Z.sub_0_r.
  set (f := Z.min _ 0). rewrite Z.sub_0_l.
  assert (Hm : (match - f with Z0 => Zpos m | Zpos _ => Z.shiftl (Zpos m) (- f) | Zneg _ => 0 end)
    = Zpos m * 2 ^ (- f)).
  { destruct (- f) as [|p|p] eqn:E; [lia| |lia]. by rewrite Z.shiftl_mul_pow2 by lia. }
  rewrite Hm. pose proof (Z_div_mod (Zpos m * 2 ^ (- f)) d ltac:(lia)) as Hdiv.
  destruct (Z.div_eucl _ d) as [q r]. destruct Hdiv as [Hq Hr]. exists q, r, f. split_and!; [done|done|done|lia|lia|].
  pose proof (pow2_pos (- f) ltac:(lia)). nia.
Qed.

Lemma new_location_zero d r : loc_code (new_location d r) = 0 -> r = 0.
Proof.
  unfold new_location, new_location_even, new_location_odd.
  intros H. destruct (Z.even d), (Z.eqb_spec r 0); try done; cbn in H; by repeat case_match.
Qed.

Lemma digits_pos d : 0 < d -> 2 ^ (Zdigits2 d - 1) <= d < 2 ^ Zdigits2 d.
Proof. destruct d as [|p|]; [lia| |lia]. intros _. apply digits_bounds. Qed.

Lemma div_round_valid s m d q f l :
  0 < d -> SFdiv_core_binary prec emax (Zpos m) 0 d 0 = (q, f, l) ->
  valid_binary prec emax (binary_round_aux prec emax s q f l) = true.
Proof.
  intros Hd Heq. destruct (div_core m d Hd) as (q' & r & f' & H & Hf & Hq & Hr & Hq0).
  rewrite H in Heq. injection Heq as -> -> <-.
  pose proof (digits_pos d Hd) as [_ Hdd]. pose proof (digits_bounds m) as [Hm _].
  set (x := Zpos (digits2_pos m) - Zdigits2 d) in *.
  pose proof (pow2_pos (- f) ltac:(lia)) as Hpf.
  (* the quotient has at least [x - f] digits *)
  assert (Hdig : x <= Zdigits2 q + f).
  { destruct (Z.le_gt_cases x (Zdigits2 q + f)) as [|Hgt]; [done|exfalso].
    assert (Hqb : q + 1 <= 2 ^ Zdigits2 q).
    { destruct q as [|p|]; [done| |lia]. pose proof (digits_bounds p). cbn [Zdigits2]. lia. }
    assert (0 <= Zdigits2 q) by (by destruct q).
    assert (0 < Zdigits2 d) by (by destruct d).
    assert (Hle : 2 ^ (Zpos (digits2_pos m) - 1) * 2 ^ (- f) <= Zpos m * 2 ^ (- f)) by nia.
    rewrite <- pow2_split in Hle by lia.
    assert (Hup : Zpos m * 2 ^ (- f) < 2 ^ Zdigits2 d * 2 ^ Zdigits2 q) by nia.
    rewrite <- pow2_split in Hup by lia.
    assert (Hlt : 2 ^ (Zpos (digits2_pos m) - 1 + - f) < 2 ^ (Zdigits2 d + Zdigits2 q)) by lia.
    apply pow2_lt_inv in Hlt. unfold x in Hgt. lia. }
  assert (Hfx : f <= fexp (Zdigits2 q + f)) by (etrans; [|apply fexp_mono, Hdig]; lia).
  pose proof (loc_code_range (new_location d r)).
  apply round_aux_valid; [done| | |done].
  - destruct (Z.eq_dec (loc_code (new_location d r)) 0) as [Hz%new_location_zero|]; [|lia]. subst r. nia.
  - intros ->. cbn [Zdigits2] in Hdig. unfold SpecFloat.fexp in Hf. unfold SpecFloat.emin in *. lia.
Qed.

(** *** Exact results *)

Lemma round_aux_exact s q f m e :
  canonical m e -> e <= emax - prec -> f <= e -> Zpos q = Zpos m * 2 ^ (e - f) ->
  binary_round_aux prec emax s (Zpos q) f loc_Exact = S754_finite s m e.
Proof.
  intros Hc Hmax Hf Hq. pose proof (digits_bounds m) as [H1 H2]. pose proof (pow2_pos (e - f) ltac:(lia)).
  assert (Hx : exponent q f = e).
  { rewrite <- Hc. unfold exponent. f_equal. rewrite (digits_unique q (Zpos (digits2_pos m) + (e - f))); [lia|].
    rewrite Hq. replace (Zpos (digits2_pos m) + (e - f) - 1) with (Zpos (digits2_pos m) - 1 + (e - f)) by lia.
    rewrite !pow2_split by lia. nia. }
  pose proof (round_aux_spec s q f ltac:(lia)) as Hs. unfold rounded in Hs.
  rewrite Hx, Hq, round_at_exact in Hs by lia. rewrite <- Hq in Hs.
  destruct Hs as [[? _]|(m2 & e2 & Hc2 & He2 & Hm2 & ->)]; [done|].
  assert (e2 = e) as ->.
  { rewrite <- Hc2, <- Hc at 1. unfold exponent. f_equal.
    pose proof (pow2_pos (e2 - e) ltac:(lia)). pose proof (digits_bounds m2) as [H3 H4].
    rewrite (digits_unique m (Zpos (digits2_pos m2) + (e2 - e))); [lia|].
    rewrite Hm2. replace (Zpos (digits2_pos m2) + (e2 - e) - 1) with (Zpos (digits2_pos m2) - 1 + (e2 - e)) by lia.
    rewrite !pow2_split by lia. nia. }
  rewrite Z.sub_diag, Z.mul_1_r in Hm2. injection Hm2 as ->.
  by rewrite (proj2 (Z.leb_le _ _)).
Qed.

Lemma binary_round_exact s p m e :
  canonical m e -> e <= emax - prec -> 0 <= e -> Zpos p = Zpos m * 2 ^ e ->
  binary_round prec emax s p 0 = S754_finite s m e.
Proof.
  intros Hc Hmax He Hp. destruct (binary_round_aligned s p 0) as (m' & e' & -> & Hx & Hm).
  assert (Hle : mag_eq (Zpos m') e' (Zpos m) e).
  { intros b Hb1 Hb2. destruct (Z.le_gt_cases b 0) as [Hb0|Hb0].
    - rewrite (Hm b) by lia. rewrite Hp. replace (2 ^ e) with (2 ^ (e - 0)) by (f_equal; lia). apply mag_shift; lia.
    - assert (H0 : mag 0 (Zpos m') e' = mag 0 (Zpos m) e).
      { rewrite (Hm 0) by lia. unfold mag. rewrite Hp, !Z.sub_0_r. lia. }
      rewrite (mag_base b 0), (mag_base b 0 (Zpos m)) in H0 by lia. pose proof (pow2_pos (b - 0) ltac:(lia)). nia. }
  assert (Hex : exponent m' e' = e).
  { rewrite <- Hc. unfold exponent. f_equal.
    assert (mag_le (Zpos m') e' (Zpos m) e /\ mag_le (Zpos m) e (Zpos m') e') as [Ha Hb].
    { unfold mag_le. rewrite (Z.min_comm e e'). rewrite (Hle (Z.min e' e)) by lia. split; lia. }
    apply mag_le_digits in Ha, Hb. lia. }
  apply round_aux_exact; [done|done|lia|].
  specialize (Hle e' ltac:(lia) ltac:(lia)). unfold mag in Hle. rewrite Z.sub_diag in Hle. lia.
Qed.

(** A decimal fraction that is a binary one. *)
Lemma div_round_exact s d m e q f l :
  canonical m e -> e <= emax - prec -> e < 0 -> Zpos d = Zpos m * 5 ^ (- e) ->
  SFdiv_core_binary prec emax (Zpos d) 0 (10 ^ (- e)) 0 = (q, f, l) ->
  binary_round_aux prec emax s q f l = S754_finite s m e.
Proof.
  intros Hc Hmax He Hd Heq. assert (Hten : 0 < 10 ^ (- e)) by (apply Z.pow_pos_nonneg; lia).
  assert (Hfive : 0 < 5 ^ (- e)) by (apply Z.pow_pos_nonneg; lia). pose proof (pow2_pos (- e) ltac:(lia)) as Htwo.
  assert (H10 : 10 ^ (- e) = 5 ^ (- e) * 2 ^ (- e)) by (rewrite <- Z.pow_mul_l; done).
  destruct (div_core d (10 ^ (- e)) Hten) as (q' & r & f' & H & Hf & Hq & Hr & Hq0).
  rewrite H in Heq. injection Heq as -> -> <-.
  assert (Hfe : f <= e).
  { etrans; [rewrite Hf; apply Z.le_min_l|]. rewrite <- Hc at 2. apply fexp_mono.
    pose proof (digits_pos _ Hten) as [H1 _]. pose proof (digits_bounds d) as [H2 _]. pose proof (digits_bounds m) as [_ H3].
    set (dt := Zdigits2 (10 ^ (- e))) in *.
    assert (0 < dt) by (unfold dt; by destruct (10 ^ (- e))).
    destruct (Z.le_gt_cases (Zpos (digits2_pos d) - dt) (Zpos (digits2_pos m) + e)) as [|Hgt]; [done|exfalso].
    assert (Hlow : 2 ^ (Zpos (digits2_pos d) - 1) * 2 ^ (- e) <= Zpos d * 2 ^ (- e)) by nia.
    assert (Hprod : Zpos d * 2 ^ (- e) = Zpos m * 10 ^ (- e)) by (rewrite Hd, H10; ring).
    rewrite <- pow2_split in Hlow by lia.
    assert (Hup : Zpos m * 10 ^ (- e) < 2 ^ Zpos (digits2_pos m) * 2 ^ dt).
    { pose proof (digits_pos _ Hten) as [_ H4]. fold dt in H4. nia. }
    rewrite <- pow2_split in Hup by lia.
    assert (Hlt : 2 ^ (Zpos (digits2_pos d) - 1 + - e) < 2 ^ (Zpos (digits2_pos m) + dt)) by lia.
    apply pow2_lt_inv in Hlt. lia. }
  assert (Hexact : Zpos d * 2 ^ (- f) = 10 ^ (- e) * (Zpos m * 2 ^ (e - f))).
  { rewrite Hd, H10. replace (- f) with (- e + (e - f)) by lia. rewrite pow2_split by lia. ring. }
  assert (r = 0 /\ q = Zpos m * 2 ^ (e - f)) as [-> Hqm].
  { rewrite Hexact in Hq. assert (Hdiff : 10 ^ (- e) * (Zpos m * 2 ^ (e - f) - q) = r) by lia.
    destruct (Z.eq_dec q (Zpos m * 2 ^ (e - f))) as [->|Hne]; [split; [lia|done]|].
    exfalso. set (t := Zpos m * 2 ^ (e - f) - q) in *. assert (t <> 0) by lia. nia. }
  pose proof (pow2_pos (e - f) ltac:(lia)).
  assert (new_location (10 ^ (- e)) 0 = loc_Exact) as -> by (unfold new_location; by destruct (Z.even _)).
  destruct q as [|p|]; [lia| |lia]. by apply round_aux_exact.
Qed.

Lemma shl_align_mag m e b : b <= e -> Zpos (fst (shl_align m e b)) = mag b (Zpos m) e.
Proof.
  intros Hb. destruct (shl_align_spec m e b) as [[-> He]|(m' & -> & _ & Hm)]; cbn [fst].
  - replace b with e by lia. unfold mag. rewrite Z.sub_diag. lia.
  - by rewrite Hm.
Qed.

Lemma SFsub_rounds x n1 f1 y n2 f2 :
  magnitude x n1 f1 -> magnitude y n2 f2 -> mag_le n2 f2 n1 f1 ->
  exists n e, fits n e /\ rounds_from n e (SFsub prec emax x y) /\
    mag_eq n e (mag (Z.min f1 f2) n1 f1 - mag (Z.min f1 f2) n2 f2) (Z.min f1 f2).
Proof.
  intros Hx Hy Hle. set (b := Z.min f1 f2). rewrite (mag_le_base b) in Hle by lia.
  destruct Hx as [(s1 & -> & -> & ->)|(m1 & -> & -> & Hc1 & Hf1)].
  - assert (n2 = 0) as ->.
    { destruct Hy as [(? & _ & ? & _)|(m2 & _ & -> & _)]; [done|].
      unfold mag in Hle. pose proof (pow2_pos (f2 - b) ltac:(lia)). lia. }
    destruct Hy as [(s2 & -> & _ & ->)|(m2 & _ & ? & _)]; [|done].
    exists 0, b. split; [done|]. split; [|intros c _ _; unfold mag; lia].
    destruct s1, s2; apply zero_rounds.
  - destruct Hy as [(s2 & -> & -> & ->)|(m2 & -> & -> & Hc2 & Hf2)].
    + exists (Zpos m1), f1. destruct (magnitude_rounds (S754_finite false m1 f1) (Zpos m1) f1) as [F R].
      { right. by exists m1. }
      split_and!; [done|done|]. intros c Hc Hb. rewrite (mag_base b c (Zpos m1)) by lia.
      unfold mag. lia.
    + cbn [SFsub cond_Zopp]. fold b. rewrite !shl_align_mag by lia.
      destruct (mag b (Zpos m1) f1 - mag b (Zpos m2) f2) as [|m|] eqn:E; [| |lia]; cbn [binary_normalize].
      * exists 0, b. split; [done|]. split; [apply zero_rounds|done].
      * destruct (binary_round_rounds m b) as (m' & e' & F & R & Heq). by exists (Zpos m'), e'.
Qed.

(** [c - x] for [x <= c] is between 0 and [c]. *)
Lemma SFsub_below c nc fc x n f :
  magnitude c nc fc -> magnitude x n f -> mag_le n f nc fc ->
  SFleb (SFsub prec emax c x) c = true /\
  exists n' f', magnitude (SFsub prec emax c x) n' f' /\ mag_le n' f' nc fc.
Proof.
  intros Hc Hx Hle. destruct (SFsub_rounds c nc fc x n f Hc Hx Hle) as (d & e & F & R & Heq).
  eapply rounds_below; [exact F|exact R|exact Hc|].
  set (b := Z.min fc f) in *. set (a := Z.min b e). rewrite (mag_le_base a) by lia.
  rewrite (Heq a) by lia. rewrite (mag_base b a nc fc) by lia.
  assert (0 <= mag b n f) as Hn.
  { destruct (magnitude_emin _ _ _ Hx). apply Z.mul_nonneg_nonneg; [done|apply Z.pow_nonneg; lia]. }
  unfold mag at 1. apply Z.mul_le_mono_nonneg_r; [apply Z.pow_nonneg; lia|lia].
Qed.

(** [c - x] is antitone in [x]. *)
Lemma SFsub_antitone c nc fc x n1 f1 y n2 f2 :
  magnitude c nc fc -> magnitude x n1 f1 -> magnitude y n2 f2 ->
  mag_le n1 f1 n2 f2 -> mag_le n2 f2 nc fc ->
  SFleb (SFsub prec emax c y) (SFsub prec emax c x) = true.
Proof.
  intros Hc Hx Hy H12 H2c.
  destruct (SFsub_rounds c nc fc x n1 f1 Hc Hx) as (d1 & e1 & F1 & R1 & Q1);
    [by eapply mag_le_trans|].
  destruct (SFsub_rounds c nc fc y n2 f2 Hc Hy H2c) as (d2 & e2 & F2 & R2 & Q2).
  eapply rounds_le; [exact F2|exact F1|exact R2|exact R1|].
  set (b := Z.min (Z.min fc f1) (Z.min f2 (Z.min e1 e2))).
  rewrite (mag_le_base b) in H12 |- * by lia. rewrite Q1, Q2 by lia.
  assert (Hd : forall g n, b <= Z.min fc g ->
    mag b (mag (Z.min fc g) nc fc - mag (Z.min fc g) n g) (Z.min fc g) = mag b nc fc - mag b n g).
  { intros g n Hg. rewrite (mag_base (Z.min fc g) b nc), (mag_base (Z.min fc g) b n) by lia.
    unfold mag at 1. lia. }
  rewrite !Hd by lia. lia.
Qed.
End Format.

(** ** [float64] *)

Abbreviation float64 := spec_float.
Definition is_f64 (x : float64) : Prop := valid_binary 53 1024 x = true.
Definition f64_mul : float64 -> float64 -> float64 := SFmul 53 1024.
Definition f64_sub : float64 -> float64 -> float64 := SFsub 53 1024.
Definition f64_lt : float64 -> float64 -> bool := SFltb.
Definition f64_le : float64 -> float64 -> bool := SFleb.
Definition f64_zero : float64 := S754_zero false.
Definition f64_one : float64 := S754_finite false 4503599627370496 (-52).

Definition is_NaN (x : float64) : bool := match x with S754_nan => true | _ => false end.
Definition is_Inf (x : float64) (sign : bool) : bool :=
  match x with S754_infinity s => Bool.eqb s sign | _ => false end.
Definition Signbit (x : float64) : bool :=
  match x with S754_zero s | S754_infinity s | S754_finite s _ _ => s | S754_nan => false end.

(** [math.Max] and [math.Min]. *)
Definition math_Max (x y : float64) : float64 :=
  if is_Inf x false || is_Inf y false then S754_infinity false
  else if is_NaN x || is_NaN y then S754_nan
  else if SFeqb x f64_zero && SFeqb x y then if Signbit x then y else x
  else if f64_lt y x then x else y.

Definition math_Min (x y : float64) : float64 :=
  if is_Inf x true || is_Inf y true then S754_infinity true
  else if is_NaN x || is_NaN y then S754_nan
  else if SFeqb x f64_zero && SFeqb x y then if Signbit x then x else y
  else if f64_lt x y then x else y.

(** A number of the closed unit interval. *)
Definition in_unit (x : float64) : Prop := f64_le f64_zero x = true /\ f64_le x f64_one = true.

Local Abbreviation unit64 := (unit_float 53 1024).

Lemma is_f64_canonical s m e :
  is_f64 (S754_finite s m e) -> canonical 53 1024 m e /\ e <= 1024 - 53.
Proof.
  unfold is_f64, valid_binary, bounded, canonical_mantissa. intros [Hc He]%andb_prop.
  apply Z.eqb_eq in Hc. apply Z.leb_le in He. done.
Qed.

Lemma one_magnitude : magnitude 53 1024 f64_one 4503599627370496 (-52).
Proof. right. by exists 4503599627370496%positive. Qed.

Lemma one_mag n f : mag_le n f 4503599627370496 (-52) <-> mag_le n f 1 0.
Proof.
  set (b := Z.min f (-52)). rewrite !(mag_le_base b) by lia.
  assert (mag b 1 0 = mag b 4503599627370496 (-52)) as ->; [|done].
  change 4503599627370496 with (1 * 2 ^ (0 - -52)). symmetry. apply mag_shift; lia.
Qed.

Lemma magnitude64_le x n1 f1 y n2 f2 :
  magnitude 53 1024 x n1 f1 -> magnitude 53 1024 y n2 f2 ->
  f64_le x y = true <-> mag_le n1 f1 n2 f2.
Proof. apply magnitude_le; lia. Qed.

Lemma unit64_in_unit x : unit64 x <-> is_f64 x /\ in_unit x.
Proof.
  split.
  - intros (n & f & Hm & Hle). apply one_mag in Hle.
    apply (magnitude64_le _ _ _ _ _ _ Hm one_magnitude) in Hle. unfold in_unit.
    destruct Hm as [(s & -> & _)|(m & -> & -> & Hc & Hf)]; [by destruct s|].
    split; [|done]. unfold is_f64, valid_binary, bounded, canonical_mantissa.
    unfold canonical, exponent in Hc. rewrite Hc, Z.eqb_refl. by apply Z.leb_le.
  - intros (Hv & H0 & H1). destruct x as [s|s| |s m e]; [|by destruct s|done|].
    + exists 0, (emin 53 1024). split; [left; by exists s|done].
    + destruct s; [done|]. apply is_f64_canonical in Hv as [Hc He].
      assert (magnitude 53 1024 (S754_finite false m e) (Zpos m) e) as Hm by (right; by exists m).
      exists (Zpos m), e. split; [done|]. apply one_mag.
      by apply (magnitude64_le _ _ _ _ _ _ Hm one_magnitude).
Qed.

Lemma unit64_zero : unit64 f64_zero.
Proof. by apply unit64_in_unit. Qed.

Lemma unit64_one : unit64 f64_one.
Proof. by apply unit64_in_unit. Qed.

Lemma f64_mul_unit x y :
  unit64 x -> unit64 y -> unit64 (f64_mul x y) /\ f64_le (f64_mul x y) x = true.
Proof. by apply unit_mul. Qed.

Lemma f64_mul_mono x x' y :
  unit64 x -> unit64 x' -> unit64 y -> f64_le x x' = true ->
  f64_le (f64_mul x y) (f64_mul x' y) = true.
Proof. by apply unit_mul_mono. Qed.

Lemma f64_complement_unit x : unit64 x -> unit64 (f64_sub f64_one x).
Proof.
  intros (n & f & Hm & Hle). apply one_mag in Hle.
  destruct (SFsub_below 53 1024 ltac:(lia) ltac:(lia) _ _ _ _ _ _ one_magnitude Hm Hle)
    as (_ & n' & f' & Hm' & Hle'). exists n', f'. split; [done|]. by apply one_mag.
Qed.

Lemma f64_complement_antitone x y :
  unit64 x -> unit64 y -> f64_le x y = true ->
  f64_le (f64_sub f64_one y) (f64_sub f64_one x) = true.
Proof.
  intros (n1 & f1 & Hx & _) (n2 & f2 & Hy & Hle) Hxy. apply one_mag in Hle.
  eapply SFsub_antitone; [lia|lia|exact one_magnitude|exact Hx|exact Hy| |exact Hle].
  by apply (magnitude64_le x _ _ y).
Qed.

Lemma f64_le_refl x : unit64 x -> f64_le x x = true.
Proof.
  intros (n & f & Hm & _). by apply (magnitude64_le _ _ _ _ _ _ Hm Hm), mag_le_refl.
Qed.

Lemma f64_le_trans x y z :
  unit64 x -> unit64 y -> unit64 z -> f64_le x y = true -> f64_le y z = true -> f64_le x z = true.
Proof.
  intros (n1 & f1 & H1 & _) (n2 & f2 & H2 & _) (n3 & f3 & H3 & _).
  rewrite (magnitude64_le x n1 f1 y n2 f2), (magnitude64_le y n2 f2 z n3 f3), (magnitude64_le x n1 f1 z n3 f3)
    by done.
  apply mag_le_trans.
Qed.

Lemma f64_le_not_lt x y : f64_le x y = true -> f64_lt y x = false.
Proof.
  unfold f64_le, f64_lt, SFleb, SFltb.
  destruct x as [[]|[]| |[] m e], y as [[]|[]| |[] m' e']; cbn; try done;
    rewrite (Z.compare_antisym e e'); pose proof (Pos.compare_cont_antisym m m' Eq) as Ha; cbn in Ha;
    rewrite <- Ha; by destruct (e ?= e'), (Pos.compare_cont Eq m m').
Qed.

(** Floats other than NaN are totally ordered. *)
Lemma f64_not_le x y : is_NaN x = false -> is_NaN y = false -> f64_le x y = false -> f64_lt y x = true.
Proof.
  unfold f64_le, f64_lt, SFleb, SFltb.
  destruct x as [[]|[]| |[] m e], y as [[]|[]| |[] m' e']; cbn; try done; intros _ _;
    rewrite (Z.compare_antisym e e'); pose proof (Pos.compare_cont_antisym m m' Eq) as Ha; cbn in Ha;
    rewrite <- Ha; by destruct (e ?= e'), (Pos.compare_cont Eq m m').
Qed.

Lemma f64_lt_le x y : f64_lt x y = true -> f64_le x y = true.
Proof. unfold f64_le, f64_lt, SFleb, SFltb. by destruct (SFcompare x y) as [[]|]. Qed.

(** Clamping to the unit interval changes at most the sign of a zero. *)
Lemma clamp_unit x :
  unit64 x -> math_Max f64_zero (math_Min f64_one x) = SFabs x.
Proof.
  intros H. apply unit64_in_unit in H as (Hv & H0 & H1). apply f64_le_not_lt in H1.
  destruct x as [s|s| |s m e]; [by destruct s|by destruct s|done|]. destruct s; [done|].
  unfold math_Min. rewrite H1. reflexivity.
Qed.

Lemma clamped_unit x : unit64 x -> unit64 (SFabs x).
Proof.
  intros H. apply unit64_in_unit in H as (Hv & H0 & H1). apply unit64_in_unit.
  destruct x as [s|s| |[] m e]; [by destruct s|by destruct s|done|done|done].
Qed.

Lemma clamped_le x y : unit64 x -> unit64 y -> f64_le x y = true -> f64_le (SFabs x) (SFabs y) = true.
Proof.
  intros Hx Hy. apply unit64_in_unit in Hx as (_ & Hx & _). apply unit64_in_unit in Hy as (_ & Hy & _).
  destruct x as [[]|[]| |[] m e], y as [[]|[]| |[] m' e']; done.
Qed.

(** [math.Float64bits]; a NaN has the bits of [math.NaN()]. *)
Definition Float64bits (x : float64) : Z :=
  let signed (s : bool) (z : Z) := if s then 9223372036854775808 + z else z in
  match x with
  | S754_zero s => signed s 0
  | S754_infinity s => signed s (2047 * 2 ^ 52)
  | S754_nan => 2047 * 2 ^ 52 + 2 ^ 51 + 1
  | S754_finite s m e =>
      if Zpos m <? 2 ^ 52 then signed s (Zpos m)
      else signed s ((e + 1075) * 2 ^ 52 + (Zpos m - 2 ^ 52))
  end.

(** ** [float32] *)

Definition is_f32 (x : spec_float) : Prop := valid_binary 24 128 x = true.

(** [float64(x)] of a [float32], which is exact, and [float32(x)]. *)
Definition f64_of_f32 (x : spec_float) : float64 :=
  match x with S754_finite s m e => binary_round 53 1024 s m e | _ => x end.

Definition f32_of_f64 (x : float64) : spec_float :=
  match x with S754_finite s m e => binary_round 24 128 s m e | _ => x end.

Lemma f64_of_f32_valid x : is_NaN x = false -> is_f64 (f64_of_f32 x) /\ is_NaN (f64_of_f32 x) = false.
Proof.
  destruct x as [s|s| |s m e]; try done. intros _. cbn [f64_of_f32].
  destruct (binary_round_valid 53 1024 ltac:(lia) s m e) as [Hv Hn].
  split; [exact Hv|]. by destruct (binary_round 53 1024 s m e).
Qed.

(** Rounding to [float32] stays in the unit interval. *)
Lemma f32_of_unit x : unit64 x -> unit_float 24 128 (f32_of_f64 x).
Proof.
  intros (n & f & [(s & -> & -> & ->)|(m & -> & -> & _ & _)] & Hle).
  - exists 0, (emin 24 128). split; [left; by exists s|done].
  - cbn [f32_of_f64].
    destruct (binary_round_rounds 24 128 ltac:(lia) m f) as (m' & e' & F & R & Hm).
    assert (magnitude 24 128 (S754_finite false 8388608 (-23)) 8388608 (-23)) as Hone
      by (right; by exists 8388608%positive).
    assert (Hle' : mag_le (Zpos m') e' 8388608 (-23)).
    { set (b := Z.min (Z.min e' f) (-23)). apply (mag_le_base b); [lia..|].
      rewrite Hm by lia. apply (mag_le_base b) in Hle; [|lia..].
      assert (mag b 8388608 (-23) = mag b 1 0) as ->; [|done].
      change 8388608 with (1 * 2 ^ (0 - -23)). apply mag_shift; lia. }
    destruct (rounds_below 24 128 ltac:(lia) ltac:(lia) _ _ _ _ _ _ F R Hone Hle')
      as (_ & n' & f' & Hmag & Hn). exists n', f'. split; [done|].
    set (b := Z.min f' (-23)). apply (mag_le_base b); [lia..|]. apply (mag_le_base b) in Hn; [|lia..].
    assert (mag b 8388608 (-23) = mag b 1 0) as <-; [|done].
    change 8388608 with (1 * 2 ^ (0 - -23)). apply mag_shift; lia.
Qed.

(** ** Numbers that are read

    Rounding a magnitude is never NaN, however its digits were cut. *)

Lemma shr_nonneg mrs e n : 0 <= shr_m mrs -> 0 <= shr_m (shr mrs e n).1.
Proof.
  intros H. destruct n as [|p|p]; try done. cbn [shr fst].
  apply (iter_pos_invariant shr_1 (fun _ mrs => 0 <= shr_m mrs)) with (k := 0); [|lia|done].
  intros k [m r s] _ Hm. cbn in Hm. rewrite shr_1_step by done. cbn. by apply Z.div_pos.
Qed.

Lemma round_aux_not_nan precision emax s m e l :
  0 <= m -> is_NaN (binary_round_aux precision emax s m e l) = false.
Proof.
  intros Hm. unfold binary_round_aux, shr_fexp.
  pose proof (shr_nonneg (shr_record_of_loc m l) e (fexp precision emax (Zdigits2 m + e) - e)) as H1.
  destruct (shr _ _ _) as [mrs1 e1]. cbn [fst] in H1.
  assert (0 <= shr_m mrs1) as H2 by (apply H1; by destruct l as [|[]]).
  set (m2 := round_nearest_even _ _). assert (0 <= m2) as H3.
  { unfold m2, round_nearest_even. repeat case_match; lia. }
  pose proof (shr_nonneg (shr_record_of_loc m2 loc_Exact) e1 (fexp precision emax (Zdigits2 m2 + e1) - e1) H3) as H4.
  destruct (shr _ _ _) as [mrs2 e2]. cbn [fst] in H4.
  destruct (shr_m mrs2) as [|p|p]; [done| |lia]. by destruct (_ <=? _).
Qed.
