(* ===== verification/Text.v ===== *)
(** * Text, order and formatting

    What the sources use of [bytes], [sort], [encoding/hex], [unicode/utf8],
    [strconv] and [fmt]: lexicographic comparison, sorting, hexadecimal, runes,
    and the verbs [%d], [%x], [%q] and [%.nf]. *)

From S2P Require Import Prelude Float.

(** ** Lexicographic order

    [bytes.Compare(a, b) < 0], and [<] on strings. *)

Fixpoint bytes_lt (a b : bytes) : bool :=
  match a, b with
  | _, [] => false
  | [], _ :: _ => true
  | x :: a', y :: b' =>
      (byte_Z x <? byte_Z y) || ((byte_Z x =? byte_Z y) && bytes_lt a' b')
  end.

Lemma bytes_lt_irrefl a : bytes_lt a a = false.
Proof. induction a as [|x a IH]; [done|]. cbn. rewrite IH, Z.ltb_irrefl, andb_false_r. done. Qed.

Lemma bytes_lt_trans a b c : bytes_lt a b = true -> bytes_lt b c = true -> bytes_lt a c = true.
Proof.
  revert b c. induction a as [|x a IH]; intros [|y b] [|z c]; cbn; try done.
  intros [H1|[E1 H1]%andb_prop]%orb_prop [H2|[E2 H2]%andb_prop]%orb_prop; apply orb_true_iff; try lia.
  right. rewrite (IH b c H1 H2). lia.
Qed.

Lemma bytes_lt_total a b : bytes_lt a b = false -> bytes_lt b a = false -> a = b.
Proof.
  revert b. induction a as [|x a IH]; intros [|y b]; cbn; try done.
  intros [H1 H2]%orb_false_iff [H3 H4]%orb_false_iff.
  assert (byte_Z x = byte_Z y) as E by lia. apply byte_Z_inj in E as ->.
  rewrite Z.eqb_refl in *. f_equal. by apply IH.
Qed.

(** A boolean strict total order. *)
Class KeyOrder {K} (lt : K -> K -> bool) : Prop := {
  key_irrefl a : lt a a = false;
  key_trans a b c : lt a b = true -> lt b c = true -> lt a c = true;
  key_total a b : lt a b = false -> lt b a = false -> a = b
}.

#[global] Instance bytes_order : KeyOrder bytes_lt.
Proof. split; [apply bytes_lt_irrefl|apply bytes_lt_trans|apply bytes_lt_total]. Qed.

#[global] Instance Z_order : KeyOrder Z.ltb.
Proof. split; intros; lia. Qed.

(** ** [sort.Slice]

    [sort_Slice lt key l] is [sort.Slice(l, func(i, j int) bool { return
    key(l[i]) < key(l[j]) })].  The order of elements with equal keys is
    unspecified; where no two are equal, the result is the one sorted
    permutation. *)

Definition not_after {A K} (lt : K -> K -> bool) (key : A -> K) (a b : A) : Prop :=
  lt (key b) (key a) = false.

#[global] Instance not_after_dec {A K} (lt : K -> K -> bool) (key : A -> K) :
  RelDecision (not_after lt key).
Proof. intros a b. unfold not_after. apply _. Defined.

Definition sort_Slice {A K} (lt : K -> K -> bool) (key : A -> K) (l : list A) : list A :=
  merge_sort (not_after lt key) l.

Section Sorting.
Context {A K} (lt : K -> K -> bool) {O : KeyOrder lt} (key : A -> K).

Lemma sort_Slice_Permutation l : sort_Slice lt key l ≡ₚ l.
Proof. apply merge_sort_Permutation. Qed.

Lemma sort_Slice_elem l x : x ∈ sort_Slice lt key l <-> x ∈ l.
Proof. by rewrite sort_Slice_Permutation. Qed.

Lemma key_asym a b : lt a b = true -> lt b a = false.
Proof using O.
  intros H. destruct (lt b a) eqn:E; [|done].
  by rewrite <- (key_trans _ _ _ H E), key_irrefl.
Qed.

#[local] Instance not_after_total : Total (not_after lt key).
Proof using O.
  intros a b. unfold not_after. destruct (lt (key b) (key a)) eqn:E; [right|by left].
  by apply key_asym.
Qed.

#[local] Instance not_after_trans : Transitive (not_after lt key).
Proof using O.
  intros a b c Hab Hbc. unfold not_after in *.
  destruct (lt (key c) (key a)) eqn:E; [|done].
  destruct (lt (key a) (key b)) eqn:E2.
  - by rewrite (key_trans _ _ _ E E2) in Hbc.
  - rewrite (key_total _ _ E2 Hab) in E. congruence.
Qed.

(** Strictly increasing keys. *)
Definition increasing (l : list A) : Prop := StronglySorted (fun a b => lt (key a) (key b) = true) l.

Lemma sort_Slice_sorted l : StronglySorted (not_after lt key) (sort_Slice lt key l).
Proof using O. apply StronglySorted_merge_sort; apply _. Qed.

Lemma sort_Slice_increasing l : NoDup (map key l) -> increasing (sort_Slice lt key l).
Proof using O.
  intros Hnd. pose proof (sort_Slice_sorted l) as Hs.
  assert (Hnd' : NoDup (map key (sort_Slice lt key l))) by (by rewrite sort_Slice_Permutation).
  unfold increasing. induction Hs as [|a l' Hs IH Ha]; [constructor|].
  apply NoDup_cons in Hnd' as [Hn Hnd']. constructor; [by apply IH|].
  rewrite Forall_forall in Ha |- *. intros b Hb. specialize (Ha b Hb). unfold not_after in Ha.
  destruct (lt (key a) (key b)) eqn:E; [done|]. destruct Hn.
  rewrite (key_total _ _ E Ha). by apply list_elem_of_fmap_2.
Qed.

(** Increasing lists with the elements of one among those of the other. *)
Lemma increasing_sublist l1 l2 :
  increasing l1 -> increasing l2 -> l1 ⊆ l2 -> sublist l1 l2.
Proof using O.
  intros H1 H2. revert l1 H1. unfold increasing.
  induction H2 as [|b l2 H2 IH Hb]; intros l1 H1 Hsub.
  - destruct l1 as [|a l1]; [constructor|]. exfalso. apply (not_elem_of_nil a), Hsub. left.
  - destruct H1 as [|a l1 H1 Ha]; [apply sublist_nil_l|].
    rewrite Forall_forall in Ha, Hb.
    destruct (proj1 (elem_of_cons l2 a b) (Hsub a ltac:(left))) as [->|Hin].
    + apply sublist_skip, IH; [done|]. intros c Hc. pose proof (Ha c Hc) as Hlt.
      destruct (proj1 (elem_of_cons l2 c b) (Hsub c ltac:(by right))) as [->|]; [|done].
      by rewrite key_irrefl in Hlt.
    + apply sublist_cons, IH; [by constructor; [|apply Forall_forall]|]. intros c Hc.
      destruct (proj1 (elem_of_cons l2 c b) (Hsub c Hc)) as [->|]; [|done].
      pose proof (key_asym _ _ (Hb a Hin)) as Hn.
      apply elem_of_cons in Hc as [->|Hc]; [done|]. by rewrite (Ha b Hc) in Hn.
Qed.

Lemma increasing_unique l1 l2 : increasing l1 -> increasing l2 -> l1 ≡ₚ l2 -> l1 = l2.
Proof using O.
  intros H1 H2 Hp. apply (anti_symm sublist); (apply increasing_sublist; [done..|]);
    intros x; by rewrite Hp.
Qed.

(** Any algorithm that sorts gives the same result on distinct keys. *)
Lemma sort_Slice_unique l l' :
  NoDup (map key l) -> l' ≡ₚ l -> increasing l' -> sort_Slice lt key l = l'.
Proof using O.
  intros Hnd Hp Hi. apply increasing_unique; [by apply sort_Slice_increasing|done|].
  by rewrite sort_Slice_Permutation.
Qed.

Lemma sort_Slice_sublist l1 l2 :
  NoDup (map key l1) -> NoDup (map key l2) -> l1 ⊆ l2 ->
  sublist (sort_Slice lt key l1) (sort_Slice lt key l2).
Proof using O.
  intros H1 H2 Hsub. apply increasing_sublist; [by apply sort_Slice_increasing..|].
  intros x. rewrite !sort_Slice_elem. apply Hsub.
Qed.
End Sorting.

(** ** [encoding/hex] *)

Definition hex_digit (n : Z) : byte := Z_byte (if n <? 10 then 48 + n else 87 + n).

Definition hex_value (b : byte) : option Z :=
  let c := byte_Z b in
  if (48 <=? c) && (c <=? 57) then Some (c - 48)
  else if (97 <=? c) && (c <=? 102) then Some (c - 87)
  else if (65 <=? c) && (c <=? 70) then Some (c - 55)
  else None.

Definition EncodeToString (l : bytes) : gostring :=
  concat (map (fun b => [hex_digit (byte_Z b / 16); hex_digit (byte_Z b mod 16)]) l).

(** [None] is an invalid byte or an odd length. *)
Fixpoint DecodeString (s : gostring) : option bytes :=
  match s with
  | [] => Some []
  | [_] => None
  | a :: b :: rest =>
      match hex_value a, hex_value b, DecodeString rest with
      | Some x, Some y, Some l => Some (Z_byte (x * 16 + y) :: l)
      | _, _, _ => None
      end
  end.

Lemma hex_value_digit n : 0 <= n < 16 -> hex_value (hex_digit n) = Some n.
Proof.
  intros Hn. unfold hex_value, hex_digit. destruct (Z.ltb_spec n 10).
  - rewrite byte_Z_byte by lia. rewrite (proj2 (Z.leb_le _ _)) by lia.
    rewrite (proj2 (Z.leb_le _ _)) by lia. cbn. f_equal. lia.
  - rewrite byte_Z_byte by lia. replace (87 + n <=? 57) with false by lia. rewrite andb_false_r.
    replace (97 <=? 87 + n) with true by lia. replace (87 + n <=? 102) with true by lia.
    cbn. f_equal. lia.
Qed.

Lemma DecodeString_Encode l : DecodeString (EncodeToString l) = Some l.
Proof.
  induction l as [|b l IH]; [done|]. change (EncodeToString (b :: l)) with
    (hex_digit (byte_Z b / 16) :: hex_digit (byte_Z b mod 16) :: EncodeToString l).
  cbn [DecodeString]. pose proof (byte_Z_range b).
  rewrite !hex_value_digit, IH by (Z.to_euclidean_division_equations; lia).
  rewrite (Z.mul_comm _ 16), <- (Z.div_mod (byte_Z b) 16) by lia. by rewrite Z_byte_Z.
Qed.

Lemma len_EncodeToString l : len (EncodeToString l) = 2 * len l.
Proof.
  induction l as [|b l IH]; [done|]. change (EncodeToString (b :: l)) with
    (hex_digit (byte_Z b / 16) :: hex_digit (byte_Z b mod 16) :: EncodeToString l).
  rewrite !len_cons, IH. lia.
Qed.

(** ** Decimals *)

(** The digits of [n], most significant first; [fuel] bounds their number. *)
Fixpoint digits (fuel : nat) (n : Z) (acc : gostring) : gostring :=
  match fuel with
  | O => acc
  | S fuel' =>
      let acc' := Z_byte (48 + n mod 10) :: acc in
      if n <? 10 then acc' else digits fuel' (n / 10) acc'
  end.

(** A number has at most as many decimal digits as binary ones. *)
Definition dec_nonneg (n : Z) : gostring := digits (S (Z.to_nat (Z.log2 n))) n [].

(** [%d] and [strconv.FormatUint(n, 10)]. *)
Definition fmt_d (n : Z) : gostring :=
  if n <? 0 then gostr "-" ++ dec_nonneg (- n) else dec_nonneg n.

(** [%.nf] of a [float64]: the exact value rounded to [prec] decimals, ties to
    even. *)
Definition fmt_f (prec : nat) (x : float64) : gostring :=
  let sign (s : bool) := if s then gostr "-" else [] in
  let fixed (n : Z) :=
    let frac := dec_nonneg (n mod 10 ^ Z.of_nat prec) in
    dec_nonneg (n / 10 ^ Z.of_nat prec) ++
    (if Nat.eqb prec 0 then []
     else gostr "." ++ replicate (prec - length frac) x30 ++ frac) in
  match x with
  | S754_nan => gostr "NaN"
  | S754_infinity s => (if s then gostr "-" else gostr "+") ++ gostr "Inf"
  | S754_zero s => sign s ++ fixed 0
  | S754_finite s m e =>
      sign s ++
      fixed (if 0 <=? e then Zpos m * 10 ^ Z.of_nat prec * 2 ^ e
             else round_at (Zpos m * 10 ^ Z.of_nat prec) (- e))
  end.

(** ** Runes *)

Definition RuneError : Z := 65533.

Definition continuation (b : byte) : Z := byte_Z b - 128.

(** [utf8.DecodeRuneInString]: the first rune and its width; an invalid
    encoding is [RuneError] of width 1, the empty string of width 0. *)
Definition decode_rune (s : bytes) : Z * nat :=
  match s with
  | [] => (RuneError, 0%nat)
  | b0 :: t =>
      if in_range 0 127 b0 then (byte_Z b0, 1%nat)
      else
        let two := match t with
          | b1 :: _ => if in_range 128 191 b1
                       then Some ((byte_Z b0 - 192) * 64 + continuation b1) else None
          | _ => None end in
        let three lo hi := match t with
          | b1 :: b2 :: _ =>
              if in_range lo hi b1 && in_range 128 191 b2
              then Some ((byte_Z b0 - 224) * 4096 + continuation b1 * 64 + continuation b2)
              else None
          | _ => None end in
        let four lo hi := match t with
          | b1 :: b2 :: b3 :: _ =>
              if in_range lo hi b1 && in_range 128 191 b2 && in_range 128 191 b3
              then Some ((byte_Z b0 - 240) * 262144 + continuation b1 * 4096
                         + continuation b2 * 64 + continuation b3)
              else None
          | _ => None end in
        let answer (r : option Z) (width : nat) :=
          match r with Some r => (r, width) | None => (RuneError, 1%nat) end in
        if in_range 194 223 b0 then answer two 2%nat
        else if in_range 224 224 b0 then answer (three 160 191) 3%nat
        else if in_range 225 236 b0 then answer (three 128 191) 3%nat
        else if in_range 237 237 b0 then answer (three 128 159) 3%nat
        else if in_range 238 239 b0 then answer (three 128 191) 3%nat
        else if in_range 240 240 b0 then answer (four 144 191) 4%nat
        else if in_range 241 243 b0 then answer (four 128 191) 4%nat
        else if in_range 244 244 b0 then answer (four 128 143) 4%nat
        else (RuneError, 1%nat)
  end.

(** ** Quoting

    The tables of printable runes beyond Latin-1 depend on the version of
    Unicode: they are a parameter. *)
Class Unicode := { IsPrint_table : Z -> bool }.

Section Quote.
Context {U : Unicode}.

(** [strconv.IsPrint]. *)
Definition IsPrint (r : Z) : bool :=
  if r <=? 255 then
    if (32 <=? r) && (r <? 127) then true
    else if (161 <=? r) && (r <=? 255) then negb (r =? 173)
    else false
  else IsPrint_table r.

Definition lowerhex (r : Z) (shift : Z) : byte := hex_digit (Z.land (Z.shiftr r shift) 15).

(** The rune [r], encoded as the bytes [enc]. *)
Definition appendEscapedRune (r : Z) (enc : bytes) : gostring :=
  if (r =? 34) || (r =? 92) then [x5c; Z_byte r]
  else if IsPrint r then enc
  else if r =? 7 then gostr "\a"
  else if r =? 8 then gostr "\b"
  else if r =? 12 then gostr "\f"
  else if r =? 10 then gostr "\n"
  else if r =? 13 then gostr "\r"
  else if r =? 9 then gostr "\t"
  else if r =? 11 then gostr "\v"
  else if (r <? 32) || (r =? 127) then gostr "\x" ++ map (lowerhex r) [4; 0]
  else if r <? 65536 then gostr "\u" ++ map (lowerhex r) [12; 8; 4; 0]
  else gostr "\U" ++ map (lowerhex r) [28; 24; 20; 16; 12; 8; 4; 0].

Fixpoint quote_runes (fuel : nat) (s : bytes) : gostring :=
  match fuel, s with
  | O, _ | _, [] => []
  | S fuel', b :: _ =>
      let '(r, width) := decode_rune s in
      (if Nat.eqb width 1 && (r =? RuneError) then gostr "\x" ++ map (lowerhex (byte_Z b)) [4; 0]
       else appendEscapedRune r (take width s))
      ++ quote_runes fuel' (drop width s)
  end.

(** [strconv.Quote], the verb [%q]. *)
Definition Quote (s : gostring) : gostring :=
  [x22] ++ quote_runes (length s) s ++ [x22].
End Quote.

(** No line breaks: what [%d], [%x], [%q] and [%.nf] print stays on its line. *)
Definition one_line (s : gostring) : bool := forallb (fun b => negb (byte_Z b =? 10)) s.

Lemma one_line_app a b : one_line (a ++ b) = one_line a && one_line b.
Proof. apply forallb_app. Qed.

Lemma digits_one_line fuel n acc : one_line acc = true -> one_line (digits fuel n acc) = true.
Proof.
  revert n acc. induction fuel as [|fuel IH]; intros n acc H; [done|]. cbn [digits].
  assert (one_line (Z_byte (48 + n mod 10) :: acc) = true).
  { cbn. rewrite byte_Z_byte by (pose proof (Z.mod_pos_bound n 10); lia). apply andb_true_iff.
    split; [|done]. pose proof (Z.mod_pos_bound n 10). lia. }
  destruct (n <? 10); [done|]. by apply IH.
Qed.

Lemma fmt_d_one_line n : one_line (fmt_d n) = true.
Proof.
  unfold fmt_d, dec_nonneg. destruct (n <? 0); [rewrite one_line_app|]; by rewrite digits_one_line.
Qed.

Lemma fmt_f_one_line prec x : one_line (fmt_f prec x) = true.
Proof.
  assert (Hr : forall n, one_line (replicate n x30) = true) by (intros n; by induction n).
  destruct x as [s|s| |s m e]; cbn [fmt_f]; [|by destruct s|done|]; rewrite one_line_app;
    (apply andb_true_iff; split; [by destruct s|]); rewrite one_line_app; unfold dec_nonneg at 1;
    rewrite digits_one_line by done; destruct (Nat.eqb prec 0); try done; cbn [andb];
    rewrite !one_line_app, Hr; unfold dec_nonneg; by rewrite digits_one_line.
Qed.

Lemma in_range_true lo hi b : in_range lo hi b = true <-> lo <= byte_Z b <= hi.
Proof. unfold in_range. lia. Qed.

(** The cases of a decoded rune, with the ranges of its bytes. *)
Ltac decode_cases H :=
  cbv zeta in H;
  repeat match type of H with
    | context [match ?c with _ => _ end] =>
        lazymatch c with context [match _ with _ => _ end] => fail | _ => destruct c eqn:? end
    end;
  injection H as <- <-;
  repeat match goal with
    | H : _ && _ = true |- _ => apply andb_prop in H as [? ?]
    | H : in_range _ _ _ = true |- _ => apply in_range_true in H
    end.

Lemma decode_rune_bytes s r w :
  decode_rune s = (r, w) -> Nat.eqb w 1 && (r =? RuneError) = false ->
  (exists b t, s = b :: t /\ w = 1%nat /\ r = byte_Z b) \/
  Forall (fun b => 128 <= byte_Z b) (take w s).
Proof.
  destruct s as [|b0 t]; [intros [= <- <-] _; right; constructor|].
  cbn [decode_rune]. destruct (in_range 0 127 b0) eqn:E0.
  { intros [= <- <-] _. left. by exists b0, t. }
  assert (128 <= byte_Z b0) as H0 by (unfold in_range in E0; pose proof (byte_Z_range b0); lia).
  intros H Hv. right.
  decode_cases H; cbn in Hv |- *; try discriminate; repeat constructor; lia.
Qed.

Lemma lowerhex_one_line r shifts : one_line (map (lowerhex r) shifts) = true.
Proof.
  induction shifts as [|k shifts IH]; [done|]. cbn [map one_line forallb]. fold (one_line (map (lowerhex r) shifts)).
  rewrite IH, andb_true_r. unfold lowerhex, hex_digit.
  change 15 with (Z.ones 4). rewrite Z.land_ones by lia. change (2 ^ 4) with 16.
  pose proof (Z.mod_pos_bound (Z.shiftr r k) 16 ltac:(lia)).
  rewrite byte_Z_byte; destruct (_ <? 10) eqn:E; lia.
Qed.

Lemma escaped_one_line {U : Unicode} r enc :
  (r <> 10 -> one_line enc = true) -> 0 <= r -> one_line (appendEscapedRune r enc) = true.
Proof.
  intros Henc Hr. unfold appendEscapedRune.
  destruct ((r =? 34) || (r =? 92)) eqn:E.
  { cbn. rewrite byte_Z_byte by lia. lia. }
  destruct (IsPrint r) eqn:Ep.
  { apply Henc. intros ->. discriminate Ep. }
  repeat case_match; try done; by rewrite one_line_app, lowerhex_one_line.
Qed.

Lemma EncodeToString_one_line l : one_line (EncodeToString l) = true.
Proof.
  induction l as [|b l IH]; [done|]. change (EncodeToString (b :: l)) with
    ([hex_digit (byte_Z b / 16); hex_digit (byte_Z b mod 16)] ++ EncodeToString l).
  rewrite one_line_app, IH, andb_true_r. pose proof (byte_Z_range b).
  assert (Hd : forall n, 0 <= n < 16 -> negb (byte_Z (hex_digit n) =? 10) = true).
  { intros n Hn. unfold hex_digit. destruct (n <? 10) eqn:E; rewrite byte_Z_byte by lia; lia. }
  cbn [one_line forallb]. rewrite !Hd by (Z.to_euclidean_division_equations; lia). done.
Qed.

Lemma decode_rune_nonneg s r w : decode_rune s = (r, w) -> 0 <= r.
Proof.
  unfold decode_rune, RuneError, continuation. destruct s as [|b0 t]; [intros [= <- <-]; lia|].
  intros H. pose proof (byte_Z_range b0).
  decode_cases H; lia.
Qed.

(** A quoted string is on one line, whatever it quotes. *)
Lemma Quote_one_line {U : Unicode} s : one_line (Quote s) = true.
Proof.
  unfold Quote. rewrite !one_line_app, andb_true_r. cbn [one_line forallb app andb].
  assert (H : forall fuel s, one_line (quote_runes fuel s) = true); [|by rewrite H].
  clear s. intros fuel. induction fuel as [|fuel IH]; intros s; [by destruct s|].
  destruct s as [|b s']; [done|]. cbn [quote_runes]. set (s := b :: s').
  destruct (decode_rune s) as [r w] eqn:Ed. rewrite one_line_app, IH, andb_true_r.
  destruct (Nat.eqb w 1 && (r =? RuneError)) eqn:Ev; [by rewrite one_line_app, lowerhex_one_line|].
  apply escaped_one_line; [|by eapply decode_rune_nonneg]. intros Hr.
  destruct (decode_rune_bytes s r w Ed Ev) as [(b' & t & [= -> ->] & -> & ->)|Hall].
  - cbn. rewrite take_0. cbn. lia.
  - apply forallb_forall. intros x Hx%list_elem_of_In. rewrite Forall_forall in Hall.
    specialize (Hall x Hx). lia.
Qed.

Example Quote_example :
  Quote (U := {| IsPrint_table := fun _ => true |})
    [x67; x22; x0a; xc3; xa9; xff; xe2; x80; xa8; x01; x5c]
  = x22 :: gostr "g\" ++ [x22] ++ gostr "\n" ++ [xc3; xa9] ++ gostr "\xff" ++ [xe2; x80; xa8]
    ++ gostr "\x01\\" ++ [x22].
Proof. reflexivity. Qed.

Example fmt_f_example :
  fmt_f 4 (S754_finite false 5404319552844595 (-53)) = gostr "0.6000" /\
  fmt_f 2 f64_one = gostr "1.00" /\ fmt_f 0 (S754_finite false 4503599627370496 (-53)) = gostr "0" /\
  fmt_f 1 (S754_finite true 5629499534213120 (-52)) = gostr "-1.2" /\ fmt_d (-120) = gostr "-120".
Proof. vm_compute. done. Qed.

(** ** Classes of characters *)

Definition is_lower (b : byte) : bool := in_range 97 122 b.
Definition is_upper (b : byte) : bool := in_range 65 90 b.
Definition is_digit (b : byte) : bool := in_range 48 57 b.
Definition is_dash (b : byte) : bool := byte_Z b =? 45.
Definition is_underscore (b : byte) : bool := byte_Z b =? 95.
