(* ===== verification/Strconv.v ===== *)
(** * Parsing text

    What the sources use of [strings], [strconv], [time] and [unicode/utf8] to
    read text: [strings.TrimSpace], [strconv.ParseUint], [strconv.ParseInt],
    [strconv.ParseBool], [strconv.ParseFloat], [time.ParseDuration] and
    [utf8.DecodeLastRuneInString].  Callers only ask whether a parser failed: an
    error is [None]. *)

From S2P Require Import Prelude Float Text.

(** ** The last rune *)

(** [utf8.RuneStart]: not a continuation byte. *)
Definition RuneStart (b : byte) : bool := negb (in_range 128 191 b).

(** How far the loop moves [start] back from the last byte; [before] are the
    bytes before that, last first.  Where there is no first byte of a rune the
    loop moves one further, and the last byte is invalid just the same. *)
Fixpoint back_to_start (steps : nat) (before : bytes) : nat :=
  match steps, before with
  | S steps', b :: before' => if RuneStart b then 1 else S (back_to_start steps' before')
  | _, _ => 0
  end%nat.

(** [utf8.DecodeLastRuneInString]: the last rune and its width. *)
Definition decode_last_rune (s : bytes) : Z * nat :=
  match rev s with
  | [] => (RuneError, 0%nat)
  | b :: before =>
      if in_range 0 127 b then (byte_Z b, 1%nat)
      else
        let start := (length before - back_to_start 3 before)%nat in
        let '(r, size) := decode_rune (drop start s) in
        if Nat.eqb (start + size) (length s) then (r, size) else (RuneError, 1%nat)
  end.

(** ** [strings.TrimSpace] *)

(** [unicode.IsSpace]: the property [White_Space]. *)
Definition IsSpace (r : Z) : bool :=
  existsb (Z.eqb r) [9; 10; 11; 12; 13; 32; 133; 160; 5760; 8232; 8233; 8239; 8287; 12288]
  || ((8192 <=? r) && (r <=? 8202)).

Fixpoint trim_left (fuel : nat) (s : gostring) : gostring :=
  match fuel with
  | O => s
  | S fuel' =>
      let '(r, w) := decode_rune s in
      if negb (Nat.eqb w 0) && IsSpace r then trim_left fuel' (drop w s) else s
  end.

Fixpoint trim_right (fuel : nat) (s : gostring) : gostring :=
  match fuel with
  | O => s
  | S fuel' =>
      let '(r, w) := decode_last_rune s in
      if negb (Nat.eqb w 0) && IsSpace r then trim_right fuel' (take (length s - w) s) else s
  end.

Definition TrimSpace (s : gostring) : gostring :=
  let s := trim_left (length s) s in trim_right (length s) s.

(** ** Digits *)

Definition digit (b : byte) : option Z :=
  if in_range 48 57 b then Some (byte_Z b - 48) else None.

(** [lower(c)]: sets the bit of lower case letters. *)
Definition lower (b : byte) : Z := Z.lor (byte_Z b) 32.

(** A sign at the start: whether it is a minus, and what follows. *)
Definition strip_sign (s : gostring) : bool * gostring :=
  match s with
  | x2b :: rest => (false, rest)
  | x2d :: rest => (true, rest)
  | _ => (false, s)
  end.

(** ** [strconv.ParseUint(s, 10, bitSize)] *)

(** The loop: [n] is a [uint64]. *)
Fixpoint parse_uint_loop (maxVal n : Z) (s : gostring) : option Z :=
  match s with
  | [] => Some n
  | c :: rest =>
      match digit c with
      | None => None
      | Some d =>
          if MaxUint64 / 10 + 1 <=? n then None
          else
            let n := u64 (n * 10) in
            let n1 := u64_add n d in
            if (n1 <? n) || (maxVal <? n1) then None else parse_uint_loop maxVal n1 rest
      end
  end.

Definition ParseUint (s : gostring) (bitSize : Z) : option Z :=
  match s with
  | [] => None
  | _ => parse_uint_loop (2 ^ bitSize - 1) 0 s
  end.

(** ** [strconv.ParseInt(s, 10, bitSize)] *)

Definition ParseInt (s : gostring) (bitSize : Z) : option Z :=
  let '(neg, digits) := strip_sign s in
  match ParseUint digits bitSize with
  | None => None
  | Some un =>
      let cutoff := 2 ^ (bitSize - 1) in
      if negb neg && (cutoff <=? un) then None
      else if neg && (cutoff <? un) then None
      else Some (if neg then - un else un)
  end.

(** ** [strconv.ParseBool] *)

Definition ParseBool (str : gostring) : option bool :=
  if existsb (fun w => bool_decide (str = gostr w)) ["1"; "t"; "T"; "true"; "TRUE"; "True"]%string
  then Some true
  else if existsb (fun w => bool_decide (str = gostr w)) ["0"; "f"; "F"; "false"; "FALSE"; "False"]%string
  then Some false
  else None.

(** ** [strconv.ParseFloat]

    [precision] and [emax] are those of the format: 53 and 1024 for 64 bits, 24
    and 128 for 32 bits. *)

(** Equal up to the case of letters, for a word of lower case letters. *)
Definition equal_fold (word : string) (s : gostring) : bool :=
  let w := gostr word in
  Nat.eqb (length s) (length w) &&
  forallb (fun '(a, b) => (in_range 65 90 a || in_range 97 122 a) && (lower a =? byte_Z b))
    (combine s w).

Definition special (s : gostring) : option float64 :=
  let inf (sign : bool) (s : gostring) :=
    if equal_fold "inf" s || equal_fold "infinity" s then Some (S754_infinity sign) else None in
  match s with
  | x2b :: rest => inf false rest
  | x2d :: rest => inf true rest
  | _ => if equal_fold "nan" s then Some S754_nan else inf false s
  end.

(** The digits of the mantissa: the number they are, how many stand after the
    point, whether a point and a digit were seen. *)
Record mantissa := MkMantissa {
  mt_value : Z;
  mt_fraction : Z;
  mt_sawdot : bool;
  mt_sawdigits : bool
}.

Definition mantissa_digit (base : Z) (c : byte) : option Z :=
  if in_range 48 57 c then Some (byte_Z c - 48)
  else if (base =? 16) && (97 <=? lower c) && (lower c <=? 102) then Some (lower c - 97 + 10)
  else None.

Fixpoint read_mantissa (base : Z) (mt : mantissa) (s : gostring) : mantissa * gostring :=
  match s with
  | [] => (mt, [])
  | c :: rest =>
      if byte_Z c =? 95 then read_mantissa base mt rest
      else if byte_Z c =? 46 then
        if mt_sawdot mt then (mt, s)
        else read_mantissa base (MkMantissa (mt_value mt) (mt_fraction mt) true (mt_sawdigits mt)) rest
      else
        match mantissa_digit base c with
        | Some d =>
            read_mantissa base
              (MkMantissa (mt_value mt * base + d)
                 (if mt_sawdot mt then mt_fraction mt + 1 else mt_fraction mt) (mt_sawdot mt) true) rest
        | None => (mt, s)
        end
  end.

(** The digits of the exponent, which stops growing at 10000. *)
Fixpoint read_exponent (e : Z) (s : gostring) : Z * gostring :=
  match s with
  | c :: rest =>
      if byte_Z c =? 95 then read_exponent e rest
      else
        match digit c with
        | Some d => read_exponent (if e <? 10000 then e * 10 + d else e) rest
        | None => (e, s)
        end
  | [] => (e, [])
  end.

(** [underscoreOK]: underscores only between digits, or after a base prefix. *)
Inductive underscore_state := AtStart | AtDigit | AtUnderscore | AtOther.

Fixpoint underscores_ok (hex : bool) (st : underscore_state) (s : gostring) : bool :=
  match s with
  | [] => match st with AtUnderscore => false | _ => true end
  | c :: rest =>
      if is_digit c || (hex && (97 <=? lower c) && (lower c <=? 102))
      then underscores_ok hex AtDigit rest
      else if byte_Z c =? 95 then
        match st with AtDigit => underscores_ok hex AtUnderscore rest | _ => false end
      else match st with AtUnderscore => false | _ => underscores_ok hex AtOther rest end
  end.

Definition underscoreOK (s : gostring) : bool :=
  let s := (strip_sign s).2 in
  match s with
  | x30 :: c :: rest =>
      if existsb (Z.eqb (lower c)) [98; 111; 120]
      then underscores_ok (lower c =? 120) AtDigit rest
      else underscores_ok false AtStart s
  | _ => underscores_ok false AtStart s
  end.

Section ParseFloat.
Context (precision emax : Z).

(** The number of the format nearest to [m * 10 ^ e] and to [m * 2 ^ e], ties to even. *)
Definition round_decimal_to (neg : bool) (m e : Z) : spec_float :=
  match m with
  | Zpos _ =>
      if 0 <=? e then
        match m * 10 ^ e with
        | Zpos p => binary_round precision emax neg p 0
        | _ => S754_zero neg
        end
      else
        let '(q, f, l) := SFdiv_core_binary precision emax m 0 (10 ^ (- e)) 0 in
        binary_round_aux precision emax neg q f l
  | _ => S754_zero neg
  end.

Definition round_binary_to (neg : bool) (m e : Z) : spec_float :=
  match m with
  | Zpos p => binary_round precision emax neg p e
  | _ => S754_zero neg
  end.

(** A base prefix that something follows. *)
Definition hex_prefix (body : gostring) : bool * gostring :=
  match body with
  | b :: c :: _ :: _ =>
      if bool_decide (b = x30) && (lower c =? 120) then (true, drop 2 body) else (false, body)
  | _ => (false, body)
  end.

(** [readFloat] of the whole string, and the number it denotes. *)
Definition read_float_to (s : gostring) : option spec_float :=
  let '(neg, body) := strip_sign s in
  let '(hex, body) := hex_prefix body in
  let base := if hex then 16 else 10 in
  let '(mt, rest) := read_mantissa base (MkMantissa 0 0 false false) body in
  if negb (mt_sawdigits mt) then None
  else
    let value (e : Z) : spec_float :=
      if hex then round_binary_to neg (mt_value mt) (e - 4 * mt_fraction mt)
      else round_decimal_to neg (mt_value mt) (e - mt_fraction mt) in
    let checked (x : spec_float) : option spec_float :=
      if existsb (fun c => byte_Z c =? 95) s && negb (underscoreOK s) then None else Some x in
    match rest with
    | [] => if hex then None else checked (value 0)
    | c :: rest =>
        if negb (lower c =? (if hex then 112 else 101)) then None
        else
          let '(eneg, exponent) := strip_sign rest in
          match exponent with
          | [] => None
          | d :: _ =>
              if negb (is_digit d) then None
              else
                let '(e, rest) := read_exponent 0 exponent in
                match rest with
                | [] => checked (value (if eneg then - e else e))
                | _ => None
                end
          end
    end.

(** A number out of range is an error. *)
Definition ParseFloat_to (s : gostring) : option spec_float :=
  match special s with
  | Some x => Some x
  | None =>
      match read_float_to s with
      | Some (S754_infinity _) => None
      | other => other
      end
  end.
End ParseFloat.

(** [strconv.ParseFloat(s, 64)] and [strconv.ParseFloat(s, 32)]. *)
Definition ParseFloat : gostring -> option float64 := ParseFloat_to 53 1024.
Definition ParseFloat32 : gostring -> option spec_float := ParseFloat_to 24 128.

Definition round_binary : bool -> Z -> Z -> float64 := round_binary_to 53 1024.

(** ** [time.ParseDuration] *)

Definition Nanosecond : Z := 1.
Definition Microsecond : Z := 1000.
Definition Millisecond : Z := 1000000.
Definition Second : Z := 1000000000.
Definition Minute : Z := 60000000000.
Definition Hour : Z := 3600000000000.

(** [leadingInt]: the number that starts [s] and what follows. *)
Fixpoint leadingInt (x : Z) (s : gostring) : option (Z * gostring) :=
  match s with
  | [] => Some (x, [])
  | c :: rest =>
      match digit c with
      | None => Some (x, s)
      | Some d =>
          if two63 / 10 <? x then None
          else
            let x := x * 10 + d in
            if two63 <? x then None else leadingInt x rest
      end
  end.

(** [leadingFraction]: the digits after the point as a number, and the power of
    ten to divide it by; digits that do not fit are skipped. *)
Fixpoint leadingFraction (x : Z) (scale : float64) (overflow : bool) (s : gostring) :
    Z * float64 * gostring :=
  match s with
  | [] => (x, scale, [])
  | c :: rest =>
      match digit c with
      | None => (x, scale, s)
      | Some d =>
          if overflow then leadingFraction x scale true rest
          else if (two63 - 1) / 10 <? x then leadingFraction x scale true rest
          else
            let y := x * 10 + d in
            if two63 <? y then leadingFraction x scale true rest
            else leadingFraction y (f64_mul scale (S754_finite false 5629499534213120 (-49))) false rest
      end
  end.

(** [unitMap]; microseconds are also written with the signs U+00B5 and U+03BC. *)
Definition unitMap (u : gostring) : option Z :=
  let eqs (word : bytes) := bool_decide (u = word) in
  if eqs (gostr "ns") then Some Nanosecond
  else if eqs (gostr "us") || eqs [xc2; xb5; x73] || eqs [xce; xbc; x73] then Some Microsecond
  else if eqs (gostr "ms") then Some Millisecond
  else if eqs (gostr "s") then Some Second
  else if eqs (gostr "m") then Some Minute
  else if eqs (gostr "h") then Some Hour
  else None.

(** The unit: up to the next point or digit. *)
Fixpoint span_unit (s : gostring) : gostring * gostring :=
  match s with
  | [] => ([], [])
  | c :: rest =>
      if (byte_Z c =? 46) || is_digit c then ([], s)
      else let '(u, rest') := span_unit rest in (c :: u, rest')
  end.

(** [float64(n)] and [uint64(x)] of numbers in range. *)
Definition f64_of_Z (n : Z) : float64 := round_binary false n 0.
Definition truncate (x : float64) : Z :=
  match x with
  | S754_finite false m e => if 0 <=? e then Zpos m * 2 ^ e else Zpos m / 2 ^ (- e)
  | _ => 0
  end.

Definition f64_div : float64 -> float64 -> float64 := SFdiv 53 1024.

(** One element of the sum: its nanoseconds and what follows. *)
Definition duration_element (s : gostring) : option (Z * gostring) :=
  match s with
  | [] => None
  | c :: _ =>
      if negb ((byte_Z c =? 46) || is_digit c) then None
      else
        match leadingInt 0 s with
        | None => None
        | Some (v, rest) =>
            let pre := negb (Nat.eqb (length s) (length rest)) in
            let '(f, scale, post, rest) :=
              match rest with
              | x2e :: after =>
                  let '(f, scale, rest) := leadingFraction 0 f64_one false after in
                  (f, scale, negb (Nat.eqb (length after) (length rest)), rest)
              | _ => (0, f64_one, false, rest)
              end in
            if negb pre && negb post then None
            else
              let '(u, rest) := span_unit rest in
              match u, unitMap u with
              | [], _ | _, None => None
              | _, Some unit =>
                  if two63 / unit <? v then None
                  else
                    let v := v * unit in
                    if 0 <? f then
                      let v := u64_add v (truncate (f64_mul (f64_of_Z f) (f64_div (f64_of_Z unit) scale))) in
                      if two63 <? v then None else Some (v, rest)
                    else Some (v, rest)
              end
        end
  end.

(** The loop over the elements; every one of them takes a character. *)
Fixpoint duration_loop (fuel : nat) (d : Z) (s : gostring) : option Z :=
  match s, fuel with
  | [], _ => Some d
  | _, O => None
  | _, S fuel' =>
      match duration_element s with
      | None => None
      | Some (v, rest) =>
          let d := u64_add d v in
          if two63 <? d then None else duration_loop fuel' d rest
      end
  end.

Definition ParseDuration (s : gostring) : option Z :=
  let '(neg, s) := strip_sign s in
  if bool_decide (s = gostr "0") then Some 0
  else
    match s with
    | [] => None
    | _ =>
        match duration_loop (length s) 0 s with
        | None => None
        | Some d =>
            if neg then Some (int_of_u64 (u64 (- d)))
            else if two63 - 1 <? d then None else Some d
        end
    end.

(** ** Decimal numbers *)

Definition dec_value (s : gostring) : Z := foldl (fun n c => n * 10 + (byte_Z c - 48)) 0 s.

Lemma digit_Some b d : digit b = Some d <-> is_digit b = true /\ d = byte_Z b - 48.
Proof. unfold digit, is_digit. destruct (in_range 48 57 b); naive_solver. Qed.

Lemma is_digit_range b : is_digit b = true -> 0 <= byte_Z b - 48 <= 9.
Proof. unfold is_digit, in_range. lia. Qed.

Lemma dec_fold_mono n s :
  0 <= n -> forallb is_digit s = true -> n <= foldl (fun n c => n * 10 + (byte_Z c - 48)) n s.
Proof.
  revert n. induction s as [|c s IH]; intros n Hn Hs; cbn in *; [lia|]. prep_bool.
  apply is_digit_range in H as Hc. etrans; [|apply IH; [lia|done]]. lia.
Qed.

(** [ParseUint] accepts the decimal numbers in range, leading zeros included. *)
Lemma parse_uint_loop_spec maxVal n s m :
  0 <= n <= maxVal -> maxVal < two64 ->
  parse_uint_loop maxVal n s = Some m <->
    forallb is_digit s = true /\ m = foldl (fun n c => n * 10 + (byte_Z c - 48)) n s /\ m <= maxVal.
Proof.
  intros Hn Hmax. revert n Hn. induction s as [|c s IH]; intros n Hn; cbn [parse_uint_loop foldl forallb].
  { split; [intros [= <-]; split_and!; [done|done|lia]|]. by intros (_ & -> & _). }
  destruct (digit c) as [d|] eqn:Hd.
  - apply digit_Some in Hd as [Hc ->]. pose proof (is_digit_range c Hc). rewrite Hc.
    change (MaxUint64 / 10 + 1) with 1844674407370955162.
    destruct (Z.leb_spec 1844674407370955162 n) as [Hcut|Hcut].
    + split; [done|]. intros (Hs & -> & Hle).
      pose proof (dec_fold_mono (n * 10 + (byte_Z c - 48)) s ltac:(lia) Hs).
      unfold two64 in *. lia.
    + unfold u64_add. rewrite (u64_small (n * 10)) by clia.
      destruct (Z.le_gt_cases (n * 10 + (byte_Z c - 48)) maxVal) as [Hle|Hgt].
      * rewrite u64_small by clia. destruct (_ || _) eqn:E; [lia|]. rewrite IH by lia. done.
      * split.
        -- destruct (Z.le_gt_cases two64 (n * 10 + (byte_Z c - 48))) as [Hw|Hw].
           ++ destruct (_ || _) eqn:E; [done|]. unfold u64 in E.
              assert ((n * 10 + (byte_Z c - 48)) mod two64 = n * 10 + (byte_Z c - 48) - two64)
                by (symmetry; apply Z.mod_unique with 1; unfold two64 in *; lia).
              unfold two64 in *. lia.
           ++ rewrite u64_small by clia. destruct (_ || _) eqn:E; [done|lia].
        -- intros (Hs & -> & Hle). pose proof (dec_fold_mono (n * 10 + (byte_Z c - 48)) s ltac:(lia) Hs). lia.
  - split; [done|]. intros ([Hc _]%andb_prop & _). unfold digit in Hd. unfold is_digit in Hc. by rewrite Hc in Hd.
Qed.

Lemma ParseUint_spec s bitSize n :
  0 <= bitSize <= 64 ->
  ParseUint s bitSize = Some n <->
    s <> [] /\ forallb is_digit s = true /\ n = dec_value s /\ n <= 2 ^ bitSize - 1.
Proof.
  intros Hb. unfold ParseUint. destruct s as [|c s]; [split; [done|by intros [? _]]|].
  pose proof (Z.pow_pos_nonneg 2 bitSize ltac:(lia) ltac:(lia)).
  pose proof (Z.pow_le_mono_r 2 bitSize 64 ltac:(lia) ltac:(lia)) as Hmax. change (2 ^ 64) with two64 in Hmax.
  rewrite (parse_uint_loop_spec (2 ^ bitSize - 1)) by lia. naive_solver.
Qed.

(** ** Numbers are not NaN *)

Section NotNaN.
Context (precision emax : Z).

Lemma round_binary_not_nan neg m e : is_NaN (round_binary_to precision emax neg m e) = false.
Proof.
  unfold round_binary_to, binary_round. destruct m; [done| |done].
  destruct (shl_align _ _ _). by apply round_aux_not_nan.
Qed.

Lemma round_decimal_not_nan neg m e : is_NaN (round_decimal_to precision emax neg m e) = false.
Proof.
  unfold round_decimal_to. destruct m as [|p|p]; [done| |done]. destruct (0 <=? e) eqn:He.
  - destruct (Zpos p * 10 ^ e) as [|q|q]; [done| |done]. apply (round_binary_not_nan neg (Zpos q) 0).
  - unfold SFdiv_core_binary. cbv zeta. set (m' := match _ - _ - _ with Z0 => _ | Zpos _ => _ | Zneg _ => _ end).
    assert (0 <= m') by (unfold m'; case_match; [done| |done]; by apply Z.shiftl_nonneg).
    assert (0 < 10 ^ (- e)) as Hp by (apply Z.pow_pos_nonneg; lia).
    pose proof (Z_div_mod m' (10 ^ (- e)) ltac:(lia)) as Hdiv. destruct (Z.div_eucl _ _) as [q r].
    destruct Hdiv as [-> Hr]. apply round_aux_not_nan. nia.
Qed.

Lemma read_float_not_nan s x : read_float_to precision emax s = Some x -> is_NaN x = false.
Proof.
  unfold read_float_to. intros H. destruct (strip_sign s) as [neg body].
  destruct (hex_prefix body) as [hex body'].
  destruct (read_mantissa _ _ _) as [mt rest]. destruct (negb _); [done|]. cbv zeta in H.
  assert (Hv : forall e, is_NaN (if hex then round_binary_to precision emax neg (mt_value mt) (e - 4 * mt_fraction mt)
      else round_decimal_to precision emax neg (mt_value mt) (e - mt_fraction mt)) = false).
  { intros e. destruct hex; [apply round_binary_not_nan|apply round_decimal_not_nan]. }
  assert (Hc : forall e, (if existsb (fun c => byte_Z c =? 95) s && negb (underscoreOK s) then None
      else Some (if hex then round_binary_to precision emax neg (mt_value mt) (e - 4 * mt_fraction mt)
      else round_decimal_to precision emax neg (mt_value mt) (e - mt_fraction mt))) = Some x -> is_NaN x = false).
  { intros e. destruct (_ && _); [done|]. intros [= <-]. apply Hv. }
  destruct rest as [|c rest]; [destruct hex; [done|]; by apply (Hc 0)|].
  destruct (negb _); [done|]. destruct (strip_sign rest) as [eneg exponent].
  destruct exponent as [|d exponent]; [done|]. destruct (negb _); [done|].
  destruct (read_exponent 0 _) as [e rest']. destruct rest'; [|done]. by apply (Hc (if eneg then - e else e)).
Qed.

(** A text that starts with a digit or a minus sign denotes no NaN. *)
Lemma ParseFloat_not_nan b s x :
  b = x2d \/ is_digit b = true -> ParseFloat_to precision emax (b :: s) = Some x -> is_NaN x = false.
Proof.
  intros Hb. unfold ParseFloat_to.
  assert (Hs : forall y, special (b :: s) = Some y -> is_NaN y = false).
  { intros y H. unfold special in H. destruct Hb as [->|Hb].
    - destruct (_ || _); [by injection H as <-|done].
    - assert (E : equal_fold "nan" (b :: s) = false).
      { unfold equal_fold. cbn [gostr length combine]. destruct (Nat.eqb _ _); [|done]. destruct b; done. }
      destruct b; try discriminate Hb; rewrite E in H; destruct (_ || _); (done || by injection H as <-). }
  destruct (special (b :: s)) as [y|]; [intros [= ->]; by apply Hs|].
  destruct (read_float_to _ _ _) as [[| | |]|] eqn:E; try done; intros [= <-]; by apply read_float_not_nan in E.
Qed.
End NotNaN.

(** ** Numbers that are written are read again *)

Lemma dec_value_snoc ds b : dec_value (ds ++ [b]) = dec_value ds * 10 + (byte_Z b - 48).
Proof. unfold dec_value. by rewrite foldl_app. Qed.

Lemma digit_byte n : 0 <= n <= 9 -> is_digit (Z_byte (48 + n)) = true /\ byte_Z (Z_byte (48 + n)) = 48 + n.
Proof. intros Hn. unfold is_digit, in_range. rewrite byte_Z_byte by lia. lia. Qed.

Lemma digits_spec fuel n acc :
  0 <= n < 2 ^ Z.of_nat (S fuel) ->
  exists ds, digits (S fuel) n acc = ds ++ acc /\ ds <> [] /\ forallb is_digit ds = true /\ dec_value ds = n /\
    (n <> 0 -> hd_error ds <> Some x30).
Proof.
  assert (Hlast : forall n acc, 0 <= n < 10 -> exists ds, Z_byte (48 + n mod 10) :: acc = ds ++ acc /\ ds <> [] /\
    forallb is_digit ds = true /\ dec_value ds = n /\ (n <> 0 -> hd_error ds <> Some x30)).
  { clear. intros n acc Hn. rewrite Z.mod_small by lia. destruct (digit_byte n ltac:(lia)) as [Hd Hv].
    exists [Z_byte (48 + n)]. split_and!; [done|done|cbn [forallb]; by rewrite Hd| |].
    - unfold dec_value. cbn [foldl]. rewrite Hv. lia.
    - intros H0 [= H]. apply (f_equal byte_Z) in H. rewrite Hv in H. change (byte_Z x30) with 48 in H. lia. }
  revert n acc. induction fuel as [|fuel IH]; intros n acc Hn.
  { cbn [digits]. change (2 ^ Z.of_nat 1) with 2 in Hn. rewrite (proj2 (Z.ltb_lt n 10)) by lia. apply Hlast. lia. }
  cbn [digits]. fold digits. destruct (Z.ltb_spec n 10) as [Hlt|Hge]; [apply Hlast; lia|].
  pose proof (Z.mod_pos_bound n 10 ltac:(lia)) as Hm.
  destruct (digit_byte (n mod 10) ltac:(lia)) as [Hd Hv].
  assert (Hn' : 0 <= n / 10 < 2 ^ Z.of_nat (S fuel)).
  { rewrite Nat2Z.inj_succ, Z.pow_succ_r in Hn by lia. split; [apply Z.div_pos; lia|].
    apply Z.div_lt_upper_bound; lia. }
  destruct (IH (n / 10) (Z_byte (48 + n mod 10) :: acc) Hn') as (ds & E & Hne & Hds & Hval & Hhd).
  exists (ds ++ [Z_byte (48 + n mod 10)]). split_and!.
  - rewrite <- app_assoc. exact E.
  - by destruct ds.
  - rewrite forallb_app, Hds. cbn [forallb]. by rewrite Hd.
  - rewrite dec_value_snoc, Hval, Hv. pose proof (Z.div_mod n 10 ltac:(lia)). lia.
  - intros _. destruct ds as [|b ds]; [done|]. apply Hhd.
    pose proof (Z.div_le_lower_bound n 10 1 ltac:(lia) ltac:(lia)). lia.
Qed.

Lemma dec_nonneg_spec n :
  0 <= n ->
  dec_nonneg n <> [] /\ forallb is_digit (dec_nonneg n) = true /\ dec_value (dec_nonneg n) = n /\
  (n <> 0 -> hd_error (dec_nonneg n) <> Some x30).
Proof.
  intros Hn. unfold dec_nonneg.
  destruct (digits_spec (Z.to_nat (Z.log2 n)) n []) as (ds & E & H); [|by rewrite E, app_nil_r].
  split; [done|]. rewrite Nat2Z.inj_succ, Z2Nat.id by apply Z.log2_nonneg.
  destruct (Z.eq_dec n 0) as [->|]; [done|]. apply Z.log2_spec. lia.
Qed.

Lemma ParseInt_fmt_d n : - two63 <= n < two63 -> ParseInt (fmt_d n) 64 = Some n.
Proof.
  intros Hn. unfold ParseInt, fmt_d. change (2 ^ (64 - 1)) with two63.
  assert (Hu : forall m, 0 <= m <= two63 -> ParseUint (dec_nonneg m) 64 = Some m).
  { intros m Hm. apply ParseUint_spec; [lia|].
    destruct (dec_nonneg_spec m ltac:(lia)) as (H1 & H2 & H3 & _). split_and!; [done..|].
    change (2 ^ 64 - 1) with MaxUint64. clia. }
  destruct (Z.ltb_spec n 0) as [Hlt|Hge].
  - change (gostr "-") with [x2d]. cbn [app strip_sign]. rewrite Hu by lia. cbn [negb andb].
    rewrite (proj2 (Z.ltb_ge _ _)) by lia. f_equal. lia.
  - assert (Hs : strip_sign (dec_nonneg n) = (false, dec_nonneg n)).
    { destruct (dec_nonneg_spec n Hge) as (_ & Hd & _). destruct (dec_nonneg n) as [|b s]; [done|]. cbn in Hd.
      apply andb_prop in Hd as [Hd _]. by destruct b. }
    rewrite Hs, Hu by lia. cbn [negb andb]. by rewrite (proj2 (Z.leb_gt _ _)) by lia.
Qed.

Lemma ParseInt_range s n : ParseInt s 64 = Some n -> - two63 <= n < two63.
Proof.
  unfold ParseInt. destruct (strip_sign s) as [neg ds]. destruct (ParseUint ds 64) as [un|] eqn:E; [|done].
  apply ParseUint_spec in E as (_ & Hd & -> & _); [|lia].
  assert (0 <= dec_value ds) by (by apply dec_fold_mono). change (2 ^ (64 - 1)) with two63.
  assert (0 < two63) by clia.
  destruct neg; cbn [negb andb]; [destruct (Z.ltb_spec two63 (dec_value ds))|destruct (Z.leb_spec two63 (dec_value ds))];
    try done; intros [= <-]; lia.
Qed.

(** ** Numbers of a format *)

Section Valid.
Context (precision emax : Z) (Hprec : 1 < precision) (Hemax : precision < emax).

Lemma round_binary_valid neg m e : valid_binary precision emax (round_binary_to precision emax neg m e) = true.
Proof using Hprec Hemax. destruct m; [done| |done]. by apply binary_round_valid. Qed.

Lemma round_decimal_valid neg m e : valid_binary precision emax (round_decimal_to precision emax neg m e) = true.
Proof using Hprec Hemax.
  unfold round_decimal_to. destruct m as [|p|p]; [done| |done]. destruct (Z.leb_spec 0 e) as [He|He].
  - destruct (Zpos p * 10 ^ e) as [|q|q]; [done| |done]. by apply binary_round_valid.
  - destruct (SFdiv_core_binary _ _ _ _ _ _) as [[q f] l] eqn:E. eapply div_round_valid; [done..| |exact E].
    apply Z.pow_pos_nonneg; lia.
Qed.

Lemma read_float_valid s x : read_float_to precision emax s = Some x -> valid_binary precision emax x = true.
Proof using Hprec Hemax.
  unfold read_float_to. intros H. destruct (strip_sign s) as [neg body].
  destruct (hex_prefix body) as [hex body'].
  destruct (read_mantissa _ _ _) as [mt rest]. destruct (negb _); [done|]. cbv zeta in H.
  assert (Hc : forall e, (if existsb (fun c => byte_Z c =? 95) s && negb (underscoreOK s) then None
      else Some (if hex then round_binary_to precision emax neg (mt_value mt) (e - 4 * mt_fraction mt)
      else round_decimal_to precision emax neg (mt_value mt) (e - mt_fraction mt))) = Some x ->
      valid_binary precision emax x = true).
  { intros e. destruct (_ && _); [done|]. intros [= <-].
    destruct hex; [apply round_binary_valid|apply round_decimal_valid]. }
  destruct rest as [|c rest]; [destruct hex; [done|]; by apply (Hc 0)|].
  destruct (negb _); [done|]. destruct (strip_sign rest) as [eneg exponent].
  destruct exponent as [|d exponent]; [done|]. destruct (negb _); [done|].
  destruct (read_exponent 0 _) as [e rest']. destruct rest'; [|done]. by apply (Hc (if eneg then - e else e)).
Qed.

(** A text that starts with a digit, after a minus sign or not, is no special
    value. *)
Lemma equal_fold_digit word d t :
  gostr word <> [] -> is_digit d = true -> equal_fold word (d :: t) = false.
Proof.
  intros Hw Hd. unfold equal_fold. destruct (gostr word) as [|w ws]; [done|]. cbn [combine forallb].
  assert (in_range 65 90 d || in_range 97 122 d = false) as ->.
  { unfold is_digit, in_range in *. lia. }
  by rewrite andb_false_r.
Qed.

Lemma special_digit d t :
  is_digit d = true -> special (d :: t) = None /\ special (x2d :: d :: t) = None.
Proof.
  intros Hd. split; unfold special; cbv zeta; rewrite !equal_fold_digit by done; [|done].
  by destruct d.
Qed.

(** What such a text denotes is a finite number of the format. *)
Definition finite (x : spec_float) : Prop :=
  match x with S754_zero _ | S754_finite _ _ _ => True | _ => False end.

Definition number_of (x : spec_float) : Prop := valid_binary precision emax x = true /\ finite x.

Lemma ParseFloat_number_of s x :
  special s = None -> ParseFloat_to precision emax s = Some x -> number_of x.
Proof using Hprec Hemax.
  intros Hs. unfold ParseFloat_to. rewrite Hs.
  destruct (read_float_to precision emax s) as [[| | |]|] eqn:E; try done; intros [= <-];
    (split; [by eapply read_float_valid|]); try done.
  by apply read_float_not_nan in E.
Qed.

(** ** Writing a number exactly

    A number of a binary format is a decimal number with finitely many digits:
    its mantissa times a power of two, or times a power of five with a negative
    exponent. *)
Definition float_literal (x : spec_float) : gostring :=
  let signed (s : bool) (digits : gostring) := if s then x2d :: digits else digits in
  match x with
  | S754_zero s => signed s [x30]
  | S754_finite s m e =>
      signed s (if 0 <=? e then dec_nonneg (Zpos m * 2 ^ e)
                else dec_nonneg (Zpos m * 5 ^ (- e)) ++ x65 :: x2d :: dec_nonneg (- e))
  | _ => []
  end.

Lemma strip_sign_digit d t :
  is_digit d = true -> strip_sign (d :: t) = (false, d :: t).
Proof. intros Hd. by destruct d. Qed.

(** The digits of a mantissa, up to what is no digit. *)
Lemma read_mantissa_digits ds n saw tail :
  forallb is_digit ds = true -> (tail = [] \/ exists t, tail = x65 :: t) ->
  read_mantissa 10 (MkMantissa n 0 false saw) (ds ++ tail) =
    (MkMantissa (foldl (fun n c => n * 10 + (byte_Z c - 48)) n ds) 0 false
       (saw || negb (bool_decide (ds = []))), tail).
Proof.
  intros Hd Ht. revert n saw. induction ds as [|c ds IH]; intros n saw.
  - cbn [app foldl]. rewrite bool_decide_eq_true_2, orb_false_r by done.
    by destruct Ht as [->|[t ->]].
  - cbn [forallb] in Hd. apply andb_prop in Hd as [Hc Hd]. cbn [app read_mantissa foldl].
    pose proof (is_digit_range c Hc).
    destruct (Z.eqb_spec (byte_Z c) 95); [lia|]. destruct (Z.eqb_spec (byte_Z c) 46); [lia|].
    unfold mantissa_digit. unfold is_digit in Hc. rewrite Hc. cbn [mt_value mt_fraction mt_sawdot].
    rewrite (IH Hd). f_equal. f_equal. rewrite (bool_decide_eq_false_2 (c :: ds = [])) by done.
    by rewrite orb_true_r.
Qed.

Lemma read_exponent_digits e ds :
  0 <= e -> forallb is_digit ds = true -> foldl (fun n c => n * 10 + (byte_Z c - 48)) e ds < 10000 ->
  read_exponent e ds = (foldl (fun n c => n * 10 + (byte_Z c - 48)) e ds, []).
Proof.
  revert e. induction ds as [|c ds IH]; intros e He Hd Hlt; [done|]. cbn [forallb] in Hd.
  apply andb_prop in Hd as [Hc Hd]. pose proof (is_digit_range c Hc). cbn [read_exponent foldl] in *.
  pose proof (dec_fold_mono (e * 10 + (byte_Z c - 48)) ds ltac:(lia) Hd).
  destruct (Z.eqb_spec (byte_Z c) 95); [lia|]. unfold digit. unfold is_digit in Hc. rewrite Hc.
  rewrite (proj2 (Z.ltb_lt e 10000)) by lia. apply IH; [lia|done|done].
Qed.

Definition no_underscore (s : gostring) : Prop := existsb (fun c => byte_Z c =? 95) s = false.

Lemma digits_no_underscore ds : forallb is_digit ds = true -> no_underscore ds.
Proof.
  unfold no_underscore. induction ds as [|c ds IH]; intros Hd; [done|]. cbn [forallb existsb] in *.
  apply andb_prop in Hd as [Hc Hd]. rewrite (IH Hd). pose proof (is_digit_range c Hc). lia.
Qed.

Lemma no_underscore_app a b : no_underscore a -> no_underscore b -> no_underscore (a ++ b).
Proof. unfold no_underscore. intros Ha Hb. by rewrite existsb_app, Ha, Hb. Qed.

(** Reading decimal digits with or without a negative exponent. *)
Lemma read_float_digits (s : bool) ds tail e :
  ds <> [] -> forallb is_digit ds = true -> hd_error ds <> Some x30 \/ ds = [x30] ->
  (tail = [] /\ e = 0) \/
  (ds <> [x30] /\ exists es, tail = x65 :: x2d :: es /\ es <> [] /\ forallb is_digit es = true /\
     dec_value es < 10000 /\ e = - dec_value es) ->
  read_float_to precision emax ((if s then [x2d] else []) ++ ds ++ tail)
    = Some (round_decimal_to precision emax s (dec_value ds) e).
Proof.
  intros Hne Hd Hlead Htail. unfold read_float_to.
  destruct ds as [|d ds]; [done|].
  assert (Hd0 : is_digit d = true) by (cbn [forallb] in Hd; by apply andb_prop in Hd as [? _]).
  assert (strip_sign ((if s then [x2d] else []) ++ (d :: ds) ++ tail) = (s, (d :: ds) ++ tail)) as ->.
  { destruct s; [done|]. by apply strip_sign_digit. }
  assert (hex_prefix ((d :: ds) ++ tail) = (false, (d :: ds) ++ tail)) as ->.
  { unfold hex_prefix. cbn [app]. destruct (ds ++ tail) as [|c [|c' rest]] eqn:E; [done|done|].
    destruct Hlead as [Hx|[= -> ->]].
    - rewrite bool_decide_eq_false_2; [done|]. intros ->. by apply Hx.
    - destruct Htail as [[-> _]|[? _]]; [discriminate E|done]. }
  rewrite read_mantissa_digits; [|done|].
  2: { destruct Htail as [[-> _]|(_ & es & -> & _)]; [by left|right; by eexists]. }
  rewrite (bool_decide_eq_false_2 (d :: ds = [])) by done. cbn [orb negb mt_sawdigits mt_value mt_fraction].
  change (foldl (fun n c => n * 10 + (byte_Z c - 48)) 0 (d :: ds)) with (dec_value (d :: ds)).
  assert (Hus : existsb (fun c => byte_Z c =? 95) ((if s then [x2d] else []) ++ (d :: ds) ++ tail) = false).
  { apply no_underscore_app; [by destruct s|]. apply no_underscore_app; [by apply digits_no_underscore|].
    destruct Htail as [[-> _]|(_ & es & -> & _ & He & _)]; [done|].
    apply (no_underscore_app [x65; x2d] es); [done|by apply digits_no_underscore]. }
  rewrite Hus. cbn [andb].
  destruct Htail as [[-> ->]|(_ & es & -> & Hen & He & Hlt & ->)].
  - by rewrite Z.sub_0_r.
  - change (lower x65 =? 101) with true. cbn [negb strip_sign]. destruct es as [|c es]; [done|].
    assert (is_digit c = true) as -> by (cbn [forallb] in He; by apply andb_prop in He as [? _]). cbn [negb].
    rewrite read_exponent_digits; [|lia|done|exact Hlt].
    change (foldl (fun n c => n * 10 + (byte_Z c - 48)) 0 (c :: es)) with (dec_value (c :: es)).
    by rewrite Z.sub_0_r.
Qed.

Lemma special_digits (s : bool) ds tail :
  ds <> [] -> forallb is_digit ds = true -> special ((if s then [x2d] else []) ++ ds ++ tail) = None.
Proof.
  intros Hne Hd. destruct ds as [|d ds]; [done|]. cbn [forallb] in Hd. apply andb_prop in Hd as [Hd _].
  destruct (special_digit d (ds ++ tail) Hd) as [H1 H2]. by destruct s.
Qed.

Lemma ParseFloat_literal x :
  emax + precision < 10000 -> number_of x -> ParseFloat_to precision emax (float_literal x) = Some x.
Proof using Hprec Hemax.
  intros Hbig [Hv Hf]. destruct x as [s|s| |s m e]; try done.
  - unfold ParseFloat_to, float_literal.
    assert ((if s then [x2d; x30] else [x30]) = (if s then [x2d] else []) ++ [x30] ++ []) as -> by by destruct s.
    rewrite special_digits by done. rewrite (read_float_digits s [x30] [] 0); [done|done|done|by right|by left].
  - cbn [valid_binary] in Hv. unfold bounded, canonical_mantissa in Hv. apply andb_prop in Hv as [Hc%Z.eqb_eq He%Z.leb_le].
    assert (Hmin : SpecFloat.emin precision emax <= e) by (rewrite <- Hc; unfold SpecFloat.fexp; lia).
    unfold SpecFloat.emin in Hmin. unfold ParseFloat_to, float_literal. cbv zeta.
    destruct (Z.leb_spec 0 e) as [He0|He0].
    + assert (Hn : 0 < Zpos m * 2 ^ e) by (apply Z.mul_pos_pos; [done|apply Z.pow_pos_nonneg; lia]).
      destruct (dec_nonneg_spec (Zpos m * 2 ^ e) ltac:(lia)) as (H1 & H2 & H3 & H4).
      set (ds := dec_nonneg (Zpos m * 2 ^ e)) in *.
      assert ((if s then x2d :: ds else ds) = (if s then [x2d] else []) ++ ds ++ []) as ->
        by (rewrite app_nil_r; by destruct s).
      rewrite special_digits by done.
      rewrite (read_float_digits s ds [] 0); [|done|done|left; apply H4; lia|by left].
      rewrite H3. unfold round_decimal_to. cbn [Z.leb Z.compare]. rewrite Z.pow_0_r, Z.mul_1_r.
      destruct (Zpos m * 2 ^ e) as [|p|] eqn:E; [lia| |lia].
      by rewrite (binary_round_exact precision emax Hprec s p m e).
    + assert (Hn : 0 < Zpos m * 5 ^ (- e)) by (apply Z.mul_pos_pos; [done|apply Z.pow_pos_nonneg; lia]).
      destruct (dec_nonneg_spec (Zpos m * 5 ^ (- e)) ltac:(lia)) as (H1 & H2 & H3 & H4).
      set (ds := dec_nonneg (Zpos m * 5 ^ (- e))) in *.
      destruct (dec_nonneg_spec (- e) ltac:(lia)) as (E1 & E2 & E3 & _).
      set (tl := x65 :: x2d :: dec_nonneg (- e)).
      assert ((if s then x2d :: ds ++ tl else ds ++ tl) = (if s then [x2d] else []) ++ ds ++ tl) as ->
        by by destruct s.
      rewrite special_digits by done.
      rewrite (read_float_digits s ds tl e); [|done|done|left; apply H4; lia|right].
      2: { split; [intros Hz; by apply H4; [lia|rewrite Hz]|]. exists (dec_nonneg (- e)). rewrite E3.
           split_and!; [done|done|done|lia|lia]. }
      rewrite H3. unfold round_decimal_to. destruct (Zpos m * 5 ^ (- e)) as [|d|] eqn:E; [lia| |lia].
      rewrite (proj2 (Z.leb_gt 0 e)) by lia.
      destruct (SFdiv_core_binary _ _ _ _ _ _) as [[q f] l] eqn:Ed.
      by rewrite (div_round_exact precision emax Hprec s d m e q f l).
Qed.
End Valid.

(** The numbers of binary32. *)
Definition f32_number : spec_float -> Prop := number_of 24 128.

Lemma ParseFloat32_literal x : f32_number x -> ParseFloat32 (float_literal x) = Some x.
Proof. by apply ParseFloat_literal. Qed.

Lemma ParseFloat32_number s x : special s = None -> ParseFloat32 s = Some x -> f32_number x.
Proof. by apply ParseFloat_number_of. Qed.

Lemma f32_number_not_nan x : f32_number x -> is_NaN x = false.
Proof. intros [_ H]. by destruct x. Qed.
