(* ===== verification/Utf8.v ===== *)
(** * Runes and their encoding

    What the sources use of [unicode/utf8] and [unicode/utf16] to write runes, and
    the structure of valid UTF-8: a text is a sequence of encodings, each decoded
    as a whole. *)

From S2P Require Import Prelude Float Text Strconv.

(** ** The encoding of a rune *)

Definition is_continuation (b : byte) : bool := in_range 128 191 b.

Lemma continuation_not_start b : is_continuation b = true -> RuneStart b = false /\ in_range 0 127 b = false.
Proof. unfold is_continuation, RuneStart, in_range. lia. Qed.

(** The encoding of one rune: decoded as a whole before anything, and not when
    its end is missing. *)
Record encoding (b : byte) (conts : bytes) : Prop := {
  enc_start : RuneStart b = true;
  enc_conts : forallb is_continuation conts = true;
  enc_length : (length conts <= 3)%nat;
  enc_ascii : in_range 0 127 b = bool_decide (conts = []);
  enc_decode : exists r, (forall tail, decode_rune (b :: conts ++ tail) = (r, S (length conts))) /\
    (r <> RuneError \/ conts <> []);
  enc_valid tail : utf8_valid (b :: conts ++ tail) = utf8_valid tail;
  enc_cut k : (k < length conts)%nat -> decode_rune (b :: take k conts) = (RuneError, 1%nat)
}.

Ltac range_facts :=
  repeat match goal with
  | H : _ && _ = true |- _ => apply andb_prop in H as [? ?]
  end.

Ltac decode_known :=
  cbn [decode_rune utf8_valid take app length];
  repeat match goal with
  | H : in_range ?lo ?hi ?b = ?v |- context [in_range ?lo ?hi ?b] => rewrite H; cbn [andb]
  end; try reflexivity.

(** In a lead byte at least two of the ranges decide. *)
Lemma start_of_lead b : in_range 0 127 b = false -> 194 <= byte_Z b -> RuneStart b = true.
Proof. unfold RuneStart, in_range. lia. Qed.

Ltac solve_encoding :=
  range_facts; split;
  [ unfold RuneStart, in_range in *; lia
  | cbn; unfold is_continuation, in_range in *; lia
  | cbn; lia
  | rewrite bool_decide_eq_false_2 by done; assumption
  | eexists; split; [intros tail; decode_known|right; discriminate]
  | intros tail; decode_known
  | intros k Hk; cbn in Hk; destruct k as [|[|[|k]]]; try lia; decode_known ].

Lemma valid_first s :
  utf8_valid s = true -> s <> [] ->
  exists b conts rest, s = b :: conts ++ rest /\ encoding b conts /\ utf8_valid rest = true.
Proof.
  intros Hv Hne. destruct s as [|b0 t0]; [done|]. cbn [utf8_valid] in Hv.
  destruct (in_range 0 127 b0) eqn:E0.
  { exists b0, [], t0. split; [done|]. split; [|done]. split; try done.
    - unfold RuneStart, in_range in *. lia.
    - cbn. lia.
    - exists (byte_Z b0). split; [intros tail; decode_known|]. left.
      unfold RuneError, in_range in *. lia.
    - intros tail. decode_known.
    - cbn. lia. }
  destruct t0 as [|b1 t1]; [done|]. destruct (in_range 194 223 b0) eqn:E1.
  { range_facts. exists b0, [b1], t1. split; [done|]. split; [|done]. solve_encoding. }
  destruct t1 as [|b2 t2]; [done|].
  destruct (in_range 224 224 b0) eqn:E2.
  { range_facts. exists b0, [b1; b2], t2. split; [done|]. split; [|done]. solve_encoding. }
  destruct (in_range 225 236 b0) eqn:E3.
  { range_facts. exists b0, [b1; b2], t2. split; [done|]. split; [|done]. solve_encoding. }
  destruct (in_range 237 237 b0) eqn:E4.
  { range_facts. exists b0, [b1; b2], t2. split; [done|]. split; [|done]. solve_encoding. }
  destruct (in_range 238 239 b0) eqn:E5.
  { range_facts. exists b0, [b1; b2], t2. split; [done|]. split; [|done]. solve_encoding. }
  destruct t2 as [|b3 t3]; [done|].
  destruct (in_range 240 240 b0) eqn:E6.
  { range_facts. exists b0, [b1; b2; b3], t3. split; [done|]. split; [|done]. solve_encoding. }
  destruct (in_range 241 243 b0) eqn:E7.
  { range_facts. exists b0, [b1; b2; b3], t3. split; [done|]. split; [|done]. solve_encoding. }
  destruct (in_range 244 244 b0) eqn:E8; [|done].
  range_facts. exists b0, [b1; b2; b3], t3. split; [done|]. split; [|done]. solve_encoding.
Qed.

(** ** Writing runes *)

(** [utf8.AppendRune] to the empty text: what is no rune is written as U+FFFD. *)
Definition encode_rune (r : Z) : bytes :=
  if (0 <=? r) && (r <=? 127) then [Z_byte r]
  else if (128 <=? r) && (r <=? 2047) then [Z_byte (192 + r / 64); Z_byte (128 + r mod 64)]
  else if (r <? 0) || (1114111 <? r) || ((55296 <=? r) && (r <=? 57343)) then [xef; xbf; xbd]
  else if r <=? 65535 then
    [Z_byte (224 + r / 4096); Z_byte (128 + r / 64 mod 64); Z_byte (128 + r mod 64)]
  else
    [Z_byte (240 + r / 262144); Z_byte (128 + r / 4096 mod 64); Z_byte (128 + r / 64 mod 64);
     Z_byte (128 + r mod 64)].

(** [utf16.IsSurrogate] and [utf16.DecodeRune]. *)
Definition IsSurrogate (r : Z) : bool := (55296 <=? r) && (r <? 57344).

Definition DecodeRune16 (r1 r2 : Z) : Z :=
  if (55296 <=? r1) && (r1 <? 56320) && (56320 <=? r2) && (r2 <? 57344)
  then (r1 - 55296) * 1024 + (r2 - 56320) + 65536
  else RuneError.

(** A Unicode scalar value. *)
Definition is_scalar (r : Z) : bool :=
  (0 <=? r) && (r <=? 1114111) && negb (IsSurrogate r).

(** What a byte in the model of a rune is. *)
Lemma in_range_Z lo hi z : 0 <= z < 256 -> in_range lo hi (Z_byte z) = (lo <=? z) && (z <=? hi).
Proof. intros H. unfold in_range. by rewrite byte_Z_byte. Qed.

Ltac rune_arith := Z.div_mod_to_equations; lia.

(** Decide the ranges of written bytes. *)
Ltac decide_ranges :=
  repeat match goal with
  | |- context [in_range ?lo ?hi (Z_byte ?z)] =>
      let E := fresh in
      first [ assert (in_range lo hi (Z_byte z) = true) as E by (rewrite in_range_Z; rune_arith)
            | assert (in_range lo hi (Z_byte z) = false) as E by (rewrite in_range_Z; rune_arith) ];
      rewrite E; clear E; cbn [andb]
  end.

(** How a rune is written, by the range it is in. *)
Lemma encode_rune_cases (P : Z -> bytes -> Prop) :
  (forall r, 0 <= r <= 127 -> P r [Z_byte r]) ->
  (forall r, 128 <= r <= 2047 -> P r [Z_byte (192 + r / 64); Z_byte (128 + r mod 64)]) ->
  (forall r, is_scalar r = false -> P r [xef; xbf; xbd]) ->
  (forall r, 2048 <= r <= 4095 \/ 4096 <= r <= 53247 \/ 53248 <= r <= 55295 \/ 57344 <= r <= 65535 ->
     P r [Z_byte (224 + r / 4096); Z_byte (128 + r / 64 mod 64); Z_byte (128 + r mod 64)]) ->
  (forall r, 65536 <= r <= 262143 \/ 262144 <= r <= 1048575 \/ 1048576 <= r <= 1114111 ->
     P r [Z_byte (240 + r / 262144); Z_byte (128 + r / 4096 mod 64); Z_byte (128 + r / 64 mod 64);
          Z_byte (128 + r mod 64)]) ->
  forall r, P r (encode_rune r).
Proof.
  intros H1 H2 He H3 H4 r. unfold encode_rune.
  destruct (_ && _) eqn:E1; [apply H1; lia|].
  destruct (_ && _) eqn:E2 in |- *; [apply H2; lia|].
  destruct (_ || _) eqn:E3; [apply He; unfold is_scalar, IsSurrogate; lia|].
  destruct (r <=? 65535) eqn:E4; [apply H3; lia|apply H4; lia].
Qed.

(** A written rune is valid before anything. *)
Lemma encode_rune_valid r tail : utf8_valid (encode_rune r ++ tail) = utf8_valid tail.
Proof.
  apply (encode_rune_cases (fun _ l => utf8_valid (l ++ tail) = utf8_valid tail)); clear r; intros r H;
    [..|destruct H as [H|[H|[H|H]]]|destruct H as [H|[H|H]]]; cbn [app utf8_valid]; decide_ranges; done.
Qed.

(** Reading a written rune, and writing one that was read. *)
Lemma decode_encode_rune r tail :
  is_scalar r = true -> decode_rune (encode_rune r ++ tail) = (r, length (encode_rune r)).
Proof.
  revert r. apply (encode_rune_cases (fun r l => is_scalar r = true -> decode_rune (l ++ tail) = (r, length l)));
    intros r H Hs; [..|destruct H as [H|[H|[H|H]]]|destruct H as [H|[H|H]]]; cbn [app length decode_rune]; try congruence;
    decide_ranges; unfold continuation; rewrite !byte_Z_byte by rune_arith; f_equal; rune_arith.
Qed.

Lemma Z_byte_eq z b : z = byte_Z b -> Z_byte z = b.
Proof. intros ->. apply Z_byte_Z. Qed.

(** Decide the conditions that are arithmetic. *)
Ltac decide_conditions :=
  repeat match goal with
  | |- context [if ?c then _ else _] =>
      let E := fresh in
      first [assert (c = true) as E by lia | assert (c = false) as E by lia]; rewrite E; clear E
  end.

Lemma encode_decoded s r w :
  decode_rune s = (r, w) -> s <> [] -> Nat.eqb w 1 && (r =? RuneError) = false ->
  is_scalar r = true /\ encode_rune r = take w s.
Proof.
  intros H Hne Hv. destruct s as [|b0 t]; [done|].
  pose proof (byte_Z_range b0) as Hb0. cbn [decode_rune] in H. destruct (in_range 0 127 b0) eqn:E0.
  { injection H as <- <-. apply in_range_true in E0. unfold is_scalar, IsSurrogate, encode_rune. cbn [take firstn].
    split; [lia|]. decide_conditions. by rewrite Z_byte_Z. }
  decode_cases H; cbn in Hv; try discriminate Hv; unfold is_scalar, IsSurrogate, continuation in *; (split; [lia|]);
    unfold encode_rune; cbn [firstn]; decide_conditions; repeat f_equal; apply Z_byte_eq; rune_arith.
Qed.

(** Valid UTF-8 is what is written, rune by rune. *)
Lemma encoding_rune b conts :
  encoding b conts -> exists r, is_scalar r = true /\ encode_rune r = b :: conts /\
    forall tail, decode_rune (b :: conts ++ tail) = (r, S (length conts)).
Proof.
  intros He. destruct (enc_decode _ _ He) as (r & Hd & Hr). exists r.
  destruct (encode_decoded (b :: conts ++ []) r _ (Hd []) ltac:(done)) as [Hs Hw].
  - apply andb_false_iff. destruct Hr as [Hr|Hr]; [right; lia|left]. destruct conts; done.
  - cbn [firstn] in Hw. rewrite take_app_length in Hw. done.
Qed.

Lemma utf8_valid_app a b : utf8_valid a = true -> utf8_valid (a ++ b) = utf8_valid b.
Proof.
  remember (length a) as n eqn:Hn. revert a Hn. induction n as [n IH] using lt_wf_ind. intros a -> Ha.
  destruct a as [|x a]; [done|].
  destruct (valid_first (x :: a) Ha ltac:(done)) as (c & conts & rest & Hs & He & Hr). rewrite Hs in *.
  cbn [app]. rewrite <- app_assoc, (enc_valid _ _ He). apply (IH (length rest)); [|done|done].
  cbn. rewrite length_app. lia.
Qed.
