(* ===== verification/Regexp.v ===== *)
(** * Regular expressions

    The operators of Go's regular expressions that the sources use, anchored at
    both ends ([^r$]), matched by derivatives and specified by the language they
    denote. *)

From S2P Require Import Prelude Text.

(** The operators of Go's regular expressions the patterns use. *)
Inductive regexp :=
  | RNone
  | REmpty
  | RClass (p : byte -> bool)
  | RCat (r s : regexp)
  | ROr (r s : regexp)
  | RStar (r : regexp).

Fixpoint nullable (r : regexp) : bool :=
  match r with
  | RNone | RClass _ => false
  | REmpty | RStar _ => true
  | RCat r s => nullable r && nullable s
  | ROr r s => nullable r || nullable s
  end.

Fixpoint derive (c : byte) (r : regexp) : regexp :=
  match r with
  | RNone | REmpty => RNone
  | RClass p => if p c then REmpty else RNone
  | RCat r s =>
      let left := match derive c r with RNone => RNone | REmpty => s | r' => RCat r' s end in
      if nullable r then ROr left (derive c s) else left
  | ROr r s => ROr (derive c r) (derive c s)
  | RStar r => match derive c r with RNone => RNone | r' => RCat r' (RStar r) end
  end.

(** [^r$] matched against the whole string. *)
Fixpoint MatchString (r : regexp) (s : gostring) : bool :=
  match s with
  | [] => nullable r
  | c :: s' => MatchString (derive c r) s'
  end.

Definition RPlus (r : regexp) : regexp := RCat r (RStar r).
Definition RLit (s : string) : regexp :=
  foldr (fun c r => RCat (RClass (fun b => bool_decide (b = c))) r) REmpty (gostr s).


(** [r{lo,hi}] *)
Fixpoint ROptional (n : nat) (r : regexp) : regexp :=
  match n with
  | O => REmpty
  | S n' => ROr REmpty (RCat r (ROptional n' r))
  end.

Fixpoint RRepeat (lo extra : nat) (r : regexp) : regexp :=
  match lo with
  | O => ROptional extra r
  | S lo' => RCat r (RRepeat lo' extra r)
  end.

(** Every class of the expression lies in [P]. *)
Fixpoint re_over (P : byte -> bool) (r : regexp) : Prop :=
  match r with
  | RNone | REmpty => True
  | RClass p => forall b, p b = true -> P b = true
  | RCat r s | ROr r s => re_over P r /\ re_over P s
  | RStar r => re_over P r
  end.

(** ** The language of an expression *)

Inductive matches : regexp -> gostring -> Prop :=
  | m_empty : matches REmpty []
  | m_class (p : byte -> bool) c : p c = true -> matches (RClass p) [c]
  | m_cat r s a b : matches r a -> matches s b -> matches (RCat r s) (a ++ b)
  | m_left r s a : matches r a -> matches (ROr r s) a
  | m_right r s a : matches s a -> matches (ROr r s) a
  | m_done r : matches (RStar r) []
  | m_again r a b : matches r a -> matches (RStar r) b -> matches (RStar r) (a ++ b).

Lemma cat_matches r s l : matches (RCat r s) l <-> exists a b, l = a ++ b /\ matches r a /\ matches s b.
Proof.
  split.
  - intros H. inv H. by eexists _, _.
  - intros (a & b & -> & Ha & Hb). by constructor.
Qed.

Lemma or_matches r s l : matches (ROr r s) l <-> matches r l \/ matches s l.
Proof.
  split.
  - intros H. inv H; auto.
  - intros [H|H]; [by apply m_left|by apply m_right].
Qed.

Lemma none_matches l : ~ matches RNone l.
Proof. intros H. inv H. Qed.

Lemma empty_matches l : matches REmpty l <-> l = [].
Proof. split; [intros H; by inv H|intros ->; constructor]. Qed.

Lemma class_matches p l : matches (RClass p) l <-> exists c, l = [c] /\ p c = true.
Proof. split; [intros H; inv H; by eexists|intros (c & -> & Hc); by constructor]. Qed.

Lemma nullable_matches r : nullable r = true <-> matches r [].
Proof.
  induction r as [| |p|r IHr s IHs|r IHr s IHs|r IHr]; cbn.
  - split; [done|]. by intros ?%none_matches.
  - by rewrite empty_matches.
  - rewrite class_matches. split; [done|]. by intros (c & ? & _).
  - rewrite andb_true_iff, IHr, IHs, cat_matches. split.
    + intros [Hr Hs]. by exists [], [].
    + intros (a & b & [-> ->]%eq_sym%app_nil & Hr & Hs). done.
  - by rewrite orb_true_iff, IHr, IHs, or_matches.
  - split; [constructor|done].
Qed.

(** One repetition of a nonempty match takes at least a character. *)
Lemma star_cons r c s :
  matches (RStar r) (c :: s) <-> exists a b, s = a ++ b /\ matches r (c :: a) /\ matches (RStar r) b.
Proof.
  split.
  - intros H. remember (RStar r) as r' eqn:Er. remember (c :: s) as l eqn:El. revert c s El.
    induction H as [| | | | |r0|r0 a b Ha _ Hb IH]; try discriminate Er; intros c s El; [discriminate El|].
    injection Er as ->. destruct a as [|c' a].
    + by apply (IH eq_refl).
    + cbn in El. injection El as -> <-. by exists a, b.
  - intros (a & b & -> & Ha & Hb). by apply (m_again r (c :: a) b).
Qed.

Lemma derive_matches c r s : matches (derive c r) s <-> matches r (c :: s).
Proof.
  revert s. induction r as [| |p|r IHr t IHt|r IHr t IHt|r IHr]; intros s; cbn.
  - split; by intros ?%none_matches.
  - rewrite empty_matches. split; [by intros ?%none_matches|done].
  - rewrite class_matches. destruct (p c) eqn:Hp.
    + rewrite empty_matches. split; [intros ->; by exists c|]. by intros (c' & [= -> ->] & _).
    + split; [by intros ?%none_matches|]. intros (c' & [= -> ->] & ?). congruence.
  - assert (Hleft : matches match derive c r with RNone => RNone | REmpty => t | r' => RCat r' t end s
      <-> exists a b, s = a ++ b /\ matches r (c :: a) /\ matches t b).
    { setoid_rewrite <- IHr. destruct (derive c r); rewrite ?cat_matches; try done.
      - split; [by intros ?%none_matches|]. by intros (a & b & _ & ?%none_matches & _).
      - split; [intros Ht; exists [], s; by rewrite empty_matches|].
        by intros (a & b & -> & ->%empty_matches & ?). }
    rewrite cat_matches. destruct (nullable r) eqn:Hn; rewrite ?or_matches, Hleft, ?IHt.
    + split.
      * intros [(a & b & -> & Ha & Hb)|Ht]; [by exists (c :: a), b|].
        exists [], (c :: s). by rewrite <- nullable_matches.
      * intros ([|c' a] & b & Hs & Ha & Hb); cbn in Hs; [right; by rewrite Hs|].
        left. injection Hs as -> ->. by exists a, b.
    + split.
      * intros (a & b & -> & Ha & Hb). by exists (c :: a), b.
      * intros ([|c' a] & b & Hs & Ha & Hb); cbn in Hs; [apply nullable_matches in Ha; congruence|].
        injection Hs as -> ->. by exists a, b.
  - by rewrite !or_matches, IHr, IHt.
  - rewrite star_cons. setoid_rewrite <- IHr. destruct (derive c r); rewrite ?cat_matches; try done.
    split; [by intros ?%none_matches|]. by intros (a & b & _ & ?%none_matches & _).
Qed.

(** Matching decides the language. *)
Lemma MatchString_matches r s : MatchString r s = true <-> matches r s.
Proof.
  revert r. induction s as [|c s IH]; intros r; cbn; [apply nullable_matches|].
  by rewrite IH, derive_matches.
Qed.

Lemma match_over P r s : re_over P r -> MatchString r s = true -> forallb P s = true.
Proof.
  intros Hr H%MatchString_matches.
  induction H as [|p c Hc|r s a b _ IHa _ IHb|r s a _ IH|r s a _ IH|r|r a b _ IHa _ IHb]; cbn in Hr; try done.
  - cbn. by rewrite Hr.
  - destruct Hr. by rewrite forallb_app, IHa, IHb.
  - destruct Hr. by apply IH.
  - destruct Hr. by apply IH.
  - by rewrite forallb_app, IHa, IHb.
Qed.

(** Repetitions of a class. *)
Lemma optional_class n p s :
  matches (ROptional n (RClass p)) s <-> (length s <= n)%nat /\ forallb p s = true.
Proof.
  revert s. induction n as [|n IH]; intros s; cbn [ROptional].
  - rewrite empty_matches. destruct s; cbn; split; try done; lia || (by intros [? _]).
  - rewrite or_matches, empty_matches, cat_matches. setoid_rewrite class_matches. setoid_rewrite IH. split.
    + intros [->|(a & b & -> & (c & -> & Hc) & Hn & Hb)]; cbn; [split; [lia|done]|]. rewrite Hc. split; [lia|done].
    + intros [Hn Hs]. destruct s as [|c s]; [by left|]. right. cbn in *. prep_bool.
      exists [c], s. split_and!; [done|by exists c|lia|done].
Qed.

Lemma repeat_class lo extra p s :
  matches (RRepeat lo extra (RClass p)) s <->
    (lo <= length s <= lo + extra)%nat /\ forallb p s = true.
Proof.
  revert s. induction lo as [|lo IH]; intros s; cbn [RRepeat].
  - rewrite optional_class. split; intros [? ?]; (split; [lia|done]).
  - rewrite cat_matches. setoid_rewrite class_matches. setoid_rewrite IH. split.
    + intros (a & b & -> & (c & -> & Hc) & Hn & Hb). cbn. rewrite Hc. split; [lia|done].
    + intros [Hn Hs]. destruct s as [|c s]; cbn in Hn; [lia|]. cbn in *. prep_bool.
      exists [c], s. split_and!; [done|by exists c|lia|lia|done].
Qed.

Lemma lit_matches w s : matches (RLit w) s <-> s = gostr w.
Proof.
  unfold RLit. revert s. induction (gostr w) as [|c l IH]; intros s; cbn [foldr]; [apply empty_matches|].
  rewrite cat_matches. setoid_rewrite class_matches. setoid_rewrite IH. setoid_rewrite bool_decide_eq_true.
  split; [by intros (a & b & -> & (x & -> & ->) & ->)|]. intros ->. exists [c], l. naive_solver.
Qed.
