(* ===== verification/Sha256.v ===== *)
(** * SHA-256

    The function [crypto/sha256.Sum256] of the Go standard library, as FIPS
    180-4 defines it, on 32-bit words kept as [Z].  It is executable: the
    conformance vectors of the protocol are checked against it in [Golden]. *)

From S2P Require Import Prelude.

Module Sha256.

Definition word (z : Z) : Z := Z.land z 4294967295.
Definition add32 (a b : Z) : Z := word (a + b).
Definition rotr (n x : Z) : Z := Z.lor (Z.shiftr x n) (word (Z.shiftl x (32 - n))).
Definition not32 (x : Z) : Z := Z.lxor x 4294967295.

Definition ch (e f g : Z) : Z := Z.lxor (Z.land e f) (Z.land (not32 e) g).
Definition maj (a b c : Z) : Z :=
  Z.lxor (Z.lxor (Z.land a b) (Z.land a c)) (Z.land b c).
Definition big0 (x : Z) : Z := Z.lxor (rotr 2 x) (Z.lxor (rotr 13 x) (rotr 22 x)).
Definition big1 (x : Z) : Z := Z.lxor (rotr 6 x) (Z.lxor (rotr 11 x) (rotr 25 x)).
Definition small0 (x : Z) : Z := Z.lxor (rotr 7 x) (Z.lxor (rotr 18 x) (Z.shiftr x 3)).
Definition small1 (x : Z) : Z := Z.lxor (rotr 17 x) (Z.lxor (rotr 19 x) (Z.shiftr x 10)).

(** The first 32 bits of the fractional parts of the cube roots of the first
    64 primes. *)
Definition round_constants : list Z :=
  [1116352408; 1899447441; 3049323471; 3921009573; 961987163;
   1508970993; 2453635748; 2870763221; 3624381080; 310598401;
   607225278; 1426881987; 1925078388; 2162078206; 2614888103;
   3248222580; 3835390401; 4022224774; 264347078; 604807628;
   770255983; 1249150122; 1555081692; 1996064986; 2554220882;
   2821834349; 2952996808; 3210313671; 3336571891; 3584528711;
   113926993; 338241895; 666307205; 773529912; 1294757372;
   1396182291; 1695183700; 1986661051; 2177026350; 2456956037;
   2730485921; 2820302411; 3259730800; 3345764771; 3516065817;
   3600352804; 4094571909; 275423344; 430227734; 506948616;
   659060556; 883997877; 958139571; 1322822218; 1537002063;
   1747873779; 1955562222; 2024104815; 2227730452; 2361852424;
   2428436474; 2756734187; 3204031479; 3329325298].

Record state := State { sa : Z; sb : Z; sc : Z; sd : Z; se : Z; sf : Z; sg : Z; sh : Z }.

(** The first 32 bits of the fractional parts of the square roots of the first
    8 primes. *)
Definition initial : state :=
  State 1779033703 3144134277 1013904242 2773480762 1359893119 2600822924 528734635 1541459225.

(** The schedule is grown at its head: [w] holds the words so far, last first. *)
Definition next_word (w : list Z) : Z :=
  add32 (add32 (small1 (nth 1 w 0)) (nth 6 w 0))
        (add32 (small0 (nth 14 w 0)) (nth 15 w 0)).

Fixpoint extend (n : nat) (w : list Z) : list Z :=
  match n with
  | O => w
  | S m => extend m (next_word w :: w)
  end.

Definition round (s : state) (kw : Z * Z) : state :=
  let t1 := add32 (add32 (add32 (sh s) (big1 (se s))) (ch (se s) (sf s) (sg s)))
                  (add32 kw.1 kw.2) in
  let t2 := add32 (big0 (sa s)) (maj (sa s) (sb s) (sc s)) in
  State (add32 t1 t2) (sa s) (sb s) (sc s) (add32 (sd s) t1) (se s) (sf s) (sg s).

Definition block (s : state) (block_words : list Z) : state :=
  let w := reverse (extend 48 (reverse block_words)) in
  let r := foldl round s (zip round_constants w) in
  State (add32 (sa s) (sa r)) (add32 (sb s) (sb r)) (add32 (sc s) (sc r))
        (add32 (sd s) (sd r)) (add32 (se s) (se r)) (add32 (sf s) (sf r))
        (add32 (sg s) (sg r)) (add32 (sh s) (sh r)).

(** Padding: one bit, zeros up to 56 bytes modulo 64, the bit length. *)
Definition pad (msg : bytes) : bytes :=
  msg ++ x80 :: replicate (Z.to_nat ((55 - len msg) mod 64)) x00
      ++ be_bytes 8 (u64 (8 * len msg)).

Fixpoint words (l : bytes) : list Z :=
  match l with
  | a :: b :: c :: d :: t => be_Z [a; b; c; d] :: words t
  | _ => []
  end.

Fixpoint blocks (n : nat) (ws : list Z) (s : state) : state :=
  match n with
  | O => s
  | S m => blocks m (drop 16 ws) (block s (take 16 ws))
  end.

Definition output (s : state) : bytes :=
  concat (map (be_bytes 4) [sa s; sb s; sc s; sd s; se s; sf s; sg s; sh s]).

Lemma length_output s : Nat.eqb (length (output s)) 32 = true.
Proof. reflexivity. Qed.

Definition Sum256 (msg : bytes) : array 32 :=
  let p := pad msg in
  let s := blocks (Z.to_nat (len p / 64)) (words p) initial in
  MkArray (output s) (norm_true _ (length_output s)).

(** The padded message is a whole number of 64-byte blocks, so that every byte
    of the message enters the digest. *)
Lemma pad_aligned msg : len (pad msg) mod 64 = 0.
Proof.
  unfold pad. rewrite len_app, len_cons, len_app.
  assert (len (be_bytes 8 (u64 (8 * len msg))) = 8) as ->
    by (unfold len; by rewrite length_be_bytes).
  unfold len at 2. rewrite length_replicate.
  pose proof (Z.mod_pos_bound (55 - len msg) 64 ltac:(lia)).
  rewrite Z2Nat.id by lia.
  replace (len msg + (1 + ((55 - len msg) mod 64 + 8)))
    with (len msg + 9 + (55 - len msg) mod 64) by lia.
  rewrite Zplus_mod_idemp_r. replace (len msg + 9 + (55 - len msg)) with 64 by lia.
  reflexivity.
Qed.

Example Sum256_abc :
  arr_list (Sum256 (gostr "abc")) = map Z_byte
    [186; 120; 22; 191; 143; 1; 207; 234; 65; 65; 64; 222; 93; 174; 34; 35; 176; 3; 97; 163; 150; 23; 122; 156; 180; 16; 255; 97; 242; 0; 21; 173].
Proof. vm_compute. reflexivity. Qed.

End Sha256.

(** Two given messages are a collision.  Integrity theorems end in "or these
    two messages, taken from the inputs, collide": injectivity of SHA-256 is
    never assumed, it is false. *)
Definition collide (m1 m2 : bytes) : Prop :=
  m1 <> m2 /\ Sha256.Sum256 m1 = Sha256.Sum256 m2.

Lemma Sum256_inj_or_collide m1 m2 :
  Sha256.Sum256 m1 = Sha256.Sum256 m2 -> m1 = m2 \/ collide m1 m2.
Proof.
  intros H. destruct (decide (m1 = m2)); [by left|by right].
Qed.

#[global] Opaque Sha256.Sum256.
