(* ===== verification/Cbor.v ===== *)
(** * The CBOR codec the protocol relies on

    [github.com/fxamacker/cbor/v2] is not part of the repository: it is a
    parameter of the model, the class [Cbor], and what the code relies on is
    the class [CborOk], stated against the core deterministic encoding of RFC
    8949 section 4.2.1, which is written out here.  [CborRef] instantiates
    both. *)

From S2P Require Import Prelude.

(** ** Go struct types seen through their [cbor:"N,keyasint"] tags *)

Inductive ftype := FUint64 | FBytes | FString.

Inductive fval :=
  | VUint64 (n : Z)
  | VBytes (b : slice)
  | VString (s : gostring).

Definition fval_type (v : fval) : ftype :=
  match v with
  | VUint64 _ => FUint64
  | VBytes _ => FBytes
  | VString _ => FString
  end.

#[global] Instance ftype_eq_dec : EqDecision ftype.
Proof. solve_decision. Defined.

#[global] Instance fval_eq_dec : EqDecision fval.
Proof. solve_decision. Defined.

(** What a Go value of the field's type satisfies: a [uint64] is in range, a
    length is an [int]. *)
Definition fval_wf (v : fval) : Prop :=
  match v with
  | VUint64 n => is_u64 n
  | VBytes b => slen b < two63
  | VString s => len s < two63
  end.

(** Text must be valid UTF-8 to be decoded ([UTF8RejectInvalid]). *)
Definition fval_utf8 (v : fval) : Prop :=
  match v with
  | VString s => utf8_valid s = true
  | _ => True
  end.

#[global] Instance fval_wf_dec v : Decision (fval_wf v).
Proof. destruct v; simpl; apply _. Defined.

#[global] Instance fval_utf8_dec v : Decision (fval_utf8 v).
Proof. destruct v; simpl; apply _. Defined.

(** The interface between a wire struct and the codec: the tags and field
    types, the fields of a value in tag order, and the value with given
    fields. *)
Class WireStruct (W : Type) := {
  schema : list (Z * ftype);
  to_fields : W -> list (Z * fval);
  of_fields : list fval -> W
}.

Definition field_type (kv : Z * fval) : Z * ftype := (kv.1, fval_type kv.2).
Definition small_key (k : Z) : bool := (0 <=? k) && (k <? 24).

Class WireStructOk (W : Type) {S : WireStruct W} : Prop := {
  to_fields_schema w : map field_type (to_fields w) = schema;
  of_to_fields w : of_fields (map snd (to_fields w)) = w;
  to_of_fields vs :
    map fval_type vs = map snd schema -> map snd (to_fields (of_fields vs)) = vs;
  schema_sorted : StronglySorted Z.lt (map fst schema);
  schema_small : forallb small_key (map fst schema) = true;
  schema_short : len schema <= 16
}.

Definition wire_wf {W} `{WireStruct W} (w : W) : Prop :=
  Forall (fun kv => fval_wf kv.2) (to_fields w).

Definition wire_utf8 {W} `{WireStruct W} (w : W) : Prop :=
  Forall (fun kv => fval_utf8 kv.2) (to_fields w).

(** The Go struct type [struct{}]. *)
#[global] Instance unit_wire : WireStruct unit :=
  {| schema := []; to_fields _ := []; of_fields _ := tt |}.

#[global] Instance unit_wire_ok : WireStructOk unit.
Proof. split; try done; [by intros [] | by intros [] | constructor]. Qed.

(** The laws of a concrete wire struct, by evaluation. *)
Ltac wire_struct_ok :=
  split;
  [ done
  | by intros []
  | intros vs Hvs;
    repeat match goal with
    | v : fval |- _ => destruct v; try discriminate Hvs
    | vs : list fval |- _ => destruct vs; try discriminate Hvs
    end; reflexivity
  | cbn; repeat (constructor; [|repeat (constructor; [lia|]); constructor]); constructor
  | done
  | done ].

(** ** Core deterministic encoding (RFC 8949, section 4.2.1) *)

Definition head (major arg : Z) : bytes :=
  let ib info := Z_byte (major * 32 + info) in
  if arg <? 24 then [ib arg]
  else if arg <? 256 then ib 24 :: be_bytes 1 arg
  else if arg <? 65536 then ib 25 :: be_bytes 2 arg
  else if arg <? 4294967296 then ib 26 :: be_bytes 4 arg
  else ib 27 :: be_bytes 8 arg.

Definition enc_fval (v : fval) : bytes :=
  match v with
  | VUint64 n => head 0 n
  | VBytes None => [xf6]
  | VBytes (Some b) => head 2 (len b) ++ b
  | VString s => head 3 (len s) ++ s
  end.

Definition enc_pair (kv : Z * fval) : bytes := head 0 kv.1 ++ enc_fval kv.2.

Definition enc_fields (fs : list (Z * fval)) : bytes :=
  head 5 (len fs) ++ concat (map enc_pair fs).

Definition enc_struct {W} `{WireStruct W} (w : W) : bytes := enc_fields (to_fields w).

(** ** Decoding errors, one constructor per error type the code tells apart *)

Inductive cbor_error :=
  | SyntaxError
  | SemanticError
  | DupMapKeyError
  | IndefiniteLengthError
  | TagsMdError
  | ExtraneousDataError
  | UnmarshalTypeError
  | UnknownFieldError
  | MaxNestedLevelError
  | MaxArrayElementsError
  | MaxMapPairsError
  | OtherDecodeError.

(** The two packages build their own modes: the ledger protocol
    ([CoreDetEncOptions]) and endorsements (the same with [SortCanonical]).
    Both decode with the same options. *)
Inductive cbor_mode := ProtocolMode | EndorsementMode.

Class Cbor := {
  any : Type;
  Marshal {W} {S : WireStruct W} : cbor_mode -> W -> option bytes;
  Unmarshal {W} {S : WireStruct W} : cbor_mode -> bytes -> result cbor_error W;
  MarshalMap : cbor_mode -> gmap Z any -> option bytes;
  UnmarshalMap : cbor_mode -> bytes -> result cbor_error (gmap Z any)
}.

(** Documented behaviour the code relies on. *)
Class CborOk (C : Cbor) : Prop := {
  (** Marshalling a struct yields its deterministic encoding. *)
  marshal_struct {W} `{WireStructOk W} m (w : W) :
    wire_wf w -> Marshal m w = Some (enc_struct w);
  (** Unmarshalling a deterministic encoding yields the value. *)
  unmarshal_struct {W} `{WireStructOk W} m (w : W) :
    wire_wf w -> wire_utf8 w -> Unmarshal m (enc_struct w) = Ok w;
  (** Go's types bound whatever is unmarshalled. *)
  unmarshal_typed {W} `{WireStructOk W} m b (w : W) :
    Unmarshal m b = Ok w -> wire_wf w /\ wire_utf8 w;
  (** Into a [map[uint64]any] the keys are those of the encoding, and
      marshalling the map again yields the same bytes. *)
  unmarshal_map {W} `{WireStructOk W} m (w : W) :
    wire_wf w -> wire_utf8 w ->
    exists g, UnmarshalMap m (enc_struct w) = Ok g /\
      dom g = list_to_set (map fst (schema (W := W))) /\
      MarshalMap m g = Some (enc_struct w)
}.

(** ** Sizes of deterministic encodings *)

Lemma len_head major arg :
  len (head major arg) =
    if arg <? 24 then 1 else if arg <? 256 then 2 else if arg <? 65536 then 3
    else if arg <? 4294967296 then 5 else 9.
Proof.
  unfold head. repeat case_match; rewrite ?len_cons; unfold len;
    rewrite ?length_be_bytes; reflexivity.
Qed.

Lemma len_head_le major arg : 1 <= len (head major arg) <= 9.
Proof. rewrite len_head. repeat case_match; lia. Qed.

Lemma len_enc_bytes b :
  len (enc_fval (VBytes (Some b))) = len (head 2 (len b)) + len b.
Proof. cbn [enc_fval]. apply len_app. Qed.

Lemma len_enc_string s : len (enc_fval (VString s)) = len (head 3 (len s)) + len s.
Proof. cbn [enc_fval]. apply len_app. Qed.

(** Bound of an encoded slice or string of at most [n] bytes. *)
Lemma len_head_mono major m n : m <= n -> len (head major m) <= len (head major n).
Proof. intros. rewrite !len_head. repeat case_match; lia. Qed.

Lemma len_enc_bytes_le b n :
  len b <= n -> len (enc_fval (VBytes (Some b))) <= len (head 2 n) + n.
Proof. intros. rewrite len_enc_bytes. pose proof (len_head_mono 2 _ _ H). lia. Qed.

Lemma len_enc_string_le s n :
  len s <= n -> len (enc_fval (VString s)) <= len (head 3 n) + n.
Proof. intros. rewrite len_enc_string. pose proof (len_head_mono 3 _ _ H). lia. Qed.

Lemma len_enc_uint n : len (enc_fval (VUint64 n)) <= 9.
Proof. apply len_head_le. Qed.

Lemma enc_fields_nonempty fs : enc_fields fs <> [].
Proof.
  unfold enc_fields. intros [H _]%app_eq_nil.
  pose proof (len_head_le 5 (len fs)). rewrite H, len_nil in H0. lia.
Qed.
