(* ===== verification/CborRef.v ===== *)
(** * A reference CBOR codec

    An executable instance of [Cbor] for the flat maps the protocol uses
    (unsigned keys; unsigned, byte string, text and null values), with the
    proof that it satisfies [CborOk].  It shows that the hypotheses on the
    codec can hold and runs the conformance vectors; nothing is proved about
    the application from its definition. *)

From S2P Require Import Prelude Cbor.

Module Ref.

Inductive item :=
  | IUint (n : Z)
  | IBytes (b : bytes)
  | IText (s : bytes)
  | INull.

Definition split_at (n : Z) (l : bytes) : result cbor_error (bytes * bytes) :=
  if (n <=? len l) && (n <? two63)
  then Ok (take (Z.to_nat n) l, drop (Z.to_nat n) l)
  else Err SyntaxError.

Definition read_arg (info : Z) (l : bytes) : result cbor_error (Z * bytes) :=
  let sized n := '(a, r) <~ split_at n l ;; Ok (be_Z a, r) in
  if info <? 24 then Ok (info, l)
  else if info =? 24 then sized 1
  else if info =? 25 then sized 2
  else if info =? 26 then sized 4
  else if info =? 27 then sized 8
  else if info =? 31 then Err IndefiniteLengthError
  else Err SyntaxError.

(** Major type, argument and the bytes after the head. *)
Definition read_head (l : bytes) : result cbor_error (Z * Z * bytes) :=
  match l with
  | [] => Err SyntaxError
  | b :: t =>
      '(arg, r) <~ read_arg (byte_Z b mod 32) t ;;
      Ok (byte_Z b / 32, arg, r)
  end.

Definition read_item (l : bytes) : result cbor_error (item * bytes) :=
  '(major, arg, r) <~ read_head l ;;
  if major =? 0 then Ok (IUint arg, r)
  else if major =? 2 then '(b, r') <~ split_at arg r ;; Ok (IBytes b, r')
  else if major =? 3 then
    '(s, r') <~ split_at arg r ;;
    if utf8_valid s then Ok (IText s, r') else Err SemanticError
  else if major =? 6 then Err TagsMdError
  else if (major =? 7) && (arg =? 22) then Ok (INull, r)
  else Err UnmarshalTypeError.

Fixpoint read_pairs (n : nat) (l : bytes) :
    result cbor_error (list (Z * item) * bytes) :=
  match n with
  | O => Ok ([], l)
  | S m =>
      '(k, r) <~ read_item l ;;
      '(v, r') <~ read_item r ;;
      match k with
      | IUint key =>
          '(ps, r'') <~ read_pairs m r' ;; Ok ((key, v) :: ps, r'')
      | _ => Err UnmarshalTypeError
      end
  end.

Definition read_map (l : bytes) : result cbor_error (list (Z * item)) :=
  '(major, n, r) <~ read_head l ;;
  if negb (major =? 5) then Err UnmarshalTypeError
  else if 16 <? n then Err MaxMapPairsError
  else
    '(ps, r') <~ read_pairs (Z.to_nat n) r ;;
    if negb (bool_decide (r' = [])) then Err ExtraneousDataError
    else if negb (bool_decide (NoDup (map fst ps))) then Err DupMapKeyError
    else Ok ps.

(** A null leaves the zero value of the field's type. *)
Definition to_fval (t : ftype) (i : item) : result cbor_error fval :=
  match t, i with
  | FUint64, IUint n => Ok (VUint64 n)
  | FUint64, INull => Ok (VUint64 0)
  | FBytes, IBytes b => Ok (VBytes (Some b))
  | FBytes, INull => Ok (VBytes None)
  | FString, IText s => Ok (VString s)
  | FString, INull => Ok (VString [])
  | _, _ => Err UnmarshalTypeError
  end.

Definition lookup_item (k : Z) (ps : list (Z * item)) : item :=
  match List.find (fun p => p.1 =? k) ps with
  | Some p => p.2
  | None => INull
  end.

Fixpoint read_fields (sch : list (Z * ftype)) (ps : list (Z * item)) :
    result cbor_error (list fval) :=
  match sch with
  | [] => Ok []
  | (k, t) :: sch' =>
      v <~ to_fval t (lookup_item k ps) ;;
      vs <~ read_fields sch' ps ;;
      Ok (v :: vs)
  end.

Definition known (sch : list (Z * ftype)) (p : Z * item) : bool :=
  bool_decide (p.1 ∈ map fst sch).

Definition unmarshal {W} {S : WireStruct W} (_ : cbor_mode) (l : bytes) :
    result cbor_error W :=
  ps <~ read_map l ;;
  if negb (forallb (known schema) ps) then Err UnknownFieldError
  else vs <~ read_fields schema ps ;; Ok (of_fields vs).

Definition enc_item (i : item) : bytes :=
  match i with
  | IUint n => enc_fval (VUint64 n)
  | IBytes b => enc_fval (VBytes (Some b))
  | IText s => enc_fval (VString s)
  | INull => enc_fval (VBytes None)
  end.

Definition marshal_map (_ : cbor_mode) (g : gmap Z item) : option bytes :=
  let keys := merge_sort Z.le (elements (dom g)) in
  Some (head 5 (len keys) ++
        concat (map (fun k => head 0 k ++ enc_item (default INull (g !! k))) keys)).

Definition unmarshal_to_map (_ : cbor_mode) (l : bytes) :
    result cbor_error (gmap Z item) :=
  ps <~ read_map l ;; Ok (list_to_map ps).

#[global] Instance codec : Cbor := {|
  any := item;
  Marshal W S _ w := Some (enc_struct w);
  Unmarshal W S := unmarshal;
  MarshalMap := marshal_map;
  UnmarshalMap := unmarshal_to_map
|}.

(** ** Reading back deterministic encodings *)

Definition to_item (v : fval) : item :=
  match v with
  | VUint64 n => IUint n
  | VBytes None => INull
  | VBytes (Some b) => IBytes b
  | VString s => IText s
  end.

Lemma enc_to_item v : enc_item (to_item v) = enc_fval v.
Proof. by destruct v as [|[]|]. Qed.

Lemma to_fval_item v : to_fval (fval_type v) (to_item v) = Ok v.
Proof. by destruct v as [|[]|]. Qed.

Lemma split_at_app l r :
  len l < two63 -> split_at (len l) (l ++ r) = Ok (l, r).
Proof.
  intros H. unfold split_at. rewrite len_app.
  pose proof (len_nonneg r). rewrite (proj2 (Z.leb_le _ _)) by lia.
  rewrite (proj2 (Z.ltb_lt _ _)) by done. cbn [andb].
  unfold len. by rewrite Nat2Z.id, take_app_length, drop_app_length.
Qed.

Lemma read_sized n z r :
  0 <= z < 256 ^ Z.of_nat n -> (n <= 8)%nat ->
  ('(a, r') <~ split_at (Z.of_nat n) (be_bytes n z ++ r) ;; Ok (be_Z a, r'))
    = Ok (z, r).
Proof.
  intros Hz Hn.
  assert (Z.of_nat n = len (be_bytes n z)) as ->
    by (unfold len; by rewrite length_be_bytes).
  rewrite split_at_app.
  - cbn [rbind]. by rewrite be_Z_bytes_small.
  - unfold len. rewrite length_be_bytes. unfold two63. lia.
Qed.

Lemma first_byte major info :
  0 <= major < 8 -> 0 <= info < 32 ->
  byte_Z (Z_byte (major * 32 + info)) mod 32 = info /\
  byte_Z (Z_byte (major * 32 + info)) / 32 = major.
Proof.
  intros. rewrite byte_Z_byte by lia.
  split; Z.to_euclidean_division_equations; lia.
Qed.

Lemma read_head_head major arg r :
  0 <= major < 8 -> is_u64 arg -> read_head (head major arg ++ r) = Ok (major, arg, r).
Proof.
  intros Hm [Ha0 Ha]. unfold head, two64 in *.
  repeat case_match; cbn [app read_head].
  all: match goal with |- context [byte_Z (Z_byte (?m * 32 + ?i))] =>
         destruct (first_byte m i) as [-> ->]; [lia|lia|] end.
  - unfold read_arg. by case_match; [|lia].
  - change (read_arg 24 ?l) with ('(a, r') <~ split_at (Z.of_nat 1) l ;; Ok (be_Z a, r') : result cbor_error _).
    by rewrite read_sized by lia.
  - change (read_arg 25 ?l) with ('(a, r') <~ split_at (Z.of_nat 2) l ;; Ok (be_Z a, r') : result cbor_error _).
    by rewrite read_sized by lia.
  - change (read_arg 26 ?l) with ('(a, r') <~ split_at (Z.of_nat 4) l ;; Ok (be_Z a, r') : result cbor_error _).
    by rewrite read_sized by lia.
  - change (read_arg 27 ?l) with ('(a, r') <~ split_at (Z.of_nat 8) l ;; Ok (be_Z a, r') : result cbor_error _).
    by rewrite read_sized by lia.
Qed.

Lemma read_item_enc v r :
  fval_wf v -> fval_utf8 v -> read_item (enc_fval v ++ r) = Ok (to_item v, r).
Proof.
  intros Hwf Hu. unfold read_item.
  assert (Hu64 : forall n, 0 <= n < two63 -> is_u64 n)
    by (unfold is_u64, two63, two64; lia).
  destruct v as [n|[b|]|s]; cbn [enc_fval to_item fval_wf fval_utf8 slen] in *.
  - by rewrite read_head_head.
  - rewrite <- app_assoc, read_head_head; [|lia|apply Hu64; split; [apply len_nonneg|lia]].
    cbn [rbind Z.eqb Pos.eqb]. by rewrite split_at_app.
  - done.
  - rewrite <- app_assoc, read_head_head; [|lia|apply Hu64; split; [apply len_nonneg|lia]].
    cbn [rbind Z.eqb Pos.eqb]. rewrite split_at_app by done. cbn [rbind]. by rewrite Hu.
Qed.

Definition to_pair (kv : Z * fval) : Z * item := (kv.1, to_item kv.2).

Definition good_field (kv : Z * fval) : Prop :=
  is_u64 kv.1 /\ fval_wf kv.2 /\ fval_utf8 kv.2.

Lemma read_pairs_enc fs r :
  Forall good_field fs ->
  read_pairs (length fs) (concat (map enc_pair fs) ++ r) = Ok (map to_pair fs, r).
Proof.
  induction 1 as [|[k v] fs (Hk & Hwf & Hu) _ IH]; [done|].
  cbn [length map concat read_pairs fst snd] in *.
  change (enc_pair (k, v)) with (enc_fval (VUint64 k) ++ enc_fval v).
  rewrite <- !app_assoc.
  rewrite read_item_enc by done. cbn [rbind to_item].
  rewrite read_item_enc by done. cbn [rbind].
  by rewrite IH.
Qed.

Lemma map_fst_to_pair fs : map fst (map to_pair fs) = map fst fs.
Proof. rewrite map_map. by apply map_ext. Qed.

Lemma read_map_enc fs :
  Forall good_field fs -> len fs <= 16 -> NoDup (map fst fs) ->
  read_map (enc_fields fs) = Ok (map to_pair fs).
Proof.
  intros Hg Hlen Hnd. unfold read_map, enc_fields. pose proof (len_nonneg fs).
  rewrite read_head_head by (unfold is_u64, two64; lia).
  cbn [rbind Z.eqb Pos.eqb negb]. rewrite (proj2 (Z.ltb_ge _ _)) by done.
  unfold len. rewrite Nat2Z.id, <- (app_nil_r (concat _)), read_pairs_enc by done.
  cbn [rbind]. rewrite bool_decide_eq_true_2 by done. cbn [negb].
  by rewrite map_fst_to_pair, bool_decide_eq_true_2.
Qed.

(** ** What is read is well formed *)

Definition item_wf (i : item) : Prop :=
  match i with
  | IUint n => is_u64 n
  | IBytes b => len b < two63
  | IText s => len s < two63 /\ utf8_valid s = true
  | INull => True
  end.

Lemma split_at_Ok n l a r :
  split_at n l = Ok (a, r) -> 0 <= n -> len a = n /\ n < two63.
Proof.
  unfold split_at. case_match eqn:E; [|done]. intros [= <- <-] Hn.
  apply andb_prop in E as [E1 E2]. split; [|lia].
  unfold len in *. rewrite length_take. lia.
Qed.

Lemma read_sized_u64 n l z r :
  ('(a, r) <~ split_at n l ;; Ok (be_Z a, r)) = (Ok (z, r) : result cbor_error _) ->
  0 <= n <= 8 -> is_u64 z.
Proof.
  intros H Hn. inv_steps. destruct a as [a r']. injection H as <- <-.
  apply split_at_Ok in Hok as [Hlen _]; [|lia].
  pose proof (be_Z_range a). rewrite Hlen in H.
  pose proof (Z.pow_le_mono_r 256 n 8 ltac:(lia) ltac:(lia)).
  unfold is_u64, two64. lia.
Qed.

Lemma read_head_u64 l major arg r :
  read_head l = Ok (major, arg, r) -> is_u64 arg.
Proof.
  destruct l as [|b l]; [done|]. cbn [read_head]. intros H. inv_steps.
  destruct a as [arg' r']. injection H as <- <- <-.
  pose proof (Z.mod_pos_bound (byte_Z b) 32 ltac:(lia)). revert Hok. unfold read_arg.
  repeat case_match; try done; intros Hok; try by eapply read_sized_u64; [done|lia].
  injection Hok as <- <-. unfold is_u64, two64. lia.
Qed.

Lemma read_item_wf l i r : read_item l = Ok (i, r) -> item_wf i.
Proof.
  unfold read_item. intros H. inv_steps. destruct a as [[major arg] r'].
  pose proof (read_head_u64 _ _ _ _ Hok) as Harg.
  repeat case_match; inv_steps; try done.
  - by injection H as <- <-.
  - destruct a as [b r2]. injection H as <- <-. destruct Harg.
    apply split_at_Ok in Hok0 as [<- ?]; done.
  - destruct a as [s r2]. case_match eqn:E; [|done]. injection H as <- <-. destruct Harg.
    apply split_at_Ok in Hok0 as [<- ?]; done.
  - by injection H as <- <-.
Qed.

Lemma read_pairs_wf n l ps r :
  read_pairs n l = Ok (ps, r) -> Forall (fun p => item_wf p.2) ps.
Proof.
  revert l ps r. induction n as [|n IH]; intros l ps r H; cbn [read_pairs] in H.
  - injection H as <- _. constructor.
  - inv_steps. destruct a as [k r1]. inv_steps. destruct a as [v r2].
    destruct k; try done. inv_steps. destruct a as [ps' r3]. injection H as <- _.
    constructor; [by eapply read_item_wf|by eapply IH].
Qed.

Lemma read_map_wf l ps : read_map l = Ok ps -> Forall (fun p => item_wf p.2) ps.
Proof.
  unfold read_map. intros H. inv_steps. destruct a as [[major n] r].
  repeat case_match; try done. inv_steps. destruct a as [ps' r'].
  repeat case_match; try done. injection H as <-. by eapply read_pairs_wf.
Qed.

Lemma lookup_item_wf ps k : Forall (fun p => item_wf p.2) ps -> item_wf (lookup_item k ps).
Proof.
  intros Hps. unfold lookup_item. case_match eqn:E; [|done].
  apply find_some in E as [Hin _]. rewrite Forall_forall in Hps.
  by apply Hps, list_elem_of_In.
Qed.

Lemma to_fval_wf t i v :
  to_fval t i = Ok v -> item_wf i -> fval_wf v /\ fval_utf8 v /\ fval_type v = t.
Proof.
  destruct t, i; intros [= <-]; cbn; intuition; unfold is_u64, two63, two64, len; cbn; lia.
Qed.

Lemma read_fields_wf sch ps vs :
  read_fields sch ps = Ok vs -> Forall (fun p => item_wf p.2) ps ->
  Forall fval_wf vs /\ Forall fval_utf8 vs /\ map fval_type vs = map snd sch.
Proof.
  intros H Hps. revert vs H. induction sch as [|[k t] sch IH]; intros vs H; cbn [read_fields] in H.
  - by injection H as <-.
  - inv_steps. destruct (IH _ Hok0) as (? & ? & ?). injection H as <-.
    destruct (to_fval_wf _ _ _ Hok (lookup_item_wf _ k Hps)) as (? & ? & ?).
    split_and!; [by constructor|by constructor|cbn; congruence].
Qed.

(** ** The laws *)

Section Laws.
Context {W : Type} `{HW : WireStructOk W}.

Lemma fields_keys (w : W) : map fst (to_fields w) = map fst schema.
Proof. rewrite <- (to_fields_schema w), map_map. by apply map_ext. Qed.

Lemma schema_NoDup : NoDup (map fst schema).
Proof.
  generalize schema_sorted. generalize (map fst schema).
  induction 1 as [|k ks _ IH Hk]; constructor; [|done].
  intros Hin. rewrite Forall_forall in Hk. specialize (Hk _ Hin). lia.
Qed.

Lemma key_u64 k : k ∈ map fst schema -> is_u64 k.
Proof.
  intros Hin. pose proof schema_small as Hs. rewrite forallb_forall in Hs.
  specialize (Hs k ltac:(by apply list_elem_of_In)).
  unfold small_key, is_u64, two64 in *. lia.
Qed.

Lemma fields_good (w : W) : wire_wf w -> wire_utf8 w -> Forall good_field (to_fields w).
Proof.
  unfold wire_wf, wire_utf8. rewrite !Forall_forall. intros Hwf Hu [k v] Hin.
  split_and!; [|by apply (Hwf _ Hin)|by apply (Hu _ Hin)].
  apply key_u64. rewrite <- (fields_keys w). apply list_elem_of_In, in_map_iff.
  exists (k, v). split; [done|by apply list_elem_of_In].
Qed.

Lemma read_map_struct (w : W) :
  wire_wf w -> wire_utf8 w -> read_map (enc_struct w) = Ok (map to_pair (to_fields w)).
Proof.
  intros Hwf Hu. apply read_map_enc.
  - by apply fields_good.
  - rewrite <- schema_short, <- (to_fields_schema w). unfold len.
    by rewrite length_map.
  - rewrite fields_keys. apply schema_NoDup.
Qed.

Lemma lookup_item_fields fs k v :
  NoDup (map fst fs) -> (k, v) ∈ fs -> lookup_item k (map to_pair fs) = to_item v.
Proof.
  induction fs as [|[k' v'] fs IH]; [by intros _ ?%not_elem_of_nil|].
  intros [Hni Hnd]%NoDup_cons [[= -> ->]|Hin]%elem_of_cons; unfold lookup_item; simpl.
  - by rewrite Z.eqb_refl.
  - destruct (Z.eqb_spec k' k) as [->|]; [simpl in *|by apply IH].
    exfalso. apply Hni. apply list_elem_of_In, in_map_iff.
    exists (k, v). split; [done|by apply list_elem_of_In].
Qed.

Lemma read_fields_enc all fs :
  NoDup (map fst all) -> fs ⊆ all ->
  read_fields (map field_type fs) (map to_pair all) = Ok (map snd fs).
Proof.
  intros Hnd. induction fs as [|[k v] fs IH]; intros Hsub; [done|].
  cbn [map field_type fst snd read_fields].
  rewrite (lookup_item_fields all k v Hnd) by (apply Hsub; left).
  rewrite to_fval_item. cbn [rbind].
  rewrite IH; [done|]. intros x Hx. apply Hsub. by right.
Qed.

Lemma known_fields (w : W) :
  forallb (known (schema (W := W))) (map to_pair (to_fields w)) = true.
Proof.
  apply forallb_forall. intros p Hin. apply bool_decide_eq_true.
  rewrite <- (fields_keys w), <- map_fst_to_pair.
  apply list_elem_of_In, in_map. done.
Qed.

Lemma unmarshal_enc m (w : W) :
  wire_wf w -> wire_utf8 w -> unmarshal m (enc_struct w) = Ok w.
Proof.
  intros Hwf Hu. unfold unmarshal. rewrite read_map_struct by done. cbn [rbind].
  rewrite known_fields. cbn [negb].
  rewrite <- (to_fields_schema w), read_fields_enc; [|rewrite fields_keys; apply schema_NoDup|done].
  cbn [rbind]. by rewrite of_to_fields.
Qed.

Lemma unmarshal_wf m b (w : W) : unmarshal m b = Ok w -> wire_wf w /\ wire_utf8 w.
Proof.
  unfold unmarshal. intros H. inv_steps. case_match; [done|]. inv_steps. injection H as <-.
  destruct (read_fields_wf _ _ _ Hok0 (read_map_wf _ _ Hok)) as (Hwf & Hu & Ht).
  unfold wire_wf, wire_utf8. rewrite <- (to_of_fields _ Ht) in Hwf, Hu.
  by rewrite Forall_map in Hwf, Hu.
Qed.

Lemma dom_pairs (ps : list (Z * item)) :
  dom (list_to_map ps : gmap Z item) = list_to_set (map fst ps).
Proof. apply dom_list_to_map_L. Qed.

Lemma marshal_map_enc m (w : W) :
  marshal_map m (list_to_map (map to_pair (to_fields w))) = Some (enc_struct w).
Proof.
  unfold marshal_map. rewrite dom_pairs, map_fst_to_pair, fields_keys.
  assert (merge_sort Z.le (elements (list_to_set (map fst schema) : gset Z))
          = map fst (schema (W := W))) as ->.
  { apply (StronglySorted_unique Z.le).
    - apply (StronglySorted_merge_sort _).
    - generalize (schema_sorted (W := W)). induction 1 as [|k ks _ IH Hk]; constructor; [done|].
      eapply Forall_impl; [exact Hk|]. apply Z.lt_le_incl.
    - rewrite merge_sort_Permutation. apply elements_list_to_set, schema_NoDup. }
  f_equal. unfold enc_struct, enc_fields. rewrite <- (fields_keys w).
  f_equal; [unfold len; by rewrite length_map|].
  f_equal. rewrite map_map. apply map_ext_in. intros [k v] Hin. cbn [fst snd].
  change (enc_pair (k, v)) with (head 0 k ++ enc_fval v). f_equal.
  rewrite (elem_of_list_to_map_1 _ k (to_item v)).
  - apply enc_to_item.
  - rewrite map_fst_to_pair, fields_keys. apply schema_NoDup.
  - apply list_elem_of_In, in_map_iff. by exists (k, v).
Qed.
End Laws.

#[global] Instance codec_ok : CborOk codec.
Proof.
  split.
  - done.
  - intros W S HW m w. apply unmarshal_enc.
  - intros W S HW m b w. apply unmarshal_wf.
  - intros W S HW m w Hwf Hu. exists (list_to_map (map to_pair (to_fields w))).
    split_and!.
    + cbn. unfold unmarshal_to_map. by rewrite read_map_struct.
    + by rewrite dom_pairs, map_fst_to_pair, fields_keys.
    + apply marshal_map_enc.
Qed.

End Ref.

(** ** Deterministic encodings are prefix codes

    Equal encodings of two values of one struct type are encodings of the same
    value, valid UTF-8 or not: digests of statements bind every field. *)

Lemma len_u64 {A} (l : list A) : len l < two63 -> is_u64 (len l).
Proof. pose proof (len_nonneg l). clia. Qed.

Lemma enc_sized_prefix major (b b' r r' : bytes) :
  0 <= major < 8 -> len b < two63 -> len b' < two63 ->
  (head major (len b) ++ b) ++ r = (head major (len b') ++ b') ++ r' -> b = b' /\ r = r'.
Proof.
  intros Hm Hb Hb' H. rewrite <- !app_assoc in H.
  apply (f_equal Ref.read_head) in H.
  rewrite !Ref.read_head_head in H by (done || by apply len_u64).
  injection H as Hl H. apply app_inj_1 in H; [done|]. unfold len in Hl. lia.
Qed.

Lemma enc_fval_prefix v v' r r' :
  fval_wf v -> fval_wf v' -> fval_type v = fval_type v' ->
  enc_fval v ++ r = enc_fval v' ++ r' -> v = v' /\ r = r'.
Proof.
  intros Hv Hv' Ht H.
  destruct v as [n|[b|]|s], v' as [n'|[b'|]|s']; try discriminate Ht; cbn [enc_fval fval_wf slen] in *.
  - apply (f_equal Ref.read_head) in H. rewrite !Ref.read_head_head in H by done.
    by injection H as -> ->.
  - by apply enc_sized_prefix in H as [-> ->].
  - apply (f_equal Ref.read_head) in H. rewrite <- app_assoc in H.
    rewrite Ref.read_head_head in H by (done || by apply len_u64). discriminate H.
  - apply (f_equal Ref.read_head) in H. rewrite <- app_assoc in H.
    rewrite Ref.read_head_head in H by (done || by apply len_u64). discriminate H.
  - by injection H as ->.
  - by apply enc_sized_prefix in H as [-> ->].
Qed.

Lemma enc_pairs_inj fs fs' :
  Forall (fun kv => fval_wf kv.2) fs -> Forall (fun kv => fval_wf kv.2) fs' ->
  map field_type fs = map field_type fs' ->
  concat (map enc_pair fs) = concat (map enc_pair fs') -> fs = fs'.
Proof.
  intros Hf. revert fs'. induction Hf as [|[k v] fs Hv _ IH]; intros [|[k' v'] fs'] Hf' Ht H;
    try discriminate Ht; [done|].
  apply Forall_cons in Hf' as [Hv' Hf']. unfold field_type in Ht. cbn in Ht.
  injection Ht as -> Hty Ht. cbn [map concat] in H. unfold enc_pair in H. cbn [fst snd] in *.
  rewrite <- !app_assoc in H. apply app_inv_head in H.
  apply enc_fval_prefix in H as [-> H]; [|done..]. f_equal. by apply IH.
Qed.

Lemma enc_struct_inj {W} `{WireStructOk W} (w w' : W) :
  wire_wf w -> wire_wf w' -> enc_struct w = enc_struct w' -> w = w'.
Proof.
  intros Hw Hw' He. rewrite <- (of_to_fields w), <- (of_to_fields w'). do 2 f_equal.
  apply enc_pairs_inj; [done..|by rewrite !to_fields_schema|].
  unfold enc_struct, enc_fields in He.
  assert (Hlen : len (to_fields w) = len (to_fields w')).
  { unfold len. rewrite <- (length_map field_type (to_fields w)),
      <- (length_map field_type (to_fields w')). by rewrite !to_fields_schema. }
  rewrite Hlen in He. by apply app_inv_head in He.
Qed.
