(* ===== verification/LedgerCodec.v ===== *)
(** * Ledger protocol v1: constants, errors, digests and the canonical codec

    [internal/ledger/v1]: [constants.go], [errors.go], [digest.go], [codec.go]. *)

From S2P Require Import Prelude Sha256 Cbor CborRef.

(** ** constants.go *)

Definition protocolVersionV1 : Z := 1.
Definition recordVersionV1 : Z := 1.
Definition ledgerInitializedPayloadVersionV1 : Z := 1.

Definition ledgerRecordKeyVersion : Z := 0.
Definition ledgerRecordKeyRecordBodyBytes : Z := 1.
Definition ledgerRecordKeyDigestAlgorithm : Z := 2.
Definition ledgerRecordKeyDigest : Z := 3.

Definition recordBodyKeyVersion : Z := 0.
Definition recordBodyKeyEventBodyBytes : Z := 1.
Definition recordBodyKeyEventDigestAlgorithm : Z := 2.
Definition recordBodyKeyEventDigest : Z := 3.
Definition recordBodyKeySignerKeyReference : Z := 4.
Definition recordBodyKeySignatureAlgorithm : Z := 5.
Definition recordBodyKeySignatureEncoding : Z := 6.
Definition recordBodyKeySignatureBytes : Z := 7.

Definition eventBodyKeyProtocolVersion : Z := 0.
Definition eventBodyKeyLedgerID : Z := 1.
Definition eventBodyKeySequence : Z := 2.
Definition eventBodyKeyPreviousRecordDigest : Z := 3.
Definition eventBodyKeyAdmittedAtUnixMS : Z := 4.
Definition eventBodyKeyEventKind : Z := 5.
Definition eventBodyKeyPayloadVersion : Z := 6.
Definition eventBodyKeyPayloadBytes : Z := 7.

Definition digestAlgorithmSHA256 : gostring := gostr "sha-256".
Definition signatureAlgorithmP256 : gostring := gostr "ecdsa-p256-sha256".
Definition signatureEncodingASN1DER : gostring := gostr "asn1-der".

Definition domainEventDigestV1 : gostring := gostr "attribution-chain:event-digest:v1".
Definition domainRecordDigestV1 : gostring := gostr "attribution-chain:record-digest:v1".

Definition digestDomainSeparator : byte := x00.
Definition ledgerInitializedPayloadCBOR : bytes := [xa0].

Definition maxPayloadBytes : Z := 65536.
Definition maxEventBodyBytes : Z := 98304.
Definition maxRecordBodyBytes : Z := 131072.
Definition maxLedgerRecordBytes : Z := 131200.
Definition maxSignerReferenceBytes : Z := 512.
Definition minSignatureBytes : Z := 8.
Definition maxSignatureBytes : Z := 72.

Definition digestBytes : Z := 32.
Definition ledgerIDBytes : Z := 32.

Definition MaxRecordBytes : Z := maxLedgerRecordBytes.

Abbreviation LedgerID := (array 32).
Abbreviation Digest := (array 32).

(** [EventKind] is a [uint64]; the kinds version 1 names are constants of it. *)
Definition EventKindLedgerInitialized : Z := 1.
Definition EventKindEndorsementAccepted : Z := 2.
Definition EventKindEndorsementRevoked : Z := 3.

#[export] Hint Unfold protocolVersionV1 recordVersionV1 ledgerInitializedPayloadVersionV1
  maxPayloadBytes maxEventBodyBytes maxRecordBodyBytes maxLedgerRecordBytes
  maxSignerReferenceBytes minSignatureBytes maxSignatureBytes digestBytes ledgerIDBytes
  MaxRecordBytes EventKindLedgerInitialized EventKindEndorsementAccepted
  EventKindEndorsementRevoked : consts.

(** ** errors.go *)

Inductive sentinel :=
  | ErrOversizedInput
  | ErrMalformedCBOR
  | ErrNonConformingCBOR
  | ErrUnsupportedVersion
  | ErrSchemaViolation
  | ErrDigestMismatch
  | ErrInvalidSequence
  | ErrLedgerMismatch
  | ErrChainLinkMismatch
  | ErrUnsupportedEvent.

#[global] Instance sentinel_eq_dec : EqDecision sentinel.
Proof. solve_decision. Defined.

(** [validationStage] is a string type. *)
Definition stageEncoding : string := "encoding".
Definition stageDecoding : string := "decoding".
Definition stageEventBody : string := "event body".
Definition stageRecordBody : string := "record body".
Definition stageLedgerRecord : string := "ledger record".
Definition stagePayload : string := "payload".
Definition stageChainConsistency : string := "chain consistency".

Definition safeStageLabel (stage : string) : string :=
  if bool_decide (stage ∈ [stageEncoding; stageDecoding; stageEventBody; stageRecordBody;
                           stageLedgerRecord; stagePayload; stageChainConsistency])
  then stage
  else "validation".

(** The wrapped error: the label in its message and the sentinel [errors.Is]
    finds in it. *)
Record ledger_error := WrappedError { err_label : string; err_is : sentinel }.

Definition wrapValidationError (stage : string) (err : sentinel) : ledger_error :=
  WrappedError (safeStageLabel stage) err.

(** ** digest.go *)

Definition digest_preimage (domain : gostring) (body : bytes) : bytes :=
  domain ++ [digestDomainSeparator] ++ body.

Definition domainSeparatedDigest (domain : gostring) (body : bytes) : Digest :=
  Sha256.Sum256 (digest_preimage domain body).

(** ** codec.go *)

Definition classifyDecodeError (err : cbor_error) : sentinel :=
  match err with
  | SyntaxError | ExtraneousDataError => ErrMalformedCBOR
  | SemanticError | DupMapKeyError | IndefiniteLengthError | TagsMdError =>
      ErrNonConformingCBOR
  | UnmarshalTypeError | UnknownFieldError | MaxNestedLevelError
  | MaxArrayElementsError | MaxMapPairsError => ErrSchemaViolation
  | OtherDecodeError => ErrMalformedCBOR
  end.

Fixpoint expectedSet (acc : gset Z) (keys : list Z) : option (gset Z) :=
  match keys with
  | [] => Some acc
  | key :: rest =>
      if decide (key ∈ acc) then None else expectedSet ({[key]} ∪ acc) rest
  end.

Definition hasExactKeys {A} (values : gmap Z A) (expectedKeys : list Z) : bool :=
  if negb (Z.of_nat (size values) =? len expectedKeys) then false
  else
    match expectedSet ∅ expectedKeys with
    | None => false
    | Some expected =>
        forallb (fun kv => bool_decide (kv.1 ∈ expected)) (map_to_list values)
    end.

Section Codec.
Context {C : Cbor}.

Definition encodeCanonical {W} `{WireStruct W}
    (value : W) (maxBytes : Z) (stage : string) : result ledger_error bytes :=
  match Marshal ProtocolMode value with
  | None => Err (wrapValidationError stage ErrSchemaViolation)
  | Some encoded =>
      if maxBytes <? len encoded
      then Err (wrapValidationError stage ErrOversizedInput)
      else Ok encoded
  end.

(** The destination is the returned value. *)
Definition decodeCanonicalMap {W} `{WireStruct W}
    (encoded : bytes) (maxBytes : Z) (expectedKeys : list Z) (stage : string) :
    result ledger_error W :=
  if maxBytes <? len encoded then Err (wrapValidationError stage ErrOversizedInput)
  else
    generic <~ rmap_err (fun err => wrapValidationError stage (classifyDecodeError err))
                        (UnmarshalMap ProtocolMode encoded) ;;
    match MarshalMap ProtocolMode generic with
    | None => Err (wrapValidationError stage ErrSchemaViolation)
    | Some reencoded =>
        if negb (bool_decide (encoded = reencoded))
        then Err (wrapValidationError stage ErrNonConformingCBOR)
        else if negb (hasExactKeys generic expectedKeys)
        then Err (wrapValidationError stage ErrSchemaViolation)
        else
          destination <~ rmap_err
            (fun err => wrapValidationError stage (classifyDecodeError err))
            (Unmarshal (W := W) ProtocolMode encoded) ;;
          match Marshal ProtocolMode destination with
          | None => Err (wrapValidationError stage ErrSchemaViolation)
          | Some typedReencoded =>
              if negb (bool_decide (encoded = typedReencoded))
              then Err (wrapValidationError stage ErrNonConformingCBOR)
              else Ok destination
          end
    end.
End Codec.

(** ** Digests separate domains *)

Lemma app_separator_inj (d1 d2 b1 b2 : bytes) :
  x00 ∉ d1 -> x00 ∉ d2 -> d1 ++ [x00] ++ b1 = d2 ++ [x00] ++ b2 -> d1 = d2 /\ b1 = b2.
Proof.
  revert d2. induction d1 as [|a d1 IH]; intros [|b d2] H1 H2 H; cbn in H.
  - by injection H.
  - injection H as <- _. by destruct H2; left.
  - injection H as -> _. by destruct H1; left.
  - injection H as <- H. apply not_elem_of_cons in H1 as [? ?], H2 as [? ?].
    destruct (IH d2) as [-> ->]; done.
Qed.

(** A domain without the separator byte, by evaluation. *)
Lemma separator_free d : forallb (fun b => negb (bool_decide (b = x00))) d = true -> x00 ∉ d.
Proof.
  intros H Hin. rewrite forallb_forall in H. apply list_elem_of_In, H in Hin.
  by rewrite bool_decide_eq_true_2 in Hin.
Qed.

Lemma domainEvent_free : x00 ∉ domainEventDigestV1.
Proof. by apply separator_free. Qed.

Lemma domainRecord_free : x00 ∉ domainRecordDigestV1.
Proof. by apply separator_free. Qed.

#[export] Hint Resolve domainEvent_free domainRecord_free : core.

(** Equal digests under separator-free domains: the same domain and body, or
    the two preimages collide. *)
Lemma domainSeparatedDigest_inj d1 d2 b1 b2 :
  x00 ∉ d1 -> x00 ∉ d2 ->
  domainSeparatedDigest d1 b1 = domainSeparatedDigest d2 b2 ->
  (d1 = d2 /\ b1 = b2) \/ collide (digest_preimage d1 b1) (digest_preimage d2 b2).
Proof.
  intros H1 H2 [H|H]%Sum256_inj_or_collide; [left|by right].
  by apply app_separator_inj in H.
Qed.

(** ** [hasExactKeys] decides equality of key sets *)

Lemma expectedSet_spec keys acc :
  NoDup keys -> (forall k, k ∈ keys -> k ∉ acc) ->
  expectedSet acc keys = Some (list_to_set keys ∪ acc).
Proof.
  revert acc. induction keys as [|k keys IH]; intros acc Hnd Hdis; cbn [expectedSet].
  - f_equal. set_solver.
  - apply NoDup_cons in Hnd as [Hk Hnd].
    rewrite decide_False by (apply Hdis; left).
    rewrite IH; [f_equal; set_solver|done|].
    intros k' Hk'. assert (k' ∉ acc) by (apply Hdis; by right). set_solver.
Qed.

Lemma hasExactKeys_spec {A} (values : gmap Z A) keys :
  NoDup keys -> hasExactKeys values keys = true <-> dom values = list_to_set keys.
Proof.
  intros Hnd. unfold hasExactKeys.
  rewrite expectedSet_spec by (done || set_solver). rewrite union_empty_r_L.
  assert (Hsz : size (list_to_set keys : gset Z) = length keys)
    by by apply size_list_to_set.
  assert (Hall : forallb (fun kv => bool_decide (kv.1 ∈ (list_to_set keys : gset Z)))
                   (map_to_list values) = true <-> dom values ⊆ list_to_set keys).
  { rewrite forallb_forall. split.
    - intros H k [v Hv]%elem_of_dom. specialize (H (k, v)).
      by apply bool_decide_eq_true in H; [|by apply list_elem_of_In, elem_of_map_to_list].
    - intros H [k v] Hin. apply list_elem_of_In, elem_of_map_to_list in Hin.
      apply bool_decide_eq_true, H. by eapply elem_of_dom_2. }
  unfold len. split.
  - case_match eqn:E; [done|]. intros H%Hall.
    apply negb_false_iff, Z.eqb_eq in E.
    apply set_subseteq_size_eq; [done|]. rewrite Hsz, size_dom. lia.
  - intros Hdom.
    assert (size values = length keys) as -> by by rewrite <- Hsz, <- Hdom, size_dom.
    rewrite Z.eqb_refl. cbn [negb]. apply Hall. by rewrite Hdom.
Qed.

(** ** [decodeCanonicalMap] inverts the deterministic encoding *)

Section CodecLaws.
Context {C : Cbor} {CO : CborOk C} {W : Type} `{HW : WireStructOk W}.
Implicit Types (w : W) (encoded : bytes) (maxBytes : Z) (stage : string).

Lemma keys_NoDup : NoDup (map fst (schema (W := W))).
Proof. apply Ref.schema_NoDup. Qed.

(** Whatever is accepted is the encoding of the returned value. *)
Lemma decode_sound encoded maxBytes keys stage w :
  decodeCanonicalMap encoded maxBytes keys stage = Ok w ->
  encoded = enc_struct w /\ wire_wf w /\ wire_utf8 w /\ len encoded <= maxBytes.
Proof.
  unfold decodeCanonicalMap. intros H. inv_ok. injection H as <-. prep_bool. subst.
  match goal with Hu : Unmarshal _ _ = Ok _ |- _ =>
    destruct (unmarshal_typed _ _ _ Hu) as [Hwf Hutf] end.
  match goal with Hm : Marshal _ _ = Some _ |- _ =>
    rewrite marshal_struct in Hm by done; injection Hm as <- end.
  split_and!; [done..|lia].
Qed.

(** Every well-formed value is read back from its encoding. *)
Lemma decode_complete maxBytes stage w :
  wire_wf w -> wire_utf8 w -> len (enc_struct w) <= maxBytes ->
  decodeCanonicalMap (enc_struct w) maxBytes (map fst (schema (W := W))) stage = Ok w.
Proof.
  intros Hwf Hu Hlen. unfold decodeCanonicalMap.
  rewrite (proj2 (Z.ltb_ge _ _)) by done.
  destruct (unmarshal_map ProtocolMode w Hwf Hu) as (g & -> & Hdom & Hg).
  cbn [rmap_err rbind]. rewrite Hg, bool_decide_eq_true_2 by done. cbn [negb].
  rewrite (proj2 (hasExactKeys_spec g _ keys_NoDup) Hdom). cbn [negb].
  rewrite unmarshal_struct by done. cbn [rmap_err rbind].
  rewrite marshal_struct by done. by rewrite bool_decide_eq_true_2.
Qed.

Lemma decode_oversized encoded maxBytes keys stage :
  maxBytes < len encoded ->
  decodeCanonicalMap (W := W) encoded maxBytes keys stage
    = Err (wrapValidationError stage ErrOversizedInput).
Proof. intros H. unfold decodeCanonicalMap. by rewrite (proj2 (Z.ltb_lt _ _)). Qed.

Lemma encodeCanonical_spec w maxBytes stage :
  wire_wf w ->
  encodeCanonical w maxBytes stage =
    if maxBytes <? len (enc_struct w)
    then Err (wrapValidationError stage ErrOversizedInput)
    else Ok (enc_struct w).
Proof. intros Hwf. unfold encodeCanonical. by rewrite marshal_struct. Qed.
End CodecLaws.
