(* ===== verification/LedgerEvent.v ===== *)
(** * Ledger protocol v1: events

    [internal/ledger/v1/event.go]. *)

From S2P Require Import Prelude Sha256 Cbor CborRef LedgerCodec.

(** ** Data *)

Record StructuralEvent := MkEvent {
  ev_bytes : bytes;
  ev_digest : Digest;
  ev_ledgerID : LedgerID;
  ev_sequence : Z;
  ev_previousRecordDigest : Digest;
  ev_hasPreviousRecordDigest : bool;
  ev_admittedAtUnixMS : Z;
  ev_kind : Z;
  ev_payloadVersion : Z;
  ev_payloadBytes : bytes
}.

(** The zero value [StructuralEvent{}]. *)
Definition zeroEvent : StructuralEvent :=
  MkEvent [] (zero_array 32) (zero_array 32) 0 (zero_array 32) false 0 0 0 [].

Definition PreviousRecordDigest (event : StructuralEvent) : Digest * bool :=
  (ev_previousRecordDigest event, ev_hasPreviousRecordDigest event).

Record eventBodyWire := EventBodyWire {
  ew_ProtocolVersion : Z;
  ew_LedgerID : slice;
  ew_Sequence : Z;
  ew_PreviousRecordDigest : slice;
  ew_AdmittedAtUnixMS : Z;
  ew_EventKind : Z;
  ew_PayloadVersion : Z;
  ew_PayloadBytes : slice
}.

#[global] Instance eventBodyWire_struct : WireStruct eventBodyWire := {|
  schema := [(0, FUint64); (1, FBytes); (2, FUint64); (3, FBytes);
             (4, FUint64); (5, FUint64); (6, FUint64); (7, FBytes)];
  to_fields w :=
    [(0, VUint64 (ew_ProtocolVersion w)); (1, VBytes (ew_LedgerID w));
     (2, VUint64 (ew_Sequence w)); (3, VBytes (ew_PreviousRecordDigest w));
     (4, VUint64 (ew_AdmittedAtUnixMS w)); (5, VUint64 (ew_EventKind w));
     (6, VUint64 (ew_PayloadVersion w)); (7, VBytes (ew_PayloadBytes w))];
  of_fields vs :=
    match vs with
    | [VUint64 a; VBytes b; VUint64 c; VBytes d; VUint64 e; VUint64 f; VUint64 g; VBytes h] =>
        EventBodyWire a b c d e f g h
    | _ => EventBodyWire 0 None 0 None 0 0 0 None
    end
|}.

(** ** Operations *)

Definition validateEventBodyWire (wire : eventBodyWire) : result sentinel unit :=
  if negb (ew_ProtocolVersion wire =? protocolVersionV1) then Err ErrUnsupportedVersion
  else if negb (slen (ew_LedgerID wire) =? ledgerIDBytes) then Err ErrSchemaViolation
  else if ew_Sequence wire =? 0 then Err ErrInvalidSequence
  else if match ew_PreviousRecordDigest wire with
          | Some prev => negb (len prev =? digestBytes)
          | None => false
          end
  then Err ErrSchemaViolation
  else if (ew_EventKind wire =? 0) || (ew_PayloadVersion wire =? 0)
  then Err ErrSchemaViolation
  else if (slen (ew_PayloadBytes wire) =? 0) || (maxPayloadBytes <? slen (ew_PayloadBytes wire))
  then Err ErrSchemaViolation
  else Ok tt.

Definition digestEventBody (eventBodyBytes : bytes) : Digest :=
  domainSeparatedDigest domainEventDigestV1 eventBodyBytes.

Definition eventBodyKeys : list Z :=
  [eventBodyKeyProtocolVersion; eventBodyKeyLedgerID; eventBodyKeySequence;
   eventBodyKeyPreviousRecordDigest; eventBodyKeyAdmittedAtUnixMS; eventBodyKeyEventKind;
   eventBodyKeyPayloadVersion; eventBodyKeyPayloadBytes].

Section Event.
Context {C : Cbor}.

Definition ValidateEventStructure (encoded : bytes) : result ledger_error StructuralEvent :=
  wire <~ decodeCanonicalMap (W := eventBodyWire)
            encoded maxEventBodyBytes eventBodyKeys stageEventBody ;;
  _ <~ rmap_err (wrapValidationError stageEventBody) (validateEventBodyWire wire) ;;
  Ok {| ev_bytes := encoded;
        ev_digest := digestEventBody encoded;
        ev_sequence := ew_Sequence wire;
        ev_admittedAtUnixMS := ew_AdmittedAtUnixMS wire;
        ev_kind := ew_EventKind wire;
        ev_payloadVersion := ew_PayloadVersion wire;
        ev_payloadBytes := sbytes (ew_PayloadBytes wire);
        ev_ledgerID := copy_array 32 (sbytes (ew_LedgerID wire));
        ev_hasPreviousRecordDigest :=
          match ew_PreviousRecordDigest wire with Some _ => true | None => false end;
        ev_previousRecordDigest :=
          match ew_PreviousRecordDigest wire with
          | Some prev => copy_array 32 prev
          | None => zero_array 32
          end |}.

Definition NewEvent (ledgerID : LedgerID) (sequence : Z)
    (previousRecordDigest : option Digest) (admittedAtUnixMS kind payloadVersion : Z)
    (payloadBytes : slice) : result ledger_error StructuralEvent :=
  let prevBytes := arr_list <$> previousRecordDigest in
  let wire := {|
    ew_ProtocolVersion := protocolVersionV1;
    ew_LedgerID := Some (arr_list ledgerID);
    ew_Sequence := sequence;
    ew_PreviousRecordDigest := prevBytes;
    ew_AdmittedAtUnixMS := admittedAtUnixMS;
    ew_EventKind := kind;
    ew_PayloadVersion := payloadVersion;
    ew_PayloadBytes := payloadBytes
  |} in
  encoded <~ encodeCanonical wire maxEventBodyBytes stageEventBody ;;
  ValidateEventStructure encoded.

Definition validateLedgerInitializedPayload (payloadBytes : bytes) : result ledger_error unit :=
  _ <~ decodeCanonicalMap (W := unit) payloadBytes maxPayloadBytes [] stagePayload ;;
  if negb (bool_decide (payloadBytes = ledgerInitializedPayloadCBOR))
  then Err (wrapValidationError stagePayload ErrSchemaViolation)
  else Ok tt.

Definition NewGenesisEvent (ledgerID : LedgerID) (admittedAtUnixMS : Z) :
    result ledger_error StructuralEvent :=
  let payloadBytes := ledgerInitializedPayloadCBOR in
  _ <~ validateLedgerInitializedPayload payloadBytes ;;
  NewEvent ledgerID 1 None admittedAtUnixMS EventKindLedgerInitialized
    ledgerInitializedPayloadVersionV1 (Some payloadBytes).

Definition ValidateEventSemantics (event : StructuralEvent) : result ledger_error unit :=
  if len (ev_bytes event) =? 0 then Err (wrapValidationError stageEventBody ErrSchemaViolation)
  else
    validated <~ ValidateEventStructure (ev_bytes event) ;;
    if negb (ev_kind validated =? EventKindLedgerInitialized) ||
       negb (ev_payloadVersion validated =? ledgerInitializedPayloadVersionV1)
    then Err (wrapValidationError stageEventBody ErrUnsupportedEvent)
    else if negb (ev_sequence validated =? 1) || ev_hasPreviousRecordDigest validated
    then Err (wrapValidationError stageEventBody ErrInvalidSequence)
    else validateLedgerInitializedPayload (ev_payloadBytes validated).
End Event.

(** ** The wire form of an event *)

#[global] Instance eventBodyWire_ok : WireStructOk eventBodyWire.
Proof. wire_struct_ok. Qed.

(** The wire struct an event stands for. *)
Definition event_wire (e : StructuralEvent) : eventBodyWire := {|
  ew_ProtocolVersion := protocolVersionV1;
  ew_LedgerID := Some (arr_list (ev_ledgerID e));
  ew_Sequence := ev_sequence e;
  ew_PreviousRecordDigest :=
    if ev_hasPreviousRecordDigest e then Some (arr_list (ev_previousRecordDigest e)) else None;
  ew_AdmittedAtUnixMS := ev_admittedAtUnixMS e;
  ew_EventKind := ev_kind e;
  ew_PayloadVersion := ev_payloadVersion e;
  ew_PayloadBytes := Some (ev_payloadBytes e)
|}.

(** What the protocol requires of the fields (the CDDL [event-body-v1]). *)
Definition event_fields_ok (e : StructuralEvent) : Prop :=
  1 <= ev_sequence e < two64 /\ is_u64 (ev_admittedAtUnixMS e) /\
  1 <= ev_kind e < two64 /\ 1 <= ev_payloadVersion e < two64 /\
  1 <= len (ev_payloadBytes e) <= maxPayloadBytes /\
  (ev_hasPreviousRecordDigest e = false -> ev_previousRecordDigest e = zero_array 32).

(** An event as the package hands it out: valid fields, and the bytes and
    digest are the ones of its wire form. *)
Definition event_ok (e : StructuralEvent) : Prop :=
  event_fields_ok e /\
  ev_bytes e = enc_struct (event_wire e) /\
  ev_digest e = digestEventBody (ev_bytes e).

Lemma wire_wf_event w :
  wire_wf w <->
    is_u64 (ew_ProtocolVersion w) /\ slen (ew_LedgerID w) < two63 /\
    is_u64 (ew_Sequence w) /\ slen (ew_PreviousRecordDigest w) < two63 /\
    is_u64 (ew_AdmittedAtUnixMS w) /\ is_u64 (ew_EventKind w) /\
    is_u64 (ew_PayloadVersion w) /\ slen (ew_PayloadBytes w) < two63.
Proof.
  unfold wire_wf. cbn. rewrite !Forall_cons, Forall_nil. cbn. tauto.
Qed.

Lemma wire_utf8_event (w : eventBodyWire) : wire_utf8 w.
Proof. unfold wire_utf8. cbn. by repeat constructor. Qed.

(** The encoding of an event body stays far below its bound: the overhead on
    the payload is at most 127 bytes. *)
Lemma len_event_body w :
  slen (ew_LedgerID w) <= 32 -> slen (ew_PreviousRecordDigest w) <= 32 ->
  slen (ew_PayloadBytes w) <= maxPayloadBytes ->
  len (enc_struct w) <= 65663.
Proof.
  intros H1 H2 H3. unfold enc_struct, enc_fields. rewrite len_app.
  change (len (to_fields w)) with 8. cbn [to_fields eventBodyWire_struct map concat]. unfold enc_pair. cbn [fst snd].
  autorewrite with lens.
  assert (Hb : forall s n, 24 <= n -> slen s <= n ->
    len (enc_fval (VBytes s)) <= len (head 2 n) + n).
  { intros [b|] n Hn Hs; [by apply len_enc_bytes_le|].
    change (len (enc_fval (VBytes None))) with 1. pose proof (len_head_le 2 n). lia. }
  pose proof (Hb _ 32 ltac:(lia) H1) as B1. pose proof (Hb _ 32 ltac:(lia) H2) as B2.
  pose proof (Hb _ 65536 ltac:(lia) H3) as B3.
  pose proof (len_enc_uint (ew_ProtocolVersion w)). pose proof (len_enc_uint (ew_Sequence w)).
  pose proof (len_enc_uint (ew_AdmittedAtUnixMS w)). pose proof (len_enc_uint (ew_EventKind w)).
  pose proof (len_enc_uint (ew_PayloadVersion w)).
  rewrite !len_head in *. cbn [Z.ltb Z.compare Pos.compare Pos.compare_cont] in *.
  lia.
Qed.

(** ** Correctness of event validation *)

Lemma validateEventBodyWire_Ok w u :
  wire_wf w -> validateEventBodyWire w = Ok u ->
  ew_ProtocolVersion w = protocolVersionV1 /\ slen (ew_LedgerID w) = 32 /\
  1 <= ew_Sequence w < two64 /\
  (forall prev, ew_PreviousRecordDigest w = Some prev -> len prev = 32) /\
  1 <= ew_EventKind w < two64 /\ 1 <= ew_PayloadVersion w < two64 /\
  1 <= slen (ew_PayloadBytes w) <= maxPayloadBytes.
Proof.
  intros (?&?&?&?&?&?&?&?)%wire_wf_event.
  unfold validateEventBodyWire. intros Hv. inv_ok; prep_bool. pose proof (len_nonneg (sbytes (ew_PayloadBytes w))).
  rewrite <- slen_sbytes in *. split_and!; try clia.
  intros prev Hp. rewrite Hp in *. prep_bool. clia.
Qed.

Section EventLaws.
Context {C : Cbor} {CO : CborOk C}.

(** Acceptance yields a well-formed event over exactly the input bytes. *)
Lemma validate_event_sound encoded e :
  ValidateEventStructure encoded = Ok e -> event_ok e /\ ev_bytes e = encoded.
Proof.
  unfold ValidateEventStructure. intros H. inv_steps. injection H as <-.
  apply decode_sound in Hok as (-> & Hwf & _ & _).
  apply validateEventBodyWire_Ok in Hok0 as (Hv & Hid & Hseq & Hprev & Hk & Hp & Hpl); [|done].
  apply wire_wf_event in Hwf as (_ & _ & _ & _ & Hadm & _).
  destruct a as [v [id|] seq prev adm k pv [pl|]]; cbn in *; try lia.
  subst v. split; [|done]. unfold event_ok, event_fields_ok, event_wire. cbn.
  split_and!; try lia; try done.
  - by destruct prev.
  - rewrite copy_array_list by (unfold len in *; lia). f_equal.
    destruct prev as [prev|]; [|done]. specialize (Hprev _ eq_refl).
    by rewrite copy_array_list by (unfold len in *; lia).
Qed.

Lemma event_wire_wf e : event_fields_ok e -> wire_wf (event_wire e).
Proof.
  intros (? & ? & ? & ? & ? & ?). apply wire_wf_event.
  cbn. rewrite len_arr. case_match; cbn; rewrite ?len_arr; clia.
Qed.

Lemma len_event_wire e : event_fields_ok e -> len (enc_struct (event_wire e)) <= 65663.
Proof.
  intros (? & ? & ? & ? & ? & ?). apply len_event_body; cbn.
  - rewrite len_arr. lia.
  - case_match; cbn; rewrite ?len_arr; lia.
  - lia.
Qed.

Lemma event_wire_valid e :
  event_fields_ok e -> validateEventBodyWire (event_wire e) = Ok tt.
Proof.
  intros (? & ? & ? & ? & ? & ?).
  pose proof (len_arr32 (ev_ledgerID e)). pose proof (len_arr32 (ev_previousRecordDigest e)).
  unfold validateEventBodyWire, event_wire. cbn [ew_ProtocolVersion ew_LedgerID ew_Sequence
    ew_PreviousRecordDigest ew_EventKind ew_PayloadVersion ew_PayloadBytes slen].
  destruct (ev_hasPreviousRecordDigest e); repeat case_match; prep_bool; clia || done.
Qed.

(** A well-formed event is recovered from its bytes. *)
Lemma validate_event_complete e : event_ok e -> ValidateEventStructure (ev_bytes e) = Ok e.
Proof.
  intros (Hf & Hb & Hd). unfold ValidateEventStructure. rewrite Hb.
  pose proof (len_event_wire e Hf).
  change eventBodyKeys with (map fst (schema (W := eventBodyWire))).
  rewrite decode_complete;
    [|by apply event_wire_wf|apply wire_utf8_event|unfold maxEventBodyBytes; lia].
  cbn [rbind].
  rewrite (event_wire_valid e Hf).
  cbn [rmap_err rbind]. rewrite <- Hb, <- Hd. f_equal.
  destruct Hf as (_ & _ & _ & _ & _ & Hprev).
  destruct e as [b d id seq prev has adm k pv pl]. cbn in *.
  f_equal; [apply copy_array_arr| |by destruct has].
  destruct has; [apply copy_array_arr|symmetry; by apply Hprev].
Qed.

Lemma event_bytes_nonempty e : event_ok e -> (len (ev_bytes e) =? 0) = false.
Proof.
  intros (_ & -> & _). apply Z.eqb_neq. intros H%len_zero. by apply enc_fields_nonempty in H.
Qed.

End EventLaws.

(** ** Construction *)

(** The wire struct [NewEvent] marshals. *)
Definition raw_wire (id : LedgerID) (seq : Z) (prev : option Digest) (adm k pv : Z)
    (payload : slice) : eventBodyWire :=
  EventBodyWire protocolVersionV1 (Some (arr_list id)) seq (arr_list <$> prev) adm k pv payload.

(** The event with the given fields. *)
Definition event_of (id : LedgerID) (seq : Z) (prev : option Digest) (adm k pv : Z)
    (payload : bytes) : StructuralEvent :=
  let b := enc_struct (raw_wire id seq prev adm k pv (Some payload)) in
  MkEvent b (digestEventBody b) id seq (default (zero_array 32) prev)
    (bool_decide (is_Some prev)) adm k pv payload.

Lemma event_of_wire id seq prev adm k pv pl :
  event_wire (event_of id seq prev adm k pv pl) = raw_wire id seq prev adm k pv (Some pl).
Proof. by destruct prev. Qed.

Section Construction.
Context {C : Cbor} {CO : CborOk C}.
Implicit Types (id : LedgerID) (seq adm k pv : Z) (prev : option Digest).

Lemma raw_wire_wf id seq prev adm k pv payload :
  is_u64 seq -> is_u64 adm -> is_u64 k -> is_u64 pv -> slen payload < two63 ->
  wire_wf (raw_wire id seq prev adm k pv payload).
Proof.
  intros. apply wire_wf_event. cbn. rewrite len_arr32.
  destruct prev as [d|]; cbn; rewrite ?len_arr32; clia.
Qed.

(** [NewEvent] unfolded: the size bound, then the field validation. *)
Lemma NewEvent_checked id seq prev adm k pv payload :
  is_u64 seq -> is_u64 adm -> is_u64 k -> is_u64 pv -> slen payload < two63 ->
  let w := raw_wire id seq prev adm k pv payload in
  NewEvent id seq prev adm k pv payload =
    if maxEventBodyBytes <? len (enc_struct w)
    then Err (wrapValidationError stageEventBody ErrOversizedInput)
    else match validateEventBodyWire w with
    | Err e => Err (wrapValidationError stageEventBody e)
    | Ok _ => Ok (event_of id seq prev adm k pv (sbytes payload))
    end.
Proof.
  intros ? ? ? ? ? w. unfold NewEvent. fold (raw_wire id seq prev adm k pv payload). fold w.
  assert (Hwf : wire_wf w) by by apply raw_wire_wf.
  rewrite encodeCanonical_spec by done. case_match eqn:Hlen; [done|]. cbn [rbind].
  unfold ValidateEventStructure.
  change eventBodyKeys with (map fst (schema (W := eventBodyWire))).
  rewrite decode_complete; [|done|apply wire_utf8_event|lia].
  cbn [rbind]. destruct (validateEventBodyWire w) eqn:E; [|done].
  cbn [rmap_err rbind]. f_equal.
  apply validateEventBodyWire_Ok in E as (_ & _ & _ & _ & _ & _ & Hpl); [|done].
  destruct payload as [pl|]; [|cbn in Hpl; lia]. subst w. unfold event_of. cbn.
  f_equal; [apply copy_array_arr|..]; destruct prev; try done. apply copy_array_arr.
Qed.

(** Valid inputs give the event with these fields; the size bound is not
    reached. *)
Lemma NewEvent_valid id seq prev adm k pv payload :
  1 <= seq < two64 -> is_u64 adm -> 1 <= k < two64 -> 1 <= pv < two64 ->
  1 <= len payload <= maxPayloadBytes ->
  NewEvent id seq prev adm k pv (Some payload)
    = Ok (event_of id seq prev adm k pv payload) /\
  event_ok (event_of id seq prev adm k pv payload).
Proof.
  intros Hs Ha Hk Hpv Hpl.
  set (e := event_of id seq prev adm k pv payload).
  assert (Hf : event_fields_ok e).
  { unfold event_fields_ok. split_and!; try (cbn; clia). by destruct prev. }
  assert (Hw : event_wire e = raw_wire id seq prev adm k pv (Some payload))
    by apply event_of_wire.
  split.
  - rewrite NewEvent_checked by (cbn; clia). rewrite <- Hw, (event_wire_valid e Hf).
    pose proof (len_event_wire e Hf). rewrite (proj2 (Z.ltb_ge _ _)) by clia. done.
  - split_and!; [done|by rewrite Hw|done].
Qed.
End Construction.

(** ** Genesis semantics *)

Section Semantics.
Context {C : Cbor} {CO : CborOk C}.

Lemma initialized_payload_iff payload :
  validateLedgerInitializedPayload payload = Ok tt <-> payload = ledgerInitializedPayloadCBOR.
Proof.
  unfold validateLedgerInitializedPayload. split.
  - intros H. inv_ok. by prep_bool.
  - intros ->. change ledgerInitializedPayloadCBOR with (enc_struct tt) at 1.
    change [] with (map fst (schema (W := unit))).
    rewrite decode_complete; [done|by constructor|by constructor|done].
Qed.

Lemma semantics_iff e :
  event_ok e ->
  ValidateEventSemantics e = Ok tt <->
    ev_kind e = EventKindLedgerInitialized /\
    ev_payloadVersion e = ledgerInitializedPayloadVersionV1 /\
    ev_sequence e = 1 /\ ev_hasPreviousRecordDigest e = false /\
    ev_payloadBytes e = ledgerInitializedPayloadCBOR.
Proof.
  intros He. unfold ValidateEventSemantics.
  rewrite event_bytes_nonempty, validate_event_complete by done. cbn [rbind].
  rewrite <- initialized_payload_iff.
  destruct (Z.eqb_spec (ev_kind e) EventKindLedgerInitialized); cbn; [|split; [done|tauto]].
  destruct (Z.eqb_spec (ev_payloadVersion e) ledgerInitializedPayloadVersionV1); cbn;
    [|split; [done|tauto]].
  destruct (Z.eqb_spec (ev_sequence e) 1); cbn; [|split; [done|tauto]].
  destruct (ev_hasPreviousRecordDigest e); [split; [done|naive_solver]|tauto].
Qed.

Lemma NewGenesisEvent_valid id adm :
  is_u64 adm ->
  NewGenesisEvent id adm = Ok (event_of id 1 None adm 1 1 ledgerInitializedPayloadCBOR) /\
  event_ok (event_of id 1 None adm 1 1 ledgerInitializedPayloadCBOR).
Proof.
  intros Hadm. unfold NewGenesisEvent.
  rewrite (proj2 (initialized_payload_iff _) eq_refl). cbn [rbind].
  apply NewEvent_valid; try clia; done.
Qed.
End Semantics.

(** ** Properties *)

Section EventProperties.
Context {C : Cbor} {CO : CborOk C}.

(** C17: [NewEvent] on every branch, for any values of its Go types: an
    encoding above the bound is oversized; then a zero sequence is an invalid
    sequence; then a zero kind or payload version, or an empty or too long
    payload, is a schema violation; otherwise the event with exactly the
    given fields, its deterministic encoding and digest. *)
Theorem NewEvent_spec id seq prev adm k pv payload :
  is_u64 seq -> is_u64 adm -> is_u64 k -> is_u64 pv -> slen payload < two63 ->
  NewEvent id seq prev adm k pv payload =
    if maxEventBodyBytes <? len (enc_struct (raw_wire id seq prev adm k pv payload))
    then Err (WrappedError "event body" ErrOversizedInput)
    else if seq =? 0 then Err (WrappedError "event body" ErrInvalidSequence)
    else if (k =? 0) || (pv =? 0) || (slen payload =? 0) || (maxPayloadBytes <? slen payload)
    then Err (WrappedError "event body" ErrSchemaViolation)
    else Ok (event_of id seq prev adm k pv (sbytes payload)).
Proof.
  intros. rewrite NewEvent_checked by done. case_match; [done|].
  unfold validateEventBodyWire, raw_wire. cbn. rewrite len_arr32. cbn.
  destruct (seq =? 0); [done|].
  assert (Hprev : match arr_list <$> prev with
                  | Some p => negb (len p =? digestBytes) | None => false end = false).
  { destruct prev as [d|]; [|done]. cbn. by rewrite len_arr32. }
  rewrite Hprev. destruct (k =? 0), (pv =? 0); try done. cbn.
  by destruct (slen payload =? 0), (maxPayloadBytes <? slen payload).
Qed.

(** Round trip. Whatever [NewEvent] builds from valid inputs, and it
    builds it for all of them, is read back by [ValidateEventStructure] from
    its bytes with every field as given; the encoding never reaches the size
    bound. *)
Theorem NewEvent_roundtrip id seq prev adm k pv payload :
  1 <= seq < two64 -> is_u64 adm -> 1 <= k < two64 -> 1 <= pv < two64 ->
  1 <= len payload <= maxPayloadBytes ->
  exists e,
    NewEvent id seq prev adm k pv (Some payload) = Ok e /\
    ValidateEventStructure (ev_bytes e) = Ok e /\
    ev_ledgerID e = id /\ ev_sequence e = seq /\
    PreviousRecordDigest e = (default (zero_array 32) prev, bool_decide (is_Some prev)) /\
    ev_admittedAtUnixMS e = adm /\ ev_kind e = k /\ ev_payloadVersion e = pv /\
    ev_payloadBytes e = payload /\
    ev_digest e = digestEventBody (ev_bytes e) /\
    len (ev_bytes e) < maxEventBodyBytes.
Proof.
  intros. destruct (NewEvent_valid id seq prev adm k pv payload) as [Hnew Hok]; try done.
  exists (event_of id seq prev adm k pv payload).
  pose proof (len_event_wire _ (proj1 Hok)). rewrite <- (proj1 (proj2 Hok)) in *.
  split_and!; try done; [by apply validate_event_complete|clia].
Qed.

(** Semantic validation of a structurally valid event accepts exactly
    the genesis event: kind, payload version and sequence 1, no predecessor,
    the empty-map payload. *)
Theorem ValidateEventSemantics_spec encoded e :
  ValidateEventStructure encoded = Ok e ->
  ValidateEventSemantics e = Ok tt <->
    ev_kind e = EventKindLedgerInitialized /\ ev_payloadVersion e = 1 /\
    ev_sequence e = 1 /\ ev_hasPreviousRecordDigest e = false /\
    ev_payloadBytes e = [xa0].
Proof. intros [He _]%validate_event_sound. by apply semantics_iff. Qed.
End EventProperties.

(** ** Witnesses *)

Definition sample_id : LedgerID := copy_array 32 (map Z_byte (seqZ 0 32)).

Lemma NewEvent_spec_witness :
  NewEvent (C := Ref.codec) sample_id 0 None 7 2 1 (Some [x01])
    = Err (WrappedError "event body" ErrInvalidSequence).
Proof.
  rewrite (NewEvent_spec (C := Ref.codec)); [reflexivity|clia|clia|clia|clia|reflexivity].
Defined.

Lemma NewEvent_roundtrip_witness :
  exists e, NewEvent (C := Ref.codec) sample_id 2 (Some sample_id) 7 2 1 (Some [x01]) = Ok e /\
    ev_payloadBytes e = [x01].
Proof.
  destruct (NewEvent_roundtrip (C := Ref.codec) sample_id 2 (Some sample_id) 7 2 1 [x01])
    as (e & He & _ & _ & _ & _ & _ & _ & _ & Hpl & _); [clia|clia|clia|clia|split; vm_compute; discriminate|].
  exists e. by split.
Defined.

Definition sample_event : StructuralEvent :=
  event_of sample_id 1 None 1735689600123 1 1 ledgerInitializedPayloadCBOR.

Lemma sample_event_valid :
  ValidateEventStructure (C := Ref.codec) (ev_bytes sample_event) = Ok sample_event.
Proof.
  apply validate_event_complete.
  destruct (NewGenesisEvent_valid (C := Ref.codec) sample_id 1735689600123) as [_ H]; [clia|done].
Qed.

Lemma ValidateEventSemantics_spec_witness :
  ValidateEventSemantics (C := Ref.codec) sample_event = Ok tt.
Proof.
  by apply (ValidateEventSemantics_spec (C := Ref.codec) _ sample_event sample_event_valid).
Defined.
