(* ===== verification/LedgerRecord.v ===== *)
(** * Ledger protocol v1: records

    [internal/ledger/v1/record.go]. *)

From S2P Require Import Prelude Sha256 Cbor CborRef LedgerCodec LedgerEvent.

(** ** Data *)

Record StructuralRecord := MkRecord {
  rec_bytes : bytes;
  rec_recordBodyBytes : bytes;
  rec_recordDigest : Digest;
  rec_event : StructuralEvent;
  rec_signerKeyReference : gostring;
  rec_signatureBytes : bytes
}.

(** The zero value [StructuralRecord{}]. *)
Definition zeroRecord : StructuralRecord :=
  MkRecord [] [] (zero_array 32) zeroEvent [] [].

Record recordBodyWire := RecordBodyWire {
  rb_RecordVersion : Z;
  rb_EventBodyBytes : slice;
  rb_EventDigestAlgorithm : gostring;
  rb_EventDigest : slice;
  rb_SignerKeyReference : gostring;
  rb_SignatureAlgorithm : gostring;
  rb_SignatureEncoding : gostring;
  rb_SignatureBytes : slice
}.

Record ledgerRecordWire := LedgerRecordWire {
  lr_RecordVersion : Z;
  lr_RecordBodyBytes : slice;
  lr_RecordDigestAlgorithm : gostring;
  lr_RecordDigest : slice
}.

#[global] Instance recordBodyWire_struct : WireStruct recordBodyWire := {|
  schema := [(0, FUint64); (1, FBytes); (2, FString); (3, FBytes);
             (4, FString); (5, FString); (6, FString); (7, FBytes)];
  to_fields w :=
    [(0, VUint64 (rb_RecordVersion w)); (1, VBytes (rb_EventBodyBytes w));
     (2, VString (rb_EventDigestAlgorithm w)); (3, VBytes (rb_EventDigest w));
     (4, VString (rb_SignerKeyReference w)); (5, VString (rb_SignatureAlgorithm w));
     (6, VString (rb_SignatureEncoding w)); (7, VBytes (rb_SignatureBytes w))];
  of_fields vs :=
    match vs with
    | [VUint64 a; VBytes b; VString c; VBytes d; VString e; VString f; VString g; VBytes h] =>
        RecordBodyWire a b c d e f g h
    | _ => RecordBodyWire 0 None [] None [] [] [] None
    end
|}.

#[global] Instance ledgerRecordWire_struct : WireStruct ledgerRecordWire := {|
  schema := [(0, FUint64); (1, FBytes); (2, FString); (3, FBytes)];
  to_fields w :=
    [(0, VUint64 (lr_RecordVersion w)); (1, VBytes (lr_RecordBodyBytes w));
     (2, VString (lr_RecordDigestAlgorithm w)); (3, VBytes (lr_RecordDigest w))];
  of_fields vs :=
    match vs with
    | [VUint64 a; VBytes b; VString c; VBytes d] => LedgerRecordWire a b c d
    | _ => LedgerRecordWire 0 None [] None
    end
|}.

(** ** Operations *)

Definition validateLedgerRecordWire (wire : ledgerRecordWire) : result sentinel unit :=
  if negb (lr_RecordVersion wire =? recordVersionV1) then Err ErrUnsupportedVersion
  else if (slen (lr_RecordBodyBytes wire) =? 0) ||
          (maxRecordBodyBytes <? slen (lr_RecordBodyBytes wire))
  then Err ErrSchemaViolation
  else if negb (bool_decide (lr_RecordDigestAlgorithm wire = digestAlgorithmSHA256)) ||
          negb (slen (lr_RecordDigest wire) =? digestBytes)
  then Err ErrSchemaViolation
  else Ok tt.

Definition validateSignerKeyReference (reference : gostring) : result sentinel unit :=
  if (len reference =? 0) || (maxSignerReferenceBytes <? len reference)
  then Err ErrSchemaViolation
  else if existsb (fun c => (byte_Z c <? 32) || (126 <? byte_Z c)) reference
  then Err ErrSchemaViolation
  else Ok tt.

Definition isValidSignatureLength (signatureBytes : bytes) : bool :=
  (minSignatureBytes <=? len signatureBytes) && (len signatureBytes <=? maxSignatureBytes).

Definition validateRecordBodyWire (wire : recordBodyWire) : result sentinel unit :=
  if negb (rb_RecordVersion wire =? recordVersionV1) then Err ErrUnsupportedVersion
  else if (slen (rb_EventBodyBytes wire) =? 0) ||
          (maxEventBodyBytes <? slen (rb_EventBodyBytes wire))
  then Err ErrSchemaViolation
  else if negb (bool_decide (rb_EventDigestAlgorithm wire = digestAlgorithmSHA256)) ||
          negb (slen (rb_EventDigest wire) =? digestBytes)
  then Err ErrSchemaViolation
  else
    _ <~ validateSignerKeyReference (rb_SignerKeyReference wire) ;;
    if negb (bool_decide (rb_SignatureAlgorithm wire = signatureAlgorithmP256)) ||
       negb (bool_decide (rb_SignatureEncoding wire = signatureEncodingASN1DER))
    then Err ErrSchemaViolation
    else if negb (isValidSignatureLength (sbytes (rb_SignatureBytes wire)))
    then Err ErrSchemaViolation
    else Ok tt.

Definition digestRecordBody (recordBodyBytes : bytes) : Digest :=
  domainSeparatedDigest domainRecordDigestV1 recordBodyBytes.

Definition ledgerRecordKeys : list Z :=
  [ledgerRecordKeyVersion; ledgerRecordKeyRecordBodyBytes; ledgerRecordKeyDigestAlgorithm;
   ledgerRecordKeyDigest].

Definition recordBodyKeys : list Z :=
  [recordBodyKeyVersion; recordBodyKeyEventBodyBytes; recordBodyKeyEventDigestAlgorithm;
   recordBodyKeyEventDigest; recordBodyKeySignerKeyReference; recordBodyKeySignatureAlgorithm;
   recordBodyKeySignatureEncoding; recordBodyKeySignatureBytes].

Section Record_.
Context {C : Cbor}.

Definition ValidateRecordStructure (encoded : bytes) : result ledger_error StructuralRecord :=
  outer <~ decodeCanonicalMap (W := ledgerRecordWire)
             encoded maxLedgerRecordBytes ledgerRecordKeys stageLedgerRecord ;;
  _ <~ rmap_err (wrapValidationError stageLedgerRecord) (validateLedgerRecordWire outer) ;;
  body <~ decodeCanonicalMap (W := recordBodyWire)
            (sbytes (lr_RecordBodyBytes outer)) maxRecordBodyBytes recordBodyKeys
            stageRecordBody ;;
  _ <~ rmap_err (wrapValidationError stageRecordBody) (validateRecordBodyWire body) ;;
  if negb (lr_RecordVersion outer =? rb_RecordVersion body)
  then Err (wrapValidationError stageLedgerRecord ErrSchemaViolation)
  else
    let recordDigest := digestRecordBody (sbytes (lr_RecordBodyBytes outer)) in
    if negb (bool_decide (arr_list recordDigest = sbytes (lr_RecordDigest outer)))
    then Err (wrapValidationError stageLedgerRecord ErrDigestMismatch)
    else
      event <~ ValidateEventStructure (sbytes (rb_EventBodyBytes body)) ;;
      if negb (bool_decide (arr_list (ev_digest event) = sbytes (rb_EventDigest body)))
      then Err (wrapValidationError stageRecordBody ErrDigestMismatch)
      else Ok {|
        rec_bytes := encoded;
        rec_recordBodyBytes := sbytes (lr_RecordBodyBytes outer);
        rec_recordDigest := recordDigest;
        rec_event := event;
        rec_signerKeyReference := rb_SignerKeyReference body;
        rec_signatureBytes := sbytes (rb_SignatureBytes body)
      |}.

Definition NewRecord (event : StructuralEvent) (signerKeyReference : gostring)
    (signatureBytes : bytes) : result ledger_error StructuralRecord :=
  if len (ev_bytes event) =? 0 then Err (wrapValidationError stageEventBody ErrSchemaViolation)
  else
    validatedEvent <~ ValidateEventStructure (ev_bytes event) ;;
    _ <~ rmap_err (wrapValidationError stageRecordBody)
           (validateSignerKeyReference signerKeyReference) ;;
    if negb (isValidSignatureLength signatureBytes)
    then Err (wrapValidationError stageRecordBody ErrSchemaViolation)
    else
      recordBodyBytes <~ encodeCanonical {|
        rb_RecordVersion := recordVersionV1;
        rb_EventBodyBytes := Some (ev_bytes validatedEvent);
        rb_EventDigestAlgorithm := digestAlgorithmSHA256;
        rb_EventDigest := Some (arr_list (ev_digest validatedEvent));
        rb_SignerKeyReference := signerKeyReference;
        rb_SignatureAlgorithm := signatureAlgorithmP256;
        rb_SignatureEncoding := signatureEncodingASN1DER;
        rb_SignatureBytes := Some signatureBytes
      |} maxRecordBodyBytes stageRecordBody ;;
      let recordDigest := digestRecordBody recordBodyBytes in
      encoded <~ encodeCanonical {|
        lr_RecordVersion := recordVersionV1;
        lr_RecordBodyBytes := Some recordBodyBytes;
        lr_RecordDigestAlgorithm := digestAlgorithmSHA256;
        lr_RecordDigest := Some (arr_list recordDigest)
      |} maxLedgerRecordBytes stageLedgerRecord ;;
      ValidateRecordStructure encoded.
End Record_.

#[global] Instance recordBodyWire_ok : WireStructOk recordBodyWire.
Proof. wire_struct_ok. Qed.

#[global] Instance ledgerRecordWire_ok : WireStructOk ledgerRecordWire.
Proof. wire_struct_ok. Qed.

(** ** Well-formed records *)

(** The wire structs a record stands for. *)
Definition record_body_wire (r : StructuralRecord) : recordBodyWire := {|
  rb_RecordVersion := recordVersionV1;
  rb_EventBodyBytes := Some (ev_bytes (rec_event r));
  rb_EventDigestAlgorithm := digestAlgorithmSHA256;
  rb_EventDigest := Some (arr_list (ev_digest (rec_event r)));
  rb_SignerKeyReference := rec_signerKeyReference r;
  rb_SignatureAlgorithm := signatureAlgorithmP256;
  rb_SignatureEncoding := signatureEncodingASN1DER;
  rb_SignatureBytes := Some (rec_signatureBytes r)
|}.

Definition record_wire (r : StructuralRecord) : ledgerRecordWire := {|
  lr_RecordVersion := recordVersionV1;
  lr_RecordBodyBytes := Some (rec_recordBodyBytes r);
  lr_RecordDigestAlgorithm := digestAlgorithmSHA256;
  lr_RecordDigest := Some (arr_list (rec_recordDigest r))
|}.

Definition signer_ok (reference : gostring) : bool :=
  (1 <=? len reference) && (len reference <=? maxSignerReferenceBytes) &&
  forallb (in_range 32 126) reference.

(** A record as the package hands it out: the event, signer and signature are
    valid, the body is the encoding of them, the digest the body's, the bytes
    the encoding of both. *)
Definition record_ok (r : StructuralRecord) : Prop :=
  event_ok (rec_event r) /\
  signer_ok (rec_signerKeyReference r) = true /\
  isValidSignatureLength (rec_signatureBytes r) = true /\
  rec_recordBodyBytes r = enc_struct (record_body_wire r) /\
  rec_recordDigest r = digestRecordBody (rec_recordBodyBytes r) /\
  rec_bytes r = enc_struct (record_wire r).

Lemma validateSignerKeyReference_iff reference :
  validateSignerKeyReference reference = Ok tt <-> signer_ok reference = true.
Proof.
  unfold validateSignerKeyReference, signer_ok. pose proof (len_nonneg reference).
  assert (Hex : existsb (fun c => (byte_Z c <? 32) || (126 <? byte_Z c)) reference
                = negb (forallb (in_range 32 126) reference)).
  { induction reference as [|c l IH]; [done|]. cbn [existsb forallb].
    rewrite IH by apply len_nonneg. rewrite negb_andb. f_equal.
    unfold in_range. lia. }
  rewrite Hex. destruct (forallb _ _); repeat case_match; cbn; split; try done; clia.
Qed.

Lemma validateSignerKeyReference_spec reference :
  validateSignerKeyReference reference
    = if signer_ok reference then Ok tt else Err ErrSchemaViolation.
Proof.
  pose proof (validateSignerKeyReference_iff reference) as Hiff.
  destruct (signer_ok reference); [by apply Hiff|].
  unfold validateSignerKeyReference in *. repeat case_match; try done. naive_solver.
Qed.

Lemma signer_utf8 reference : signer_ok reference = true -> utf8_valid reference = true.
Proof.
  unfold signer_ok. intros. prep_bool. apply utf8_valid_ascii.
  apply forallb_forall. intros c Hc. rewrite forallb_forall in H0.
  specialize (H0 c Hc). unfold in_range in *. lia.
Qed.

Lemma wire_wf_body w :
  wire_wf w <->
    is_u64 (rb_RecordVersion w) /\ slen (rb_EventBodyBytes w) < two63 /\
    len (rb_EventDigestAlgorithm w) < two63 /\ slen (rb_EventDigest w) < two63 /\
    len (rb_SignerKeyReference w) < two63 /\ len (rb_SignatureAlgorithm w) < two63 /\
    len (rb_SignatureEncoding w) < two63 /\ slen (rb_SignatureBytes w) < two63.
Proof. unfold wire_wf. cbn. rewrite !Forall_cons, Forall_nil. cbn. tauto. Qed.

Lemma wire_wf_record w :
  wire_wf w <->
    is_u64 (lr_RecordVersion w) /\ slen (lr_RecordBodyBytes w) < two63 /\
    len (lr_RecordDigestAlgorithm w) < two63 /\ slen (lr_RecordDigest w) < two63.
Proof. unfold wire_wf. cbn. rewrite !Forall_cons, Forall_nil. cbn. tauto. Qed.

Lemma record_body_utf8 r :
  signer_ok (rec_signerKeyReference r) = true -> wire_utf8 (record_body_wire r).
Proof.
  intros H. unfold wire_utf8. cbn. rewrite !Forall_cons, Forall_nil. cbn.
  split_and!; try done. by apply signer_utf8.
Qed.

Lemma record_utf8 r : wire_utf8 (record_wire r).
Proof. unfold wire_utf8. cbn. rewrite !Forall_cons, Forall_nil. cbn. by split_and!. Qed.

(** Sizes: a record body around a valid event is below 67 KiB, the record adds
    at most 61 bytes; both bounds of the protocol are slack. *)
Section Sizes.
Context (r : StructuralRecord) (He : event_ok (rec_event r))
  (Hs : signer_ok (rec_signerKeyReference r) = true)
  (Hsig : isValidSignatureLength (rec_signatureBytes r) = true).

Lemma signer_len : 1 <= len (rec_signerKeyReference r) <= 512.
Proof using Hs. unfold signer_ok in Hs. prep_bool. clia. Qed.

Lemma signature_len : 8 <= len (rec_signatureBytes r) <= 72.
Proof using Hsig. unfold isValidSignatureLength in Hsig. prep_bool. clia. Qed.

Lemma event_len : 1 <= len (ev_bytes (rec_event r)) <= 65663.
Proof using He.
  pose proof (event_bytes_nonempty _ He). pose proof (len_nonneg (ev_bytes (rec_event r))).
  destruct He as (Hf & Hb & _). pose proof (len_event_wire _ Hf). rewrite <- Hb in *. lia.
Qed.

Lemma len_record_body : len (enc_struct (record_body_wire r)) <= 66400.
Proof using He Hs Hsig.
  pose proof signer_len. pose proof signature_len. pose proof event_len.
  unfold enc_struct, enc_fields. rewrite len_app.
  change (len (to_fields (record_body_wire r))) with 8.
  cbn [to_fields recordBodyWire_struct map concat record_body_wire rb_RecordVersion
    rb_EventBodyBytes rb_EventDigestAlgorithm rb_EventDigest rb_SignerKeyReference
    rb_SignatureAlgorithm rb_SignatureEncoding rb_SignatureBytes].
  unfold enc_pair. cbn [fst snd]. autorewrite with lens.
  pose proof (len_enc_bytes_le (ev_bytes (rec_event r)) 65663 ltac:(lia)).
  pose proof (len_enc_bytes_le (arr_list (ev_digest (rec_event r))) 32
                ltac:(rewrite len_arr32; lia)).
  pose proof (len_enc_string_le (rec_signerKeyReference r) 512 ltac:(lia)).
  pose proof (len_enc_bytes_le (rec_signatureBytes r) 72 ltac:(lia)).
  pose proof (len_enc_uint recordVersionV1).
  change (len (enc_fval (VString digestAlgorithmSHA256))) with 8.
  change (len (enc_fval (VString signatureAlgorithmP256))) with 18.
  change (len (enc_fval (VString signatureEncodingASN1DER))) with 9.
  rewrite !len_head in *. cbn [Z.ltb Z.compare Pos.compare Pos.compare_cont] in *. lia.
Qed.

Lemma record_body_wf : wire_wf (record_body_wire r).
Proof using He Hs Hsig.
  pose proof signer_len. pose proof signature_len. pose proof event_len.
  apply wire_wf_body. cbn. rewrite len_arr32. split_and!; try clia; by vm_compute.
Qed.
End Sizes.

Lemma len_record w :
  slen (lr_RecordBodyBytes w) <= maxRecordBodyBytes -> slen (lr_RecordDigest w) <= 32 ->
  lr_RecordDigestAlgorithm w = digestAlgorithmSHA256 ->
  len (enc_struct w) <= slen (lr_RecordBodyBytes w) + 61.
Proof.
  intros Hb Hd Ha. unfold enc_struct, enc_fields. rewrite len_app.
  change (len (to_fields w)) with 4.
  cbn [to_fields ledgerRecordWire_struct map concat]. rewrite Ha.
  unfold enc_pair. cbn [fst snd]. autorewrite with lens.
  assert (Hs : forall s n, 24 <= n -> slen s <= n ->
    len (enc_fval (VBytes s)) <= len (head 2 n) + slen s).
  { intros [b|] n Hn Hb'; [rewrite len_enc_bytes; pose proof (len_head_mono 2 _ _ Hb'); cbn [slen] in *; lia|].
    change (len (enc_fval (VBytes None))) with 1. pose proof (len_head_le 2 n). cbn. lia. }
  pose proof (Hs _ 131072 ltac:(lia) Hb). pose proof (Hs _ 32 ltac:(lia) Hd).
  pose proof (len_enc_uint (lr_RecordVersion w)).
  change (len (enc_fval (VString digestAlgorithmSHA256))) with 8.
  rewrite !len_head in *. cbn [Z.ltb Z.compare Pos.compare Pos.compare_cont] in *. lia.
Qed.

(** ** Correctness of record validation *)

Lemma validateLedgerRecordWire_Ok w u :
  validateLedgerRecordWire w = Ok u ->
  lr_RecordVersion w = recordVersionV1 /\
  1 <= slen (lr_RecordBodyBytes w) <= maxRecordBodyBytes /\
  lr_RecordDigestAlgorithm w = digestAlgorithmSHA256 /\ slen (lr_RecordDigest w) = 32.
Proof.
  unfold validateLedgerRecordWire. intros H. inv_ok. prep_bool.
  pose proof (len_nonneg (sbytes (lr_RecordBodyBytes w))). rewrite <- slen_sbytes in *.
  split_and!; done || clia.
Qed.

Lemma validateRecordBodyWire_Ok w u :
  validateRecordBodyWire w = Ok u ->
  rb_RecordVersion w = recordVersionV1 /\
  1 <= slen (rb_EventBodyBytes w) <= maxEventBodyBytes /\
  rb_EventDigestAlgorithm w = digestAlgorithmSHA256 /\ slen (rb_EventDigest w) = 32 /\
  signer_ok (rb_SignerKeyReference w) = true /\
  rb_SignatureAlgorithm w = signatureAlgorithmP256 /\
  rb_SignatureEncoding w = signatureEncodingASN1DER /\
  isValidSignatureLength (sbytes (rb_SignatureBytes w)) = true.
Proof.
  unfold validateRecordBodyWire. intros H. inv_ok. prep_bool.
  pose proof (len_nonneg (sbytes (rb_EventBodyBytes w))). rewrite <- slen_sbytes in *.
  destruct a. apply validateSignerKeyReference_iff in Hok. split_and!; done || clia.
Qed.

Section RecordLaws.
Context {C : Cbor} {CO : CborOk C}.

Lemma validate_record_sound encoded r :
  ValidateRecordStructure encoded = Ok r -> record_ok r /\ rec_bytes r = encoded.
Proof.
  unfold ValidateRecordStructure. intros H. inv_ok. injection H as <-. prep_bool.
  match goal with H : ValidateEventStructure _ = Ok _ |- _ =>
    apply validate_event_sound in H as [Hev Hevb] end.
  apply decode_sound in Hok as (-> & _). apply decode_sound in Hok1 as (Hbody & _).
  apply validateLedgerRecordWire_Ok in Hok0 as (Hv1 & Hl1 & Ha1 & Hd1).
  apply validateRecordBodyWire_Ok in Hok2 as (Hv & Hl2 & Ha2 & Hd2 & Hs & Hsa & Hse & Hsl).
  destruct a as [v1 [body|] alg1 [dig1|]]; cbn in *; try lia.
  destruct a1 as [v2 [evb|] alg2 [dig2|] sg sa se [sig|]]; cbn in *; try lia; try done.
  subst. split; [|done].
  unfold record_ok, record_wire, record_body_wire. cbn.
  by split_and!.
Qed.

Lemma validate_record_complete r : record_ok r -> ValidateRecordStructure (rec_bytes r) = Ok r.
Proof.
  intros (He & Hs & Hsig & Hbody & Hdig & Hb). unfold ValidateRecordStructure. rewrite Hb.
  pose proof (len_record_body r He Hs Hsig) as Hlb. rewrite <- Hbody in Hlb.
  assert (Hlr : len (enc_struct (record_wire r)) <= 66461).
  { etrans; [apply len_record|]; cbn; rewrite ?len_arr32; clia || done. }
  change ledgerRecordKeys with (map fst (schema (W := ledgerRecordWire))).
  rewrite decode_complete; [|apply wire_wf_record; cbn; rewrite len_arr32;
    split_and!; clia || by vm_compute|apply record_utf8|clia].
  cbn [rbind record_wire lr_RecordBodyBytes lr_RecordDigest lr_RecordVersion sbytes].
  assert (validateLedgerRecordWire (record_wire r) = Ok tt) as ->.
  { unfold validateLedgerRecordWire. cbn. rewrite len_arr32, bool_decide_eq_true_2 by done.
    assert (len (rec_recordBodyBytes r) <> 0).
    { rewrite Hbody. intros H%len_zero. by apply enc_fields_nonempty in H. }
    cbn. repeat case_match; prep_bool; clia || done. }
  cbn [rmap_err rbind].
  assert (decodeCanonicalMap (rec_recordBodyBytes r) maxRecordBodyBytes recordBodyKeys
            stageRecordBody = Ok (record_body_wire r)) as ->.
  { rewrite Hbody. change recordBodyKeys with (map fst (schema (W := recordBodyWire))).
    apply decode_complete;
      [by apply record_body_wf|by apply record_body_utf8|rewrite <- Hbody; clia]. }
  cbn [rbind]. assert (validateRecordBodyWire (record_body_wire r) = Ok tt) as ->.
  { unfold validateRecordBodyWire. cbn. pose proof (event_len r He).
    rewrite (proj2 (validateSignerKeyReference_iff _) Hs). cbn. rewrite Hsig, len_arr32.
    rewrite !bool_decide_eq_true_2 by done. repeat case_match; prep_bool; clia || done. }
  cbn. rewrite <- Hdig, bool_decide_eq_true_2 by done. cbn.
  rewrite validate_event_complete by done. cbn.
  rewrite bool_decide_eq_true_2 by done. cbn. f_equal. rewrite <- Hb. by destruct r.
Qed.

Lemma record_bytes_nonempty r : record_ok r -> (len (rec_bytes r) =? 0) = false.
Proof.
  intros (_ & _ & _ & _ & _ & ->). apply Z.eqb_neq. intros H%len_zero.
  by apply enc_fields_nonempty in H.
Qed.

(** A record is its body: equal bodies, equal records. *)
Lemma record_body_unique r1 r2 :
  record_ok r1 -> record_ok r2 -> rec_recordBodyBytes r1 = rec_recordBodyBytes r2 -> r1 = r2.
Proof.
  intros H1 H2 Hb.
  assert (rec_bytes r1 = rec_bytes r2) as Hbytes.
  { destruct H1 as (_ & _ & _ & _ & D1 & ->), H2 as (_ & _ & _ & _ & D2 & ->).
    unfold record_wire. by rewrite D1, D2, Hb. }
  apply validate_record_complete in H1, H2. congruence.
Qed.
End RecordLaws.

(** ** Construction *)

Definition record_of (e : StructuralEvent) (reference : gostring) (signature : bytes) :
    StructuralRecord :=
  let body := enc_struct (record_body_wire (MkRecord [] [] (zero_array 32) e reference signature)) in
  let digest := digestRecordBody body in
  MkRecord (enc_struct (record_wire (MkRecord [] body digest e reference signature)))
    body digest e reference signature.

Lemma record_of_ok e reference signature :
  event_ok e -> signer_ok reference = true -> isValidSignatureLength signature = true ->
  record_ok (record_of e reference signature).
Proof. intros. by split_and!. Qed.

Section RecordConstruction.
Context {C : Cbor} {CO : CborOk C}.

Lemma NewRecord_eq e reference signature :
  event_ok e ->
  NewRecord e reference signature =
    if signer_ok reference && isValidSignatureLength signature
    then Ok (record_of e reference signature)
    else Err (wrapValidationError stageRecordBody ErrSchemaViolation).
Proof.
  intros He. unfold NewRecord. rewrite event_bytes_nonempty by done.
  rewrite validate_event_complete by done. cbn [rbind].
  rewrite validateSignerKeyReference_spec.
  destruct (signer_ok reference) eqn:Hs; [|done]. cbn [rmap_err rbind andb].
  destruct (isValidSignatureLength signature) eqn:Hsig; [|done]. cbn [negb].
  pose proof (record_of_ok e reference signature He Hs Hsig) as Hr.
  set (r := record_of e reference signature) in *.
  change (RecordBodyWire _ _ _ _ _ _ _ _) with (record_body_wire r).
  pose proof (len_record_body r He Hs Hsig).
  rewrite encodeCanonical_spec by by apply record_body_wf.
  rewrite (proj2 (Z.ltb_ge _ _)) by clia. cbn [rbind].
  change (LedgerRecordWire _ _ _ _) with (record_wire r).
  assert (Hbody : len (rec_recordBodyBytes r) <= 66400) by done.
  rewrite encodeCanonical_spec.
  2: { apply wire_wf_record. cbn [record_wire lr_RecordVersion lr_RecordBodyBytes
         lr_RecordDigestAlgorithm lr_RecordDigest slen]. rewrite len_arr32.
       split_and!; clia || by vm_compute. }
  assert (len (enc_struct (record_wire r)) <= 66461).
  { etrans; [apply len_record|]; cbn [record_wire lr_RecordBodyBytes lr_RecordDigest slen];
      rewrite ?len_arr32; clia || done. }
  rewrite (proj2 (Z.ltb_ge _ _)) by clia. cbn [rbind].
  by apply (validate_record_complete r).
Qed.

Lemma record_len r : record_ok r -> len (rec_bytes r) <= 66461.
Proof.
  intros (He & Hs & Hsig & Hb & _ & ->).
  pose proof (len_record_body r He Hs Hsig). rewrite <- Hb in *.
  etrans; [apply len_record|]; cbn; rewrite ?len_arr32; clia || done.
Qed.

(** Equal record digests: equal records, or the bodies collide. *)
Lemma record_digest_inj r1 r2 :
  record_ok r1 -> record_ok r2 -> rec_recordDigest r1 = rec_recordDigest r2 ->
  r1 = r2 \/ collide (digest_preimage domainRecordDigestV1 (rec_recordBodyBytes r1))
                     (digest_preimage domainRecordDigestV1 (rec_recordBodyBytes r2)).
Proof.
  intros H1 H2 Hd.
  pose proof H1 as (_ & _ & _ & _ & D1 & _). pose proof H2 as (_ & _ & _ & _ & D2 & _).
  rewrite D1, D2 in Hd. apply domainSeparatedDigest_inj in Hd as [[_ Hb]|?];
    [left; by apply record_body_unique|by right|auto..].
Qed.
End RecordConstruction.

(** ** Properties *)

Section RecordProperties.
Context {C : Cbor} {CO : CborOk C}.

(** C10: [NewRecord] around any valid event, on every branch: it fails, with
    a schema violation at the record body stage, exactly when the signer
    reference is not 1 to 512 printable ASCII bytes or the signature not 8
    to 72 bytes; otherwise the record is built, never oversized, and
    [ValidateRecordStructure] reads it back from its bytes with the same
    event, signer reference and signature. *)
Theorem NewRecord_roundtrip eventBytes e reference signature :
  ValidateEventStructure eventBytes = Ok e ->
  if signer_ok reference && isValidSignatureLength signature
  then exists r,
    NewRecord e reference signature = Ok r /\
    ValidateRecordStructure (rec_bytes r) = Ok r /\
    rec_event r = e /\ rec_signerKeyReference r = reference /\
    rec_signatureBytes r = signature /\
    rec_recordDigest r = digestRecordBody (rec_recordBodyBytes r) /\
    len (rec_bytes r) < MaxRecordBytes
  else NewRecord e reference signature = Err (WrappedError "record body" ErrSchemaViolation).
Proof.
  intros [He _]%validate_event_sound. rewrite NewRecord_eq by done.
  destruct (_ && _) eqn:E; [|done]. prep_bool.
  pose proof (record_of_ok e reference signature He) as Hr.
  exists (record_of e reference signature). split_and!; try done.
  - by apply validate_record_complete, Hr.
  - pose proof (record_len _ (Hr ltac:(done) ltac:(done))). clia.
Qed.

(** C26: what [ValidateRecordStructure] accepts is consistent throughout:
    the bytes are the one deterministic encoding of the record, the record
    digest is the digest of the body bytes, the body is the encoding of the
    event bytes, event digest, signer reference and signature, the event is
    itself what [ValidateEventStructure] reads from its bytes, and the
    declared bounds hold. *)
Theorem ValidateRecordStructure_sound encoded r :
  ValidateRecordStructure encoded = Ok r ->
  rec_bytes r = encoded /\ encoded = enc_struct (record_wire r) /\
  rec_recordBodyBytes r = enc_struct (record_body_wire r) /\
  rec_recordDigest r = digestRecordBody (rec_recordBodyBytes r) /\
  ev_digest (rec_event r) = digestEventBody (ev_bytes (rec_event r)) /\
  ValidateEventStructure (ev_bytes (rec_event r)) = Ok (rec_event r) /\
  1 <= len (rec_signerKeyReference r) <= 512 /\ 8 <= len (rec_signatureBytes r) <= 72 /\
  len encoded <= MaxRecordBytes.
Proof.
  intros [Hr Hb]%validate_record_sound. pose proof (record_len r Hr).
  destruct Hr as (He & Hs & Hsig & Hbody & Hd & Hbytes). rewrite <- Hb.
  split_and!; try done; try apply signer_len; try apply signature_len; try done.
  - apply He.
  - by apply validate_event_complete.
  - clia.
Qed.

(** The record digest binds the whole record. Two accepted byte strings
    with the same record digest are equal, unless the domain-separated
    preimages of their bodies are a SHA-256 collision. *)
Theorem record_digest_binding b1 b2 r1 r2 :
  ValidateRecordStructure b1 = Ok r1 -> ValidateRecordStructure b2 = Ok r2 ->
  rec_recordDigest r1 = rec_recordDigest r2 ->
  b1 = b2 \/ collide (digest_preimage domainRecordDigestV1 (rec_recordBodyBytes r1))
                     (digest_preimage domainRecordDigestV1 (rec_recordBodyBytes r2)).
Proof.
  intros [H1 <-]%validate_record_sound [H2 <-]%validate_record_sound Hd.
  destruct (record_digest_inj r1 r2 H1 H2 Hd) as [->|]; [by left|by right].
Qed.
End RecordProperties.

(** ** Witnesses *)

Definition sample_reference : gostring := gostr "local:p256:v1".
Definition sample_signature : bytes := [x30; x06; x02; x01; x01; x02; x01; x01].
Definition sample_record : StructuralRecord :=
  record_of sample_event sample_reference sample_signature.

Lemma sample_record_valid :
  ValidateRecordStructure (C := Ref.codec) (rec_bytes sample_record) = Ok sample_record.
Proof.
  apply validate_record_complete, record_of_ok; [|done..].
  by destruct (NewGenesisEvent_valid (C := Ref.codec) sample_id 1735689600123) as [_ H]; [clia|].
Qed.

Lemma NewRecord_roundtrip_witness :
  exists r, NewRecord (C := Ref.codec) sample_event sample_reference sample_signature = Ok r /\
    len (rec_bytes r) < MaxRecordBytes.
Proof.
  destruct (NewRecord_roundtrip (C := Ref.codec) _ sample_event sample_reference sample_signature
    sample_event_valid) as (r & Hr & _ & _ & _ & _ & _ & Hlen).
  exact (ex_intro _ r (conj Hr Hlen)).
Defined.

Lemma ValidateRecordStructure_sound_witness :
  rec_recordDigest sample_record = digestRecordBody (rec_recordBodyBytes sample_record).
Proof.
  destruct (ValidateRecordStructure_sound (C := Ref.codec) _ _ sample_record_valid)
    as (_ & _ & _ & H & _). exact H.
Defined.

Lemma record_digest_binding_witness :
  rec_bytes sample_record = rec_bytes sample_record \/
  collide (digest_preimage domainRecordDigestV1 (rec_recordBodyBytes sample_record))
          (digest_preimage domainRecordDigestV1 (rec_recordBodyBytes sample_record)).
Proof.
  exact (record_digest_binding (C := Ref.codec) _ _ _ _ sample_record_valid sample_record_valid
    eq_refl).
Defined.
