(* ===== verification/LedgerChain.v ===== *)
(** * Ledger protocol v1: chain consistency and replay

    [internal/ledger/v1/chain.go], and the abstract chain it implements. *)

From S2P Require Import Prelude Sha256 Cbor CborRef LedgerCodec LedgerEvent LedgerRecord.

(** ** State and operations *)

Record ChainState := MkChainState {
  cs_initialized : bool;
  cs_ledgerID : LedgerID;
  cs_lastSequence : Z;
  cs_lastRecordDigest : Digest
}.

(** The zero value [ChainState{}]. *)
Definition zeroChainState : ChainState :=
  MkChainState false (zero_array 32) 0 (zero_array 32).

Definition ChainState_LedgerID (state : ChainState) : LedgerID * bool :=
  (cs_ledgerID state, cs_initialized state).

Definition ChainState_LastRecordDigest (state : ChainState) : Digest * bool :=
  (cs_lastRecordDigest state, cs_initialized state).

Record ReplayState := MkReplayState { rs_chain : ChainState }.

Section Chain.
Context {C : Cbor}.

(** Both results of the Go function: the state and the error, nil or not. *)
Definition ValidateChainConsistency (state : ChainState) (record : StructuralRecord) :
    ChainState * option ledger_error :=
  let fail err := (state, Some (wrapValidationError stageChainConsistency err)) in
  if len (rec_bytes record) =? 0 then fail ErrSchemaViolation
  else
    let event := rec_event record in
    if negb (cs_initialized state) then
      match ValidateEventSemantics event with
      | Err err => (state, Some err)
      | Ok _ =>
          ({| cs_initialized := true;
              cs_ledgerID := ev_ledgerID event;
              cs_lastSequence := ev_sequence event;
              cs_lastRecordDigest := rec_recordDigest record |}, None)
      end
    else if cs_lastSequence state =? MaxUint64 then fail ErrInvalidSequence
    else if negb (bool_decide (ev_ledgerID event = cs_ledgerID state)) then fail ErrLedgerMismatch
    else if negb (ev_sequence event =? u64_add (cs_lastSequence state) 1)
    then fail ErrInvalidSequence
    else
      let '(previousRecordDigest, ok) := PreviousRecordDigest event in
      if negb ok || negb (bool_decide (previousRecordDigest = cs_lastRecordDigest state))
      then fail ErrChainLinkMismatch
      else if ev_kind event =? EventKindLedgerInitialized then fail ErrInvalidSequence
      else
        ({| cs_initialized := true;
            cs_ledgerID := cs_ledgerID state;
            cs_lastSequence := ev_sequence event;
            cs_lastRecordDigest := rec_recordDigest record |}, None).

Definition Apply (state : ReplayState) (record : StructuralRecord) :
    ReplayState * option ledger_error :=
  match ValidateEventSemantics (rec_event record) with
  | Err err => (state, Some err)
  | Ok _ =>
      match ValidateChainConsistency (rs_chain state) record with
      | (_, Some err) => (state, Some err)
      | (nextChain, None) => (MkReplayState nextChain, None)
      end
  end.
End Chain.

Definition ChainStateFromRecord (record : StructuralRecord) : ChainState :=
  if len (rec_bytes record) =? 0 then zeroChainState
  else
    let event := rec_event record in
    {| cs_initialized := true;
       cs_ledgerID := ev_ledgerID event;
       cs_lastSequence := ev_sequence event;
       cs_lastRecordDigest := rec_recordDigest record |}.

(** ** The abstract chain

    What a ledger is, with no state machine: a genesis record, and each record
    linked to the one before it. *)

Definition is_genesis (r : StructuralRecord) : Prop :=
  let e := rec_event r in
  ev_kind e = EventKindLedgerInitialized /\ ev_payloadVersion e = 1 /\ ev_sequence e = 1 /\
  ev_hasPreviousRecordDigest e = false /\ ev_payloadBytes e = ledgerInitializedPayloadCBOR.

Definition follows (r r' : StructuralRecord) : Prop :=
  let e := rec_event r' in
  ev_ledgerID e = ev_ledgerID (rec_event r) /\
  ev_sequence e = ev_sequence (rec_event r) + 1 /\
  PreviousRecordDigest e = (rec_recordDigest r, true) /\
  ev_kind e <> EventKindLedgerInitialized.

Record valid_chain (rs : list StructuralRecord) : Prop := {
  vc_genesis r : rs !! 0%nat = Some r -> is_genesis r;
  vc_follows i r r' : rs !! i = Some r -> rs !! S i = Some r' -> follows r r'
}.

(** The state a chain leaves. *)
Definition head_state (rs : list StructuralRecord) : ChainState :=
  match last rs with
  | None => zeroChainState
  | Some r => ChainStateFromRecord r
  end.

(** Feeding records to the state machine until one is refused. *)
Fixpoint advance {C : Cbor} (state : ChainState) (rs : list StructuralRecord) :
    option ChainState :=
  match rs with
  | [] => Some state
  | r :: rs' =>
      match ValidateChainConsistency state r with
      | (state', None) => advance state' rs'
      | (_, Some _) => None
      end
  end.

(** ** Chains by their last record *)

Lemma valid_chain_nil : valid_chain [].
Proof. split; intros; discriminate. Qed.

Lemma valid_chain_snoc rs r :
  valid_chain (rs ++ [r]) <->
    valid_chain rs /\
    match last rs with None => is_genesis r | Some r0 => follows r0 r end.
Proof.
  split.
  - intros [Hg Hf]. split; [split|].
    + intros r0 H. apply Hg. rewrite lookup_app_l; [done|by eapply lookup_lt_Some].
    + intros i a b Ha Hb. apply (Hf i); rewrite lookup_app_l; try done;
        by eapply lookup_lt_Some.
    + destruct (last rs) as [r0|] eqn:E.
      * rewrite last_lookup in E. apply (Hf (pred (length rs))).
        -- rewrite lookup_app_l; [done|by eapply lookup_lt_Some].
        -- destruct rs as [|x rs']; [done|]. cbn [pred length].
           change (S (length rs')) with (length (x :: rs')).
           by apply list_lookup_middle.
      * apply last_None in E as ->. by apply Hg.
  - intros [[Hg Hf] Hl]. split.
    + intros r0. destruct rs as [|x rs]; cbn; [by intros [= <-]|]. apply Hg.
    + intros i a b Ha Hb.
      destruct (decide (S i < length rs)%nat).
      * rewrite lookup_app_l in Ha, Hb by lia. by apply (Hf i).
      * assert (S i = length rs).
        { apply lookup_lt_Some in Hb. rewrite length_app in Hb. cbn in Hb. lia. }
        rewrite lookup_app_l in Ha by lia.
        rewrite last_lookup in Hl. replace (pred (length rs)) with i in Hl by lia.
        rewrite Ha in Hl. replace (S i) with (length rs) in Hb.
        rewrite list_lookup_middle in Hb by done. by injection Hb as <-.
Qed.

(** The [i]-th record of a chain carries sequence [i + 1] and the ledger of the
    first. *)
Lemma valid_chain_sequence rs i r :
  valid_chain rs -> rs !! i = Some r -> ev_sequence (rec_event r) = Z.of_nat i + 1.
Proof.
  intros [Hg Hf]. revert r. induction i as [|i IH]; intros r Hr.
  - by destruct (Hg _ Hr) as (_ & _ & -> & _).
  - destruct (rs !! i) as [r0|] eqn:E.
    + destruct (Hf _ _ _ E Hr) as (_ & -> & _). rewrite (IH _ eq_refl). lia.
    + apply lookup_ge_None in E. apply lookup_lt_Some in Hr. lia.
Qed.

Lemma valid_chain_ledger rs i r g :
  valid_chain rs -> rs !! 0%nat = Some g -> rs !! i = Some r ->
  ev_ledgerID (rec_event r) = ev_ledgerID (rec_event g).
Proof.
  intros [Hg Hf] H0. revert r. induction i as [|i IH]; intros r Hr; [congruence|].
  destruct (rs !! i) as [r0|] eqn:E.
  - destruct (Hf _ _ _ E Hr) as (-> & _). by apply IH.
  - apply lookup_ge_None in E. apply lookup_lt_Some in Hr. lia.
Qed.

(** ** The state machine implements the abstract chain *)

Section ChainLaws.
Context {C : Cbor} {CO : CborOk C}.

Lemma ChainStateFromRecord_ok r :
  record_ok r ->
  ChainStateFromRecord r =
    MkChainState true (ev_ledgerID (rec_event r)) (ev_sequence (rec_event r)) (rec_recordDigest r).
Proof. intros Hr. unfold ChainStateFromRecord. by rewrite record_bytes_nonempty. Qed.

Lemma consistency_genesis r :
  record_ok r ->
  (exists s, ValidateChainConsistency zeroChainState r = (s, None)) <-> is_genesis r.
Proof.
  intros Hr. unfold ValidateChainConsistency. rewrite record_bytes_nonempty by done.
  cbn [zeroChainState cs_initialized negb]. pose proof (proj1 Hr) as He.
  pose proof (semantics_iff (rec_event r) He) as Hiff. unfold is_genesis.
  destruct (ValidateEventSemantics (rec_event r)) as [[]|err]; [naive_solver|].
  split; [by intros [? [=]]|]. intros Hg. apply Hiff in Hg. discriminate.
Qed.

Lemma consistency_step r0 r :
  record_ok r0 -> record_ok r ->
  (exists s, ValidateChainConsistency (ChainStateFromRecord r0) r = (s, None)) <-> follows r0 r.
Proof.
  intros Hr0 Hr. rewrite ChainStateFromRecord_ok by done.
  unfold ValidateChainConsistency, follows. rewrite record_bytes_nonempty by done.
  cbn [cs_initialized cs_lastSequence cs_ledgerID cs_lastRecordDigest negb].
  destruct Hr0 as [[Hf0 _] _], Hr as [[Hf _] _].
  destruct Hf0 as (Hs0 & _), Hf as (Hs & _).
  unfold PreviousRecordDigest. case_match eqn:Emax.
  { split; [by intros [? [=]]|]. intros (_ & H & _). clia. }
  rewrite u64_add_small by clia.
  destruct (bool_decide_reflect (ev_ledgerID (rec_event r) = ev_ledgerID (rec_event r0)));
    cbn [negb]; [|split; [by intros [? [=]]|tauto]].
  destruct (Z.eqb_spec (ev_sequence (rec_event r)) (ev_sequence (rec_event r0) + 1));
    cbn [negb]; [|split; [by intros [? [=]]|tauto]].
  destruct (ev_hasPreviousRecordDigest (rec_event r)); cbn [negb orb];
    [|split; [by intros [? [=]]|intros (_ & _ & [=] & _)]].
  destruct (bool_decide_reflect (ev_previousRecordDigest (rec_event r) = rec_recordDigest r0));
    cbn [negb]; [|split; [by intros [? [=]]|intros (_ & _ & [=] & _); done]].
  destruct (Z.eqb_spec (ev_kind (rec_event r)) EventKindLedgerInitialized);
    [split; [by intros [? [=]]|tauto]|].
  split; [intros _|intros _; by eexists]. split_and!; try done. congruence.
Qed.

(** Success leaves the state of the accepted record, failure the old one. *)
Lemma consistency_state s r s' :
  record_ok r -> ValidateChainConsistency s r = (s', None) -> s' = ChainStateFromRecord r.
Proof.
  intros Hr. rewrite ChainStateFromRecord_ok by done. unfold ValidateChainConsistency.
  repeat case_match; try by intros [=]. all: intros [= <-]; prep_bool; try done.
  all: f_equal; congruence.
Qed.

Lemma advance_snoc rs r s :
  advance s (rs ++ [r]) =
    match advance s rs with
    | None => None
    | Some s' => match ValidateChainConsistency s' r with (s'', None) => Some s'' | _ => None end
    end.
Proof.
  revert s. induction rs as [|x rs IH]; intros s; cbn [app advance].
  - by destruct (ValidateChainConsistency s r) as [? []].
  - destruct (ValidateChainConsistency s x) as [s' []]; [done|]. apply IH.
Qed.

Lemma head_state_snoc rs r : head_state (rs ++ [r]) = ChainStateFromRecord r.
Proof. unfold head_state. by rewrite last_snoc. Qed.

Lemma advance_iff rs s :
  Forall record_ok rs ->
  advance zeroChainState rs = Some s <-> valid_chain rs /\ s = head_state rs.
Proof.
  revert s. induction rs as [|r rs IH] using rev_ind; intros s Hall.
  - cbn. split; [intros [= <-]; by split; [apply valid_chain_nil|]|by intros [_ ->]].
  - apply Forall_app in Hall as [Hall Hr]. rewrite Forall_singleton in Hr.
    rewrite advance_snoc, valid_chain_snoc, head_state_snoc.
    assert (Hstep : valid_chain rs ->
      (exists s'', ValidateChainConsistency (head_state rs) r = (s'', None)) <->
      match last rs with None => is_genesis r | Some r0 => follows r0 r end).
    { intros _. unfold head_state. destruct (last rs) as [r0|] eqn:E.
      - apply consistency_step; [|done]. rewrite Forall_forall in Hall. apply Hall.
        apply list_elem_of_lookup. rewrite last_lookup in E. by eexists.
      - by apply consistency_genesis. }
    destruct (advance zeroChainState rs) as [s1|] eqn:E1.
    + destruct (proj1 (IH s1 Hall) eq_refl) as [Hv ->]. specialize (Hstep Hv).
      destruct (ValidateChainConsistency (head_state rs) r) as [s2 []] eqn:E2.
      * split; [done|]. intros [[_ Hl] _]. apply Hstep in Hl as [? [=]].
      * pose proof (consistency_state _ _ _ Hr E2) as ->. naive_solver.
    + split; [done|]. intros [[Hv _] _].
      enough (None = Some (head_state rs)) by done. by apply (IH (head_state rs)).
Qed.
End ChainLaws.

(** ** The head digest commits to the whole chain *)

(** Two records, one of each chain, whose digest preimages collide. *)
Definition chain_collision (rs1 rs2 : list StructuralRecord) : Prop :=
  exists r1 r2, r1 ∈ rs1 /\ r2 ∈ rs2 /\
    collide (digest_preimage domainRecordDigestV1 (rec_recordBodyBytes r1))
            (digest_preimage domainRecordDigestV1 (rec_recordBodyBytes r2)).

Lemma chain_collision_mono rs1 rs2 k1 k2 :
  chain_collision rs1 rs2 -> chain_collision (rs1 ++ k1) (rs2 ++ k2).
Proof. intros (r1 & r2 & ? & ? & ?). exists r1, r2. set_solver. Qed.

Lemma follows_genesis r0 r : follows r0 r -> is_genesis r -> False.
Proof. intros (_ & _ & _ & H) (H' & _). done. Qed.

Lemma chain_head_inj {C : Cbor} {CO : CborOk C} rs1 rs2 r1 r2 :
  Forall record_ok rs1 -> Forall record_ok rs2 -> valid_chain rs1 -> valid_chain rs2 ->
  last rs1 = Some r1 -> last rs2 = Some r2 -> rec_recordDigest r1 = rec_recordDigest r2 ->
  rs1 = rs2 \/ chain_collision rs1 rs2.
Proof.
  revert rs2 r1 r2. induction rs1 as [|x xs IH] using rev_ind; intros rs2 r1 r2; [done|].
  destruct rs2 as [|y ys _] using rev_ind; [done|].
  rewrite !last_snoc, !Forall_app, !Forall_singleton, !valid_chain_snoc.
  intros [Hxs Hx] [Hys Hy] [Vx Lx] [Vy Ly] [= <-] [= <-] Hd.
  destruct (record_digest_inj x y Hx Hy Hd) as [<-|Hcol].
  2: { right. exists x, y. set_solver. }
  destruct (last xs) as [a|] eqn:Ea, (last ys) as [b|] eqn:Eb.
  - destruct (IH ys a b) as [->|Hcol]; try done.
    + destruct Lx as (_ & _ & Hp1 & _), Ly as (_ & _ & Hp2 & _). congruence.
    + by left.
    + right. by apply chain_collision_mono.
  - by destruct (follows_genesis a x).
  - by destruct (follows_genesis b x).
  - apply last_None in Ea as ->, Eb as ->. by left.
Qed.

(** ** Properties *)

Definition accepted (rs : list StructuralRecord) {C : Cbor} : Prop :=
  Forall (fun r => ValidateRecordStructure (rec_bytes r) = Ok r) rs.

Lemma accepted_ok {C : Cbor} {CO : CborOk C} rs : accepted rs -> Forall record_ok rs.
Proof.
  intros H. eapply Forall_impl; [exact H|]. by intros r [? _]%validate_record_sound.
Qed.

Section ChainProperties.
Context {C : Cbor} {CO : CborOk C}.

(** C4: refinement. Feeding validated records from the empty state
    succeeds exactly when they form a chain in the abstract sense (a genesis
    record, then each record with the ledger of the one before it, the next
    sequence number, its record digest as predecessor, and not a genesis
    kind), and the state reached is the one of the last record. *)
Theorem chain_refinement rs s :
  accepted rs ->
  advance zeroChainState rs = Some s <-> valid_chain rs /\ s = head_state rs.
Proof. intros. by apply advance_iff, accepted_ok. Qed.

(** C6: tamper evidence. Two chains of validated records, accepted by the
    state machine, that end in the same record digest are the same list of
    records, unless two of their record bodies are a SHA-256 collision. *)
Theorem chain_head_binding rs1 rs2 s1 s2 :
  accepted rs1 -> accepted rs2 ->
  advance zeroChainState rs1 = Some s1 -> advance zeroChainState rs2 = Some s2 ->
  cs_initialized s1 = true -> cs_initialized s2 = true ->
  cs_lastRecordDigest s1 = cs_lastRecordDigest s2 ->
  rs1 = rs2 \/ chain_collision rs1 rs2.
Proof.
  intros H1%accepted_ok H2%accepted_ok [V1 ->]%advance_iff [V2 ->]%advance_iff; [|done..].
  unfold head_state. intros I1 I2 Hd.
  destruct (last rs1) as [r1|] eqn:E1, (last rs2) as [r2|] eqn:E2; try done.
  assert (record_ok r1 /\ record_ok r2) as [R1 R2].
  { rewrite Forall_forall in H1, H2. rewrite last_lookup in E1, E2.
    split; [apply H1|apply H2]; apply list_elem_of_lookup; by eexists. }
  rewrite !ChainStateFromRecord_ok in Hd by done.
  by eapply chain_head_inj.
Qed.

(** In an accepted chain the [i]-th record has sequence [i + 1], all
    records have one ledger id, and the state counts the records. *)
Theorem chain_sequences rs s i r :
  accepted rs -> advance zeroChainState rs = Some s -> rs !! i = Some r ->
  ev_sequence (rec_event r) = Z.of_nat i + 1 /\
  ev_ledgerID (rec_event r) = cs_ledgerID s /\
  cs_lastSequence s = len rs.
Proof.
  intros Hok%accepted_ok Hadv Hr. apply advance_iff in Hadv as [V ->]; [|done].
  destruct rs as [|y xs _] using rev_ind; [done|].
  rewrite head_state_snoc.
  rewrite Forall_app, Forall_singleton in Hok. destruct Hok as [_ Hok].
  rewrite ChainStateFromRecord_ok by done. cbn.
  assert (Hy : (xs ++ [y]) !! length xs = Some y) by by apply list_lookup_middle.
  destruct ((xs ++ [y]) !! 0%nat) as [g|] eqn:Hg.
  2: { apply lookup_ge_None in Hg. rewrite length_app in Hg. cbn in Hg. lia. }
  rewrite (valid_chain_sequence _ _ _ V Hr), (valid_chain_sequence _ _ _ V Hy).
  rewrite (valid_chain_ledger _ _ _ _ V Hg Hr), (valid_chain_ledger _ _ _ _ V Hg Hy).
  split_and!; [done..|]. rewrite len_app. unfold len. cbn. lia.
Qed.

(** No wrap-around. A chain whose last sequence is the largest uint64
    accepts no further record, valid or not, and stays as it is. *)
Theorem chain_sequence_exhausted s r :
  cs_initialized s = true -> cs_lastSequence s = MaxUint64 -> rec_bytes r <> [] ->
  ValidateChainConsistency s r = (s, Some (WrappedError "chain consistency" ErrInvalidSequence)).
Proof.
  intros Hi Hm Hb. unfold ValidateChainConsistency.
  destruct (Z.eqb_spec (len (rec_bytes r)) 0) as [Hz%len_zero|]; [done|].
  by rewrite Hi, Hm.
Qed.

(** Semantic replay accepts the genesis record of an empty state and
    nothing else: from any initialized state [Apply] refuses every validated
    record, and it returns the state it was given whenever it fails. *)
Theorem Apply_genesis_only state encoded r :
  ValidateRecordStructure encoded = Ok r ->
  (snd (Apply state r) = None <->
     cs_initialized (rs_chain state) = false /\ is_genesis r) /\
  (forall e, snd (Apply state r) = Some e -> fst (Apply state r) = state).
Proof.
  intros [Hr _]%validate_record_sound. pose proof (proj1 Hr) as He. unfold Apply.
  pose proof (semantics_iff _ He) as Hsem. fold (is_genesis r) in Hsem.
  destruct (ValidateEventSemantics (rec_event r)) as [[]|err] eqn:E.
  2: { split; [|done]. split; [done|]. intros [_ Hg]. by apply Hsem in Hg. }
  destruct (proj1 Hsem eq_refl) as (Hk & _ & _ & Hp & _).
  unfold ValidateChainConsistency. rewrite record_bytes_nonempty, E by done.
  destruct (cs_initialized (rs_chain state)); cbn [negb].
  - unfold PreviousRecordDigest. rewrite Hp. cbn [negb orb]. repeat case_match; try done; naive_solver.
  - split; [|done]. split; [intros _; split; [done|by apply Hsem]|done].
Qed.
End ChainProperties.

(** ** Witnesses *)

Definition sample_event2 : StructuralEvent :=
  event_of sample_id 2 (Some (rec_recordDigest sample_record)) 1735689600124 2 1 [x01].
Definition sample_record2 : StructuralRecord :=
  record_of sample_event2 sample_reference sample_signature.
Definition sample_chain : list StructuralRecord := [sample_record; sample_record2].

Lemma sample_record2_valid :
  ValidateRecordStructure (C := Ref.codec) (rec_bytes sample_record2) = Ok sample_record2.
Proof.
  apply validate_record_complete, record_of_ok; [|done..].
  apply (NewEvent_valid (C := Ref.codec)); try clia. split; vm_compute; discriminate.
Qed.

Lemma sample_chain_accepted : accepted (C := Ref.codec) sample_chain.
Proof.
  constructor; [exact sample_record_valid|].
  constructor; [exact sample_record2_valid|constructor].
Qed.

Lemma sample_chain_valid : valid_chain sample_chain.
Proof.
  split; [by intros r [= <-]|]. intros [|[|i]] r r'; cbn; [|done..].
  intros [= <-] [= <-]. by split_and!.
Qed.

Lemma chain_refinement_witness :
  advance (C := Ref.codec) zeroChainState sample_chain = Some (head_state sample_chain).
Proof.
  exact (proj2 (chain_refinement (C := Ref.codec) _ _ sample_chain_accepted)
    (conj sample_chain_valid eq_refl)).
Defined.

Lemma sample_advance :
  advance (C := Ref.codec) zeroChainState sample_chain = Some (head_state sample_chain).
Proof. apply advance_iff; [by apply accepted_ok, sample_chain_accepted|]. by split; [apply sample_chain_valid|]. Qed.

Lemma chain_head_binding_witness :
  sample_chain = sample_chain \/ chain_collision sample_chain sample_chain.
Proof.
  exact (chain_head_binding (C := Ref.codec) _ _ _ _ sample_chain_accepted sample_chain_accepted
    sample_advance sample_advance eq_refl eq_refl eq_refl).
Defined.

Lemma chain_sequences_witness : ev_sequence (rec_event sample_record2) = 2.
Proof.
  exact (proj1 (chain_sequences (C := Ref.codec) _ _ 1 sample_record2 sample_chain_accepted
    sample_advance eq_refl)).
Defined.

Lemma chain_sequence_exhausted_witness :
  ValidateChainConsistency (C := Ref.codec)
    (MkChainState true sample_id MaxUint64 (zero_array 32)) sample_record2
  = (MkChainState true sample_id MaxUint64 (zero_array 32),
     Some (WrappedError "chain consistency" ErrInvalidSequence)).
Proof.
  apply (chain_sequence_exhausted (C := Ref.codec)); [reflexivity|reflexivity|discriminate].
Defined.

Lemma Apply_genesis_only_witness :
  snd (Apply (C := Ref.codec) (MkReplayState zeroChainState) sample_record) = None.
Proof.
  apply (Apply_genesis_only (C := Ref.codec) (MkReplayState zeroChainState) _ _ sample_record_valid).
  by split.
Defined.
