(* ===== verification/Ecdsa.v ===== *)
(** * ECDSA keys and signatures

    [crypto/ecdsa] is a parameter of the model, the class [Ecdsa]; what the
    code relies on is the class [EcdsaOk].  No unforgeability is assumed: the
    theorems say which statement a signature was checked against.  [Toy] is a
    concrete instance, used by the witnesses only. *)

From S2P Require Import Prelude.

Class Ecdsa := {
  PublicKey : Type;
  PrivateKey : Type;
  (** [key.PublicKey] *)
  Public : PrivateKey -> PublicKey;
  (** [key.Curve == elliptic.P256()] *)
  IsP256 : PublicKey -> bool;
  (** [pub.Bytes()], [None] when it returns an error *)
  KeyBytes : PublicKey -> option bytes;
  (** [ecdsa.ParseUncompressedPublicKey(elliptic.P256(), b)] *)
  ParseUncompressedPublicKey : bytes -> option PublicKey;
  VerifyASN1 : PublicKey -> bytes -> bytes -> bool;
  (** [ecdsa.SignASN1(rand.Reader, key, hash)], the entropy read made explicit *)
  SignASN1 : bytes -> PrivateKey -> bytes -> option bytes
}.

(** Documented behaviour: uncompressed SEC 1 encodings of P-256 points are 65
    bytes that start with 4, parsing and encoding are inverse on them, and a
    signature made with a P-256 key verifies and is a DER sequence of two
    integers of at most 33 bytes each. *)
Class EcdsaOk (K : Ecdsa) : Prop := {
  parse_key b k :
    ParseUncompressedPublicKey b = Some k ->
    IsP256 k = true /\ KeyBytes k = Some b /\ len b = 65 /\ b !! 0%nat = Some x04;
  key_parse k b :
    IsP256 k = true -> KeyBytes k = Some b -> ParseUncompressedPublicKey b = Some k;
  sign_verify entropy sk digest sig :
    IsP256 (Public sk) = true -> len digest = 32 -> SignASN1 entropy sk digest = Some sig ->
    VerifyASN1 (Public sk) digest sig = true /\ 8 <= len sig <= 72
}.

Module Toy.

Definition sign (k : array 64) (digest : bytes) : bytes :=
  take 8 (arr_list k) ++ take 32 digest.

#[global] Instance ecdsa : Ecdsa := {|
  PublicKey := array 64;
  PrivateKey := array 64;
  Public k := k;
  IsP256 _ := true;
  KeyBytes k := Some (x04 :: arr_list k);
  ParseUncompressedPublicKey b :=
    match b with
    | x04 :: t => array_of 64 t
    | _ => None
    end;
  VerifyASN1 k digest sig := bool_decide (sig = sign k digest);
  SignASN1 _ k digest := Some (sign k digest)
|}.

Lemma len_sign k digest : 8 <= len (sign k digest) <= 40.
Proof.
  unfold sign, len. rewrite length_app, !length_take, length_arr. lia.
Qed.

#[global] Instance ecdsa_ok : EcdsaOk ecdsa.
Proof.
  split; cbn.
  - intros [|[] t] k H; try discriminate H. apply array_of_Some in H as <-.
    rewrite len_cons, len_arr. by split_and!.
  - intros k b _ [= <-]. by apply array_of_Some.
  - intros _ k d sig _ _ [= <-]. pose proof (len_sign k d).
    split; [by apply bool_decide_eq_true|lia].
Qed.

End Toy.
