(* ===== verification/Endorsement.v ===== *)
(** * Endorsements: statements, signatures and ledger payloads

    [internal/endorsement/v1/payload.go].  A proposer signs a proposal, the
    subject signs an acceptance of its digest; both signatures make an accepted
    payload.  A revocation is signed by one of the two. *)

From S2P Require Import Prelude Sha256 Cbor CborRef LedgerCodec Ecdsa.

Module endorsementv1.

Definition PayloadVersionV1 : Z := 1.

Definition domainProposerEndorsementV1 : gostring :=
  gostr "attribution-chain:endorsement-proposal:v1".
Definition domainSubjectAcceptanceV1 : gostring :=
  gostr "attribution-chain:endorsement-acceptance:v1".
Definition domainRevocationV1 : gostring :=
  gostr "attribution-chain:endorsement-revocation:v1".

Definition minTopicLength : Z := 1.
Definition maxTopicLength : Z := 128.
Definition minClaimBodyBytes : Z := 1.
Definition maxClaimBodyBytes : Z := 4096.
Definition maxReasonLength : Z := 256.
Definition minSignatureBytes : Z := 8.
Definition maxSignatureBytes : Z := 72.

(** [RevokerRole] is a [uint64]. *)
Definition RevokerRoleProposer : Z := 1.
Definition RevokerRoleSubject : Z := 2.

#[export] Hint Unfold PayloadVersionV1 minTopicLength maxTopicLength minClaimBodyBytes
  maxClaimBodyBytes maxReasonLength minSignatureBytes maxSignatureBytes RevokerRoleProposer
  RevokerRoleSubject : consts.

(** [len(x) < lo || len(x) > hi], the test the constructors share. *)
Definition outside (lo hi n : Z) : bool := (n <? lo) || (hi <? n).

(** ** Wire structs *)

Record proposalStatementWire := ProposalStatementWire {
  ps_Version : Z;
  ps_ProposerPublicKey : slice;
  ps_SubjectPublicKey : slice;
  ps_Topic : gostring;
  ps_ClaimBodyBytes : slice;
  ps_ProposedAtUnixMS : Z
}.

#[global] Instance proposalStatementWire_struct : WireStruct proposalStatementWire := {|
  schema := [(0, FUint64); (1, FBytes); (2, FBytes); (3, FString); (4, FBytes); (5, FUint64)];
  to_fields w :=
    [(0, VUint64 (ps_Version w)); (1, VBytes (ps_ProposerPublicKey w));
     (2, VBytes (ps_SubjectPublicKey w)); (3, VString (ps_Topic w));
     (4, VBytes (ps_ClaimBodyBytes w)); (5, VUint64 (ps_ProposedAtUnixMS w))];
  of_fields vs :=
    match vs with
    | [VUint64 a; VBytes b; VBytes c; VString d; VBytes e; VUint64 f] =>
        ProposalStatementWire a b c d e f
    | _ => ProposalStatementWire 0 None None [] None 0
    end
|}.

Record acceptanceStatementWire := AcceptanceStatementWire {
  as_Version : Z;
  as_ProposalDigest : slice;
  as_AcceptedAtUnixMS : Z
}.

#[global] Instance acceptanceStatementWire_struct : WireStruct acceptanceStatementWire := {|
  schema := [(0, FUint64); (1, FBytes); (2, FUint64)];
  to_fields w :=
    [(0, VUint64 (as_Version w)); (1, VBytes (as_ProposalDigest w));
     (2, VUint64 (as_AcceptedAtUnixMS w))];
  of_fields vs :=
    match vs with
    | [VUint64 a; VBytes b; VUint64 c] => AcceptanceStatementWire a b c
    | _ => AcceptanceStatementWire 0 None 0
    end
|}.

Record acceptedPayloadWire := AcceptedPayloadWire {
  ap_Version : Z;
  ap_ProposerPublicKey : slice;
  ap_SubjectPublicKey : slice;
  ap_Topic : gostring;
  ap_ClaimBodyBytes : slice;
  ap_ProposedAtUnixMS : Z;
  ap_ProposerSignature : slice;
  ap_AcceptedAtUnixMS : Z;
  ap_SubjectSignature : slice
}.

#[global] Instance acceptedPayloadWire_struct : WireStruct acceptedPayloadWire := {|
  schema := [(0, FUint64); (1, FBytes); (2, FBytes); (3, FString); (4, FBytes); (5, FUint64);
             (6, FBytes); (7, FUint64); (8, FBytes)];
  to_fields w :=
    [(0, VUint64 (ap_Version w)); (1, VBytes (ap_ProposerPublicKey w));
     (2, VBytes (ap_SubjectPublicKey w)); (3, VString (ap_Topic w));
     (4, VBytes (ap_ClaimBodyBytes w)); (5, VUint64 (ap_ProposedAtUnixMS w));
     (6, VBytes (ap_ProposerSignature w)); (7, VUint64 (ap_AcceptedAtUnixMS w));
     (8, VBytes (ap_SubjectSignature w))];
  of_fields vs :=
    match vs with
    | [VUint64 a; VBytes b; VBytes c; VString d; VBytes e; VUint64 f; VBytes g; VUint64 h;
       VBytes i] => AcceptedPayloadWire a b c d e f g h i
    | _ => AcceptedPayloadWire 0 None None [] None 0 None 0 None
    end
|}.

Record revocationStatementWire := RevocationStatementWire {
  rs_Version : Z;
  rs_TargetRecordDigest : slice;
  rs_RevokerPublicKey : slice;
  rs_Role : Z;
  rs_RevokedAtUnixMS : Z;
  rs_Reason : gostring
}.

#[global] Instance revocationStatementWire_struct : WireStruct revocationStatementWire := {|
  schema := [(0, FUint64); (1, FBytes); (2, FBytes); (3, FUint64); (4, FUint64); (5, FString)];
  to_fields w :=
    [(0, VUint64 (rs_Version w)); (1, VBytes (rs_TargetRecordDigest w));
     (2, VBytes (rs_RevokerPublicKey w)); (3, VUint64 (rs_Role w));
     (4, VUint64 (rs_RevokedAtUnixMS w)); (5, VString (rs_Reason w))];
  of_fields vs :=
    match vs with
    | [VUint64 a; VBytes b; VBytes c; VUint64 d; VUint64 e; VString f] =>
        RevocationStatementWire a b c d e f
    | _ => RevocationStatementWire 0 None None 0 0 []
    end
|}.

Record revokedPayloadWire := RevokedPayloadWire {
  rp_Version : Z;
  rp_TargetRecordDigest : slice;
  rp_RevokerPublicKey : slice;
  rp_Role : Z;
  rp_RevokedAtUnixMS : Z;
  rp_Reason : gostring;
  rp_RevokerSignature : slice
}.

#[global] Instance revokedPayloadWire_struct : WireStruct revokedPayloadWire := {|
  schema := [(0, FUint64); (1, FBytes); (2, FBytes); (3, FUint64); (4, FUint64); (5, FString);
             (6, FBytes)];
  to_fields w :=
    [(0, VUint64 (rp_Version w)); (1, VBytes (rp_TargetRecordDigest w));
     (2, VBytes (rp_RevokerPublicKey w)); (3, VUint64 (rp_Role w));
     (4, VUint64 (rp_RevokedAtUnixMS w)); (5, VString (rp_Reason w));
     (6, VBytes (rp_RevokerSignature w))];
  of_fields vs :=
    match vs with
    | [VUint64 a; VBytes b; VBytes c; VUint64 d; VUint64 e; VString f; VBytes g] =>
        RevokedPayloadWire a b c d e f g
    | _ => RevokedPayloadWire 0 None None 0 0 [] None
    end
|}.

#[global] Instance proposalStatementWire_ok : WireStructOk proposalStatementWire.
Proof. wire_struct_ok. Qed.
#[global] Instance acceptanceStatementWire_ok : WireStructOk acceptanceStatementWire.
Proof. wire_struct_ok. Qed.
#[global] Instance acceptedPayloadWire_ok : WireStructOk acceptedPayloadWire.
Proof. wire_struct_ok. Qed.
#[global] Instance revocationStatementWire_ok : WireStructOk revocationStatementWire.
Proof. wire_struct_ok. Qed.
#[global] Instance revokedPayloadWire_ok : WireStructOk revokedPayloadWire.
Proof. wire_struct_ok. Qed.

Definition domainSeparatedDigest (domain : gostring) (body : bytes) : Digest :=
  let preimage := domain in
  let preimage := preimage ++ [x00] in
  let preimage := preimage ++ body in
  Sha256.Sum256 preimage.

Section Operations.
Context {C : Cbor} {K : Ecdsa}.

(** ** Statements and payloads

    Key pointers may be nil; slices keep their nil-ness, which the codec
    observes. *)

Record EndorsementProposal := MkProposal {
  p_ProposerPublicKey : option PublicKey;
  p_SubjectPublicKey : option PublicKey;
  p_Topic : gostring;
  p_ClaimBodyBytes : slice;
  p_ProposedAtUnixMS : Z
}.

Record EndorsementAcceptance := MkAcceptance {
  a_ProposalDigest : Digest;
  a_AcceptedAtUnixMS : Z
}.

Record EndorsementAcceptedPayload := MkAcceptedPayload {
  ProposerPublicKey : option PublicKey;
  SubjectPublicKey : option PublicKey;
  Topic : gostring;
  ClaimBodyBytes : slice;
  ProposedAtUnixMS : Z;
  ProposerSignature : slice;
  AcceptedAtUnixMS : Z;
  SubjectSignature : slice
}.

Record EndorsementRevocation := MkRevocation {
  r_TargetRecordDigest : Digest;
  r_RevokerPublicKey : option PublicKey;
  r_Role : Z;
  r_RevokedAtUnixMS : Z;
  r_Reason : gostring
}.

Record EndorsementRevokedPayload := MkRevokedPayload {
  TargetRecordDigest : Digest;
  RevokerPublicKey : option PublicKey;
  Role : Z;
  RevokedAtUnixMS : Z;
  Reason : gostring;
  RevokerSignature : slice
}.

(** ** Keys *)

Definition encodePublicKey (pub : option PublicKey) : gores slice :=
  match pub with
  | None => Ok None
  | Some k =>
      match KeyBytes k with
      | None => Err (Panic "encode ecdsa public key")
      | Some b => Ok (Some b)
      end
  end.

Definition decodePublicKey (b : slice) : gores (option PublicKey) :=
  if slen b =? 0 then fail (Errorf "empty public key bytes" [])
  else
    match ParseUncompressedPublicKey (sbytes b) with
    | None => fail (Wrapped "parse uncompressed P-256 public key" [] (Errorf "ecdsa" []))
    | Some pub => Ok (Some pub)
    end.

(** [ecdsa.VerifyASN1] dereferences its key. *)
Definition verifyASN1 (pub : option PublicKey) (digest sig : bytes) : gores bool :=
  match pub with
  | None => Err (Panic "nil pointer dereference")
  | Some k => Ok (VerifyASN1 k digest sig)
  end.

Definition is_nil (pub : option PublicKey) : bool :=
  match pub with None => true | Some _ => false end.

(** Shared by the three [Digest] methods: marshal, panic on error, hash. *)
Definition digest_of {W} {S : WireStruct W} (domain : gostring) (msg : string) (wire : W) :
    gores Digest :=
  match Marshal EndorsementMode wire with
  | None => Err (Panic msg)
  | Some encoded => Ok (domainSeparatedDigest domain encoded)
  end.

(** ** Proposals *)

Definition NewProposal (proposer subject : option PublicKey) (topic : gostring)
    (claimBody : slice) (proposedAtUnixMS : Z) : gores EndorsementProposal :=
  if is_nil proposer || is_nil subject
  then fail (Errorf "proposer and subject public keys are required" [])
  else if outside minTopicLength maxTopicLength (len topic)
  then fail (Errorf "topic length %d out of bounds [%d, %d]"
               [len topic; minTopicLength; maxTopicLength])
  else if outside minClaimBodyBytes maxClaimBodyBytes (slen claimBody)
  then fail (Errorf "claim body length %d out of bounds [%d, %d]"
               [slen claimBody; minClaimBodyBytes; maxClaimBodyBytes])
  else Ok (MkProposal proposer subject topic claimBody proposedAtUnixMS).

Definition Proposal_Digest (p : EndorsementProposal) : gores Digest :=
  proposer <~ encodePublicKey (p_ProposerPublicKey p) ;;
  subject <~ encodePublicKey (p_SubjectPublicKey p) ;;
  digest_of domainProposerEndorsementV1 "marshal proposal statement" {|
    ps_Version := PayloadVersionV1;
    ps_ProposerPublicKey := proposer;
    ps_SubjectPublicKey := subject;
    ps_Topic := p_Topic p;
    ps_ClaimBodyBytes := p_ClaimBodyBytes p;
    ps_ProposedAtUnixMS := p_ProposedAtUnixMS p
  |}.

(** [entropy] is what is read from [rand.Reader]. *)
Definition sign (entropy : bytes) (key : option PrivateKey) (digest : gores Digest) :
    gores bytes :=
  match key with
  | None => fail (Errorf "private key cannot be nil" [])
  | Some sk =>
      d <~ digest ;;
      match SignASN1 entropy sk (arr_list d) with
      | None => fail (Errorf "ecdsa" [])
      | Some sig => Ok sig
      end
  end.

Definition Proposal_Sign (p : EndorsementProposal) (entropy : bytes)
    (proposerKey : option PrivateKey) : gores bytes :=
  sign entropy proposerKey (Proposal_Digest p).

Definition Proposal_VerifySignature (p : EndorsementProposal) (signatureBytes : slice) :
    gores unit :=
  if outside minSignatureBytes maxSignatureBytes (slen signatureBytes)
  then fail (Errorf "signature length %d out of bounds [%d, %d]"
               [slen signatureBytes; minSignatureBytes; maxSignatureBytes])
  else
    digest <~ Proposal_Digest p ;;
    ok <~ verifyASN1 (p_ProposerPublicKey p) (arr_list digest) (sbytes signatureBytes) ;;
    if negb ok then fail (Errorf "proposer signature verification failed" []) else Ok tt.

(** ** Acceptances *)

Definition NewAcceptance (proposalDigest : Digest) (acceptedAtUnixMS : Z) :
    gores EndorsementAcceptance :=
  Ok (MkAcceptance proposalDigest acceptedAtUnixMS).

Definition Acceptance_Digest (a : EndorsementAcceptance) : gores Digest :=
  digest_of domainSubjectAcceptanceV1 "marshal acceptance statement" {|
    as_Version := PayloadVersionV1;
    as_ProposalDigest := Some (arr_list (a_ProposalDigest a));
    as_AcceptedAtUnixMS := a_AcceptedAtUnixMS a
  |}.

Definition Acceptance_Sign (a : EndorsementAcceptance) (entropy : bytes)
    (subjectKey : option PrivateKey) : gores bytes :=
  sign entropy subjectKey (Acceptance_Digest a).

Definition Acceptance_VerifySignature (a : EndorsementAcceptance)
    (subjectPublicKey : option PublicKey) (signatureBytes : slice) : gores unit :=
  if outside minSignatureBytes maxSignatureBytes (slen signatureBytes)
  then fail (Errorf "signature length %d out of bounds [%d, %d]"
               [slen signatureBytes; minSignatureBytes; maxSignatureBytes])
  else
    digest <~ Acceptance_Digest a ;;
    ok <~ verifyASN1 subjectPublicKey (arr_list digest) (sbytes signatureBytes) ;;
    if negb ok then fail (Errorf "subject signature verification failed" []) else Ok tt.

(** ** Accepted payloads *)

Definition NewAcceptedPayload (proposer subject : option PublicKey) (topic : gostring)
    (claimBody : slice) (proposedAt : Z) (proposerSig : slice) (acceptedAt : Z)
    (subjectSig : slice) : gores EndorsementAcceptedPayload :=
  if is_nil proposer || is_nil subject
  then fail (Errorf "proposer and subject public keys are required" [])
  else if outside minTopicLength maxTopicLength (len topic)
  then fail (Errorf "topic length %d out of bounds" [len topic])
  else if outside minClaimBodyBytes maxClaimBodyBytes (slen claimBody)
  then fail (Errorf "claim body length %d out of bounds" [slen claimBody])
  else if outside minSignatureBytes maxSignatureBytes (slen proposerSig)
  then fail (Errorf "proposer signature length %d out of bounds" [slen proposerSig])
  else if outside minSignatureBytes maxSignatureBytes (slen subjectSig)
  then fail (Errorf "subject signature length %d out of bounds" [slen subjectSig])
  else Ok (MkAcceptedPayload proposer subject topic claimBody proposedAt proposerSig
             acceptedAt subjectSig).

(** A failing [Marshal] is the codec's error. *)
Definition marshal {W} {S : WireStruct W} (wire : W) : gores bytes :=
  match Marshal EndorsementMode wire with
  | None => fail (Errorf "cbor" [])
  | Some encoded => Ok encoded
  end.

Definition unmarshal {W} {S : WireStruct W} (context : string) (encoded : bytes) : gores W :=
  rmap_err (fun _ => Fail (Wrapped context [] (Errorf "cbor" [])))
    (Unmarshal EndorsementMode encoded).

Definition AcceptedPayload_Encode (p : EndorsementAcceptedPayload) : gores bytes :=
  proposer <~ encodePublicKey (ProposerPublicKey p) ;;
  subject <~ encodePublicKey (SubjectPublicKey p) ;;
  marshal {|
    ap_Version := PayloadVersionV1;
    ap_ProposerPublicKey := proposer;
    ap_SubjectPublicKey := subject;
    ap_Topic := Topic p;
    ap_ClaimBodyBytes := ClaimBodyBytes p;
    ap_ProposedAtUnixMS := ProposedAtUnixMS p;
    ap_ProposerSignature := ProposerSignature p;
    ap_AcceptedAtUnixMS := AcceptedAtUnixMS p;
    ap_SubjectSignature := SubjectSignature p
  |}.

Definition DecodeAcceptedPayload (encoded : bytes) : gores EndorsementAcceptedPayload :=
  wire <~ unmarshal (W := acceptedPayloadWire) "decode accepted payload" encoded ;;
  if negb (ap_Version wire =? PayloadVersionV1)
  then fail (Errorf "unsupported payload version %d" [ap_Version wire])
  else
    proposerPub <~ rmap_err (wrap "decode proposer public key")
                     (decodePublicKey (ap_ProposerPublicKey wire)) ;;
    subjectPub <~ rmap_err (wrap "decode subject public key")
                    (decodePublicKey (ap_SubjectPublicKey wire)) ;;
    NewAcceptedPayload proposerPub subjectPub (ap_Topic wire) (ap_ClaimBodyBytes wire)
      (ap_ProposedAtUnixMS wire) (ap_ProposerSignature wire) (ap_AcceptedAtUnixMS wire)
      (ap_SubjectSignature wire).

Definition AcceptedPayload_Verify (p : EndorsementAcceptedPayload) : gores unit :=
  proposal <~ rmap_err (wrap "reconstruct proposal")
    (NewProposal (ProposerPublicKey p) (SubjectPublicKey p) (Topic p) (ClaimBodyBytes p)
       (ProposedAtUnixMS p)) ;;
  _ <~ rmap_err (wrap "verify proposer signature")
         (Proposal_VerifySignature proposal (ProposerSignature p)) ;;
  digest <~ Proposal_Digest proposal ;;
  acceptance <~ rmap_err (wrap "reconstruct acceptance")
                  (NewAcceptance digest (AcceptedAtUnixMS p)) ;;
  rmap_err (wrap "verify subject signature")
    (Acceptance_VerifySignature acceptance (SubjectPublicKey p) (SubjectSignature p)).

(** ** Revocations *)

Definition NewRevocation (targetDigest : Digest) (revokerPub : option PublicKey)
    (role revokedAt : Z) (reason : gostring) : gores EndorsementRevocation :=
  if is_nil revokerPub then fail (Errorf "revoker public key is required" [])
  else if negb (role =? RevokerRoleProposer) && negb (role =? RevokerRoleSubject)
  then fail (Errorf "invalid revoker role: %d" [role])
  else if maxReasonLength <? len reason
  then fail (Errorf "reason length %d exceeds max %d" [len reason; maxReasonLength])
  else Ok (MkRevocation targetDigest revokerPub role revokedAt reason).

Definition Revocation_Digest (r : EndorsementRevocation) : gores Digest :=
  revoker <~ encodePublicKey (r_RevokerPublicKey r) ;;
  digest_of domainRevocationV1 "marshal revocation statement" {|
    rs_Version := PayloadVersionV1;
    rs_TargetRecordDigest := Some (arr_list (r_TargetRecordDigest r));
    rs_RevokerPublicKey := revoker;
    rs_Role := r_Role r;
    rs_RevokedAtUnixMS := r_RevokedAtUnixMS r;
    rs_Reason := r_Reason r
  |}.

Definition Revocation_Sign (r : EndorsementRevocation) (entropy : bytes)
    (revokerKey : option PrivateKey) : gores bytes :=
  sign entropy revokerKey (Revocation_Digest r).

Definition Revocation_VerifySignature (r : EndorsementRevocation) (signatureBytes : slice) :
    gores unit :=
  if outside minSignatureBytes maxSignatureBytes (slen signatureBytes)
  then fail (Errorf "signature length %d out of bounds" [slen signatureBytes])
  else
    digest <~ Revocation_Digest r ;;
    ok <~ verifyASN1 (r_RevokerPublicKey r) (arr_list digest) (sbytes signatureBytes) ;;
    if negb ok then fail (Errorf "revoker signature verification failed" []) else Ok tt.

Definition NewRevokedPayload (targetDigest : Digest) (revokerPub : option PublicKey)
    (role revokedAt : Z) (reason : gostring) (signatureBytes : slice) :
    gores EndorsementRevokedPayload :=
  if is_nil revokerPub then fail (Errorf "revoker public key is required" [])
  else if negb (role =? RevokerRoleProposer) && negb (role =? RevokerRoleSubject)
  then fail (Errorf "invalid revoker role: %d" [role])
  else if maxReasonLength <? len reason
  then fail (Errorf "reason length %d exceeds max %d" [len reason; maxReasonLength])
  else if outside minSignatureBytes maxSignatureBytes (slen signatureBytes)
  then fail (Errorf "signature length %d out of bounds" [slen signatureBytes])
  else Ok (MkRevokedPayload targetDigest revokerPub role revokedAt reason signatureBytes).

Definition RevokedPayload_Encode (r : EndorsementRevokedPayload) : gores bytes :=
  revoker <~ encodePublicKey (RevokerPublicKey r) ;;
  marshal {|
    rp_Version := PayloadVersionV1;
    rp_TargetRecordDigest := Some (arr_list (TargetRecordDigest r));
    rp_RevokerPublicKey := revoker;
    rp_Role := Role r;
    rp_RevokedAtUnixMS := RevokedAtUnixMS r;
    rp_Reason := Reason r;
    rp_RevokerSignature := RevokerSignature r
  |}.

Definition DecodeRevokedPayload (encoded : bytes) : gores EndorsementRevokedPayload :=
  wire <~ unmarshal (W := revokedPayloadWire) "decode revoked payload" encoded ;;
  if negb (rp_Version wire =? PayloadVersionV1)
  then fail (Errorf "unsupported payload version %d" [rp_Version wire])
  else if negb (slen (rp_TargetRecordDigest wire) =? 32)
  then fail (Errorf "target record digest must be 32 bytes" [])
  else
    let targetDigest := copy_array 32 (sbytes (rp_TargetRecordDigest wire)) in
    revokerPub <~ rmap_err (wrap "decode revoker public key")
                    (decodePublicKey (rp_RevokerPublicKey wire)) ;;
    NewRevokedPayload targetDigest revokerPub (rp_Role wire) (rp_RevokedAtUnixMS wire)
      (rp_Reason wire) (rp_RevokerSignature wire).

Definition RevokedPayload_Verify (r : EndorsementRevokedPayload) : gores unit :=
  revocation <~ rmap_err (wrap "reconstruct revocation")
    (NewRevocation (TargetRecordDigest r) (RevokerPublicKey r) (Role r) (RevokedAtUnixMS r)
       (Reason r)) ;;
  Revocation_VerifySignature revocation (RevokerSignature r).

End Operations.

(** ** Shared facts *)

Lemma outside_false lo hi n : outside lo hi n = false <-> lo <= n <= hi.
Proof. unfold outside. lia. Qed.

Lemma outside_true lo hi n : outside lo hi n = true <-> n < lo \/ hi < n.
Proof. unfold outside. lia. Qed.

Lemma digest_preimage_eq domain body :
  domainSeparatedDigest domain body = Sha256.Sum256 (digest_preimage domain body).
Proof. unfold domainSeparatedDigest, digest_preimage. by rewrite <- app_assoc. Qed.

Section Facts.
Context {C : Cbor} {CO : CborOk C} {K : Ecdsa} {KO : EcdsaOk K}.

(** Bytes of a possibly nil key. *)
Definition key_slice (pub : option PublicKey) : slice := pub ≫= KeyBytes.

Lemma encodePublicKey_Ok pub s : encodePublicKey pub = Ok s -> s = key_slice pub.
Proof.
  destruct pub as [k|]; cbn; [|by intros [= <-]].
  destruct (KeyBytes k); [by intros [= <-]|done].
Qed.

Lemma encodePublicKey_key k b : KeyBytes k = Some b -> encodePublicKey (Some k) = Ok (Some b).
Proof. intros H. cbn. by rewrite H. Qed.

Lemma p256_key_len k b : IsP256 k = true -> KeyBytes k = Some b -> len b = 65.
Proof. intros Hk Hb. by destruct (parse_key b k (key_parse k b Hk Hb)) as (_ & _ & ? & _). Qed.

(** What [decodePublicKey] returns is a P-256 key with exactly these bytes. *)
Lemma decodePublicKey_Ok s pub :
  decodePublicKey s = Ok pub ->
  exists k b, pub = Some k /\ s = Some b /\ IsP256 k = true /\ KeyBytes k = Some b.
Proof.
  unfold decodePublicKey. case_match eqn:E; [done|].
  destruct (ParseUncompressedPublicKey (sbytes s)) as [k|] eqn:Hp; [|done]. intros [= <-].
  destruct (parse_key _ _ Hp) as (? & ? & ? & _). destruct s as [b|]; [|done]. by exists k, b.
Qed.

Lemma decodePublicKey_key k b :
  IsP256 k = true -> KeyBytes k = Some b -> decodePublicKey (Some b) = Ok (Some k).
Proof.
  intros Hk Hb. unfold decodePublicKey. cbn [slen sbytes].
  rewrite (p256_key_len k b Hk Hb). cbn. by rewrite (key_parse k b Hk Hb).
Qed.

Lemma digest_of_eq {W} {S : WireStruct W} {SO : WireStructOk W} domain msg (w : W) :
  wire_wf w -> digest_of domain msg w = Ok (domainSeparatedDigest domain (enc_struct w)).
Proof. intros H. unfold digest_of. by rewrite marshal_struct. Qed.

Lemma marshal_eq {W} {S : WireStruct W} {SO : WireStructOk W} (w : W) :
  wire_wf w -> marshal w = Ok (enc_struct w).
Proof. intros H. unfold marshal. by rewrite marshal_struct. Qed.

Lemma unmarshal_eq {W} {S : WireStruct W} {SO : WireStructOk W} ctx (w : W) :
  wire_wf w -> wire_utf8 w -> unmarshal ctx (enc_struct w) = Ok w.
Proof. intros. unfold unmarshal. by rewrite unmarshal_struct. Qed.

Lemma unmarshal_inv {W} {S : WireStruct W} {SO : WireStructOk W} ctx b (w : W) :
  unmarshal ctx b = Ok w -> wire_wf w /\ wire_utf8 w.
Proof. unfold unmarshal. intros H%rmap_err_Ok. by eapply unmarshal_typed. Qed.

(** The struct each statement and payload is marshalled as. *)
Definition proposal_wire (p : EndorsementProposal) : proposalStatementWire :=
  ProposalStatementWire PayloadVersionV1 (key_slice (p_ProposerPublicKey p))
    (key_slice (p_SubjectPublicKey p)) (p_Topic p) (p_ClaimBodyBytes p) (p_ProposedAtUnixMS p).

Definition acceptance_wire (a : EndorsementAcceptance) : acceptanceStatementWire :=
  AcceptanceStatementWire PayloadVersionV1 (Some (arr_list (a_ProposalDigest a)))
    (a_AcceptedAtUnixMS a).

Definition revocation_wire (r : EndorsementRevocation) : revocationStatementWire :=
  RevocationStatementWire PayloadVersionV1 (Some (arr_list (r_TargetRecordDigest r)))
    (key_slice (r_RevokerPublicKey r)) (r_Role r) (r_RevokedAtUnixMS r) (r_Reason r).

Definition proposal_preimage (p : EndorsementProposal) : bytes :=
  digest_preimage domainProposerEndorsementV1 (enc_struct (proposal_wire p)).
Definition acceptance_preimage (a : EndorsementAcceptance) : bytes :=
  digest_preimage domainSubjectAcceptanceV1 (enc_struct (acceptance_wire a)).
Definition revocation_preimage (r : EndorsementRevocation) : bytes :=
  digest_preimage domainRevocationV1 (enc_struct (revocation_wire r)).

(** A value of its Go type: lengths are [int]s, integers in range. *)
Definition typed {W} {S : WireStruct W} (w : W) : Prop := wire_wf w.

Lemma Proposal_Digest_inv p d :
  typed (proposal_wire p) -> Proposal_Digest p = Ok d -> d = Sha256.Sum256 (proposal_preimage p).
Proof.
  intros Ht H. unfold Proposal_Digest in H. inv_steps.
  apply encodePublicKey_Ok in Hok as ->, Hok0 as ->.
  rewrite (digest_of_eq _ _ (proposal_wire p) Ht), digest_preimage_eq in H. by injection H as <-.
Qed.

Lemma Proposal_Digest_eq kp ks bp bs topic claim at_ :
  KeyBytes kp = Some bp -> KeyBytes ks = Some bs ->
  let p := MkProposal (Some kp) (Some ks) topic claim at_ in
  typed (proposal_wire p) -> Proposal_Digest p = Ok (Sha256.Sum256 (proposal_preimage p)).
Proof.
  intros Hp Hs p Ht. unfold Proposal_Digest. cbn [p_ProposerPublicKey p_SubjectPublicKey p].
  rewrite (encodePublicKey_key _ _ Hp), (encodePublicKey_key _ _ Hs). cbn [rbind].
  assert (proposal_wire p = ProposalStatementWire PayloadVersionV1 (Some bp) (Some bs) topic claim at_)
    as Hw by (unfold proposal_wire; cbn; by rewrite Hp, Hs).
  change (ProposalStatementWire _ _ _ _ _ _) with
    (ProposalStatementWire PayloadVersionV1 (Some bp) (Some bs) topic claim at_) at 1.
  rewrite <- Hw, (digest_of_eq _ _ (proposal_wire p) Ht). by rewrite digest_preimage_eq.
Qed.

Lemma acceptance_typed d t : is_u64 t -> typed (acceptance_wire (MkAcceptance d t)).
Proof.
  intros. unfold typed, wire_wf. cbn. rewrite !Forall_cons, Forall_nil. cbn.
  rewrite len_arr32. split_and!; try done; clia.
Qed.

Lemma Acceptance_Digest_eq d t :
  is_u64 t ->
  Acceptance_Digest (MkAcceptance d t)
    = Ok (Sha256.Sum256 (acceptance_preimage (MkAcceptance d t))).
Proof.
  intros Ht. unfold Acceptance_Digest.
  rewrite (digest_of_eq _ _ (acceptance_wire (MkAcceptance d t)) (acceptance_typed d t Ht)).
  by rewrite digest_preimage_eq.
Qed.

Lemma Revocation_Digest_eq target k b role t reason :
  KeyBytes k = Some b ->
  let r := MkRevocation target (Some k) role t reason in
  typed (revocation_wire r) -> Revocation_Digest r = Ok (Sha256.Sum256 (revocation_preimage r)).
Proof.
  intros Hb r Ht. unfold Revocation_Digest. cbn [r_RevokerPublicKey r].
  rewrite (encodePublicKey_key _ _ Hb). cbn [rbind].
  assert (revocation_wire r =
    RevocationStatementWire PayloadVersionV1 (Some (arr_list target)) (Some b) role t reason)
    as Hw by (unfold revocation_wire; cbn; by rewrite Hb).
  change (RevocationStatementWire _ _ _ _ _ _) with
    (RevocationStatementWire PayloadVersionV1 (Some (arr_list target)) (Some b) role t reason) at 1.
  rewrite <- Hw, (digest_of_eq _ _ (revocation_wire r) Ht). by rewrite digest_preimage_eq.
Qed.

End Facts.

(** ** Well-formed payloads *)

Section Payloads.
Context {C : Cbor} {CO : CborOk C} {K : Ecdsa} {KO : EcdsaOk K}.

(** A P-256 key that can be encoded. *)
Definition key_ok (pub : option PublicKey) : Prop :=
  exists k b, pub = Some k /\ IsP256 k = true /\ KeyBytes k = Some b.

Record accepted_payload_ok (p : EndorsementAcceptedPayload) : Prop := {
  apo_proposer : key_ok (ProposerPublicKey p);
  apo_subject : key_ok (SubjectPublicKey p);
  apo_topic : 1 <= len (Topic p) <= 128;
  apo_claim : 1 <= slen (ClaimBodyBytes p) <= 4096;
  apo_proposed : is_u64 (ProposedAtUnixMS p);
  apo_proposer_sig : 8 <= slen (ProposerSignature p) <= 72;
  apo_accepted : is_u64 (AcceptedAtUnixMS p);
  apo_subject_sig : 8 <= slen (SubjectSignature p) <= 72
}.

Record revoked_payload_ok (r : EndorsementRevokedPayload) : Prop := {
  rpo_revoker : key_ok (RevokerPublicKey r);
  rpo_role : Role r = RevokerRoleProposer \/ Role r = RevokerRoleSubject;
  rpo_revoked : is_u64 (RevokedAtUnixMS r);
  rpo_reason : len (Reason r) <= 256;
  rpo_sig : 8 <= slen (RevokerSignature r) <= 72
}.

Definition accepted_wire (p : EndorsementAcceptedPayload) : acceptedPayloadWire :=
  AcceptedPayloadWire PayloadVersionV1 (key_slice (ProposerPublicKey p))
    (key_slice (SubjectPublicKey p)) (Topic p) (ClaimBodyBytes p) (ProposedAtUnixMS p)
    (ProposerSignature p) (AcceptedAtUnixMS p) (SubjectSignature p).

Definition revoked_wire (r : EndorsementRevokedPayload) : revokedPayloadWire :=
  RevokedPayloadWire PayloadVersionV1 (Some (arr_list (TargetRecordDigest r)))
    (key_slice (RevokerPublicKey r)) (Role r) (RevokedAtUnixMS r) (Reason r)
    (RevokerSignature r).

Lemma key_ok_slice pub :
  key_ok pub -> exists b, key_slice pub = Some b /\ encodePublicKey pub = Ok (Some b) /\
    decodePublicKey (Some b) = Ok pub /\ len b = 65 /\ is_nil pub = false.
Proof.
  intros (k & b & -> & Hk & Hb). exists b.
  split_and!; [done|by apply encodePublicKey_key|by apply decodePublicKey_key|
    by apply (p256_key_len k)|done].
Qed.

Lemma decode_key_ok s pub :
  decodePublicKey s = Ok pub -> key_ok pub /\ s = key_slice pub.
Proof.
  intros (k & b & -> & -> & Hk & Hb)%decodePublicKey_Ok. split; [by exists k, b|done].
Qed.

Lemma wire_wf_accepted w :
  wire_wf w <->
    is_u64 (ap_Version w) /\ slen (ap_ProposerPublicKey w) < two63 /\
    slen (ap_SubjectPublicKey w) < two63 /\ len (ap_Topic w) < two63 /\
    slen (ap_ClaimBodyBytes w) < two63 /\ is_u64 (ap_ProposedAtUnixMS w) /\
    slen (ap_ProposerSignature w) < two63 /\ is_u64 (ap_AcceptedAtUnixMS w) /\
    slen (ap_SubjectSignature w) < two63.
Proof. unfold wire_wf. cbn. rewrite !Forall_cons, Forall_nil. cbn. tauto. Qed.

Lemma wire_utf8_accepted w : wire_utf8 w <-> utf8_valid (ap_Topic w) = true.
Proof. unfold wire_utf8. cbn. rewrite !Forall_cons, Forall_nil. cbn. tauto. Qed.

Lemma wire_wf_revoked w :
  wire_wf w <->
    is_u64 (rp_Version w) /\ slen (rp_TargetRecordDigest w) < two63 /\
    slen (rp_RevokerPublicKey w) < two63 /\ is_u64 (rp_Role w) /\
    is_u64 (rp_RevokedAtUnixMS w) /\ len (rp_Reason w) < two63 /\
    slen (rp_RevokerSignature w) < two63.
Proof. unfold wire_wf. cbn. rewrite !Forall_cons, Forall_nil. cbn. tauto. Qed.

Lemma wire_utf8_revoked w : wire_utf8 w <-> utf8_valid (rp_Reason w) = true.
Proof. unfold wire_utf8. cbn. rewrite !Forall_cons, Forall_nil. cbn. tauto. Qed.

Lemma accepted_wire_wf p : accepted_payload_ok p -> wire_wf (accepted_wire p).
Proof.
  intros [Hp Hs ? ? ? ? ? ?]. apply wire_wf_accepted. cbn.
  destruct (key_ok_slice _ Hp) as (bp & -> & _ & _ & ? & _).
  destruct (key_ok_slice _ Hs) as (bs & -> & _ & _ & ? & _). cbn. split_and!; clia.
Qed.

Lemma revoked_wire_wf r : revoked_payload_ok r -> wire_wf (revoked_wire r).
Proof.
  intros [Hk Hr ? ? ?]. apply wire_wf_revoked. cbn. rewrite len_arr32.
  destruct (key_ok_slice _ Hk) as (b & -> & _ & _ & ? & _). cbn.
  split_and!; clia.
Qed.

Lemma AcceptedPayload_Encode_eq p :
  accepted_payload_ok p -> AcceptedPayload_Encode p = Ok (enc_struct (accepted_wire p)).
Proof.
  intros Hok. rewrite <- marshal_eq by by apply accepted_wire_wf.
  unfold AcceptedPayload_Encode, accepted_wire.
  destruct (key_ok_slice _ (apo_proposer _ Hok)) as (bp & -> & -> & _).
  by destruct (key_ok_slice _ (apo_subject _ Hok)) as (bs & -> & -> & _).
Qed.

Lemma RevokedPayload_Encode_eq r :
  revoked_payload_ok r -> RevokedPayload_Encode r = Ok (enc_struct (revoked_wire r)).
Proof.
  intros Hok. rewrite <- marshal_eq by by apply revoked_wire_wf.
  unfold RevokedPayload_Encode, revoked_wire.
  by destruct (key_ok_slice _ (rpo_revoker _ Hok)) as (b & -> & -> & _).
Qed.

(** Bound a sum of encoded lengths by the largest heads. *)
Ltac bound_heads :=
  repeat match goal with |- context [len (head ?m ?a)] =>
    pose proof (len_head_le m a); generalize dependent (len (head m a)); intros end;
  repeat match goal with |- context [len (enc_fval ?a)] =>
    pose proof (len_nonneg (enc_fval a)); generalize dependent (len (enc_fval a)); intros end;
  lia.

(** Encodings fit a ledger event with room to spare. *)
Lemma accepted_wire_len p :
  accepted_payload_ok p -> 1 <= len (enc_struct (accepted_wire p)) <= 4700.
Proof.
  intros [Hp Hs ? Hc ? Hps ? Hss].
  destruct (key_ok_slice _ Hp) as (bp & Ep & _ & _ & Lp & _).
  destruct (key_ok_slice _ Hs) as (bs & Es & _ & _ & Ls & _).
  apply slen_Some in Hc as (c & Ec & ?), Hps as (sp & Esp & ?), Hss as (ss & Ess & ?); [|lia..].
  unfold accepted_wire. rewrite Ep, Es, Ec, Esp, Ess. unfold enc_struct, enc_fields. rewrite len_app.
  cbn [to_fields acceptedPayloadWire_struct map concat ap_Version ap_ProposerPublicKey
    ap_SubjectPublicKey ap_Topic ap_ClaimBodyBytes ap_ProposedAtUnixMS ap_ProposerSignature
    ap_AcceptedAtUnixMS ap_SubjectSignature].
  unfold enc_pair. cbn [fst snd]. autorewrite with lens.
  pose proof (len_enc_uint PayloadVersionV1). pose proof (len_enc_uint (ProposedAtUnixMS p)).
  pose proof (len_enc_uint (AcceptedAtUnixMS p)).
  rewrite !len_enc_bytes, len_enc_string.
  bound_heads.
Qed.

Lemma revoked_wire_len r :
  revoked_payload_ok r -> 1 <= len (enc_struct (revoked_wire r)) <= 4700.
Proof.
  intros [Hk ? ? ? Hs]. destruct (key_ok_slice _ Hk) as (b & Eb & _ & _ & Lb & _).
  apply slen_Some in Hs as (sg & Esg & ?); [|lia].
  unfold revoked_wire. rewrite Eb, Esg. unfold enc_struct, enc_fields. rewrite len_app.
  cbn [to_fields revokedPayloadWire_struct map concat rp_Version rp_TargetRecordDigest
    rp_RevokerPublicKey rp_Role rp_RevokedAtUnixMS rp_Reason rp_RevokerSignature].
  unfold enc_pair. cbn [fst snd]. autorewrite with lens.
  pose proof (len_enc_uint PayloadVersionV1). pose proof (len_enc_uint (Role r)).
  pose proof (len_enc_uint (RevokedAtUnixMS r)).
  rewrite !len_enc_bytes, len_enc_string, len_arr32. pose proof (len_nonneg (Reason r)).
  bound_heads.
Qed.

(** The constructors accept exactly the well-formed values. *)
Lemma NewAcceptedPayload_Ok kp ks topic claim pa sp aa ss p :
  NewAcceptedPayload kp ks topic claim pa sp aa ss = Ok p ->
  p = MkAcceptedPayload kp ks topic claim pa sp aa ss /\
  1 <= len topic <= 128 /\ 1 <= slen claim <= 4096 /\ 8 <= slen sp <= 72 /\ 8 <= slen ss <= 72.
Proof.
  unfold NewAcceptedPayload. repeat case_match; try done. intros [= <-].
  rewrite !outside_false in *. split_and!; done || clia.
Qed.

Lemma NewAcceptedPayload_eq p :
  accepted_payload_ok p ->
  NewAcceptedPayload (ProposerPublicKey p) (SubjectPublicKey p) (Topic p) (ClaimBodyBytes p)
    (ProposedAtUnixMS p) (ProposerSignature p) (AcceptedAtUnixMS p) (SubjectSignature p) = Ok p.
Proof.
  intros [Hp Hs ? ? ? ? ? ?]. unfold NewAcceptedPayload.
  destruct (key_ok_slice _ Hp) as (_ & _ & _ & _ & _ & ->).
  destruct (key_ok_slice _ Hs) as (_ & _ & _ & _ & _ & ->). cbn [orb].
  repeat (rewrite (proj2 (outside_false _ _ _)) by clia). by destruct p.
Qed.

Lemma NewRevokedPayload_Ok d k role t reason sg r :
  NewRevokedPayload d k role t reason sg = Ok r ->
  r = MkRevokedPayload d k role t reason sg /\
  (role = RevokerRoleProposer \/ role = RevokerRoleSubject) /\
  len reason <= 256 /\ 8 <= slen sg <= 72.
Proof.
  unfold NewRevokedPayload. repeat case_match; try done. intros [= <-].
  rewrite !outside_false in *. split_and!; done || clia.
Qed.

Lemma NewRevokedPayload_eq r :
  revoked_payload_ok r ->
  NewRevokedPayload (TargetRecordDigest r) (RevokerPublicKey r) (Role r) (RevokedAtUnixMS r)
    (Reason r) (RevokerSignature r) = Ok r.
Proof.
  intros [Hk ? ? ? ?]. unfold NewRevokedPayload.
  destruct (key_ok_slice _ Hk) as (_ & _ & _ & _ & _ & ->).
  rewrite (proj2 (outside_false _ _ _)) by clia.
  repeat case_match; try clia. by destruct r.
Qed.

(** ** Decoding *)

Lemma DecodeAcceptedPayload_complete p :
  accepted_payload_ok p -> utf8_valid (Topic p) = true ->
  DecodeAcceptedPayload (enc_struct (accepted_wire p)) = Ok p.
Proof.
  intros Hok Hu. unfold DecodeAcceptedPayload.
  rewrite unmarshal_eq by (by apply accepted_wire_wf || by apply wire_utf8_accepted).
  cbn [rbind accepted_wire ap_Version ap_ProposerPublicKey ap_SubjectPublicKey ap_Topic
    ap_ClaimBodyBytes ap_ProposedAtUnixMS ap_ProposerSignature ap_AcceptedAtUnixMS
    ap_SubjectSignature]. rewrite Z.eqb_refl. cbn [negb].
  destruct (key_ok_slice _ (apo_proposer _ Hok)) as (bp & -> & _ & -> & _). cbn [rmap_err rbind].
  destruct (key_ok_slice _ (apo_subject _ Hok)) as (bs & -> & _ & -> & _). cbn [rmap_err rbind].
  by apply NewAcceptedPayload_eq.
Qed.

Lemma DecodeAcceptedPayload_sound b p :
  DecodeAcceptedPayload b = Ok p -> accepted_payload_ok p /\ utf8_valid (Topic p) = true.
Proof.
  unfold DecodeAcceptedPayload. intros H. inv_ok.
  destruct (unmarshal_inv _ _ _ Hok) as [Hwf Hu].
  apply wire_wf_accepted in Hwf as (_ & _ & _ & _ & _ & ? & _ & ? & _).
  apply wire_utf8_accepted in Hu.
  apply decode_key_ok in Hok0 as [? _], Hok1 as [? _].
  apply NewAcceptedPayload_Ok in H as (-> & ? & ? & ? & ?). by split; [split|].
Qed.

Lemma DecodeRevokedPayload_complete r :
  revoked_payload_ok r -> utf8_valid (Reason r) = true ->
  DecodeRevokedPayload (enc_struct (revoked_wire r)) = Ok r.
Proof.
  intros Hok Hu. unfold DecodeRevokedPayload.
  rewrite unmarshal_eq by (by apply revoked_wire_wf || by apply wire_utf8_revoked).
  cbn [rbind revoked_wire rp_Version rp_TargetRecordDigest rp_RevokerPublicKey rp_Role
    rp_RevokedAtUnixMS rp_Reason rp_RevokerSignature slen sbytes].
  rewrite Z.eqb_refl, len_arr32. cbn [negb Z.eqb Pos.eqb].
  destruct (key_ok_slice _ (rpo_revoker _ Hok)) as (b & -> & _ & -> & _). cbn [rmap_err rbind].
  rewrite copy_array_arr. by apply NewRevokedPayload_eq.
Qed.

Lemma DecodeRevokedPayload_sound b r :
  DecodeRevokedPayload b = Ok r -> revoked_payload_ok r /\ utf8_valid (Reason r) = true.
Proof.
  unfold DecodeRevokedPayload. intros H. inv_ok.
  destruct (unmarshal_inv _ _ _ Hok) as [Hwf Hu].
  apply wire_wf_revoked in Hwf as (_ & _ & _ & _ & ? & _).
  apply wire_utf8_revoked in Hu. apply decode_key_ok in Hok0 as [? _].
  apply NewRevokedPayload_Ok in H as (-> & ? & ? & ?). by split; [split|].
Qed.

End Payloads.

(** ** Verification *)

Section Verification.
Context {C : Cbor} {CO : CborOk C} {K : Ecdsa} {KO : EcdsaOk K}.

(** The statements a payload carries. *)
Definition proposal_of (p : EndorsementAcceptedPayload) : EndorsementProposal :=
  MkProposal (ProposerPublicKey p) (SubjectPublicKey p) (Topic p) (ClaimBodyBytes p)
    (ProposedAtUnixMS p).

Definition acceptance_of (p : EndorsementAcceptedPayload) : EndorsementAcceptance :=
  MkAcceptance (Sha256.Sum256 (proposal_preimage (proposal_of p))) (AcceptedAtUnixMS p).

Definition revocation_of (r : EndorsementRevokedPayload) : EndorsementRevocation :=
  MkRevocation (TargetRecordDigest r) (RevokerPublicKey r) (Role r) (RevokedAtUnixMS r)
    (Reason r).

(** A signature of acceptable length that the key's owner made over the
    preimage, as far as ECDSA verification can tell. *)
Definition signed_by (pub : option PublicKey) (preimage : bytes) (sig : slice) : Prop :=
  exists k, pub = Some k /\ 8 <= slen sig <= 72 /\
    VerifyASN1 k (arr_list (Sha256.Sum256 preimage)) (sbytes sig) = true.

Lemma NewProposal_Ok kp ks topic claim t p :
  NewProposal kp ks topic claim t = Ok p <->
  p = MkProposal kp ks topic claim t /\ is_nil kp = false /\ is_nil ks = false /\
  1 <= len topic <= 128 /\ 1 <= slen claim <= 4096.
Proof.
  unfold NewProposal. split.
  - repeat case_match; try done. intros [= <-]. rewrite !outside_false in *. prep_bool.
    split_and!; done || clia.
  - intros (-> & -> & -> & ? & ?). cbn [orb].
    by rewrite !(proj2 (outside_false _ _ _)) by clia.
Qed.

Lemma NewRevocation_Ok d k role t reason r :
  NewRevocation d k role t reason = Ok r <->
  r = MkRevocation d k role t reason /\ is_nil k = false /\
  (role = RevokerRoleProposer \/ role = RevokerRoleSubject) /\ len reason <= 256.
Proof.
  unfold NewRevocation. split.
  - repeat case_match; try done. intros [= <-]. prep_bool. split_and!; done || clia.
  - intros (-> & -> & ? & ?). repeat case_match; prep_bool; clia || done.
Qed.

(** The check the three [VerifySignature] methods share. *)
Lemma verify_signature_iff pub (digest : gores Digest) preimage sig err1 err2 :
  digest = Ok (Sha256.Sum256 preimage) ->
  (if outside minSignatureBytes maxSignatureBytes (slen sig) then fail err1
   else
     d <~ digest ;;
     ok <~ verifyASN1 pub (arr_list d) (sbytes sig) ;;
     if negb ok then fail err2 else Ok tt) = Ok tt <-> signed_by pub preimage sig.
Proof.
  intros ->. unfold signed_by. destruct (outside _ _ _) eqn:E.
  - apply outside_true in E. split; [done|]. intros (_ & _ & ? & _). clia.
  - apply outside_false in E. cbn [rbind]. destruct pub as [k|]; cbn [verifyASN1 rbind].
    + destruct (VerifyASN1 _ _ _) eqn:Ev; cbn [negb]; split; try done.
      * intros _. exists k. split_and!; done || clia.
      * intros (? & [= <-] & _ & ?). congruence.
    + split; [done|by intros (? & ? & _)].
Qed.

Lemma Proposal_Verify_iff p preimage sig :
  Proposal_Digest p = Ok (Sha256.Sum256 preimage) ->
  Proposal_VerifySignature p sig = Ok tt <-> signed_by (p_ProposerPublicKey p) preimage sig.
Proof. apply verify_signature_iff. Qed.

Lemma Acceptance_Verify_iff a pub preimage sig :
  Acceptance_Digest a = Ok (Sha256.Sum256 preimage) ->
  Acceptance_VerifySignature a pub sig = Ok tt <-> signed_by pub preimage sig.
Proof. apply verify_signature_iff. Qed.

Lemma Revocation_Verify_iff r preimage sig :
  Revocation_Digest r = Ok (Sha256.Sum256 preimage) ->
  Revocation_VerifySignature r sig = Ok tt <-> signed_by (r_RevokerPublicKey r) preimage sig.
Proof. apply verify_signature_iff. Qed.

(** A payload whose keys can be encoded and whose fields have their Go types. *)
Definition encodable (pub : option PublicKey) : Prop :=
  exists k b, pub = Some k /\ KeyBytes k = Some b.

Lemma key_ok_encodable pub : key_ok pub -> encodable pub.
Proof. intros (k & b & ? & _ & ?). by exists k, b. Qed.

Lemma proposal_digest_ok p :
  encodable (ProposerPublicKey p) -> encodable (SubjectPublicKey p) ->
  typed (proposal_wire (proposal_of p)) ->
  Proposal_Digest (proposal_of p) = Ok (Sha256.Sum256 (proposal_preimage (proposal_of p))).
Proof.
  intros (kp & bp & Ep & Hp) (ks & bs & Es & Hs). unfold proposal_of. rewrite Ep, Es.
  by apply (Proposal_Digest_eq kp ks bp bs).
Qed.

Lemma accepted_verify_iff p :
  encodable (ProposerPublicKey p) -> encodable (SubjectPublicKey p) ->
  typed (proposal_wire (proposal_of p)) -> is_u64 (AcceptedAtUnixMS p) ->
  AcceptedPayload_Verify p = Ok tt <->
    1 <= len (Topic p) <= 128 /\ 1 <= slen (ClaimBodyBytes p) <= 4096 /\
    signed_by (ProposerPublicKey p) (proposal_preimage (proposal_of p)) (ProposerSignature p) /\
    signed_by (SubjectPublicKey p) (acceptance_preimage (acceptance_of p)) (SubjectSignature p).
Proof.
  intros Hkp Hks Ht Hacc. pose proof (proposal_digest_ok p Hkp Hks Ht) as Hd.
  unfold AcceptedPayload_Verify.
  destruct (NewProposal _ _ _ _ _) as [pr|e] eqn:Hn.
  - apply NewProposal_Ok in Hn as (-> & _ & _ & ? & ?). cbn [rmap_err rbind].
    fold (proposal_of p).
    rewrite <- (Proposal_Verify_iff (proposal_of p) _ (ProposerSignature p) Hd), Hd.
    destruct (Proposal_VerifySignature _ _) as [[]|]; cbn [rmap_err rbind];
      [|split; [done|by intros (_ & _ & ? & _)]].
    unfold NewAcceptance. cbn [rmap_err rbind]. fold (acceptance_of p).
    rewrite rmap_err_Ok, (Acceptance_Verify_iff _ _ (acceptance_preimage (acceptance_of p)))
      by by apply Acceptance_Digest_eq. tauto.
  - cbn [rmap_err rbind]. split; [done|]. intros (? & ? & _).
    destruct Hkp as (kp & _ & Ep & _), Hks as (ks & _ & Es & _).
    assert (Err e = Ok (proposal_of p)) as [=].
    rewrite <- Hn. apply NewProposal_Ok. unfold proposal_of. rewrite Ep, Es. cbn. tauto.
Qed.

Lemma revoked_verify_iff r :
  encodable (RevokerPublicKey r) -> typed (revocation_wire (revocation_of r)) ->
  RevokedPayload_Verify r = Ok tt <->
    (Role r = RevokerRoleProposer \/ Role r = RevokerRoleSubject) /\ len (Reason r) <= 256 /\
    signed_by (RevokerPublicKey r) (revocation_preimage (revocation_of r)) (RevokerSignature r).
Proof.
  intros (k & b & Ek & Hk) Ht. unfold RevokedPayload_Verify.
  assert (Hd : Revocation_Digest (revocation_of r)
    = Ok (Sha256.Sum256 (revocation_preimage (revocation_of r)))).
  { unfold revocation_of in *. rewrite Ek in *. by apply (Revocation_Digest_eq _ k b). }
  destruct (NewRevocation _ _ _ _ _) as [rv|e] eqn:Hn.
  - apply NewRevocation_Ok in Hn as (-> & _ & ? & ?). cbn [rmap_err rbind].
    rewrite (Revocation_Verify_iff _ _ _ Hd). cbn. tauto.
  - cbn [rmap_err rbind]. split; [done|]. intros (? & ? & _).
    assert (Err e = Ok (revocation_of r)) as [=].
    rewrite <- Hn. apply NewRevocation_Ok. unfold revocation_of. rewrite Ek. cbn. tauto.
Qed.

Lemma proposal_typed p : accepted_payload_ok p -> typed (proposal_wire (proposal_of p)).
Proof.
  intros [Hp Hs ? ? ? ? ? ?]. unfold typed, wire_wf. cbn -[key_slice].
  rewrite !Forall_cons, Forall_nil. cbn -[key_slice].
  destruct (key_ok_slice _ Hp) as (bp & -> & _ & _ & ? & _).
  destruct (key_ok_slice _ Hs) as (bs & -> & _ & _ & ? & _). cbn. split_and!; clia || done.
Qed.

Lemma revocation_typed r : revoked_payload_ok r -> typed (revocation_wire (revocation_of r)).
Proof.
  intros [Hk Hr ? ? ?]. unfold typed, wire_wf. cbn -[key_slice].
  rewrite !Forall_cons, Forall_nil. cbn -[key_slice].
  destruct (key_ok_slice _ Hk) as (b & -> & _ & _ & ? & _). cbn. rewrite len_arr32.
  split_and!; clia || done.
Qed.

Lemma accepted_verify_ok p :
  accepted_payload_ok p ->
  AcceptedPayload_Verify p = Ok tt <->
    signed_by (ProposerPublicKey p) (proposal_preimage (proposal_of p)) (ProposerSignature p) /\
    signed_by (SubjectPublicKey p) (acceptance_preimage (acceptance_of p)) (SubjectSignature p).
Proof.
  intros Hok. rewrite accepted_verify_iff.
  - destruct Hok as [? ? ? ? ? ? ? ?]. tauto.
  - apply key_ok_encodable, Hok.
  - apply key_ok_encodable, Hok.
  - by apply proposal_typed.
  - apply Hok.
Qed.

Lemma revoked_verify_ok r :
  revoked_payload_ok r ->
  RevokedPayload_Verify r = Ok tt <->
    signed_by (RevokerPublicKey r) (revocation_preimage (revocation_of r)) (RevokerSignature r).
Proof.
  intros Hok. rewrite revoked_verify_iff.
  - destruct Hok as [? ? ? ? ?]. tauto.
  - apply key_ok_encodable, Hok.
  - by apply revocation_typed.
Qed.

(** A signature by a P-256 key is accepted as signed. *)
Lemma sign_signed entropy sk preimage sig :
  IsP256 (Public sk) = true ->
  sign entropy (Some sk) (Ok (Sha256.Sum256 preimage)) = Ok sig ->
  signed_by (Some (Public sk)) preimage (Some sig).
Proof.
  intros Hk H. unfold sign in H. cbn [rbind] in H.
  destruct (SignASN1 _ _ _) as [s'|] eqn:E; [|done]. injection H as <-.
  apply sign_verify in E as [Hv Hl]; [|done|apply len_arr32].
  exists (Public sk). destruct Hl. by split_and!.
Qed.

(** Digests of a statement bind its fields. *)
Lemma statement_inj {W} {S : WireStruct W} {SO : WireStructOk W} domain (w1 w2 : W) :
  x00 ∉ domain -> typed w1 -> typed w2 ->
  Sha256.Sum256 (digest_preimage domain (enc_struct w1))
    = Sha256.Sum256 (digest_preimage domain (enc_struct w2)) ->
  w1 = w2 \/ collide (digest_preimage domain (enc_struct w1))
                     (digest_preimage domain (enc_struct w2)).
Proof.
  intros Hd H1 H2 [H|H]%Sum256_inj_or_collide; [left|by right].
  apply app_separator_inj in H as [_ H]; [|done..]. by apply enc_struct_inj.
Qed.

End Verification.

(** ** Properties *)

(** The domains of all digests of the application. *)
Definition digest_domains : list gostring :=
  [domainEventDigestV1; domainRecordDigestV1; domainProposerEndorsementV1;
   domainSubjectAcceptanceV1; domainRevocationV1].

Lemma digest_domains_ok : NoDup digest_domains /\ Forall (fun d => x00 ∉ d) digest_domains.
Proof.
  split.
  - apply (bool_decide_unpack _). by vm_compute.
  - unfold digest_domains. repeat constructor; by apply separator_free.
Qed.

Section Properties.
Context {C : Cbor} {CO : CborOk C} {K : Ecdsa} {KO : EcdsaOk K}.

(** Round trip of accepted payloads. A payload with P-256 keys, fields
    within their bounds and a UTF-8 topic is encoded, to at most 4700 bytes,
    and decoded again to the same payload, whatever nil-ness, keys and
    signatures it carries. *)
Theorem accepted_payload_roundtrip p :
  accepted_payload_ok p -> utf8_valid (Topic p) = true ->
  exists encoded, AcceptedPayload_Encode p = Ok encoded /\
    DecodeAcceptedPayload encoded = Ok p /\ 1 <= len encoded <= 4700.
Proof.
  intros Hok Hu. exists (enc_struct (accepted_wire p)).
  split_and!; [by apply AcceptedPayload_Encode_eq|by apply DecodeAcceptedPayload_complete|
    by apply accepted_wire_len..].
Qed.

(** What [DecodeAcceptedPayload] returns, from whatever bytes, has
    non-nil P-256 keys and every field within its bounds, and its canonical
    encoding decodes to it. *)
Theorem accepted_payload_decode_sound encoded p :
  DecodeAcceptedPayload encoded = Ok p ->
  accepted_payload_ok p /\
  exists canonical, AcceptedPayload_Encode p = Ok canonical /\
    DecodeAcceptedPayload canonical = Ok p.
Proof.
  intros [Hok Hu]%DecodeAcceptedPayload_sound. split; [done|].
  exists (enc_struct (accepted_wire p)).
  split; [by apply AcceptedPayload_Encode_eq|by apply DecodeAcceptedPayload_complete].
Qed.

(** Revocation payloads round trip, and what is decoded is well formed:
    a P-256 revoker key, one of the two roles, all bounds. *)
Theorem revoked_payload_roundtrip r :
  (revoked_payload_ok r -> utf8_valid (Reason r) = true ->
   exists encoded, RevokedPayload_Encode r = Ok encoded /\
     DecodeRevokedPayload encoded = Ok r /\ 1 <= len encoded <= 4700) /\
  (forall encoded, DecodeRevokedPayload encoded = Ok r ->
     revoked_payload_ok r /\ utf8_valid (Reason r) = true).
Proof.
  split.
  - intros Hok Hu. exists (enc_struct (revoked_wire r)).
    split_and!; [by apply RevokedPayload_Encode_eq|by apply DecodeRevokedPayload_complete|
      by apply revoked_wire_len..].
  - intros encoded. apply DecodeRevokedPayload_sound.
Qed.

(** C16: [Verify] of an accepted payload succeeds exactly when the topic and
    claim are within bounds, the proposer's key verifies its signature over the
    digest of the proposal statement, and the subject's key verifies its
    signature over the digest of the acceptance of that very proposal digest. *)
Theorem AcceptedPayload_Verify_spec p :
  encodable (ProposerPublicKey p) -> encodable (SubjectPublicKey p) ->
  typed (proposal_wire (proposal_of p)) -> is_u64 (AcceptedAtUnixMS p) ->
  AcceptedPayload_Verify p = Ok tt <->
    1 <= len (Topic p) <= 128 /\ 1 <= slen (ClaimBodyBytes p) <= 4096 /\
    signed_by (ProposerPublicKey p) (proposal_preimage (proposal_of p)) (ProposerSignature p) /\
    signed_by (SubjectPublicKey p) (acceptance_preimage (acceptance_of p)) (SubjectSignature p).
Proof. apply accepted_verify_iff. Qed.

(** C30: the protocol completes for topics that are valid UTF-8. A proposer and
    a subject with P-256 keys who sign a proposal and its acceptance, for a topic
    of valid UTF-8 and 64-bit times, get a payload that is accepted, encoded,
    decoded unchanged and verified. No code checks the topic, and
    [accepted_payload_bad_topic] shows that the condition is needed: with another
    topic the payload verifies and is encoded, but cannot be decoded. *)
Theorem endorsement_protocol_completes skp sks bp bs topic claim pat aat e1 e2 sp ss proposal d :
  IsP256 (Public skp) = true -> KeyBytes (Public skp) = Some bp ->
  IsP256 (Public sks) = true -> KeyBytes (Public sks) = Some bs ->
  utf8_valid topic = true -> is_u64 pat -> is_u64 aat ->
  NewProposal (Some (Public skp)) (Some (Public sks)) topic claim pat = Ok proposal ->
  Proposal_Sign proposal e1 (Some skp) = Ok sp ->
  Proposal_Digest proposal = Ok d ->
  Acceptance_Sign (MkAcceptance d aat) e2 (Some sks) = Ok ss ->
  exists payload encoded,
    NewAcceptedPayload (Some (Public skp)) (Some (Public sks)) topic claim pat (Some sp) aat
      (Some ss) = Ok payload /\
    AcceptedPayload_Encode payload = Ok encoded /\
    DecodeAcceptedPayload encoded = Ok payload /\
    AcceptedPayload_Verify payload = Ok tt.
Proof.
  intros Hkp Hbp Hks Hbs Hu Hpat Haat Hnew Hsp Hd Hss.
  apply NewProposal_Ok in Hnew as (-> & _ & _ & Ht & Hc).
  set (p := MkAcceptedPayload (Some (Public skp)) (Some (Public sks)) topic claim pat (Some sp) aat
    (Some ss)).
  assert (Hwire : typed (proposal_wire (proposal_of p))).
  { unfold typed, wire_wf. cbn. rewrite !Forall_cons, Forall_nil. cbn. rewrite Hbp, Hbs. cbn.
    pose proof (p256_key_len _ _ Hkp Hbp). pose proof (p256_key_len _ _ Hks Hbs).
    split_and!; clia || done. }
  change (MkProposal _ _ _ _ _) with (proposal_of p) in *.
  pose proof (Proposal_Digest_inv _ _ Hwire Hd) as ->. unfold Proposal_Sign in Hsp.
  rewrite Hd in Hsp. apply sign_signed in Hsp; [|done].
  unfold Acceptance_Sign in Hss. rewrite Acceptance_Digest_eq in Hss by done.
  apply sign_signed in Hss; [|done]. change (MkAcceptance _ aat) with (acceptance_of p) in Hss.
  assert (Hok : accepted_payload_ok p).
  { destruct Hsp as (? & _ & ? & _), Hss as (? & _ & ? & _).
    split; try done; [by exists (Public skp), bp|by exists (Public sks), bs]. }
  exists p, (enc_struct (accepted_wire p)). split_and!.
  - by apply (NewAcceptedPayload_eq p).
  - by apply AcceptedPayload_Encode_eq.
  - by apply DecodeAcceptedPayload_complete.
  - by apply accepted_verify_ok.
Qed.

(** C20: what the subject signs binds the whole endorsement. If two
    acceptances of two proposals have the same digest, they are at the same
    time and of proposals with the same proposer and subject keys, topic, claim
    and time, unless two of the preimages are a SHA-256 collision. *)
Theorem acceptance_binding p1 p2 d1 d2 t1 t2 h :
  typed (proposal_wire p1) -> typed (proposal_wire p2) -> is_u64 t1 -> is_u64 t2 ->
  Proposal_Digest p1 = Ok d1 -> Proposal_Digest p2 = Ok d2 ->
  Acceptance_Digest (MkAcceptance d1 t1) = Ok h -> Acceptance_Digest (MkAcceptance d2 t2) = Ok h ->
  (t1 = t2 /\ proposal_wire p1 = proposal_wire p2) \/
  collide (acceptance_preimage (MkAcceptance d1 t1)) (acceptance_preimage (MkAcceptance d2 t2)) \/
  collide (proposal_preimage p1) (proposal_preimage p2).
Proof.
  intros Hp1 Hp2 Ht1 Ht2 Hd1%Proposal_Digest_inv Hd2%Proposal_Digest_inv; [|done..].
  rewrite !Acceptance_Digest_eq by done. intros [= Ha] [= Hb]. rewrite <- Hb in Ha.
  apply statement_inj in Ha as [Ha|Ha];
    [|by right; left|by apply separator_free|by apply acceptance_typed..].
  injection Ha as Hd%array_eq ->. rewrite Hd1, Hd2 in Hd.
  apply statement_inj in Hd as [Hd|Hd];
    [by left|by right; right|by apply separator_free|done..].
Qed.

(** Digests of different kinds never mix. Hashes computed by the ledger
    and endorsement packages under any two of the five domains agree only for
    the same domain and the same bytes, unless the preimages collide. *)
Theorem digest_domains_separate i j d1 d2 b1 b2 :
  digest_domains !! i = Some d1 -> digest_domains !! j = Some d2 ->
  domainSeparatedDigest d1 b1 = LedgerCodec.domainSeparatedDigest d2 b2 ->
  (i = j /\ b1 = b2) \/ collide (digest_preimage d1 b1) (digest_preimage d2 b2).
Proof.
  intros Hi Hj H. destruct digest_domains_ok as [Hnd Hfree]. rewrite Forall_lookup in Hfree.
  rewrite digest_preimage_eq in H.
  apply domainSeparatedDigest_inj in H as [[-> ->]|H]; [|by right|by eapply Hfree..].
  left. split; [by eapply NoDup_lookup|done].
Qed.

(** C35: [Verify] of a revocation payload succeeds exactly when the role is
    proposer or subject, the reason within its bound, and the revoker's key
    verifies the signature over the digest of the revocation statement (target
    record, key, role, time, reason). *)
Theorem RevokedPayload_Verify_spec r :
  encodable (RevokerPublicKey r) -> typed (revocation_wire (revocation_of r)) ->
  RevokedPayload_Verify r = Ok tt <->
    (Role r = RevokerRoleProposer \/ Role r = RevokerRoleSubject) /\ len (Reason r) <= 256 /\
    signed_by (RevokerPublicKey r) (revocation_preimage (revocation_of r)) (RevokerSignature r).
Proof. apply revoked_verify_iff. Qed.

(** A payload can verify and be encoded and still not be readable. With
    a topic that is not UTF-8 no bytes at all decode to the payload, so
    admission stores a record the projection cannot decode to it. *)
Theorem accepted_payload_bad_topic p :
  accepted_payload_ok p -> utf8_valid (Topic p) = false ->
  is_ok (AcceptedPayload_Encode p) = true /\
  forall encoded, DecodeAcceptedPayload encoded <> Ok p.
Proof.
  intros Hok Hu. split; [by rewrite AcceptedPayload_Encode_eq|].
  intros encoded [_ H]%DecodeAcceptedPayload_sound. congruence.
Qed.

End Properties.

(** ** Witnesses *)

Section Witnesses.
#[local] Existing Instance Ref.codec.
#[local] Existing Instance Toy.ecdsa.

Definition sample_proposer : array 64 := copy_array 64 (map Z_byte (seqZ 1 64)).
Definition sample_subject : array 64 := copy_array 64 (map Z_byte (seqZ 65 64)).

Definition sample_proposal : EndorsementProposal :=
  MkProposal (Some sample_proposer) (Some sample_subject) (gostr "go") (Some [x01; x02]) 5.

Definition sample_proposal_digest : Digest := Sha256.Sum256 (proposal_preimage sample_proposal).

Definition sample_acceptance : EndorsementAcceptance := MkAcceptance sample_proposal_digest 6.

Definition sample_payload : EndorsementAcceptedPayload :=
  MkAcceptedPayload (Some sample_proposer) (Some sample_subject) (gostr "go") (Some [x01; x02]) 5
    (Some (Toy.sign sample_proposer (arr_list sample_proposal_digest))) 6
    (Some (Toy.sign sample_subject
             (arr_list (Sha256.Sum256 (acceptance_preimage sample_acceptance))))).

Definition sample_revocation : EndorsementRevokedPayload :=
  let target := sample_proposal_digest in
  let statement := MkRevocation target (Some sample_subject) 2 7 (gostr "left") in
  MkRevokedPayload target (Some sample_subject) 2 7 (gostr "left")
    (Some (Toy.sign sample_subject (arr_list (Sha256.Sum256 (revocation_preimage statement))))).

Lemma sample_key_ok (k : array 64) : key_ok (Some k).
Proof. by exists k, (x04 :: arr_list k). Qed.

Lemma sample_sig_len (k : array 64) (d : bytes) : 8 <= slen (Some (Toy.sign k d)) <= 72.
Proof. pose proof (Toy.len_sign k d). cbn. lia. Qed.

Lemma sample_payload_ok : accepted_payload_ok sample_payload.
Proof.
  split; try apply sample_key_ok; try apply sample_sig_len;
    [split; vm_compute; discriminate|split; vm_compute; discriminate|cbn; clia|cbn; clia].
Qed.

Lemma sample_revocation_ok : revoked_payload_ok sample_revocation.
Proof.
  split; [apply sample_key_ok|by right|cbn; clia|vm_compute; discriminate|apply sample_sig_len].
Qed.

Lemma sample_proposal_digest_ok : Proposal_Digest sample_proposal = Ok sample_proposal_digest.
Proof.
  apply (proposal_digest_ok sample_payload); try apply key_ok_encodable, sample_key_ok.
  apply proposal_typed, sample_payload_ok.
Qed.

Lemma sample_signed (k : array 64) preimage :
  signed_by (Some k) preimage (Some (Toy.sign k (arr_list (Sha256.Sum256 preimage)))).
Proof.
  exists k. pose proof (sample_sig_len k (arr_list (Sha256.Sum256 preimage))) as [? ?].
  split_and!; [done|done|done|by apply bool_decide_eq_true].
Qed.

Lemma accepted_payload_roundtrip_witness :
  exists encoded, AcceptedPayload_Encode sample_payload = Ok encoded /\
    DecodeAcceptedPayload encoded = Ok sample_payload.
Proof.
  destruct (accepted_payload_roundtrip sample_payload sample_payload_ok eq_refl) as (b & He & Hd & _).
  exact (ex_intro _ b (conj He Hd)).
Defined.

Lemma accepted_payload_decode_sound_witness :
  DecodeAcceptedPayload (enc_struct (accepted_wire sample_payload)) = Ok sample_payload /\
  accepted_payload_ok sample_payload.
Proof.
  assert (H : DecodeAcceptedPayload (enc_struct (accepted_wire sample_payload)) = Ok sample_payload)
    by exact (DecodeAcceptedPayload_complete sample_payload sample_payload_ok eq_refl).
  exact (conj H (proj1 (accepted_payload_decode_sound _ _ H))).
Defined.

Lemma revoked_payload_roundtrip_witness :
  exists encoded, RevokedPayload_Encode sample_revocation = Ok encoded /\
    DecodeRevokedPayload encoded = Ok sample_revocation.
Proof.
  destruct (proj1 (revoked_payload_roundtrip sample_revocation) sample_revocation_ok eq_refl)
    as (b & He & Hd & _).
  exact (ex_intro _ b (conj He Hd)).
Defined.

Lemma AcceptedPayload_Verify_spec_witness : AcceptedPayload_Verify sample_payload = Ok tt.
Proof.
  apply AcceptedPayload_Verify_spec.
  - apply key_ok_encodable, sample_key_ok.
  - apply key_ok_encodable, sample_key_ok.
  - apply proposal_typed, sample_payload_ok.
  - cbn. clia.
  - split; [split; vm_compute; discriminate|]. split; [split; vm_compute; discriminate|].
    split; apply sample_signed.
Defined.

Lemma endorsement_protocol_completes_witness :
  exists payload encoded,
    DecodeAcceptedPayload encoded = Ok payload /\ AcceptedPayload_Verify payload = Ok tt.
Proof.
  destruct (endorsement_protocol_completes (K := Toy.ecdsa) sample_proposer sample_subject
    (x04 :: arr_list sample_proposer) (x04 :: arr_list sample_subject) (gostr "go")
    (Some [x01; x02]) 5 6 [] []
    (Toy.sign sample_proposer (arr_list sample_proposal_digest))
    (Toy.sign sample_subject (arr_list (Sha256.Sum256 (acceptance_preimage sample_acceptance))))
    sample_proposal sample_proposal_digest) as (p & b & _ & _ & Hd & Hv).
  - reflexivity.
  - reflexivity.
  - reflexivity.
  - reflexivity.
  - reflexivity.
  - clia.
  - clia.
  - reflexivity.
  - unfold Proposal_Sign. rewrite sample_proposal_digest_ok. reflexivity.
  - exact sample_proposal_digest_ok.
  - unfold Acceptance_Sign. rewrite Acceptance_Digest_eq by clia. reflexivity.
  - exact (ex_intro _ p (ex_intro _ b (conj Hd Hv))).
Defined.

Lemma acceptance_binding_witness :
  (6 = 6 /\ proposal_wire sample_proposal = proposal_wire sample_proposal) \/
  collide (acceptance_preimage sample_acceptance) (acceptance_preimage sample_acceptance) \/
  collide (proposal_preimage sample_proposal) (proposal_preimage sample_proposal).
Proof.
  apply (acceptance_binding sample_proposal sample_proposal sample_proposal_digest
    sample_proposal_digest 6 6 (Sha256.Sum256 (acceptance_preimage sample_acceptance))).
  - apply (proposal_typed sample_payload), sample_payload_ok.
  - apply (proposal_typed sample_payload), sample_payload_ok.
  - clia.
  - clia.
  - exact sample_proposal_digest_ok.
  - exact sample_proposal_digest_ok.
  - apply Acceptance_Digest_eq. clia.
  - apply Acceptance_Digest_eq. clia.
Defined.

Lemma digest_domains_separate_witness :
  (0%nat = 0%nat /\ [x01] = [x01]) \/
  collide (digest_preimage domainEventDigestV1 [x01]) (digest_preimage domainEventDigestV1 [x01]).
Proof.
  exact (digest_domains_separate 0 0 domainEventDigestV1 domainEventDigestV1 [x01] [x01]
    eq_refl eq_refl (digest_preimage_eq domainEventDigestV1 [x01])).
Defined.

Lemma RevokedPayload_Verify_spec_witness : RevokedPayload_Verify sample_revocation = Ok tt.
Proof.
  apply RevokedPayload_Verify_spec.
  - apply key_ok_encodable, sample_key_ok.
  - apply revocation_typed, sample_revocation_ok.
  - split; [by right|]. split; [vm_compute; discriminate|apply sample_signed].
Defined.

Definition bad_topic_payload : EndorsementAcceptedPayload :=
  MkAcceptedPayload (Some sample_proposer) (Some sample_subject) [xff] (Some [x01]) 5
    (Some (Toy.sign sample_proposer [])) 6 (Some (Toy.sign sample_subject [])).

Lemma bad_topic_payload_ok : accepted_payload_ok bad_topic_payload.
Proof.
  split; try apply sample_key_ok; try apply sample_sig_len;
    [split; vm_compute; discriminate|split; vm_compute; discriminate|cbn; clia|cbn; clia].
Qed.

Lemma accepted_payload_bad_topic_witness :
  is_ok (AcceptedPayload_Encode bad_topic_payload) = true /\
  DecodeAcceptedPayload (enc_struct (accepted_wire bad_topic_payload)) <> Ok bad_topic_payload.
Proof.
  destruct (accepted_payload_bad_topic bad_topic_payload bad_topic_payload_ok eq_refl) as [H1 H2].
  exact (conj H1 (H2 _)).
Defined.

End Witnesses.

End endorsementv1.
