(* ===== verification/Effects.v ===== *)
(** * Effectful programs and the database

    A function that talks to PostgreSQL, the signer, the clock or a context is
    a program: a tree of requests with a continuation per reply.  The database
    is the table [ledger_record] with the constraints of [db/migrations]; a
    request may also fail, and a failed insert may still have been committed.
    [safe] is the verification condition of a program that runs beside others
    on the same table, [sys_step] the interleaving of several of them. *)

From S2P Require Import Prelude.

(** ** The table *)

Record row := MkRow {
  record_digest : bytes;
  ledger_id : bytes;
  sequence_number : Z;
  previous_record_digest : slice;
  event_kind : Z;
  payload_version : Z;
  record_bytes : bytes
}.

#[global] Instance row_eq_dec : EqDecision row.
Proof. solve_decision. Defined.

(** Rows in the order they were committed. *)
Abbreviation table := (list row).

Definition between (lo hi n : Z) : bool := (lo <=? n) && (n <=? hi).

(** The CHECK constraints: the name of one that fails. *)
Definition check_violation (r : row) : option string :=
  if negb (len (record_bytes r) =? 0) && (len (record_bytes r) <=? 131200) then
    if len (record_digest r) =? 32 then
      if between 1 MaxUint64 (event_kind r) then
        if len (ledger_id r) =? 32 then
          if between 1 MaxUint64 (payload_version r) then
            if match previous_record_digest r with Some p => len p =? 32 | None => true end then
              if between 1 MaxUint64 (sequence_number r) then None
              else Some "ledger_record_sequence_range"
            else Some "ledger_record_previous_len"
          else Some "ledger_record_payload_version_range"
        else Some "ledger_record_ledger_id_len"
      else Some "ledger_record_event_kind_range"
    else Some "ledger_record_digest_len"
  else Some "ledger_record_bytes_bound".

Definition same_digest (d : bytes) (r : row) : bool := bool_decide (record_digest r = d).

Definition same_position (ledger : bytes) (seq : Z) (r : row) : bool :=
  bool_decide (ledger_id r = ledger) && (sequence_number r =? seq).

(** The foreign key may be satisfied by the new row itself. *)
Definition predecessor_stored (t : table) (r : row) : bool :=
  match previous_record_digest r with
  | None => true
  | Some d => existsb (same_digest d) (t ++ [r])
  end.

(** A [*pgconn.PgError] with its SQLSTATE and constraint name. *)
Definition PgError (code constraint : string) : goerror :=
  Foreign "pgconn.PgError" [code; constraint].

(** The INSERT ... ON CONFLICT ON CONSTRAINT ledger_record_digest_pk DO NOTHING
    statement: the rows affected or the error, and the table after it. *)
Definition exec_insert (t : table) (r : row) : result goerror Z * table :=
  match check_violation r with
  | Some constraint => (Err (PgError "23514" constraint), t)
  | None =>
      if existsb (same_digest (record_digest r)) t then (Ok 0, t)
      else if existsb (same_position (ledger_id r) (sequence_number r)) t
      then (Err (PgError "23505" "ledger_record_ledger_sequence_unique"), t)
      else if negb (predecessor_stored t r)
      then (Err (PgError "23503" "ledger_record_previous_fk"), t)
      else (Ok 1, t ++ [r])
  end.

Definition ledger_rows (t : table) (ledger : bytes) : list row :=
  filter (fun r => ledger_id r = ledger) t.

(** SELECT ... WHERE ledger_id ORDER BY sequence_number DESC LIMIT 1 *)
Definition later (acc : option row) (r : row) : option row :=
  match acc with
  | None => Some r
  | Some h => if sequence_number h <? sequence_number r then Some r else Some h
  end.
Definition select_head (t : table) (ledger : bytes) : option row :=
  foldl later None (ledger_rows t ledger).

(** SELECT ... WHERE record_digest *)
Definition select_record (t : table) (digest : bytes) : option row :=
  List.find (same_digest digest) t.

(** SELECT ... WHERE ledger_id AND sequence_number >= ORDER BY sequence_number ASC LIMIT *)
Definition by_sequence (r1 r2 : row) : Prop := sequence_number r1 <= sequence_number r2.
#[global] Instance by_sequence_dec r1 r2 : Decision (by_sequence r1 r2).
Proof. unfold by_sequence. apply _. Defined.

#[global] Instance by_sequence_trans : Transitive by_sequence.
Proof. intros x y z. unfold by_sequence. lia. Qed.
#[global] Instance by_sequence_total : Total by_sequence.
Proof. intros x y. unfold by_sequence. lia. Qed.

Definition select_from (t : table) (ledger : bytes) (from limit : Z) : list row :=
  take (Z.to_nat limit)
    (merge_sort by_sequence (filter (fun r => from <= sequence_number r) (ledger_rows t ledger))).

(** ** Programs *)

(** The rows of a result set: each is scanned into bytes or fails to, and the
    iteration may end in an error. *)
Abbreviation rows_reply := (list (result goerror bytes) * option goerror)%type.

Inductive request : Type -> Type :=
  | Exec (r : row) : request (result goerror Z)
  | QueryHead (ledger : bytes) : request (result goerror bytes)
  | QueryRecord (digest : bytes) : request (result goerror bytes)
  | QueryFrom (ledger : bytes) (from limit : Z) : request (result goerror rows_reply)
  | Now : request Z
  | ReadRand : request bytes
  | AsymmetricSign (name : gostring) (sha256 : bytes) : request (result goerror slice)
  | CtxErr : request (option goerror).

Inductive prog (A : Type) : Type :=
  | Ret (a : A)
  | Do {X : Type} (req : request X) (k : X -> prog A).
Arguments Ret {A} _.
Arguments Do {A X} _ _.

Fixpoint pbind {A B} (p : prog A) (f : A -> prog B) : prog B :=
  match p with
  | Ret a => f a
  | Do req k => Do req (fun x => pbind (k x) f)
  end.

Definition ask {X} (req : request X) : prog X := Do req Ret.

(** [x <-- p ;; k]: run [p], then [k] on its value. *)
Notation "x <-- p ;; k" := (pbind p (fun x => k))
  (at level 100, p at next level, right associativity) : go_scope.

(** [x <-? p ;; k]: the same, returning early when the value is an error. *)
Definition pbind_ok {E A B} (p : prog (result E A)) (f : A -> prog (result E B)) :
    prog (result E B) :=
  pbind p (fun r => match r with Ok a => f a | Err e => Ret (Err e) end).
Notation "x <-? p ;; k" := (pbind_ok p (fun x => k))
  (at level 100, p at next level, right associativity) : go_scope.

(** Errors of a program, in context. *)
Definition pmap_err {E F A} (f : E -> F) (p : prog (result E A)) : prog (result F A) :=
  pbind p (fun r => Ret (rmap_err f r)).

(** ** Replies *)

Definition ErrNoRows : goerror := Sentinel "pgx.ErrNoRows".

(** An error that did not come from a constraint of the table: the connection,
    the context, the pool. *)
Definition transport (e : goerror) : Prop :=
  exists type fields, e = Foreign type fields /\ type <> "pgconn.PgError"%string.

(** A failed read: any error but the "no rows" of an empty result, a server
    error ([PgError]) included. *)
Definition read_failure (e : goerror) : Prop := errors_Is e ErrNoRows = false.

Definition query_row (found : option row) (reply : result goerror bytes) : Prop :=
  match reply with
  | Ok b => exists r, found = Some r /\ b = record_bytes r
  | Err e => (e = ErrNoRows /\ found = None) \/ read_failure e
  end.

(** What may be answered to a request on table [t], with the table after it.
    An insert whose connection fails may or may not have been committed;
    PostgreSQL may refuse a statement for reasons of its own (class 23 errors
    of the other constraints included), with no effect. *)
Definition answers {X} (t : table) (req : request X) : X -> table -> Prop :=
  match req in request Y return Y -> table -> Prop with
  | Exec r => fun reply t' =>
      exec_insert t r = (reply, t') \/
      (exists e, transport e /\ reply = Err e /\ (t' = t \/ t' = (exec_insert t r).2)) \/
      (exists code constraint, ~ (code = "23505"%string \/ code = "23503"%string) /\
         reply = Err (PgError code constraint) /\ t' = t)
  | QueryHead ledger => fun reply t' => query_row (select_head t ledger) reply /\ t' = t
  | QueryRecord digest => fun reply t' => query_row (select_record t digest) reply /\ t' = t
  | QueryFrom ledger from limit => fun reply t' =>
      t' = t /\
      match reply with
      | Err e => read_failure e
      | Ok (scanned, err) =>
          exists rows rest, select_from t ledger from limit = rows ++ rest /\
            scanned = map (fun r => Ok (record_bytes r)) rows /\
            match err with None => rest = [] | Some e => read_failure e end
      end
  | Now => fun now t' => - two63 <= now < two63 /\ t' = t
  | ReadRand => fun _ t' => t' = t
  | AsymmetricSign _ _ => fun _ t' => t' = t
  | CtxErr => fun _ t' => t' = t
  end.

(** ** A deterministic environment

    No failures: the database as specified, a fixed clock, entropy and remote
    signer, a context that is never cancelled. *)
Record environment := MkEnv {
  env_now : Z;
  env_rand : bytes;
  env_kms : gostring -> bytes -> result goerror slice
}.

Definition no_rows (found : option row) : result goerror bytes :=
  match found with Some r => Ok (record_bytes r) | None => Err ErrNoRows end.

Definition respond (env : environment) {X} (req : request X) : table -> X * table :=
  match req in request Y return table -> Y * table with
  | Exec r => fun t => exec_insert t r
  | QueryHead ledger => fun t => (no_rows (select_head t ledger), t)
  | QueryRecord digest => fun t => (no_rows (select_record t digest), t)
  | QueryFrom ledger from limit => fun t =>
      (Ok (map (fun r => Ok (record_bytes r)) (select_from t ledger from limit), None), t)
  | Now => fun t => (env_now env, t)
  | ReadRand => fun t => (env_rand env, t)
  | AsymmetricSign name digest => fun t => (env_kms env name digest, t)
  | CtxErr => fun t => (None, t)
  end.

Fixpoint run {A} (env : environment) (p : prog A) (t : table) : A * table :=
  match p with
  | Ret a => (a, t)
  | Do req k => let '(x, t') := respond env req t in run env (k x) t'
  end.

Lemma run_bind {A B} env (p : prog A) (f : A -> prog B) t :
  run env (pbind p f) t = let '(a, t') := run env p t in run env (f a) t'.
Proof.
  revert t. induction p as [a|X req k IH]; intros t; cbn [pbind run]; [done|].
  destruct (respond env req t) as [x t']. apply IH.
Qed.

Lemma respond_answers env {X} (req : request X) t :
  - two63 <= env_now env < two63 ->
  answers t req (respond env req t).1 (respond env req t).2.
Proof.
  intros Hnow. destruct req; cbn; try done.
  - left. by destruct (exec_insert t r).
  - split; [|done]. destruct (select_head t ledger) as [r|]; cbn; [by exists r|by left].
  - split; [|done]. destruct (select_record t digest) as [r|]; cbn; [by exists r|by left].
  - split; [done|]. exists (select_from t ledger from limit), [].
    by rewrite app_nil_r.
Qed.

(** ** Programs that run beside others

    [Inv] is what every program maintains of the table.  Between two steps of
    a program the others may have appended rows, keeping [Inv]; the step itself
    must keep it and only append. *)

Section Concurrency.
Context (Inv : table -> Prop).

Fixpoint safe {A} (Q : table -> A -> Prop) (p : prog A) (t : table) : Prop :=
  match p with
  | Ret a => forall t1, t `prefix_of` t1 -> Inv t1 -> Q t1 a
  | Do req k =>
      forall t1 reply t2, t `prefix_of` t1 -> Inv t1 -> answers t1 req reply t2 ->
        Inv t2 /\ t1 `prefix_of` t2 /\ safe Q (k reply) t2
  end.

Lemma safe_mono {A} Q (p : prog A) t t' : t `prefix_of` t' -> safe Q p t -> safe Q p t'.
Proof.
  intros Ht. destruct p as [a|X req k]; cbn; intros H t1; intros.
  - apply H; [by etrans|done].
  - eapply H; [by etrans|done..].
Qed.

Lemma safe_weaken {A} (Q R : table -> A -> Prop) (p : prog A) t :
  (forall t1 a, t `prefix_of` t1 -> Inv t1 -> Q t1 a -> R t1 a) -> safe Q p t -> safe R p t.
Proof.
  revert t. induction p as [a|X req k IH]; cbn; intros t HQ H.
  - intros t1 Ht Hi. apply HQ; [done..|]. by apply H.
  - intros t1 reply t2 Ht Hi Ha. destruct (H t1 reply t2 Ht Hi Ha) as (Hi2 & Hp & Hs).
    split_and!; [done..|]. apply IH; [|done]. intros t3 a Ht3. apply HQ. do 2 (etrans; [done|]). done.
Qed.

Lemma safe_bind {A B} Q (p : prog A) (f : A -> prog B) t :
  Inv t -> safe (fun t1 a => safe Q (f a) t1) p t -> safe Q (pbind p f) t.
Proof.
  revert t. induction p as [a|X req k IH]; cbn; intros t Hi H.
  - by apply H.
  - intros t1 reply t2 Ht Hi1 Ha. destruct (H t1 reply t2 Ht Hi1 Ha) as (Hi2 & Hp & Hs).
    split_and!; [done..|]. by apply IH.
Qed.

(** Rules for the two binds: the continuation is proved for whatever the first
    program guarantees, on any later table. *)
Lemma safe_pbind {A B} (R : table -> A -> Prop) Q (p : prog A) (f : A -> prog B) t :
  Inv t -> safe R p t ->
  (forall t1 a, t `prefix_of` t1 -> Inv t1 -> R t1 a -> safe Q (f a) t1) ->
  safe Q (pbind p f) t.
Proof. intros Hi Hp Hf. apply safe_bind; [done|]. by eapply safe_weaken. Qed.

Lemma safe_ret {A} (Q : table -> A -> Prop) a t :
  (forall t1, t `prefix_of` t1 -> Inv t1 -> Q t1 a) -> safe Q (Ret a) t.
Proof. done. Qed.

(** The same for early returns, where an error satisfies the postcondition. *)
Lemma safe_pbind_ok {E A B} (R : table -> result E A -> Prop) (Q : table -> result E B -> Prop)
    p f t :
  Inv t -> safe R p t -> (forall t1 e, Q t1 (Err e)) ->
  (forall t1 a, t `prefix_of` t1 -> Inv t1 -> R t1 (Ok a) -> safe Q (f a) t1) ->
  safe Q (pbind_ok p f) t.
Proof.
  intros Hi Hp He Hf. eapply safe_pbind; [done|exact Hp|].
  intros t1 [a|e] Ht1 Hi1 HR; [by apply Hf|]. intros t2 _ _. apply He.
Qed.

Lemma safe_pmap_err {E F A} (R : table -> result E A -> Prop) (Q : table -> result F A -> Prop)
    (g : E -> F) p t :
  Inv t -> safe R p t -> 
  (forall t1 t2 a, t1 `prefix_of` t2 -> R t1 (Ok a) -> Q t2 (Ok a)) -> (forall t1 e, Q t1 (Err e)) ->
  safe Q (pmap_err g p) t.
Proof.
  intros Hi Hp Ho He. unfold pmap_err. apply safe_bind; [done|].
  eapply safe_weaken; [|exact Hp]. intros t1 [a|e] Ht1 Hi1 HR; cbn; intros t2 Ht2 Hi2.
  - by eapply Ho.
  - apply He.
Qed.

(** ** Interleavings

    A system is a table and the programs running on it.  A step lets one of
    them receive a reply, or starts a new call. *)

Context {A : Type} (api : prog A -> Prop).

Inductive sys_step : table * list (prog A) -> table * list (prog A) -> Prop :=
  | step_call t ps p :
      api p -> sys_step (t, ps) (t, ps ++ [p])
  | step_request t ps i X (req : request X) k reply t' :
      ps !! i = Some (Do req k) -> answers t req reply t' ->
      sys_step (t, ps) (t', <[i := k reply]> ps).

Definition reachable (s : table * list (prog A)) : Prop := rtc sys_step ([], []) s.

Context (Q : table -> A -> Prop).
Hypothesis Inv_empty : Inv [].
Hypothesis api_safe : forall p t, api p -> Inv t -> safe Q p t.

(** Every reachable table satisfies the invariant, and every program is where
    its verification condition says. *)
Lemma reachable_safe t ps :
  reachable (t, ps) -> Inv t /\ Forall (fun p => safe Q p t) ps.
Proof using Inv_empty api_safe.
  unfold reachable. intros H.
  refine (rtc_ind_r (fun s => Inv s.1 /\ Forall (fun p => safe Q p s.1) s.2)
    ([], []) _ _ (t, ps) H); [by split|clear t ps H].
  intros s1 s2 _ Hs [Hinv Hall].
  destruct Hs as [t ps p Hp|t ps i X req k reply t' Hi Ha]; cbn in *.
  - split; [done|]. apply Forall_app. split; [done|]. by constructor; [apply api_safe|].
  - pose proof Hall as Hp. rewrite Forall_lookup in Hp. specialize (Hp i _ Hi). cbn in Hp.
    destruct (Hp t reply t' (reflexivity _) Hinv Ha) as (Hinv' & Hpre & Hk).
    split; [done|]. apply Forall_insert; [|done].
    eapply Forall_impl; [exact Hall|]. intros p. by apply safe_mono.
Qed.

(** A finished call's result satisfies its postcondition, and keeps doing so. *)
Lemma reachable_result t ps i a :
  reachable (t, ps) -> ps !! i = Some (Ret a) -> Q t a.
Proof using Inv_empty api_safe.
  intros H Hi. destruct (reachable_safe t ps H) as [Hinv Hall].
  rewrite Forall_lookup in Hall. by apply (Hall i _ Hi).
Qed.

(** Steps only append. *)
Lemma reachable_append_only s1 s2 :
  reachable s1 -> rtc sys_step s1 s2 -> s1.1 `prefix_of` s2.1.
Proof using Inv_empty api_safe.
  intros H1 H12. induction H12 as [s|s1 s2 s3 Hs _ IH]; [done|].
  etrans; [|apply IH; by eapply rtc_r]. destruct Hs as [t ps p Hp|t ps i X req k reply t' Hi Ha]; [done|].
  destruct (reachable_safe t ps H1) as [Hinv Hall]. rewrite Forall_lookup in Hall.
  specialize (Hall i _ Hi). cbn in Hall. by destruct (Hall t reply t' (reflexivity _) Hinv Ha) as (_ & ? & _).
Qed.

End Concurrency.

(** A run in the deterministic environment is one of the interleavings. *)
Lemma run_reaches {A} (api : prog A -> Prop) env ps p t :
  - two63 <= env_now env < two63 ->
  rtc (sys_step api) (t, ps ++ [p]) ((run env p t).2, ps ++ [Ret (run env p t).1]).
Proof.
  intros Hnow. revert t. induction p as [a|X req k IH]; intros t; cbn [run]; [done|].
  pose proof (respond_answers env req t Hnow) as Ha.
  destruct (respond env req t) as [x t'] eqn:Er. cbn [fst snd] in Ha.
  eapply rtc_l; [|apply IH].
  assert (Hi : (ps ++ [Do req k]) !! length ps = Some (Do req k)) by by apply list_lookup_middle.
  pose proof (step_request api t _ _ X req k x t' Hi Ha) as Hs.
  rewrite insert_app_r_alt in Hs by done. by rewrite Nat.sub_diag in Hs.
Qed.

Lemma run_reachable {A} (api : prog A -> Prop) env t ps p :
  - two63 <= env_now env < two63 -> reachable api (t, ps) -> api p ->
  reachable api ((run env p t).2, ps ++ [Ret (run env p t).1]).
Proof.
  intros Hnow Hr Hp. unfold reachable in *. etrans; [|by apply run_reaches].
  eapply rtc_r; [exact Hr|by constructor].
Qed.

(** ** One call among others

    What a call may assume of the replies to its own requests, on top of
    [answers]. *)
Definition reply_class := forall X, request X -> X -> Prop.

(** An error from outside of the program: it is none of the errors the program
    declares, and wraps none of them.  (pgx declares its "no rows".) *)
Definition from_outside (e : goerror) : Prop :=
  forall name, name <> "pgx.ErrNoRows"%string -> errors_Is e (Sentinel name) = false.

Lemma from_outside_wrapped context args e : from_outside e -> from_outside (Wrapped context args e).
Proof. intros H name Hn. cbn. by rewrite (H name Hn). Qed.

(** Errors that are replied come from outside. *)
Definition outside : reply_class := fun X req =>
  match req in request Y return Y -> Prop with
  | Exec _ => fun reply => forall e, reply = Err e -> from_outside e
  | QueryHead _ => fun reply => forall e, reply = Err e -> from_outside e
  | QueryRecord _ => fun reply => forall e, reply = Err e -> from_outside e
  | QueryFrom _ _ _ => fun reply => forall e, reply = Err e -> from_outside e
  | AsymmetricSign _ _ => fun reply => forall e, reply = Err e -> from_outside e
  | CtxErr => fun reply => forall e, reply = Some e -> from_outside e
  | _ => fun _ => True
  end.

(** The reads of single rows do not fail: the only error is "no rows". *)
Definition faultless : reply_class := fun X req =>
  match req in request Y return Y -> Prop with
  | QueryHead _ => fun reply => forall e, reply = Err e -> e = ErrNoRows
  | QueryRecord _ => fun reply => forall e, reply = Err e -> e = ErrNoRows
  | _ => fun _ => True
  end.

Section Call.
Context (Inv : table -> Prop) (class : reply_class).

(** [safe] for replies of the class. *)
Fixpoint serves {A} (Q : table -> A -> Prop) (p : prog A) (t : table) : Prop :=
  match p with
  | Ret a => forall t1, t `prefix_of` t1 -> Inv t1 -> Q t1 a
  | Do req k =>
      forall t1 reply t2, t `prefix_of` t1 -> Inv t1 -> answers t1 req reply t2 -> class _ req reply ->
        Inv t2 /\ t1 `prefix_of` t2 /\ serves Q (k reply) t2
  end.

Lemma safe_serves {A} Q (p : prog A) t : safe Inv Q p t -> serves Q p t.
Proof.
  revert t. induction p as [a|X req k IH]; cbn; intros t H; [done|].
  intros t1 reply t2 Hp Hi Ha _. destruct (H t1 reply t2 Hp Hi Ha) as (? & ? & ?). auto.
Qed.

Lemma serves_weaken {A} (Q R : table -> A -> Prop) (p : prog A) t :
  (forall t1 a, t `prefix_of` t1 -> Inv t1 -> Q t1 a -> R t1 a) -> serves Q p t -> serves R p t.
Proof.
  revert t. induction p as [a|X req k IH]; cbn; intros t HQ H.
  - intros t1 Ht Hi. apply HQ; [done..|]. by apply H.
  - intros t1 reply t2 Ht Hi Ha Hc. destruct (H t1 reply t2 Ht Hi Ha Hc) as (Hi2 & Hp & Hs).
    split_and!; [done..|]. apply IH; [|done]. intros t3 a Ht3. apply HQ. do 2 (etrans; [done|]). done.
Qed.

Lemma serves_mono {A} Q (p : prog A) t t' : t `prefix_of` t' -> serves Q p t -> serves Q p t'.
Proof.
  intros Ht. destruct p as [a|X req k]; cbn; intros H t1; intros.
  - apply H; [by etrans|done].
  - eapply H; [by etrans|done..].
Qed.

Lemma serves_bind {A B} (R : table -> A -> Prop) Q (p : prog A) (f : A -> prog B) t :
  Inv t -> serves R p t ->
  (forall t1 a, t `prefix_of` t1 -> Inv t1 -> R t1 a -> serves Q (f a) t1) ->
  serves Q (pbind p f) t.
Proof.
  intros Hi Hp Hf. assert (Hs : serves (fun t1 a => serves Q (f a) t1) p t) by by eapply serves_weaken.
  clear Hp Hf. revert t Hi Hs. induction p as [a|X req k IH]; cbn; intros t Hi H; [by apply H|].
  intros t1 reply t2 Ht Hi1 Ha Hc. destruct (H t1 reply t2 Ht Hi1 Ha Hc) as (Hi2 & Hp & Hs).
  split_and!; [done..|]. by apply IH.
Qed.

Lemma serves_map {A B} (Q : table -> B -> Prop) (p : prog A) (g : A -> B) t :
  serves (fun t1 a => Q t1 (g a)) p t -> serves Q (pbind p (fun a => Ret (g a))) t.
Proof.
  revert t. induction p as [a|X req k IH]; cbn; intros t H; [done|].
  intros t1 reply t2 Ht Hi Ha Hc. destruct (H t1 reply t2 Ht Hi Ha Hc) as (? & ? & ?). auto.
Qed.

(** The steps of a system in which the replies to program [i] are of the class;
    those to the others are arbitrary. *)
Context {A : Type} (api : prog A -> Prop) (i : nat).

Inductive beside : table * list (prog A) -> table * list (prog A) -> Prop :=
  | beside_call t ps p : api p -> beside (t, ps) (t, ps ++ [p])
  | beside_request t ps j X (req : request X) k reply t' :
      ps !! j = Some (Do req k) -> answers t req reply t' -> (j = i -> class _ req reply) ->
      beside (t, ps) (t', <[j := k reply]> ps).

Lemma beside_step s1 s2 : beside s1 s2 -> sys_step api s1 s2.
Proof. intros []; by econstructor. Qed.

Context (Q : table -> A -> Prop).
Hypothesis Inv_empty : Inv [].
Hypothesis api_safe : forall p t, api p -> Inv t -> safe Inv Q p t.

(** The result of program [i], from where it is when the table is [t]. *)
Lemma beside_result (R : table -> A -> Prop) t ps p t' ps' a :
  reachable api (t, ps) -> ps !! i = Some p -> serves R p t ->
  rtc beside (t, ps) (t', ps') -> ps' !! i = Some (Ret a) -> R t' a.
Proof using Inv_empty api_safe.
  intros Hr Hi Hs H.
  assert (Hgoal : reachable api (t', ps') /\
    exists p', ps' !! i = Some p' /\ serves R p' t').
  { refine (rtc_ind_r (fun s => reachable api s /\
      exists p', s.2 !! i = Some p' /\ serves R p' s.1) (t, ps) _ _ (t', ps') H); [by eauto|].
    clear a t' ps' H. intros s1 s2 _ Hstep (Hr1 & p1 & Hi1 & Hs1).
    split; [by eapply rtc_r; [|apply beside_step]|].
    destruct Hstep as [t1 ps1 q Hq|t1 ps1 j X req k reply t2 Hj Ha Hc]; cbn in *.
    - exists p1. split; [|done]. rewrite lookup_app_l; [done|by eapply lookup_lt_Some].
    - destruct (reachable_safe Inv api Q Inv_empty api_safe _ _ Hr1) as [Hinv Hall].
      destruct (decide (j = i)) as [->|Hne].
      + rewrite Hi1 in Hj. injection Hj as ->. exists (k reply).
        rewrite list_lookup_insert_eq by (by eapply lookup_lt_Some). split; [done|].
        by destruct (Hs1 t1 reply t2 (reflexivity _) Hinv Ha (Hc eq_refl)) as (_ & _ & ?).
      + exists p1. rewrite list_lookup_insert_ne by done. split; [done|].
        rewrite Forall_lookup in Hall. specialize (Hall j _ Hj). cbn in Hall.
        destruct (Hall t1 reply t2 (reflexivity _) Hinv Ha) as (_ & Hp & _). by eapply serves_mono. }
  intros Hi'. destruct Hgoal as (Hr' & p' & Hp' & Hs'). rewrite Hi' in Hp'. injection Hp' as <-.
  apply Hs'; [done|]. by eapply reachable_safe.
Qed.
End Call.

(** A run in the deterministic environment, as the steps of one call. *)
Lemma run_beside {A} class (api : prog A -> Prop) env ps p t :
  (forall X (req : request X) t, class X req (respond env req t).1) ->
  - two63 <= env_now env < two63 ->
  rtc (beside class api (length ps)) (t, ps ++ [p]) ((run env p t).2, ps ++ [Ret (run env p t).1]).
Proof.
  intros Hclass Hnow. revert t. induction p as [a|X req k IH]; intros t; cbn [run]; [done|].
  pose proof (respond_answers env req t Hnow) as Ha. pose proof (Hclass X req t) as Hc.
  destruct (respond env req t) as [x t'] eqn:Er. cbn [fst snd] in Ha, Hc.
  eapply rtc_l; [|apply IH].
  assert (Hi : (ps ++ [Do req k]) !! length ps = Some (Do req k)) by by apply list_lookup_middle.
  pose proof (beside_request class api (length ps) t _ _ X req k x t' Hi Ha (fun _ => Hc)) as Hs.
  rewrite insert_app_r_alt in Hs by done. by rewrite Nat.sub_diag in Hs.
Qed.

Lemma respond_outside env {X} (req : request X) t :
  (forall name d e, env_kms env name d = Err e -> from_outside e) -> outside X req (respond env req t).1.
Proof.
  intros Hk.
  assert (Hrow : forall found e, no_rows found = Err e -> from_outside e).
  { intros [r|] e [= <-] name Hn. cbn. rewrite orb_false_r. by apply bool_decide_eq_false_2; intros [=]. }
  destruct req; cbn; try done; [|apply Hrow|apply Hrow|apply Hk].
  intros e He. unfold exec_insert in He. repeat case_match; try discriminate He; by injection He as <-.
Qed.

(** ** Counting inserts

    On every path, whatever is replied, a program issues at most [n] inserts. *)
Fixpoint inserts_at_most {A} (n : nat) (p : prog A) : Prop :=
  match p with
  | Ret _ => True
  | @Do _ X req k =>
      match req in request Y return (Y -> prog A) -> (nat -> Y -> Prop) -> Prop with
      | Exec _ => fun _ rest => match n with O => False | S m => forall x, rest m x end
      | _ => fun _ rest => forall x, rest n x
      end k (fun m x => inserts_at_most m (k x))
  end.

Lemma inserts_mono {A} n m (p : prog A) :
  (n <= m)%nat -> inserts_at_most n p -> inserts_at_most m p.
Proof.
  revert n m. induction p as [a|X req k IH]; intros n m Hle H; [done|].
  destruct req; cbn in *; try (intros x; by eapply IH).
  destruct n as [|n]; [done|]. destruct m as [|m]; [lia|]. intros x. eapply IH; [|done]. lia.
Qed.

Lemma inserts_bind {A B} n m (p : prog A) (f : A -> prog B) :
  inserts_at_most n p -> (forall a, inserts_at_most m (f a)) ->
  inserts_at_most (n + m) (pbind p f).
Proof.
  intros Hp Hf. revert n Hp. induction p as [a|X req k IH]; intros n Hp; cbn [pbind].
  - eapply inserts_mono; [|apply Hf]. lia.
  - destruct req; cbn in *; try (intros x; by apply IH).
    destruct n as [|n]; [done|]. intros x. by apply IH.
Qed.

Lemma inserts_pmap_err {E F A} n (g : E -> F) (p : prog (result E A)) :
  inserts_at_most n p -> inserts_at_most n (pmap_err g p).
Proof. intros H. rewrite <- (Nat.add_0_r n). by apply inserts_bind. Qed.

(** Without inserts the table stays as it is. *)
Lemma read_only_safe {A} Inv (p : prog A) t :
  inserts_at_most 0 p -> Inv t -> safe Inv (fun _ _ => True) p t.
Proof.
  revert t. induction p as [a|X req k IH]; intros t Hp Hi; [done|].
  destruct req; cbn in Hp |- *; try done; intros t1 reply t2 Ht Hi1 Ha;
    (assert (t2 = t1) as -> by (by destruct Ha || tauto)); (split_and!; [done|done|]); by apply IH.
Qed.

(** ** Whatever is replied

    On every path the program ends in a value of [Q]. *)
Fixpoint always {A} (Q : A -> Prop) (p : prog A) : Prop :=
  match p with
  | Ret a => Q a
  | Do req k => forall x, always Q (k x)
  end.

Lemma always_bind {A B} (R : A -> Prop) (Q : B -> Prop) (p : prog A) (f : A -> prog B) :
  always R p -> (forall a, R a -> always Q (f a)) -> always Q (pbind p f).
Proof. intros Hp Hf. induction p as [a|X req k IH]; cbn in *; [by apply Hf|]. intros x. by apply IH. Qed.

Lemma always_True {A} (p : prog A) : always (fun _ => True) p.
Proof. by induction p. Qed.
