(* ===== verification/Programs.v ===== *)
(** * Equivalence of programs

    Two programs over the store and the signer are equivalent when they make the
    same requests and, whatever is replied, return the same value.  What a program
    does, alone or beside others, depends on it up to this equivalence only. *)

From S2P Require Import Prelude Effects.

Inductive prog_eq {A} : prog A -> prog A -> Prop :=
  | prog_eq_ret a : prog_eq (Ret a) (Ret a)
  | prog_eq_do X (req : request X) k k' :
      (forall x, prog_eq (k x) (k' x)) -> prog_eq (Do req k) (Do req k').

#[global] Instance prog_equiv A : Equiv (prog A) := prog_eq.

(** What is equivalent to a program of a known shape. *)
Lemma prog_eq_inv {A} (p q : prog A) : p ≡ q ->
  match p with
  | Ret a => q = Ret a
  | Do req k => exists k', q = Do req k' /\ forall x, k x ≡ k' x
  end.
Proof. intros [a|X req k k' H]; [done|]. by exists k'. Qed.

#[global] Instance prog_equivalence A : Equivalence (≡@{prog A}).
Proof.
  split.
  - intros p. induction p as [a|X req k IH]; constructor. exact IH.
  - intros p q H. induction H as [a|X req k k' _ IH]; constructor. exact IH.
  - intros p q r H. revert r. induction H as [a|X req k k' _ IH]; intros r Hr; [done|].
    apply prog_eq_inv in Hr as (k2 & -> & Hk). constructor. intros x. apply IH, Hk.
Qed.

#[global] Instance pbind_proper {A B} :
  Proper ((≡) ==> pointwise_relation A (≡) ==> (≡)) (@pbind A B).
Proof.
  intros p q H f g Hfg. induction H as [a|X req k k' _ IH]; cbn; [apply Hfg|]. constructor. exact IH.
Qed.

Lemma pbind_assoc {A B D} (p : prog A) (f : A -> prog B) (g : B -> prog D) :
  pbind (pbind p f) g ≡ pbind p (fun a => pbind (f a) g).
Proof. induction p as [a|X req k IH]; cbn; [reflexivity|]. constructor. exact IH. Qed.

(** Continuations that agree on every value. *)
Lemma pbind_ext {A B} (p : prog A) (f g : A -> prog B) : (forall a, f a ≡ g a) -> pbind p f ≡ pbind p g.
Proof. intros H. by apply pbind_proper. Qed.

#[global] Instance run_proper {A} env : Proper ((≡) ==> (=) ==> (=)) (@run A env).
Proof.
  intros p q H t ? <-. revert t. induction H as [a|X req k k' _ IH]; intros t; cbn [run]; [done|].
  destruct (respond env req t) as [x t']. apply IH.
Qed.

#[global] Instance safe_proper {A} Inv Q : Proper ((≡) ==> (=) ==> iff) (@safe Inv A Q).
Proof.
  intros p q H t ? <-. revert t. induction H as [a|X req k k' _ IH]; intros t; cbn [safe]; [done|].
  split; intros Hs t1 reply t2 Ht1 Hi Ha; destruct (Hs t1 reply t2 Ht1 Hi Ha) as (? & ? & Hk);
    (split_and!; [done|done|by apply IH]).
Qed.
