(* ===== verification/Store.v ===== *)
(** * The ledger store

    [internal/ledgerstore]: [errors.go], [store.go], [read.go], and the schema
    of [db/migrations] through [Effects]. *)

From S2P Require Import Prelude Sha256 Cbor CborRef LedgerCodec LedgerEvent LedgerRecord LedgerChain Effects.

Module ledgerstore.

(** ** errors.go *)

Definition ErrChainHeadMoved : goerror := Sentinel "ledger store chain head moved".
Definition ErrDuplicateRecord : goerror := Sentinel "ledger store duplicate record".
Definition ErrUnknownPredecessor : goerror := Sentinel "ledger store unknown predecessor".
Definition ErrRecordNotFound : goerror := Sentinel "ledger store record not found".

Definition uniqueViolationCode : string := "23505".
Definition foreignKeyViolationCode : string := "23503".
Definition digestPrimaryKeyConstraint : string := "ledger_record_digest_pk".
Definition ledgerSequenceConstraint : string := "ledger_record_ledger_sequence_unique".
Definition previousRecordConstraint : string := "ledger_record_previous_fk".

(** [errors.As(err, &pgErr)]: the code and constraint of the first
    [*pgconn.PgError] in the chain of causes. *)
Fixpoint as_PgError (err : goerror) : option (string * string) :=
  match err with
  | Foreign type [code; constraint] =>
      if bool_decide (type = "pgconn.PgError"%string) then Some (code, constraint) else None
  | Wrapped _ _ cause => as_PgError cause
  | _ => None
  end.

Definition classifyAppendError (err : goerror) : goerror :=
  match as_PgError err with
  | None => err
  | Some (Code, ConstraintName) =>
      if bool_decide (Code = uniqueViolationCode) &&
         bool_decide (ConstraintName = ledgerSequenceConstraint)
      then ErrChainHeadMoved
      else if bool_decide (Code = uniqueViolationCode) &&
              bool_decide (ConstraintName = digestPrimaryKeyConstraint)
      then ErrDuplicateRecord
      else if bool_decide (Code = foreignKeyViolationCode) &&
              bool_decide (ConstraintName = previousRecordConstraint)
      then ErrUnknownPredecessor
      else err
  end.

(** The error of the ledger package, as an [error] value. *)
Definition sentinel_name (s : sentinel) : string :=
  match s with
  | ErrOversizedInput => "ledger v1 input exceeds protocol limit"
  | ErrMalformedCBOR => "ledger v1 malformed CBOR"
  | ErrNonConformingCBOR => "ledger v1 non-conforming CBOR"
  | ErrUnsupportedVersion => "ledger v1 unsupported version"
  | ErrSchemaViolation => "ledger v1 schema violation"
  | ErrDigestMismatch => "ledger v1 digest mismatch"
  | ErrInvalidSequence => "ledger v1 invalid sequence"
  | ErrLedgerMismatch => "ledger v1 ledger identity mismatch"
  | ErrChainLinkMismatch => "ledger v1 chain link mismatch"
  | ErrUnsupportedEvent => "ledger v1 unsupported event"
  end.

Definition ledger_goerror (e : ledger_error) : goerror :=
  Wrapped (err_label e) [] (Sentinel (sentinel_name (err_is e))).

(** ** store.go *)

(** A [numeric(20,0)] parameter holds every [uint64] exactly. *)
Definition unsignedNumeric (value : Z) : Z := value.

(** The parameters of the insert statement, from the record's accessors. *)
Definition row_of (record : StructuralRecord) : row :=
  let event := rec_event record in
  let previousDigest :=
    let '(previous, ok) := PreviousRecordDigest event in
    if ok then Some (arr_list previous) else None in
  {| record_digest := arr_list (rec_recordDigest record);
     ledger_id := arr_list (ev_ledgerID event);
     sequence_number := unsignedNumeric (ev_sequence event);
     previous_record_digest := previousDigest;
     event_kind := unsignedNumeric (ev_kind event);
     payload_version := unsignedNumeric (ev_payloadVersion event);
     record_bytes := rec_bytes record |}.

Definition Append (record : StructuralRecord) : prog (gores unit) :=
  reply <-- ask (Exec (row_of record)) ;;
  match reply with
  | Err err =>
      let classified := classifyAppendError err in
      if negb (errors_Is classified err) then Ret (fail classified)
      else Ret (fail (Wrapped "append ledger record" [] err))
  | Ok rowsAffected =>
      if rowsAffected =? 0 then Ret (fail ErrDuplicateRecord) else Ret (Ok tt)
  end.

(** ** read.go *)

Section Reads.
Context {C : Cbor}.

(** [ValidateRecordStructure] of stored bytes, its error in context. *)
Definition validate_stored (context : string) (recordBytes : bytes) : gores StructuralRecord :=
  rmap_err (fun e => Fail (Wrapped context [] (ledger_goerror e)))
    (ValidateRecordStructure recordBytes).

Definition Head (ledgerID : LedgerID) : prog (gores ChainState) :=
  reply <-- ask (QueryHead (arr_list ledgerID)) ;;
  match reply with
  | Err err =>
      if errors_Is err ErrNoRows then Ret (Ok zeroChainState)
      else Ret (fail (Wrapped "read chain head" [] err))
  | Ok recordBytes => Ret (
      record <~ validate_stored "validate stored head record" recordBytes ;;
      let state := ChainStateFromRecord record in
      let '(stateLedgerID, ok) := ChainState_LedgerID state in
      if negb ok || negb (bool_decide (stateLedgerID = ledgerID))
      then fail (Errorf "stored head record for ledger %x does not re-derive to that ledger_id column"
                   [be_Z (arr_list ledgerID)])
      else Ok state)
  end.

Definition Record (digest : Digest) : prog (gores StructuralRecord) :=
  reply <-- ask (QueryRecord (arr_list digest)) ;;
  match reply with
  | Err err =>
      if errors_Is err ErrNoRows then Ret (fail ErrRecordNotFound)
      else Ret (fail (Wrapped "read ledger record" [] err))
  | Ok recordBytes => Ret (
      record <~ validate_stored "validate stored record" recordBytes ;;
      if negb (bool_decide (rec_recordDigest record = digest))
      then fail (Errorf "stored record %x does not re-derive to its record_digest column"
                   [be_Z (arr_list digest)])
      else Ok record)
  end.

(** The loop over [rows.Next()]. *)
Fixpoint scan_rows (ledgerID : LedgerID) (rows : list (result goerror bytes)) :
    gores (list StructuralRecord) :=
  match rows with
  | [] => Ok []
  | scanned :: rest =>
      recordBytes <~ rmap_err (fun err => Fail (Wrapped "scan record row" [] err)) scanned ;;
      record <~ validate_stored "validate scanned record" recordBytes ;;
      if negb (bool_decide (ev_ledgerID (rec_event record) = ledgerID))
      then fail (Errorf "scanned record for ledger %x does not re-derive to that ledger_id"
                   [be_Z (arr_list ledgerID)])
      else records <~ scan_rows ledgerID rest ;; Ok (record :: records)
  end.

Definition ScanRecords (ledgerID : LedgerID) (fromSequence limit : Z) :
    prog (gores (list StructuralRecord)) :=
  if limit <=? 0 then Ret (Ok [])
  else
    reply <-- ask (QueryFrom (arr_list ledgerID) (unsignedNumeric fromSequence) limit) ;;
    match reply with
    | Err err => Ret (fail (Wrapped "scan ledger records" [] err))
    | Ok (rows, rowsErr) => Ret (
        records <~ scan_rows ledgerID rows ;;
        match rowsErr with
        | Some err => fail (Wrapped "iterate scanned records" [] err)
        | None => Ok records
        end)
    end.
End Reads.

(** ** What a ledger table holds

    The rows of every ledger, in the order they were committed, are those of a
    chain of valid records; digests are unique. *)

Definition ledger_chain (t : table) (ledger : bytes) (rs : list StructuralRecord) : Prop :=
  ledger_rows t ledger = map row_of rs /\ Forall record_ok rs /\ valid_chain rs.

Record store_ok (t : table) : Prop := {
  so_chain ledger : exists rs, ledger_chain t ledger rs;
  so_rows : Forall (fun rw => exists r, rw = row_of r /\ record_ok r) t;
  so_digests : NoDup (map record_digest t)
}.

Definition stored (t : table) (r : StructuralRecord) : Prop := row_of r ∈ t /\ record_ok r.

Lemma stored_mono t t' r : t `prefix_of` t' -> stored t r -> stored t' r.
Proof. intros [k ->] [? ?]. split; [set_solver|done]. Qed.

Lemma store_ok_nil : store_ok [].
Proof.
  split; [|constructor|constructor]. intros ledger. exists [].
  split_and!; [done|constructor|apply valid_chain_nil].
Qed.

(** A record is determined by its row. *)
Lemma row_of_inj r1 r2 : record_ok r1 -> record_ok r2 -> row_of r1 = row_of r2 -> r1 = r2.
Proof.
  intros H1 H2 He. apply (f_equal record_bytes) in He. cbn in He.
  apply (validate_record_complete (C := Ref.codec)) in H1, H2. congruence.
Qed.

Lemma rows_of_inj rs1 rs2 :
  Forall record_ok rs1 -> Forall record_ok rs2 -> map row_of rs1 = map row_of rs2 -> rs1 = rs2.
Proof.
  intros H1. revert rs2. induction H1 as [|x rs Hx _ IH]; intros [|y rs'] H2 H;
    try discriminate H; [done|].
  apply Forall_cons in H2 as [Hy H2]. cbn [map] in H.
  destruct (inj2 cons _ _ _ _ H) as [Hxy Hrs].
  f_equal; [by apply row_of_inj|by apply IH].
Qed.

Lemma row_of_checks r : record_ok r -> check_violation (row_of r) = None.
Proof.
  intros Hr. pose proof (record_len r Hr) as Hlen. pose proof (record_bytes_nonempty r Hr) as Hne.
  destruct Hr as [[(Hs & _ & Hk & Hpv & _) _] _].
  unfold check_violation, row_of, unsignedNumeric, between. cbn.
  rewrite Hne, !len_arr32. cbn [negb andb Z.eqb Pos.eqb].
  destruct (ev_hasPreviousRecordDigest (rec_event r)); rewrite ?len_arr32; cbn [Z.eqb Pos.eqb];
    repeat case_match; try done; clia.
Qed.

(** A record that links to what is stored. *)
Definition linked_to (t : table) (r : StructuralRecord) : Prop :=
  is_genesis r \/ exists h, stored t h /\ follows h r.

Lemma linked_to_mono t t' r : t `prefix_of` t' -> linked_to t r -> linked_to t' r.
Proof.
  intros Hp [?|(h & Hs & Hf)]; [by left|right]. exists h. split; [by eapply stored_mono|done].
Qed.

(** The chain of the ledger of a stored record. *)
Lemma stored_chain t r :
  store_ok t -> stored t r ->
  exists rs, ledger_chain t (arr_list (ev_ledgerID (rec_event r))) rs /\ r ∈ rs.
Proof.
  intros Ht [Hin Hr]. destruct (so_chain t Ht (arr_list (ev_ledgerID (rec_event r)))) as [rs Hrs].
  exists rs. split; [done|]. destruct Hrs as (Hrows & Hok & _).
  assert (row_of r ∈ ledger_rows t (arr_list (ev_ledgerID (rec_event r)))) as Hrow.
  { unfold ledger_rows. apply list_elem_of_filter. by split. }
  rewrite Hrows in Hrow. apply list_elem_of_fmap in Hrow as (r' & He & Hr').
  rewrite Forall_forall in Hok. by rewrite (row_of_inj r r' Hr (Hok _ Hr') He).
Qed.

Lemma chain_stored t ledger rs r : ledger_chain t ledger rs -> r ∈ rs -> stored t r.
Proof.
  intros (Hrows & Hok & _) Hin. rewrite Forall_forall in Hok. split; [|by apply Hok].
  assert (row_of r ∈ ledger_rows t ledger) as Hr
    by (rewrite Hrows; apply list_elem_of_fmap; by exists r).
  by apply list_elem_of_filter in Hr as [_ Hr].
Qed.

Lemma chain_last_stored t ledger rs h :
  ledger_chain t ledger rs -> last rs = Some h ->
  stored t h /\ arr_list (ev_ledgerID (rec_event h)) = ledger.
Proof.
  intros Hc Hl. rewrite last_lookup in Hl. apply list_elem_of_lookup_2 in Hl as Hin.
  split; [by eapply chain_stored|]. destruct Hc as (Hrows & _).
  assert (row_of h ∈ ledger_rows t ledger) as Hr
    by (rewrite Hrows; apply list_elem_of_fmap; by exists h).
  by apply list_elem_of_filter in Hr as [Hr _].
Qed.

(** Where a chain has no record at a position that links to it, the position
    is its end. *)
Lemma position_free t ledger rs r :
  ledger_chain t ledger rs -> ledger = arr_list (ev_ledgerID (rec_event r)) ->
  existsb (same_position ledger (ev_sequence (rec_event r))) t = false ->
  forall i r', rs !! i = Some r' -> ev_sequence (rec_event r') <> ev_sequence (rec_event r).
Proof.
  intros (Hrows & _ & _) -> Hfree i r' Hi He.
  assert (row_of r' ∈ ledger_rows t (arr_list (ev_ledgerID (rec_event r)))) as Hin.
  { rewrite Hrows. apply list_elem_of_fmap. exists r'. split; [done|by eapply list_elem_of_lookup_2]. }
  apply list_elem_of_filter in Hin as [Hl Hin].
  apply not_true_iff_false in Hfree. apply Hfree. apply existsb_exists.
  exists (row_of r'). split; [by apply list_elem_of_In|].
  unfold same_position. rewrite Hl, bool_decide_eq_true_2 by done. cbn. by rewrite He, Z.eqb_refl.
Qed.

Lemma extend_chain t rs r :
  ledger_chain t (arr_list (ev_ledgerID (rec_event r))) rs -> record_ok r -> store_ok t ->
  linked_to t r ->
  existsb (same_position (arr_list (ev_ledgerID (rec_event r))) (ev_sequence (rec_event r))) t
    = false ->
  valid_chain (rs ++ [r]).
Proof.
  intros Hc Hr Ht Hlink Hfree. pose proof (position_free _ _ _ r Hc eq_refl Hfree) as Hpos.
  destruct Hc as (Hrows & Hok & Hv). apply valid_chain_snoc. split; [done|].
  destruct Hlink as [Hg|(h & Hs & Hf)].
  - assert (Hnil : rs = []).
    { destruct rs as [|g rs]; [done|]. destruct (Hpos 0%nat g eq_refl).
      destruct (vc_genesis _ Hv g eq_refl) as (_ & _ & -> & _). by destruct Hg as (_ & _ & -> & _). }
    by rewrite Hnil.
  - pose proof Hf as (Hid & Hseq & _).
    destruct (stored_chain t h Ht Hs) as (rs' & Hc' & Hin).
    rewrite <- Hid in Hc'.
    assert (rs' = rs) as ->.
    { destruct Hc' as (Hrows' & Hok' & _). rewrite Hrows in Hrows'. by apply rows_of_inj. }
    apply list_elem_of_lookup in Hin as [i Hi].
    rewrite last_lookup. destruct (rs !! S i) as [n|] eqn:En.
    + destruct (Hpos _ _ En). rewrite (valid_chain_sequence _ _ _ Hv En), Hseq.
      rewrite (valid_chain_sequence _ _ _ Hv Hi). lia.
    + assert (pred (length rs) = i) as ->.
      { apply lookup_ge_None in En. apply lookup_lt_Some in Hi. lia. }
      by rewrite Hi.
Qed.

Lemma ledger_chain_snoc t rs r :
  ledger_chain t (arr_list (ev_ledgerID (rec_event r))) rs -> record_ok r ->
  valid_chain (rs ++ [r]) ->
  ledger_chain (t ++ [row_of r]) (arr_list (ev_ledgerID (rec_event r))) (rs ++ [r]).
Proof.
  intros (Hrows & Hok & _) Hr Hv.
  split_and!; [|by apply Forall_app; split; [|constructor]|done].
  unfold ledger_rows in *. rewrite filter_app, Hrows, map_app. cbn [map]. f_equal.
  by rewrite filter_cons_True, filter_nil.
Qed.

Lemma store_ok_snoc t r :
  store_ok t -> record_ok r -> linked_to t r ->
  existsb (same_digest (arr_list (rec_recordDigest r))) t = false ->
  existsb (same_position (arr_list (ev_ledgerID (rec_event r))) (ev_sequence (rec_event r))) t
    = false ->
  store_ok (t ++ [row_of r]).
Proof.
  intros Ht Hr Hlink Hdig Hpos. split.
  - intros ledger. destruct (so_chain t Ht ledger) as [rs Hrs].
    destruct (decide (arr_list (ev_ledgerID (rec_event r)) = ledger)) as [<-|Hne].
    + exists (rs ++ [r]). apply ledger_chain_snoc; [done..|]. by apply (extend_chain t).
    + exists rs. destruct Hrs as (Hrows & ? & ?). split_and!; [|done..].
      unfold ledger_rows in *. rewrite filter_app, Hrows.
      rewrite filter_cons_False by done. by rewrite app_nil_r.
  - apply Forall_app. split; [apply Ht|]. constructor; [by exists r|constructor].
  - rewrite map_app. apply NoDup_app. split_and!; [apply Ht| |apply NoDup_singleton].
    intros d (rw & -> & Hrw)%list_elem_of_fmap Hd%list_elem_of_singleton.
    apply not_true_iff_false in Hdig. apply Hdig, existsb_exists. exists rw.
    split; [by apply list_elem_of_In|]. by apply bool_decide_eq_true.
Qed.

Lemma select_digest t d rw :
  store_ok t -> select_record t (arr_list d) = Some rw ->
  exists r, rw = row_of r /\ stored t r /\ rec_recordDigest r = d.
Proof.
  intros Ht Hf. apply find_some in Hf as [Hin Hd]. apply list_elem_of_In in Hin.
  pose proof (so_rows t Ht) as Hrows. rewrite Forall_forall in Hrows.
  destruct (Hrows _ Hin) as (r & -> & Hr). exists r. split_and!; [done|done|].
  apply bool_decide_eq_true in Hd. by apply array_eq.
Qed.

Lemma digest_stored t d :
  store_ok t -> existsb (same_digest (arr_list d)) t = true ->
  exists r, stored t r /\ rec_recordDigest r = d.
Proof.
  intros Ht Hd. destruct (select_record t (arr_list d)) as [rw|] eqn:Es.
  - destruct (select_digest _ _ _ Ht Es) as (r' & _ & Hs & He). by exists r'.
  - apply existsb_exists in Hd as (rw & Hin & Hd). eapply find_none in Es; [|done]. congruence.
Qed.

(** The outcomes of inserting a record that links to the table. *)
Lemma exec_insert_ok t r :
  store_ok t -> record_ok r -> linked_to t r ->
  let '(reply, t') := exec_insert t (row_of r) in
  store_ok t' /\ t `prefix_of` t' /\
  match reply with
  | Ok n => (n = 1 /\ t' = t ++ [row_of r]) \/
            (n = 0 /\ t' = t /\ exists r', stored t r' /\ rec_recordDigest r' = rec_recordDigest r)
  | Err e => t' = t
  end.
Proof.
  intros Ht Hr Hlink. unfold exec_insert. rewrite row_of_checks by done.
  change (record_digest (row_of r)) with (arr_list (rec_recordDigest r)).
  change (ledger_id (row_of r)) with (arr_list (ev_ledgerID (rec_event r))).
  change (sequence_number (row_of r)) with (ev_sequence (rec_event r)).
  destruct (existsb (same_digest _) t) eqn:Hd.
  { split_and!; [done..|right]. split_and!; [done..|].
    by apply digest_stored. }
  destruct (existsb (same_position _ _) t) eqn:Hp; [done|].
  destruct (negb (predecessor_stored t (row_of r))); [done|].
  split_and!; [by apply store_ok_snoc|by eexists|by left].
Qed.

(** The answers to an insert, ambiguous failures included. *)
Lemma exec_answers t r reply t' :
  store_ok t -> record_ok r -> linked_to t r -> answers t (Exec (row_of r)) reply t' ->
  store_ok t' /\ t `prefix_of` t' /\
  match reply with
  | Ok n => (n = 1 /\ t' = t ++ [row_of r]) \/
            (n = 0 /\ t' = t /\ exists r', stored t r' /\ rec_recordDigest r' = rec_recordDigest r)
  | Err e => True
  end.
Proof.
  intros Ht Hr Hlink Ha. pose proof (exec_insert_ok t r Ht Hr Hlink) as Hi. cbn in Ha.
  destruct Ha as [He|[ (e & _ & -> & [-> | -> ] )|(code & c & _ & -> & ->)]].
  - rewrite He in Hi. destruct Hi as (? & ? & ?). split_and!; [done..|]. by destruct reply.
  - by split_and!.
  - destruct (exec_insert t (row_of r)) as [? ?]. destruct Hi as (? & ? & ?). by split_and!.
  - by split_and!.
Qed.

(** ** Verification conditions of the store operations *)

Section Safety.
Context {C : Cbor} {CO : CborOk C}.

(** Success stores the record; "duplicate" means its digest is stored; "head
    moved" means the ledger has a record; any other failure says nothing about
    whether it is, and is none of the errors of other packages. *)
Definition append_post (r : StructuralRecord) (t : table) (res : gores unit) : Prop :=
  match res with
  | Ok _ => stored t r
  | Err (Fail e) =>
      (errors_Is e ErrDuplicateRecord = true ->
       exists r', stored t r' /\ rec_recordDigest r' = rec_recordDigest r) /\
      (errors_Is e ErrChainHeadMoved = true ->
       exists r', stored t r' /\ ev_ledgerID (rec_event r') = ev_ledgerID (rec_event r)) /\
      (forall name, errors_Is e (Sentinel name) = true ->
       Sentinel name ∈ [ErrDuplicateRecord; ErrChainHeadMoved; ErrUnknownPredecessor])
  | Err (Panic _) => False
  end.

Lemma classify_transport e :
  transport e -> classifyAppendError e = e.
Proof.
  intros (type & fields & -> & Hty). unfold classifyAppendError. cbn.
  destruct fields as [|? [|? [|? ?]]]; try done. by rewrite bool_decide_eq_false_2.
Qed.

Lemma classify_PgError code constraint :
  classifyAppendError (PgError code constraint) =
    if bool_decide (code = "23505"%string) &&
       bool_decide (constraint = "ledger_record_ledger_sequence_unique"%string)
    then ErrChainHeadMoved
    else if bool_decide (code = "23505"%string) &&
            bool_decide (constraint = "ledger_record_digest_pk"%string)
    then ErrDuplicateRecord
    else if bool_decide (code = "23503"%string) &&
            bool_decide (constraint = "ledger_record_previous_fk"%string)
    then ErrUnknownPredecessor
    else PgError code constraint.
Proof. reflexivity. Qed.

(** What [exec_insert] and a failing server can answer, seen through [Append]. *)
Lemma Append_error t r e t' :
  answers t (Exec r) (Err e) t' -> errors_Is (classifyAppendError e) ErrDuplicateRecord = false /\
    errors_Is e ErrDuplicateRecord = false.
Proof.
  cbn. intros [He|[ (e' & Htr & [= ->] & _)|(code & c & Hcode & [= ->] & _)]].
  - unfold exec_insert in He. repeat case_match; try discriminate He; injection He as <- <-;
      by split.
  - rewrite classify_transport by done. by destruct Htr as (? & ? & -> & _).
  - rewrite classify_PgError. split; [|done].
    rewrite !(bool_decide_eq_false_2 (code = _)) by tauto. reflexivity.
Qed.

(** The server reports a conflict of sequences when the ledger has that one. *)
Lemma Append_moved t r e t' :
  store_ok t -> answers t (Exec (row_of r)) (Err e) t' ->
  errors_Is (classifyAppendError e) ErrChainHeadMoved = true ->
  exists r', stored t r' /\ ev_ledgerID (rec_event r') = ev_ledgerID (rec_event r).
Proof.
  intros Ht. cbn. intros [He|[ (e' & Htr & [= ->] & _)|(code & c & Hcode & [= ->] & _)]].
  - unfold exec_insert in He. repeat case_match; try discriminate He; injection He as <- <-; try done.
    intros _. match goal with H : existsb (same_position _ _) t = true |- _ =>
      apply existsb_exists in H as (rw & Hin%list_elem_of_In & Hpos) end.
    pose proof (so_rows t Ht) as Hrows. rewrite Forall_forall in Hrows.
    destruct (Hrows _ Hin) as (r' & -> & Hr'). exists r'. split; [done|].
    unfold same_position in Hpos. prep_bool. by apply array_eq.
  - rewrite classify_transport by done. by destruct Htr as (? & ? & -> & _).
  - rewrite classify_PgError. rewrite !(bool_decide_eq_false_2 (code = _)) by tauto. done.
Qed.

(** The errors of the statement are none of the program's, until they are
    classified. *)
Lemma Append_sentinels t r e t' name :
  answers t (Exec r) (Err e) t' -> errors_Is e (Sentinel name) = false /\
  (errors_Is (classifyAppendError e) (Sentinel name) = true ->
   Sentinel name ∈ [ErrDuplicateRecord; ErrChainHeadMoved; ErrUnknownPredecessor]).
Proof.
  assert (Hpg : forall code constraint,
    errors_Is (classifyAppendError (PgError code constraint)) (Sentinel name) = true ->
    Sentinel name ∈ [ErrDuplicateRecord; ErrChainHeadMoved; ErrUnknownPredecessor]).
  { intros code c. rewrite classify_PgError. repeat case_match; try done;
      intros [Heq%bool_decide_eq_true|]%orb_true_iff; try done; rewrite <- Heq; set_solver. }
  cbn -[classifyAppendError errors_Is].
  intros [He|[ (e' & Htr & [= ->] & _)|(code & c & Hcode & [= ->] & _)]].
  - unfold exec_insert in He. repeat case_match; try discriminate He; injection He as <- <-;
      split; try done; apply Hpg.
  - rewrite classify_transport by done. destruct Htr as (? & ? & -> & _). by split.
  - split; [done|apply Hpg].
Qed.

Lemma Append_safe r t :
  record_ok r -> linked_to t r -> store_ok t ->
  safe store_ok (append_post r) (Append r) t.
Proof.
  intros Hr Hlink _ t1 reply t2 Hp Ht1 Ha.
  destruct (exec_answers t1 r reply t2 Ht1 Hr (linked_to_mono _ _ _ Hp Hlink) Ha)
    as (Ht2 & Hp2 & Hreply).
  split_and!; [done..|]. destruct reply as [n|e].
  - destruct Hreply as [[-> Ht]|(-> & -> & r' & Hs & He)]; cbn.
    + intros t3 Hp3 _. eapply stored_mono; [done|]. subst t2. split; [set_solver|done].
    + intros t3 Hp3 _. split_and!; [|done|].
      * intros _. exists r'. split; [by eapply stored_mono|done].
      * intros name [H%bool_decide_eq_true|]%orb_true_iff; [|done]. rewrite <- H. set_solver.
  - pose proof (Append_moved _ _ _ _ Ht1 Ha) as Hmoved.
    pose proof (fun name => Append_sentinels _ _ _ _ name Ha) as Hs.
    apply Append_error in Ha as [H1 H2].
    assert (Hw : forall name, errors_Is (Wrapped "append ledger record" [] e) (Sentinel name) = false)
      by (intros name; cbn; by rewrite (proj1 (Hs name))).
    cbn -[errors_Is classifyAppendError].
    destruct (negb (errors_Is (classifyAppendError e) e)); cbn -[errors_Is classifyAppendError];
      intros t3 Hp3 _; (split; [|split]).
    + by rewrite H1.
    + intros (r' & Hst & Hl)%Hmoved. exists r'. split; [|done]. eapply stored_mono; [|done]. by etrans.
    + intros name. apply Hs.
    + intros H. unfold ErrDuplicateRecord in H. by rewrite Hw in H.
    + intros H. unfold ErrChainHeadMoved in H. by rewrite Hw in H.
    + intros name. by rewrite Hw.
Qed.

(** A head that was read is one of a stored record of that ledger. *)
Definition head_post (ledgerID : LedgerID) (t : table) (res : gores ChainState) : Prop :=
  match res with
  | Ok s => s = zeroChainState \/
      exists h, stored t h /\ s = ChainStateFromRecord h /\ ev_ledgerID (rec_event h) = ledgerID
  | Err (Fail _) => True
  | Err (Panic _) => False
  end.

Lemma foldl_later acc rows h :
  foldl later acc rows = Some h -> acc = Some h \/ h ∈ rows.
Proof.
  revert acc. induction rows as [|r rows IH]; intros acc H; cbn in H; [by left|].
  apply IH in H as [H|H]; [|right; by right]. unfold later in H.
  destruct acc as [a|]; [case_match|]; injection H as <-; [right; left|by left|right; left].
Qed.

Lemma select_head_stored t ledger rw :
  store_ok t -> select_head t ledger = Some rw ->
  exists h, rw = row_of h /\ stored t h /\ arr_list (ev_ledgerID (rec_event h)) = ledger.
Proof.
  intros Ht [?|Hin]%foldl_later; [done|]. unfold ledger_rows in Hin.
  apply list_elem_of_filter in Hin as [Hl Hin].
  pose proof (so_rows t Ht) as Hrows. rewrite Forall_forall in Hrows.
  destruct (Hrows _ Hin) as (h & -> & Hh). by exists h.
Qed.

(** Stored bytes are those of a valid record. *)
Lemma validate_stored_ok ctx r : record_ok r -> validate_stored ctx (rec_bytes r) = Ok r.
Proof. intros Hr. unfold validate_stored. by rewrite validate_record_complete. Qed.

Lemma Head_safe ledgerID t : safe store_ok (head_post ledgerID) (Head ledgerID) t.
Proof.
  intros t1 reply t2 Hp Ht1 [Hq ->]. split_and!; [done..|].
  destruct reply as [b|e].
  - destruct Hq as (rw & Hsel & ->).
    destruct (select_head_stored _ _ _ Ht1 Hsel) as (h & -> & Hs & Hl).
    apply array_eq in Hl. cbn -[validate_stored]. intros t3 Hp3 _.
    rewrite validate_stored_ok by apply Hs. cbn [rbind].
    rewrite ChainStateFromRecord_ok by apply Hs. cbn.
    rewrite bool_decide_eq_true_2 by done. cbn. right. exists h.
    split_and!; [by eapply stored_mono..| |done].
    by rewrite ChainStateFromRecord_ok by apply Hs.
  - destruct (errors_Is e ErrNoRows) eqn:E; cbn; rewrite E; [intros t3 _ _; by left|done].
Qed.

(** A record that was read is stored under the digest asked for. *)
Definition record_post (digest : Digest) (t : table) (res : gores StructuralRecord) : Prop :=
  match res with
  | Ok r => stored t r /\ rec_recordDigest r = digest
  | Err (Fail _) => True
  | Err (Panic _) => False
  end.

Lemma Record_safe digest t : safe store_ok (record_post digest) (Record digest) t.
Proof.
  intros t1 reply t2 Hp Ht1 [Hq ->]. split_and!; [done..|].
  destruct reply as [b|e].
  - destruct Hq as (rw & Hsel & ->).
    destruct (select_digest _ _ _ Ht1 Hsel) as (r & -> & Hs & He).
    cbn -[validate_stored]. intros t3 Hp3 _.
    rewrite validate_stored_ok by apply Hs. cbn [rbind].
    rewrite bool_decide_eq_true_2 by done. cbn. split; [by eapply stored_mono|done].
  - by destruct (errors_Is e ErrNoRows) eqn:E; cbn; rewrite E.
Qed.

End Safety.

(** ** The queries on a well-formed table *)

Lemma foldl_later_increasing acc rs h :
  valid_chain (rs ++ [h]) ->
  (forall a, acc = Some a -> sequence_number a < 1) ->
  foldl later acc (map row_of (rs ++ [h])) = Some (row_of h).
Proof.
  intros Hv Hacc. rewrite map_app, foldl_app. cbn [map foldl].
  assert (Hle : forall a, foldl later acc (map row_of rs) = Some a ->
    sequence_number a < ev_sequence (rec_event h)).
  { assert (Hh : (rs ++ [h]) !! length rs = Some h) by by apply list_lookup_middle.
    rewrite (valid_chain_sequence _ _ _ Hv Hh). intros a Ha.
    apply foldl_later in Ha as [Ha|Ha]; [apply Hacc in Ha; lia|].
    apply list_elem_of_fmap in Ha as (r & -> & [i Hi]%list_elem_of_lookup).
    assert (Hi' : (rs ++ [h]) !! i = Some r)
      by (rewrite lookup_app_l; [done|by eapply lookup_lt_Some]).
    cbn. unfold unsignedNumeric. rewrite (valid_chain_sequence _ _ _ Hv Hi').
    apply lookup_lt_Some in Hi. lia. }
  destruct (foldl later acc (map row_of rs)) as [a|]; [|done]. cbn [later].
  specialize (Hle a eq_refl). cbn. unfold unsignedNumeric. by rewrite (proj2 (Z.ltb_lt _ _)).
Qed.

(** The head query finds the last record of the chain. *)
Lemma select_head_last t ledger rs :
  ledger_chain t ledger rs -> select_head t ledger = row_of <$> last rs.
Proof.
  intros (Hrows & _ & Hv). unfold select_head. rewrite Hrows.
  destruct rs as [|h rs _] using rev_ind; [done|]. rewrite last_snoc.
  by apply foldl_later_increasing.
Qed.

Section Reading.
Context {C : Cbor} {CO : CborOk C}.

Lemma run_Head env t (id : LedgerID) rs :
  store_ok t -> ledger_chain t (arr_list id) rs ->
  run env (Head id) t = (Ok (head_state rs), t).
Proof.
  intros Ht Hc. unfold Head. cbn [run pbind ask respond]. rewrite (select_head_last _ _ _ Hc).
  unfold head_state. destruct (last rs) as [h|] eqn:Hl; [|done].
  destruct (chain_last_stored _ _ _ _ Hc Hl) as [[_ Hok] Hid].
  cbn -[validate_stored]. rewrite validate_stored_ok by done. cbn [rbind].
  rewrite ChainStateFromRecord_ok by done. cbn.
  rewrite bool_decide_eq_true_2; [done|]. by apply array_eq.
Qed.

(** *** Reading beside others

    What a read that began on [t] and ended on [t1] found.  Errors are those of
    the query, in context. *)
Section Beside.
Context (class : reply_class).

(** The head is that of the ledger's chain on a table in between; no head means
    that the ledger had no rows when the read began. *)
Definition head_read (id : LedgerID) (t t1 : table) (res : gores ChainState) : Prop :=
  match res with
  | Ok st =>
      (st = zeroChainState /\ ledger_rows t (arr_list id) = []) \/
      exists t2 rs h, t `prefix_of` t2 /\ t2 `prefix_of` t1 /\ ledger_chain t2 (arr_list id) rs /\
        last rs = Some h /\ st = ChainStateFromRecord h
  | Err f => exists e, f = Fail (Wrapped "read chain head" [] e) /\ read_failure e /\
      class _ (QueryHead (arr_list id)) (Err e)
  end.

Lemma ledger_rows_prefix t t1 ledger :
  t `prefix_of` t1 -> ledger_rows t1 ledger = [] -> ledger_rows t ledger = [].
Proof. intros [k ->]. unfold ledger_rows. rewrite filter_app. by intros [? _]%app_eq_nil. Qed.

Lemma Head_serves id t : serves store_ok class (head_read id t) (Head id) t.
Proof.
  intros t1 reply t2 Hp Ht1 [Hq ->] Hc. split_and!; [done..|].
  destruct (so_chain t1 Ht1 (arr_list id)) as [rs Hrs]. rewrite (select_head_last _ _ _ Hrs) in Hq.
  destruct reply as [b|e].
  - destruct Hq as (rw & Hsel & ->). destruct (last rs) as [h|] eqn:Hl; [|done]. injection Hsel as <-.
    destruct (chain_last_stored _ _ _ _ Hrs Hl) as [[Hin Hh] Hid].
    cbn -[validate_stored]. intros t3 Hp3 _. rewrite validate_stored_ok by done. cbn [rbind].
    rewrite ChainStateFromRecord_ok by done. cbn. rewrite bool_decide_eq_true_2 by by apply array_eq.
    cbn. right. exists t1, rs, h. split_and!; [done..|]. by rewrite ChainStateFromRecord_ok.
  - destruct (errors_Is e ErrNoRows) eqn:E; cbn; rewrite E; intros t3 _ _.
    + left. split; [done|]. eapply ledger_rows_prefix; [exact Hp|]. destruct Hrs as [Hrows _].
      rewrite Hrows. destruct Hq as [[_ Hnone]|Hf]; [|by rewrite Hf in E].
      destruct (last rs) eqn:Hl; [done|]. by apply last_None in Hl as ->.
    + exists e. by destruct Hq as [[-> _]|?].
Qed.

(** A record that was read is stored; "not found" means that its digest was not
    stored when the read began. *)
Definition record_read (d : Digest) (t t1 : table) (res : gores StructuralRecord) : Prop :=
  match res with
  | Ok r => stored t1 r /\ rec_recordDigest r = d
  | Err f =>
      (f = Fail ErrRecordNotFound /\ forall r, stored t r -> rec_recordDigest r <> d) \/
      exists e, f = Fail (Wrapped "read ledger record" [] e) /\ read_failure e /\
        class _ (QueryRecord (arr_list d)) (Err e)
  end.

Lemma Record_serves d t : serves store_ok class (record_read d t) (Record d) t.
Proof.
  intros t1 reply t2 Hp Ht1 [Hq ->] Hc. split_and!; [done..|]. destruct reply as [b|e].
  - destruct Hq as (rw & Hsel & ->). destruct (select_digest _ _ _ Ht1 Hsel) as (r & -> & Hs & He).
    cbn -[validate_stored]. intros t3 Hp3 _. rewrite validate_stored_ok by apply Hs. cbn [rbind].
    rewrite bool_decide_eq_true_2 by done. cbn. split; [by eapply stored_mono|done].
  - destruct (errors_Is e ErrNoRows) eqn:E; cbn; rewrite E; intros t3 _ _; [left|right].
    + split; [done|]. destruct Hq as [[_ Hnone]|Hf]; [|by rewrite Hf in E].
      intros r Hr <-. apply (stored_mono _ t1) in Hr as [Hin _]; [|done].
      apply list_elem_of_In, (find_none _ _ Hnone) in Hin as Hd.
      by apply bool_decide_eq_false in Hd.
    + exists e. by destruct Hq as [[-> _]|?].
Qed.
End Beside.

(** ** Scanning *)

(** Rows of consecutive sequences from [k + 1] on. *)
Definition consecutive (k : Z) (rs : list StructuralRecord) : Prop :=
  forall i r, rs !! i = Some r -> ev_sequence (rec_event r) = k + Z.of_nat i + 1.

Lemma valid_chain_consecutive rs : valid_chain rs -> consecutive 0 rs.
Proof. intros Hv i r Hi. rewrite (valid_chain_sequence _ _ _ Hv Hi). lia. Qed.

Lemma consecutive_tail k r rs : consecutive k (r :: rs) -> consecutive (k + 1) rs.
Proof. intros H i r' Hi. rewrite (H (S i) r' Hi). lia. Qed.

Lemma filter_all k rs from :
  consecutive k rs -> from <= k + 1 ->
  filter (fun rw => from <= sequence_number rw) (map row_of rs) = map row_of rs.
Proof.
  revert k. induction rs as [|r rs IH]; intros k Hc Hk; [done|].
  pose proof (Hc 0%nat r eq_refl) as Hr. cbn in Hr. cbn [map].
  rewrite filter_cons_True by (cbn; unfold unsignedNumeric; lia). f_equal.
  apply (IH (k + 1)); [by eapply consecutive_tail|lia].
Qed.

Lemma filter_from k rs from :
  consecutive k rs -> k < from ->
  filter (fun rw => from <= sequence_number rw) (map row_of rs)
    = map row_of (drop (Z.to_nat (from - k - 1)) rs).
Proof.
  revert k. induction rs as [|r rs IH]; intros k Hc Hk; [by rewrite drop_nil|].
  pose proof (Hc 0%nat r eq_refl) as Hr. cbn in Hr. cbn [map].
  destruct (decide (from = k + 1)) as [->|Hne].
  - replace (k + 1 - k - 1) with 0 by lia. change (Z.to_nat 0) with 0%nat. rewrite drop_0.
    by apply (filter_all k (r :: rs)); [|lia].
  - rewrite filter_cons_False by (cbn; unfold unsignedNumeric; lia).
    rewrite (IH (k + 1)); [|by eapply consecutive_tail|lia].
    by replace (Z.to_nat (from - k - 1)) with (S (Z.to_nat (from - (k + 1) - 1))) by lia.
Qed.

Lemma sorted_by_sequence k rs :
  consecutive k rs -> StronglySorted by_sequence (map row_of rs).
Proof.
  revert k. induction rs as [|r rs IH]; intros k Hc; cbn [map]; constructor.
  - eapply IH. by eapply consecutive_tail.
  - apply Forall_map, Forall_lookup. intros i r' Hi. unfold by_sequence, unsignedNumeric. cbn.
    unfold unsignedNumeric. rewrite (Hc 0%nat r eq_refl), (Hc (S i) r' Hi). lia.
Qed.

Lemma consecutive_drop k rs n : consecutive k rs -> consecutive (k + Z.of_nat n) (drop n rs).
Proof. intros H i r. rewrite lookup_drop. intros Hi. rewrite (H _ _ Hi). lia. Qed.

Lemma merge_sort_sorted k rs :
  consecutive k rs -> merge_sort by_sequence (map row_of rs) = map row_of rs.
Proof.
  intros Hc. apply (StronglySorted_unique_strong by_sequence).
  - intros x1 x2. rewrite merge_sort_Permutation.
    intros (r1 & -> & [i Hi]%list_elem_of_lookup)%list_elem_of_fmap
      (r2 & -> & [j Hj]%list_elem_of_lookup)%list_elem_of_fmap.
    unfold by_sequence. cbn. unfold unsignedNumeric. rewrite (Hc _ _ Hi), (Hc _ _ Hj). intros.
    assert (i = j) as -> by lia. congruence.
  - apply (StronglySorted_merge_sort _).
  - by eapply sorted_by_sequence.
  - apply merge_sort_Permutation.
Qed.

Lemma select_from_chain t ledger rs from limit :
  ledger_chain t ledger rs -> 1 <= from ->
  select_from t ledger from limit
    = map row_of (take (Z.to_nat limit) (drop (Z.to_nat (from - 1)) rs)).
Proof.
  intros (Hrows & _ & Hv) Hfrom. unfold select_from. rewrite Hrows.
  pose proof (valid_chain_consecutive rs Hv) as Hc.
  rewrite (filter_from 0) by (done || lia). replace (from - 0 - 1) with (from - 1) by lia.
  rewrite (merge_sort_sorted (0 + Z.of_nat (Z.to_nat (from - 1)))) by by apply consecutive_drop.
  by rewrite fmap_take.
Qed.

Lemma scan_rows_ok (id : LedgerID) rs :
  Forall record_ok rs -> Forall (fun r => ev_ledgerID (rec_event r) = id) rs ->
  scan_rows id (map (fun r => Ok (record_bytes r)) (map row_of rs)) = Ok rs.
Proof.
  induction 1 as [|r rs Hr _ IH]; intros Hid; [done|]. apply Forall_cons in Hid as [Hi Hid].
  cbn [map scan_rows rmap_err rbind record_bytes row_of].
  rewrite validate_stored_ok by done. cbn [rbind]. rewrite bool_decide_eq_true_2 by done. cbn [negb].
  by rewrite IH.
Qed.

Lemma chain_ledger_ids t (id : LedgerID) rs :
  ledger_chain t (arr_list id) rs -> Forall (fun r => ev_ledgerID (rec_event r) = id) rs.
Proof.
  intros Hc. apply Forall_forall. intros r Hin. destruct Hc as (Hrows & _).
  assert (row_of r ∈ ledger_rows t (arr_list id)) as Hr
    by (rewrite Hrows; apply list_elem_of_fmap; by exists r).
  apply list_elem_of_filter in Hr as [Hr _]. by apply array_eq.
Qed.

(** What a scan of a ledger can return: the asked-for part of its chain, or an
    error, whatever fails on the way. *)
Lemma ScanRecords_answers t (id : LedgerID) rs from limit reply t' :
  ledger_chain t (arr_list id) rs -> 1 <= from ->
  answers t (QueryFrom (arr_list id) from limit) reply t' ->
  t' = t /\
  match reply with
  | Err _ => True
  | Ok (scanned, None) =>
      scan_rows id scanned = Ok (take (Z.to_nat limit) (drop (Z.to_nat (from - 1)) rs))
  | Ok (_, Some _) => True
  end.
Proof.
  intros Hc Hfrom [-> Ha]. split; [done|]. destruct reply as [[scanned [e|]]|e]; [done| |done].
  destruct Ha as (rows & rest & Hsel & -> & ->). rewrite app_nil_r in Hsel. subst rows.
  rewrite (select_from_chain t _ rs) by done.
  pose proof (chain_ledger_ids t id rs Hc) as Hids. destruct Hc as (_ & Hok & _).
  apply scan_rows_ok; apply Forall_take, Forall_drop; done.
Qed.

Lemma run_ScanRecords env t (id : LedgerID) rs from limit :
  ledger_chain t (arr_list id) rs -> 1 <= from -> 0 < limit ->
  run env (ScanRecords id from limit) t
    = (Ok (take (Z.to_nat limit) (drop (Z.to_nat (from - 1)) rs)), t).
Proof.
  intros Hc Hfrom Hlim. unfold ScanRecords. rewrite (proj2 (Z.leb_gt _ _)) by done.
  cbn [run ask pbind respond]. unfold unsignedNumeric. rewrite (select_from_chain t _ rs) by done.
  pose proof (chain_ledger_ids t id rs Hc) as Hids. destruct Hc as (_ & Hok & _).
  rewrite scan_rows_ok; [done|apply Forall_take, Forall_drop; done..].
Qed.

(** ** Properties *)

(** C21: [Append] of a valid record, for any table, on every branch the
    constraints distinguish: a stored digest is a duplicate even if its
    position is taken, a taken position means the head moved, a predecessor
    that is not stored is unknown; otherwise, and only then, exactly the
    record's row is appended. *)
Theorem Append_spec env r t :
  record_ok r ->
  run env (Append r) t =
    if existsb (same_digest (arr_list (rec_recordDigest r))) t
    then (fail ErrDuplicateRecord, t)
    else if existsb (same_position (arr_list (ev_ledgerID (rec_event r)))
                       (ev_sequence (rec_event r))) t
    then (fail ErrChainHeadMoved, t)
    else if negb (predecessor_stored t (row_of r)) then (fail ErrUnknownPredecessor, t)
    else (Ok tt, t ++ [row_of r]).
Proof.
  intros Hr. unfold Append. cbn [run pbind ask respond]. unfold exec_insert.
  rewrite row_of_checks by done.
  change (record_digest (row_of r)) with (arr_list (rec_recordDigest r)).
  change (ledger_id (row_of r)) with (arr_list (ev_ledgerID (rec_event r))).
  change (sequence_number (row_of r)) with (ev_sequence (rec_event r)).
  destruct (existsb (same_digest _) t); [done|].
  destruct (existsb (same_position _ _) t); [done|].
  by destruct (negb (predecessor_stored t (row_of r))).
Qed.

(** What is appended is read back. After a successful [Append] of a
    valid record, [Record] of its digest returns it, with the same bytes,
    event, signer and signature. *)
Theorem Append_then_Record env r t t' :
  record_ok r -> run env (Append r) t = (Ok tt, t') ->
  run env (Record (rec_recordDigest r)) t' = (Ok r, t').
Proof.
  intros Hr Happ.
  assert (existsb (same_digest (arr_list (rec_recordDigest r))) t = false /\
    t' = t ++ [row_of r]) as [Hd ->].
  { unfold Append in Happ. cbn [run pbind ask respond] in Happ. unfold exec_insert in Happ.
    rewrite row_of_checks in Happ by done.
    change (record_digest (row_of r)) with (arr_list (rec_recordDigest r)) in Happ.
    destruct (existsb (same_digest _) t); [done|].
    destruct (existsb (same_position _ _) t); [done|].
    destruct (negb (predecessor_stored t (row_of r))); [done|]. by injection Happ as <-. }
  unfold Record. cbn [run pbind ask respond].
  assert (select_record (t ++ [row_of r]) (arr_list (rec_recordDigest r)) = Some (row_of r)) as ->.
  { clear Happ. unfold select_record. induction t as [|rw t IH]; cbn [app List.find].
    - unfold same_digest. by rewrite bool_decide_eq_true_2.
    - cbn [existsb] in Hd. apply orb_false_iff in Hd as [-> Hd]. by apply IH. }
  cbn [no_rows run record_bytes row_of]. rewrite validate_stored_ok by done. cbn [rbind run].
  by rewrite bool_decide_eq_true_2.
Qed.

(** A scan reads the chain. On a well-formed table, [ScanRecords] from a
    positive sequence with a positive limit returns exactly that part of the
    ledger's chain, in sequence order, and leaves the table as it is. *)
Theorem ScanRecords_spec env t (id : LedgerID) rs from limit :
  ledger_chain t (arr_list id) rs -> 1 <= from -> 0 < limit ->
  run env (ScanRecords id from limit) t
    = (Ok (take (Z.to_nat limit) (drop (Z.to_nat (from - 1)) rs)), t).
Proof. apply run_ScanRecords. Qed.

End Reading.

(** ** Witnesses *)

Definition quiet_env : environment := MkEnv 7 [] (fun _ _ => Err (Foreign "kms" [])).

Lemma genesis_record_ok : record_ok sample_record.
Proof. by apply (validate_record_sound (C := Ref.codec) _ _ sample_record_valid). Qed.

Lemma genesis_chain : ledger_chain [row_of sample_record] (arr_list sample_id) [sample_record].
Proof.
  split; [|split; [constructor; [apply genesis_record_ok|constructor]|]].
  - unfold ledger_rows. rewrite filter_cons_True by done. done.
  - apply (valid_chain_snoc [] sample_record). split; [apply valid_chain_nil|done].
Qed.

Lemma Append_spec_witness :
  run quiet_env (Append sample_record) [] = (Ok tt, [row_of sample_record]).
Proof. rewrite (Append_spec quiet_env sample_record [] genesis_record_ok). reflexivity. Defined.

Lemma genesis_append : run quiet_env (Append sample_record) [] = (Ok tt, [row_of sample_record]).
Proof. unfold Append. cbn [run pbind ask respond]. unfold exec_insert. by rewrite (row_of_checks _ genesis_record_ok). Qed.

Lemma Append_then_Record_witness :
  run quiet_env (Record (C := Ref.codec) (rec_recordDigest sample_record)) [row_of sample_record]
    = (Ok sample_record, [row_of sample_record]).
Proof.
  exact (Append_then_Record (C := Ref.codec) quiet_env sample_record [] [row_of sample_record]
    genesis_record_ok genesis_append).
Defined.

Lemma ScanRecords_spec_witness :
  run quiet_env (ScanRecords (C := Ref.codec) sample_id 1 10) [row_of sample_record]
    = (Ok [sample_record], [row_of sample_record]).
Proof.
  exact (ScanRecords_spec (C := Ref.codec) quiet_env [row_of sample_record] sample_id
    [sample_record] 1 10 genesis_chain ltac:(lia) ltac:(lia)).
Defined.

End ledgerstore.
