(* ===== verification/Signer.v ===== *)
(** * System signers

    [internal/signer]: the [Signer] interface and its two implementations, an
    in-memory P-256 key and a Cloud KMS key version. *)

From S2P Require Import Prelude Text Regexp Sha256 LedgerCodec LedgerRecord Ecdsa Effects.

Module signer.

Definition AlgorithmECDSAP256SHA256 : gostring := gostr "ecdsa-p256-sha256".

(** The interface: a value of [signer.Signer] is its methods. *)
Record Signer := MkSigner {
  Sign : bytes -> prog (gores bytes);
  KeyReference : gostring;
  Algorithm : gostring
}.

(** What the admission service relies on: signing never touches the ledger
    table, whatever is known about the table. *)
Class SignerOk (s : Signer) : Prop := {
  sign_safe Inv digest t : Inv t -> safe Inv (fun _ _ => True) (Sign s digest) t
}.

(** An error of signing is none of the errors the program declares, if those
    that are replied are not. *)
Class SignerOutside (s : Signer) : Prop := {
  sign_outside Inv digest t : Inv t ->
    serves Inv outside (fun _ res => forall e, res = Err (Fail e) -> from_outside e) (Sign s digest) t
}.

(** ** local.go *)

Definition minKeyReferenceLength : Z := 1.
Definition maxKeyReferenceLength : Z := 512.

Fixpoint non_printable (ref : gostring) : option byte :=
  match ref with
  | [] => None
  | b :: rest => if (byte_Z b <? 32) || (126 <? byte_Z b) then Some b else non_printable rest
  end.

Definition validateKeyReference (ref : gostring) : gores unit :=
  if (len ref <? minKeyReferenceLength) || (maxKeyReferenceLength <? len ref)
  then fail (Errorf "key reference length %d is out of bounds [%d, %d]"
               [len ref; minKeyReferenceLength; maxKeyReferenceLength])
  else
    match non_printable ref with
    | Some b => fail (Errorf "key reference contains non-printable character 0x%02x" [byte_Z b])
    | None => Ok tt
    end.

Section Local.
Context {K : Ecdsa}.

Record LocalSigner := MkLocalSigner {
  ls_key : PrivateKey;
  ls_keyReference : gostring
}.

Definition NewLocalSigner (key : option PrivateKey) (keyReference : gostring) :
    gores LocalSigner :=
  match key with
  | None => fail (Errorf "private key cannot be nil" [])
  | Some k =>
      if negb (IsP256 (Public k)) then fail (Errorf "only P-256 curve is supported" [])
      else
        _ <~ validateKeyReference keyReference ;;
        Ok (MkLocalSigner k keyReference)
  end.

(** [generated] is the outcome of [ecdsa.GenerateKey(elliptic.P256(), rand.Reader)]. *)
Definition GenerateLocalSigner (generated : result goerror PrivateKey) (keyReference : gostring) :
    gores LocalSigner :=
  match generated with
  | Err err => fail (Wrapped "generate ECDSA P-256 key" [] err)
  | Ok key => NewLocalSigner (Some key) keyReference
  end.

(** The digest that is signed: the input when it is 32 bytes, its hash
    otherwise. *)
Definition signed_hash (digest : bytes) : bytes :=
  if negb (len digest =? 32) then arr_list (Sha256.Sum256 digest) else digest.

Definition LocalSigner_Sign (s : LocalSigner) (digest : bytes) : prog (gores bytes) :=
  if len digest =? 0 then Ret (fail (Errorf "digest cannot be empty" []))
  else
    let hash := signed_hash digest in
    entropy <-- ask ReadRand ;;
    match SignASN1 entropy (ls_key s) hash with
    | None => Ret (fail (Wrapped "sign ASN.1 DER" [] (Foreign "ecdsa" [])))
    | Some sig => Ret (Ok sig)
    end.

Definition LocalSigner_PublicKey (s : LocalSigner) : PublicKey := Public (ls_key s).

(** [*LocalSigner] as a [Signer]. *)
Definition local_signer (s : LocalSigner) : Signer := {|
  Sign := LocalSigner_Sign s;
  KeyReference := ls_keyReference s;
  Algorithm := AlgorithmECDSAP256SHA256
|}.

#[global] Instance local_signer_ok s : SignerOk (local_signer s).
Proof.
  split. intros Inv digest t Hi. cbn [Sign local_signer]. unfold LocalSigner_Sign.
  destruct (len digest =? 0); [done|].
  intros t1 reply t2 Hp Hi1 ->. split_and!; [done..|]. cbn. by destruct (SignASN1 _ _ _).
Qed.

#[global] Instance local_signer_outside s : SignerOutside (local_signer s).
Proof.
  split. intros Inv digest t Hi. cbn [Sign local_signer]. unfold LocalSigner_Sign.
  destruct (len digest =? 0); [by intros t1 _ _ e [= <-]|].
  intros t1 reply t2 Hp Hi1 -> _. split_and!; [done..|]. cbn.
  destruct (SignASN1 _ _ _); intros t3 _ _ e [=]; by subst e.
Qed.
End Local.

(** ** kms.go *)

(** [[a-z0-9-]+], [[a-zA-Z0-9_-]+], [[0-9]+] *)
Definition slug : regexp := RPlus (RClass (fun b => is_lower b || is_digit b || is_dash b)).
Definition ident : regexp :=
  RPlus (RClass (fun b => is_lower b || is_upper b || is_digit b || is_underscore b || is_dash b)).
Definition number : regexp := RPlus (RClass is_digit).

Definition kmsKeyVersionPattern : regexp :=
  foldr RCat REmpty
    [RLit "projects/"; slug; RLit "/locations/"; slug; RLit "/keyRings/"; ident;
     RLit "/cryptoKeys/"; ident; RLit "/cryptoKeyVersions/"; number].

Record KMSSigner := MkKMSSigner { ks_keyVersion : gostring }.

Definition NewKMSSigner (client_present : bool) (keyVersionResourceName : gostring) :
    gores KMSSigner :=
  if negb client_present then fail (Errorf "kms client cannot be nil" [])
  else if negb (MatchString kmsKeyVersionPattern keyVersionResourceName)
  then fail (Errorf "invalid KMS key version resource name: %q" [])
  else Ok (MkKMSSigner keyVersionResourceName).

Definition KMSSigner_Sign (s : KMSSigner) (digest : bytes) : prog (gores bytes) :=
  if len digest =? 0 then Ret (fail (Errorf "digest cannot be empty" []))
  else
    let hash := signed_hash digest in
    resp <-- ask (AsymmetricSign (ks_keyVersion s) hash) ;;
    match resp with
    | Err err => Ret (fail (Wrapped "kms asymmetric sign" [] err))
    | Ok signature =>
        if slen signature =? 0 then Ret (fail (Errorf "kms returned empty signature" []))
        else Ret (Ok (sbytes signature))
    end.

Definition kms_signer (s : KMSSigner) : Signer := {|
  Sign := KMSSigner_Sign s;
  KeyReference := ks_keyVersion s;
  Algorithm := AlgorithmECDSAP256SHA256
|}.

#[global] Instance kms_signer_ok s : SignerOk (kms_signer s).
Proof.
  split. intros Inv digest t Hi. cbn [Sign kms_signer]. unfold KMSSigner_Sign.
  destruct (len digest =? 0); [done|].
  intros t1 reply t2 Hp Hi1 ->. split_and!; [done..|]. cbn.
  by destruct reply as [sig|]; [destruct (slen sig =? 0)|].
Qed.

#[global] Instance kms_signer_outside s : SignerOutside (kms_signer s).
Proof.
  split. intros Inv digest t Hi. cbn [Sign kms_signer]. unfold KMSSigner_Sign.
  destruct (len digest =? 0); [by intros t1 _ _ e [= <-]|].
  intros t1 reply t2 Hp Hi1 -> Hc. split_and!; [done..|]. cbn.
  destruct reply as [sig|err]; [destruct (slen sig =? 0)|]; intros t3 _ _ e [=]; subst e; [done|].
  by apply from_outside_wrapped, Hc.
Qed.

(** ** Key references

    The check of [NewLocalSigner] is the one the ledger makes of a record's
    signer reference. *)

Lemma non_printable_None ref :
  non_printable ref = None <-> forallb (in_range 32 126) ref = true.
Proof.
  induction ref as [|b ref IH]; [done|]. cbn [non_printable forallb].
  rewrite andb_true_iff, <- IH. unfold in_range at 1.
  destruct ((byte_Z b <? 32) || (126 <? byte_Z b)) eqn:E; split; try done.
  - intros [? _]. lia.
  - intros. split; [lia|done].
  - by intros [_ ?].
Qed.

Lemma validateKeyReference_iff ref : validateKeyReference ref = Ok tt <-> signer_ok ref = true.
Proof.
  unfold validateKeyReference, signer_ok. rewrite !andb_true_iff, <- non_printable_None.
  unfold minKeyReferenceLength, maxKeyReferenceLength, maxSignerReferenceBytes.
  destruct ((len ref <? 1) || (512 <? len ref)) eqn:E.
  - split; [done|]. intros [[? ?] _]. lia.
  - destruct (non_printable ref); split; try done.
    + by intros [_ ?].
    + intros _. split; [lia|done].
Qed.

(** ** Characters of a matched string *)

Lemma kms_pattern_printable : re_over (in_range 32 126) kmsKeyVersionPattern.
Proof.
  assert (Hlit : forall l, forallb (in_range 32 126) l = true ->
    re_over (in_range 32 126)
      (foldr (fun c r => RCat (RClass (fun b => bool_decide (b = c))) r) REmpty l)).
  { induction l as [|c l IH]; cbn; intros; [done|]. prep_bool.
    split; [|by apply IH]. by intros b ->%bool_decide_eq_true. }
  assert (Hclass : forall b, in_range 48 57 b || in_range 97 122 b || in_range 65 90 b ||
    (byte_Z b =? 45) || (byte_Z b =? 95) = true -> in_range 32 126 b = true)
    by (intros b; unfold in_range; lia).
  unfold kmsKeyVersionPattern. cbn [foldr re_over slug ident number RPlus].
  split_and!; try done; try (by apply Hlit); intros b Hb; apply Hclass; revert Hb;
    unfold is_lower, is_upper, is_digit, is_dash, is_underscore; unfold in_range; lia.
Qed.

(** ** Properties *)

Section Properties.
Context {K : Ecdsa} {KO : EcdsaOk K}.

(** What a local signer signs fits a record. A signer built by
    [NewLocalSigner] that returns a signature for a non-empty digest has not
    touched the table, the signature verifies under the signer's public key
    over the digest (or its hash, when it is not 32 bytes), and the signature
    and key reference are ones a record may carry. *)
Theorem local_signer_signature env key reference s digest t sig t' :
  NewLocalSigner (Some key) reference = Ok s ->
  run env (LocalSigner_Sign s digest) t = (Ok sig, t') ->
  t' = t /\ digest <> [] /\
  VerifyASN1 (LocalSigner_PublicKey s) (signed_hash digest) sig = true /\
  isValidSignatureLength sig = true /\
  signer_ok (KeyReference (local_signer s)) = true.
Proof.
  unfold NewLocalSigner. intros Hn Hrun.
  destruct (IsP256 (Public key)) eqn:Hp; [|done]. cbn [negb] in Hn. inv_steps. injection Hn as <-.
  destruct a. apply validateKeyReference_iff in Hok. unfold LocalSigner_Sign in Hrun.
  destruct (Z.eqb_spec (len digest) 0) as [|Hne]; [done|].
  cbn [run ask pbind respond ls_key] in Hrun. destruct (SignASN1 _ _ _) as [s'|] eqn:Hs; [|done].
  injection Hrun as <- <-. apply sign_verify in Hs as [Hv Hl]; [|done|].
  2: { unfold signed_hash. destruct (Z.eqb_spec (len digest) 32); [done|apply len_arr32]. }
  split_and!; try done.
  - intros ->. by apply Hne.
  - unfold isValidSignatureLength. clia.
Qed.

(** A key version name [NewKMSSigner] accepts is a signer reference the
    ledger accepts exactly when it has at most 512 bytes: the pattern admits
    printable characters only, and bounds no length. *)
Theorem kms_reference_printable client name s :
  NewKMSSigner client name = Ok s ->
  ks_keyVersion s = name /\
  (signer_ok (KeyReference (kms_signer s)) = true <-> len name <= 512).
Proof.
  unfold NewKMSSigner. destruct client; [|done]. cbn [negb].
  destruct (MatchString kmsKeyVersionPattern name) eqn:Hm; [|done]. cbn [negb]. intros [= <-].
  split; [done|]. cbn [KeyReference kms_signer ks_keyVersion]. unfold signer_ok.
  rewrite (match_over _ _ _ kms_pattern_printable Hm), andb_true_r.
  assert (1 <= len name).
  { destruct name as [|b l]; [done|]. rewrite len_cons. pose proof (len_nonneg l). lia. }
  clia.
Qed.
End Properties.

(** ** Witnesses *)

Definition toy_key : array 64 := copy_array 64 (map Z_byte (seqZ 1 64)).
Definition toy_env : environment := MkEnv 7 [] (fun _ _ => Err (Foreign "kms" [])).

Lemma local_signer_signature_witness :
  VerifyASN1 (Ecdsa := Toy.ecdsa) toy_key (signed_hash [x01]) (Toy.sign toy_key (signed_hash [x01]))
    = true.
Proof.
  destruct (local_signer_signature (K := Toy.ecdsa) toy_env toy_key (gostr "local:p256:v1")
    (MkLocalSigner (K := Toy.ecdsa) toy_key (gostr "local:p256:v1")) [x01] []
    (Toy.sign toy_key (signed_hash [x01])) []) as (_ & _ & H & _); [reflexivity|reflexivity|exact H].
Defined.

Definition sample_key_version : gostring :=
  gostr "projects/p-1/locations/us-east1/keyRings/ring/cryptoKeys/key/cryptoKeyVersions/1".

Lemma kms_reference_printable_witness :
  signer_ok (KeyReference (kms_signer (MkKMSSigner sample_key_version))) = true.
Proof.
  apply (kms_reference_printable true sample_key_version); [vm_compute; reflexivity|].
  vm_compute. discriminate.
Defined.

Example kms_pattern_rejects :
  MatchString kmsKeyVersionPattern
    (gostr "projects//locations/us-east1/keyRings/ring/cryptoKeys/key/cryptoKeyVersions/1") = false /\
  MatchString kmsKeyVersionPattern
    (gostr "projects/p/locations/us-east1/keyRings/ring/cryptoKeys/key") = false.
Proof. by vm_compute. Qed.

End signer.
