(* ===== verification/Admission.v ===== *)
(** * The admission service

    [internal/admission/service.go]: ordering, signing and persisting ledger
    records, with the retry loop on sequence contention. *)

From S2P Require Import Prelude Sha256 Cbor CborRef LedgerCodec LedgerEvent LedgerRecord LedgerChain Ecdsa Endorsement Effects Store Signer.

Module admission.

Definition defaultMaxRetries : Z := 3.

Definition ErrLedgerAlreadyInitialized : goerror := Sentinel "ledger already initialized".

(** A Go [int] addition. *)
Definition int_add (a b : Z) : Z := int_of_u64 (u64 (a + b)).

(** The store is its requests; a clock is a program that yields
    [UnixMilli()], an [int64]. *)
Record Service := MkService {
  svc_signer : signer.Signer;
  svc_clock : prog Z;
  svc_maxRetries : Z
}.

Abbreviation Option := (Service -> Service).

Definition WithClock (clock : option (prog Z)) : Option := fun s =>
  match clock with
  | Some c => MkService (svc_signer s) c (svc_maxRetries s)
  | None => s
  end.

Definition WithMaxRetries (maxRetries : Z) : Option := fun s =>
  if 0 <=? maxRetries then MkService (svc_signer s) (svc_clock s) maxRetries else s.

Definition New (store : option unit) (sysSigner : option signer.Signer) (options : list Option) :
    gores Service :=
  match store, sysSigner with
  | None, _ => fail (Errorf "ledgerstore cannot be nil" [])
  | _, None => fail (Errorf "signer cannot be nil" [])
  | Some _, Some sg => Ok (foldl (fun svc opt => opt svc) (MkService sg (ask Now) defaultMaxRetries) options)
  end.

Record AdmitRequest := MkAdmitRequest {
  req_LedgerID : LedgerID;
  req_EventKind : Z;
  req_PayloadVersion : Z;
  req_PayloadBytes : slice
}.

(** [uint64(s.clock().UTC().UnixMilli())] *)
Definition now_ms (s : Service) : prog Z := now <-- svc_clock s ;; Ret (u64 now).

(** A ledger error in context. *)
Definition ledger_wrap {A} (context : string) (r : result ledger_error A) : gores A :=
  rmap_err (fun e => Fail (Wrapped context [] (ledgerstore.ledger_goerror e))) r.

(** The error of [s.store.Append] when it is not a panic. *)
Definition is_sentinel (f : failure) (target : goerror) : bool :=
  match f with
  | Fail err => errors_Is err target
  | Panic _ => false
  end.

Section Operations.
Context {C : Cbor} {K : Ecdsa}.

(** Sign an event and assemble its record. *)
Definition sign_record (s : Service) (event : StructuralEvent) (sign_ctx record_ctx : string) :
    prog (gores StructuralRecord) :=
  sig <-? pmap_err (wrap sign_ctx) (signer.Sign (svc_signer s) (arr_list (ev_digest event))) ;;
  Ret (ledger_wrap record_ctx (NewRecord event (signer.KeyReference (svc_signer s)) sig)).

Definition InitLedger (s : Service) (ledgerID : LedgerID) : prog (gores StructuralRecord) :=
  head <-? pmap_err (wrap "read ledger head") (ledgerstore.Head ledgerID) ;;
  if cs_initialized head then Ret (fail ErrLedgerAlreadyInitialized)
  else
    nowMS <-- now_ms s ;;
    genesisEvent <-? Ret (ledger_wrap "create genesis event" (NewGenesisEvent ledgerID nowMS)) ;;
    record <-? sign_record s genesisEvent "sign genesis event" "assemble genesis record" ;;
    appended <-- ledgerstore.Append record ;;
    match appended with
    | Err f =>
        if is_sentinel f ledgerstore.ErrChainHeadMoved ||
           is_sentinel f ledgerstore.ErrDuplicateRecord
        then Ret (fail ErrLedgerAlreadyInitialized)
        else Ret (Err (wrap "persist genesis record" f))
    | Ok _ => Ret (Ok record)
    end.

(** One iteration of the retry loop: a result, or [None] to go around again. *)
Definition admit_attempt (s : Service) (req : AdmitRequest) :
    prog (option (gores StructuralRecord)) :=
  let ret (r : gores StructuralRecord) := Ret (Some r) in
  head <-- pmap_err (wrap "read ledger head") (ledgerstore.Head (req_LedgerID req)) ;;
  match head with
  | Err f => ret (Err f)
  | Ok head =>
      if negb (cs_initialized head)
      then ret (fail (Errorf "ledger is uninitialized; call InitLedger first" []))
      else
        let '(headDigest, _) := ChainState_LastRecordDigest head in
        let nextSeq := u64_add (cs_lastSequence head) 1 in
        nowMS <-- now_ms s ;;
        match ledger_wrap "create continuation event"
                (NewEvent (req_LedgerID req) nextSeq (Some headDigest) nowMS (req_EventKind req)
                   (req_PayloadVersion req) (req_PayloadBytes req)) with
        | Err f => ret (Err f)
        | Ok event =>
            record <-- sign_record s event "sign continuation event" "assemble record" ;;
            match record with
            | Err f => ret (Err f)
            | Ok record =>
                appendErr <-- ledgerstore.Append record ;;
                match appendErr with
                | Ok _ => ret (Ok record)
                | Err f =>
                    if is_sentinel f ledgerstore.ErrDuplicateRecord then
                      existing <-- ledgerstore.Record (rec_recordDigest record) ;;
                      match existing with
                      | Ok existing => ret (Ok existing)
                      | Err (Panic msg) => ret (Err (Panic msg))
                      | Err (Fail _) => ret (Ok record)
                      end
                    else if is_sentinel f ledgerstore.ErrChainHeadMoved then
                      done <-- ask CtxErr ;;
                      match done with
                      | Some err => ret (fail err)
                      | None => Ret None
                      end
                    else ret (Err (wrap "persist record" f))
                end
            end
        end
  end.

Fixpoint admit_loop (s : Service) (req : AdmitRequest) (attempts : nat) :
    prog (gores StructuralRecord) :=
  match attempts with
  | O => Ret (fail (Errorf "admit record exceeded %d retries due to chain head contention"
                      [svc_maxRetries s]))
  | S attempts' =>
      r <-- admit_attempt s req ;;
      match r with
      | Some res => Ret res
      | None => admit_loop s req attempts'
      end
  end.

Definition Admit (s : Service) (req : AdmitRequest) : prog (gores StructuralRecord) :=
  if slen (req_PayloadBytes req) =? 0
  then Ret (fail (Errorf "payload bytes cannot be empty" []))
  else
    let attempts := int_add (svc_maxRetries s) 1 in
    admit_loop s req (Z.to_nat attempts).

Definition AdmitEndorsement (s : Service) (ledgerID : LedgerID)
    (payload : option endorsementv1.EndorsementAcceptedPayload) : prog (gores StructuralRecord) :=
  match payload with
  | None => Ret (fail (Errorf "endorsement payload cannot be nil" []))
  | Some payload =>
      _ <-? Ret (rmap_err (wrap "verify endorsement signatures")
                   (endorsementv1.AcceptedPayload_Verify payload)) ;;
      encoded <-? Ret (rmap_err (wrap "encode endorsement payload")
                         (endorsementv1.AcceptedPayload_Encode payload)) ;;
      Admit s {| req_LedgerID := ledgerID;
                 req_EventKind := EventKindEndorsementAccepted;
                 req_PayloadVersion := endorsementv1.PayloadVersionV1;
                 req_PayloadBytes := Some encoded |}
  end.

Definition AdmitRevocation (s : Service) (ledgerID : LedgerID)
    (payload : option endorsementv1.EndorsementRevokedPayload) : prog (gores StructuralRecord) :=
  match payload with
  | None => Ret (fail (Errorf "revocation payload cannot be nil" []))
  | Some payload =>
      _ <-? Ret (rmap_err (wrap "verify revocation signature")
                   (endorsementv1.RevokedPayload_Verify payload)) ;;
      encoded <-? Ret (rmap_err (wrap "encode revocation payload")
                         (endorsementv1.RevokedPayload_Encode payload)) ;;
      Admit s {| req_LedgerID := ledgerID;
                 req_EventKind := EventKindEndorsementRevoked;
                 req_PayloadVersion := endorsementv1.PayloadVersionV1;
                 req_PayloadBytes := Some encoded |}
  end.
End Operations.

(** ** Built records *)

Section Building.
Context {C : Cbor} {CO : CborOk C}.

Lemma NewEvent_Ok id seq prev adm k pv payload e :
  is_u64 seq -> is_u64 adm -> is_u64 k -> is_u64 pv -> slen payload < two63 ->
  NewEvent id seq prev adm k pv payload = Ok e ->
  e = event_of id seq prev adm k pv (sbytes payload) /\ event_ok e.
Proof.
  intros ? ? ? ? ? H. pose proof H as He. unfold NewEvent in He. inv_steps.
  apply validate_event_sound in He as [He _]. split; [|done].
  rewrite NewEvent_checked in H by done. case_match; [done|]. case_match; [|done].
  by injection H as <-.
Qed.

Lemma NewGenesisEvent_Ok id adm e :
  is_u64 adm -> NewGenesisEvent id adm = Ok e ->
  e = event_of id 1 None adm 1 1 ledgerInitializedPayloadCBOR /\ event_ok e.
Proof. intros Ha H. destruct (NewGenesisEvent_valid id adm Ha) as [He Hok]. split; congruence. Qed.

Lemma NewRecord_Ok e reference sig r :
  event_ok e -> NewRecord e reference sig = Ok r -> record_ok r /\ rec_event r = e.
Proof.
  intros He H. rewrite NewRecord_eq in H by done. case_match eqn:E; [|done]. injection H as <-.
  prep_bool. split; [by apply record_of_ok|done].
Qed.
End Building.

(** ** Verification conditions *)

(** A service whose signer and clock stay away from the ledger table. *)
Class ServiceOk (s : Service) : Prop := {
  svc_signer_ok : signer.SignerOk (svc_signer s);
  svc_clock_safe Inv t : Inv t -> safe Inv (fun _ _ => True) (svc_clock s) t
}.

Section Safety.
Context {C : Cbor} {CO : CborOk C} {K : Ecdsa} {KO : EcdsaOk K}.
Context (s : Service) {SO : ServiceOk s}.

(** The record carries the request. *)
Definition admits (req : AdmitRequest) (r : StructuralRecord) : Prop :=
  ev_ledgerID (rec_event r) = req_LedgerID req /\ ev_kind (rec_event r) = req_EventKind req /\
  ev_payloadVersion (rec_event r) = req_PayloadVersion req /\
  ev_payloadBytes (rec_event r) = sbytes (req_PayloadBytes req).

Definition same_or_collide (r1 r2 : StructuralRecord) : Prop :=
  r1 = r2 \/ collide (digest_preimage domainRecordDigestV1 (rec_recordBodyBytes r1))
                     (digest_preimage domainRecordDigestV1 (rec_recordBodyBytes r2)).

(** A returned record is one the service built for the request, or the stored
    record with its digest, and that one is stored. *)
Definition returned (t : table) (built_for : StructuralRecord -> Prop) (r : StructuralRecord) :
    Prop :=
  exists built saved, built_for built /\ record_ok built /\ ledgerstore.stored t saved /\
    same_or_collide saved built /\ (r = built \/ r = saved).

Definition result_post (built_for : StructuralRecord -> Prop) (t : table)
    (res : gores StructuralRecord) : Prop :=
  match res with
  | Ok r => returned t built_for r
  | Err _ => True
  end.

Lemma returned_mono t t' P r : t `prefix_of` t' -> returned t P r -> returned t' P r.
Proof.
  intros Hp (b & sv & ? & ? & ? & ? & ?). exists b, sv. split_and!; try done.
  by eapply ledgerstore.stored_mono.
Qed.

Lemma returned_stored t (P : StructuralRecord -> Prop) r :
  P r -> ledgerstore.stored t r -> returned t P r.
Proof. intros HP Hs. exists r, r. split_and!; try done; [apply Hs|by left|by left]. Qed.

Lemma stored_same t r r' :
  record_ok r -> ledgerstore.stored t r' -> rec_recordDigest r' = rec_recordDigest r ->
  same_or_collide r' r.
Proof.
  intros Hr [_ Hr'] Hd. destruct (record_digest_inj (C := Ref.codec) r' r Hr' Hr Hd);
    [by left|by right].
Qed.

Lemma now_ms_safe Inv t : Inv t -> safe Inv (fun _ n => is_u64 n) (now_ms s) t.
Proof.
  intros Hi. unfold now_ms. eapply safe_pbind; [done|by apply svc_clock_safe|].
  intros t1 z _ _ _ t2 _ _. apply u64_range.
Qed.

Lemma sign_record_safe Inv event c1 c2 t :
  event_ok event -> Inv t ->
  safe Inv
    (fun _ res => match res with Ok r => record_ok r /\ rec_event r = event | Err _ => True end)
    (sign_record s event c1 c2) t.
Proof.
  intros He Ht. unfold sign_record. eapply safe_pbind_ok; [done| |done|].
  - pose proof (svc_signer_ok (s := s)).
    eapply (safe_pmap_err _ (fun _ _ => True) (fun _ _ => True)); try done.
    by apply signer.sign_safe.
  - intros t1 sig _ _ _ t2 _ _. unfold ledger_wrap.
    destruct (NewRecord _ _ _) as [r|e] eqn:Hn; cbn; [|done]. by apply NewRecord_Ok in Hn.
Qed.

Lemma Head_wrapped_safe id t :
  ledgerstore.store_ok t ->
  safe ledgerstore.store_ok
    (fun t1 res => match res with Ok _ => ledgerstore.head_post id t1 res | Err _ => True end)
    (pmap_err (wrap "read ledger head") (ledgerstore.Head id)) t.
Proof.
  intros Ht. eapply safe_pmap_err; [done|apply ledgerstore.Head_safe| |done].
  intros t1 t2 st Hp [->|(h & Hs & ? & ?)]; [by left|right]. exists h.
  split_and!; try done; eapply ledgerstore.stored_mono; done.
Qed.

Lemma InitLedger_safe id t :
  ledgerstore.store_ok t ->
  safe ledgerstore.store_ok
    (result_post (fun r => is_genesis r /\ ev_ledgerID (rec_event r) = id)) (InitLedger s id) t.
Proof.
  intros Ht. unfold InitLedger. eapply safe_pbind_ok; [done|by apply Head_wrapped_safe|done|].
  intros t1 st _ Ht1 _. destruct (cs_initialized st); [done|].
  eapply safe_pbind; [done|by apply now_ms_safe|]. intros t2 now _ Ht2 Hnow.
  unfold pbind_ok at 1. cbn [pbind]. unfold ledger_wrap.
  destruct (NewGenesisEvent id now) as [e|] eqn:He; [|done]. cbn [rmap_err].
  apply NewGenesisEvent_Ok in He as [-> He]; [|done].
  eapply safe_pbind_ok; [done|by apply sign_record_safe|done|]. intros t3 r _ Ht3 [Hr Hev].
  assert (Hg : is_genesis r) by (unfold is_genesis; by rewrite Hev).
  eapply safe_pbind; [done|apply ledgerstore.Append_safe; [done|by left|done]|].
  intros t4 [u|f] _ Ht4 Hpost.
  - intros t5 Hp5 _. apply returned_stored; [by rewrite Hev|].
    by eapply ledgerstore.stored_mono.
  - by destruct (_ || _).
Qed.

(** *** Initialization beside other calls *)

(** The ledger has a record, or one of another ledger has a body that collides
    with that of a genesis of this one. *)
Definition taken (t : table) (id : LedgerID) : Prop :=
  exists saved, ledgerstore.stored t saved /\
    (ev_ledgerID (rec_event saved) = id \/
     exists built, is_genesis built /\ ev_ledgerID (rec_event built) = id /\
       collide (digest_preimage domainRecordDigestV1 (rec_recordBodyBytes saved))
               (digest_preimage domainRecordDigestV1 (rec_recordBodyBytes built))).

Lemma taken_mono t t' id : t `prefix_of` t' -> taken t id -> taken t' id.
Proof. intros Hp (sv & Hs & H). exists sv. split; [by eapply ledgerstore.stored_mono|done]. Qed.

(** A genesis that is stored, or a reason why there is none: "already
    initialized" is only said of a ledger that is taken. *)
Definition init_read (id : LedgerID) (t : table) (res : gores StructuralRecord) : Prop :=
  match res with
  | Ok r => returned t (fun r => is_genesis r /\ ev_ledgerID (rec_event r) = id) r
  | Err (Fail e) => errors_Is e ErrLedgerAlreadyInitialized = true -> taken t id
  | Err (Panic _) => True
  end.

(** A failure that does not say so. *)
Definition unrelated (f : failure) : Prop :=
  forall e, f = Fail e -> errors_Is e ErrLedgerAlreadyInitialized = false.

Lemma unrelated_read id t f : unrelated f -> init_read id t (Err f).
Proof. destruct f as [e|]; [|done]. intros H. cbn. by rewrite (H e eq_refl). Qed.

Lemma outside_unrelated context e : from_outside e -> unrelated (Fail (Wrapped context [] e)).
Proof. intros H e' [= <-]. apply (from_outside_wrapped context [] e H). done. Qed.

Lemma ledger_wrap_unrelated {A} context (r : result ledger_error A) f :
  ledger_wrap context r = Err f -> unrelated f.
Proof. destruct r as [a|err]; [done|]. intros [= <-] e [= <-]. by destruct err as [? []]. Qed.

Lemma Head_wrapped_serves id t :
  ledgerstore.store_ok t ->
  serves ledgerstore.store_ok outside
    (fun t1 res => match res with
     | Ok st => cs_initialized st = true -> taken t1 id
     | Err f => unrelated f end)
    (pmap_err (wrap "read ledger head") (ledgerstore.Head id)) t.
Proof.
  intros Ht. eapply serves_bind; [done|apply (ledgerstore.Head_serves outside)|].
  intros t1 [st|f] _ _ Hr t2 Hp2 _; cbn [rmap_err].
  - destruct Hr as [[-> _]|(t3 & rs & h & _ & Hp3 & Hc & Hl & ->)]; [done|]. intros _.
    destruct (ledgerstore.chain_last_stored _ _ _ _ Hc Hl) as [Hs Hid]. exists h.
    split; [|left; by apply array_eq]. eapply ledgerstore.stored_mono; [|done]. by etrans.
  - destruct Hr as (e & -> & _ & Hout). cbn [wrap]. apply outside_unrelated, from_outside_wrapped.
    by apply Hout.
Qed.

Lemma sign_record_serves event c1 c2 t :
  signer.SignerOutside (svc_signer s) -> event_ok event -> ledgerstore.store_ok t ->
  serves ledgerstore.store_ok outside
    (fun _ res => match res with
     | Ok r => record_ok r /\ rec_event r = event
     | Err f => unrelated f end)
    (sign_record s event c1 c2) t.
Proof.
  intros Hso He Ht. unfold sign_record, pbind_ok, pmap_err.
  eapply (serves_bind _ _ (fun _ res => match res with Ok _ => True | Err f => unrelated f end));
    [done|eapply serves_bind; [done|by apply signer.sign_outside|]|].
  - intros t1 [sig|[e|msg]] _ _ Hr t2 _ _; cbn; [done| |done].
    by apply outside_unrelated, Hr.
  - intros t1 [sig|f] _ _ Hr; [|intros t2 _ _; exact Hr]. intros t2 _ _.
    destruct (ledger_wrap c2 _) as [r|f] eqn:Hn; [|by eapply ledger_wrap_unrelated].
    unfold ledger_wrap in Hn. destruct (NewRecord _ _ _) as [r'|e] eqn:Hn'; [|done].
    injection Hn as <-. by apply NewRecord_Ok in Hn'.
Qed.

(** The outcomes of a genesis that could not be appended. *)
Lemma append_failed_serves id r f t :
  record_ok r -> is_genesis r -> ev_ledgerID (rec_event r) = id ->
  ledgerstore.append_post r t (Err f) ->
  serves ledgerstore.store_ok outside (init_read id)
    (if is_sentinel f ledgerstore.ErrChainHeadMoved || is_sentinel f ledgerstore.ErrDuplicateRecord
     then Ret (fail ErrLedgerAlreadyInitialized)
     else Ret (Err (wrap "persist genesis record" f))) t.
Proof.
  intros Hr Hg Hid. destruct f as [e|]; [|done]. intros (Hdup & Hmoved & Hnames). cbn [is_sentinel wrap].
  destruct (errors_Is e ledgerstore.ErrChainHeadMoved) eqn:Em; cbn [orb].
  { destruct (Hmoved eq_refl) as (r' & Hs & Hl). intros t1 Hp _ _. eapply taken_mono; [exact Hp|].
    exists r'. split; [done|]. left. congruence. }
  destruct (errors_Is e ledgerstore.ErrDuplicateRecord) eqn:Ed.
  - destruct (Hdup eq_refl) as (r' & Hs & Hd). intros t1 Hp _ _. eapply taken_mono; [exact Hp|].
    exists r'. split; [done|]. destruct (stored_same _ _ _ Hr Hs Hd) as [->|Hc]; [by left|right].
    by exists r.
  - intros t1 _ _. apply unrelated_read. intros e' [= <-]. cbn.
    rewrite bool_decide_eq_false_2 by done. apply not_true_iff_false.
    intros Hin%Hnames. set_solver.
Qed.

Lemma InitLedger_serves id t :
  signer.SignerOutside (svc_signer s) -> ledgerstore.store_ok t ->
  serves ledgerstore.store_ok outside (init_read id) (InitLedger s id) t.
Proof.
  intros Hso Ht. unfold InitLedger. eapply serves_bind; [done|by apply Head_wrapped_serves|].
  intros t1 [st|f] _ Ht1 Hst; [|intros t2 _ _; by apply unrelated_read].
  destruct (cs_initialized st); [intros t2 Hp2 _ _; eapply taken_mono; [exact Hp2|]; by apply Hst|].
  eapply serves_bind; [done|by apply safe_serves, now_ms_safe|]. intros t2 now _ Ht2 Hnow.
  unfold pbind_ok at 1. cbn [pbind].
  destruct (ledger_wrap "create genesis event" (NewGenesisEvent id now)) as [e|f] eqn:He;
    [|intros t3 _ _; by eapply unrelated_read, ledger_wrap_unrelated].
  unfold ledger_wrap in He. destruct (NewGenesisEvent id now) as [e'|] eqn:Hn; [|done].
  injection He as ->. apply NewGenesisEvent_Ok in Hn as [-> He]; [|done].
  eapply serves_bind; [done|by apply sign_record_serves|].
  intros t3 [r|f] _ Ht3 Hr; [|intros t4 _ _; by apply unrelated_read]. destruct Hr as [Hr Hev].
  assert (Hg : is_genesis r) by (unfold is_genesis; by rewrite Hev).
  eapply serves_bind; [done|apply safe_serves, ledgerstore.Append_safe; [done|by left|done]|].
  intros t4 [u|f] _ Ht4 Hpost.
  - intros t5 Hp5 _. apply returned_stored; [by rewrite Hev|]. by eapply ledgerstore.stored_mono.
  - apply (append_failed_serves id r); [done|done|by rewrite Hev|done].
Qed.

(** ** The admission loop *)

Context (req : AdmitRequest).
Hypothesis Hkind : is_u64 (req_EventKind req).
Hypothesis Hversion : is_u64 (req_PayloadVersion req).
Hypothesis Hpayload : slen (req_PayloadBytes req) < two63.
Hypothesis Hcontinues : req_EventKind req <> EventKindLedgerInitialized.

Lemma attempt_follows h now e :
  record_ok h -> ev_ledgerID (rec_event h) = req_LedgerID req -> is_u64 now ->
  NewEvent (req_LedgerID req) (u64_add (ev_sequence (rec_event h)) 1)
    (Some (rec_recordDigest h)) now (req_EventKind req) (req_PayloadVersion req)
    (req_PayloadBytes req) = Ok e ->
  event_ok e /\ forall r, rec_event r = e -> follows h r /\ admits req r.
Proof using CO Hkind Hversion Hpayload Hcontinues.
  intros Hh Hid Hnow He.
  apply NewEvent_Ok in He as [He Hok]; [|apply u64_range|done..]. split; [done|].
  intros r Hr. unfold follows, admits. rewrite Hr. subst e. split.
  - destruct Hok as [(Hseq & _) _], Hh as [[(Hs & _) _] _]. cbn in *.
    split_and!; try done. unfold u64_add, u64 in *.
    destruct (Z.eq_dec (ev_sequence (rec_event h) + 1) two64) as [E|E].
    + rewrite E, Z.mod_same in Hseq by done. lia.
    + apply Z.mod_small. clia.
  - by split_and!.
Qed.

Definition attempt_post (t : table) (res : option (gores StructuralRecord)) : Prop :=
  match res with
  | Some r => result_post (admits req) t r
  | None => True
  end.

Lemma append_phase_safe r t :
  ledgerstore.store_ok t -> record_ok r -> ledgerstore.linked_to t r -> admits req r ->
  safe ledgerstore.store_ok attempt_post
    (appendErr <-- ledgerstore.Append r ;;
     match appendErr with
     | Ok _ => Ret (Some (Ok r))
     | Err f =>
         if is_sentinel f ledgerstore.ErrDuplicateRecord then
           existing <-- ledgerstore.Record (rec_recordDigest r) ;;
           match existing with
           | Ok existing => Ret (Some (Ok existing))
           | Err (Panic msg) => Ret (Some (Err (Panic msg)))
           | Err (Fail _) => Ret (Some (Ok r))
           end
         else if is_sentinel f ledgerstore.ErrChainHeadMoved then
           done <-- ask CtxErr ;;
           match done with
           | Some err => Ret (Some (fail err))
           | None => Ret None
           end
         else Ret (Some (Err (wrap "persist record" f)))
     end) t.
Proof using CO.
  intros Ht Hr Hlink Hadm. eapply safe_pbind; [done|by apply ledgerstore.Append_safe|].
  intros t1 [u|f] Hp1 Ht1 Hpost.
  { intros t2 Hp2 _. apply returned_stored; [done|]. by eapply ledgerstore.stored_mono. }
  destruct (is_sentinel f ledgerstore.ErrDuplicateRecord) eqn:Hdup.
  - destruct f as [err|]; [|done]. destruct (proj1 Hpost Hdup) as (saved & Hs & Hd).
    eapply safe_pbind; [done|apply ledgerstore.Record_safe|].
    intros t2 [ex|[err'|msg]] Hp2 Ht2 Hpost2; intros t3 Hp3 _; [|..|done]; exists r.
    + destruct Hpost2 as [Hex Hdx]. exists ex. split_and!; [done..| | |by right].
      * by eapply ledgerstore.stored_mono.
      * by eapply stored_same.
    + exists saved. split_and!; [done..| | |by left].
      * eapply ledgerstore.stored_mono; [|done]. by etrans.
      * by eapply stored_same.
  - destruct (is_sentinel f ledgerstore.ErrChainHeadMoved); [|done].
    intros t2 reply t3 Hp2 Ht2 ->. split_and!; [done..|]. by destruct reply.
Qed.

Lemma attempt_safe t :
  ledgerstore.store_ok t -> safe ledgerstore.store_ok attempt_post (admit_attempt s req) t.
Proof using CO KO SO Hkind Hversion Hpayload Hcontinues.
  intros Ht. unfold admit_attempt. eapply safe_pbind; [done|by apply Head_wrapped_safe|].
  intros t1 [st|f] _ Ht1 Hpost; [|done].
  destruct Hpost as [->|(h & Hs & -> & Hid)]; [done|].
  rewrite ChainStateFromRecord_ok by apply Hs. cbn [cs_initialized negb ChainState_LastRecordDigest
    cs_lastRecordDigest cs_lastSequence].
  eapply safe_pbind; [done|by apply now_ms_safe|]. intros t2 now Hp2 Ht2 Hnow. unfold ledger_wrap.
  destruct (NewEvent _ _ _ _ _ _ _) as [e|] eqn:He; [|done]. cbn [rmap_err].
  apply attempt_follows in He as [He Hall]; [|apply Hs|done..].
  eapply safe_pbind; [done|by apply sign_record_safe|].
  intros t3 [r|f] Hp3 Ht3 Hr; [|done]. destruct Hr as [Hr Hev]. destruct (Hall r Hev) as [Hf Ha].
  apply append_phase_safe; try done. right. exists h. split; [|done].
  eapply ledgerstore.stored_mono; [|done]. by etrans.
Qed.

Lemma Admit_safe t :
  ledgerstore.store_ok t -> safe ledgerstore.store_ok (result_post (admits req)) (Admit s req) t.
Proof using CO KO SO Hkind Hversion Hpayload Hcontinues.
  intros Ht. unfold Admit. case_match; [done|].
  generalize (Z.to_nat (int_add (svc_maxRetries s) 1)). intros n.
  revert t Ht. induction n as [|n IH]; intros t Ht; cbn [admit_loop]; [done|].
  eapply safe_pbind; [done|by apply attempt_safe|].
  intros t1 [[r|f]|] Hp Ht1 Hpost; [|done|by apply IH].
  intros t2 Hp2 _. by eapply returned_mono.
Qed.

End Safety.

(** ** The calls of the service *)

Section System.
Context {C : Cbor} {CO : CborOk C} {K : Ecdsa} {KO : EcdsaOk K}.

(** A request of its Go types that continues a ledger.  The last condition is
    one [Admit] itself does not check: with the kind of a genesis event it stores
    a record that validation refuses ([Admit_accepts_genesis_kind] below).  The
    callers in the program, [AdmitEndorsement] and [AdmitRevocation], only send
    the two other kinds. *)
Record request_ok (req : AdmitRequest) : Prop := {
  ro_kind : is_u64 (req_EventKind req);
  ro_version : is_u64 (req_PayloadVersion req);
  ro_payload : slen (req_PayloadBytes req) < two63;
  ro_continues : req_EventKind req <> EventKindLedgerInitialized
}.

(** A key that is nil or an encodable P-256 key. *)
Definition key_or_nil (pub : option PublicKey) : Prop := pub = None \/ endorsementv1.key_ok pub.

(** Payloads as the API hands them over: any field values of their Go types. *)
Definition payload_typed (p : endorsementv1.EndorsementAcceptedPayload) : Prop :=
  key_or_nil (endorsementv1.ProposerPublicKey p) /\
  key_or_nil (endorsementv1.SubjectPublicKey p) /\
  is_u64 (endorsementv1.ProposedAtUnixMS p) /\ is_u64 (endorsementv1.AcceptedAtUnixMS p).

Definition revocation_typed (r : endorsementv1.EndorsementRevokedPayload) : Prop :=
  key_or_nil (endorsementv1.RevokerPublicKey r) /\ is_u64 (endorsementv1.RevokedAtUnixMS r).

(** The calls of the system: [InitLedger], [AdmitEndorsement] and
    [AdmitRevocation] with any arguments of their Go types, and [Admit] with a
    request that is [request_ok]: of its Go types and not of the genesis kind. *)
Inductive api_call : prog (gores StructuralRecord) -> Prop :=
  | call_init s id : ServiceOk s -> api_call (InitLedger s id)
  | call_admit s req : ServiceOk s -> request_ok req -> api_call (Admit s req)
  | call_endorse s id p :
      ServiceOk s -> (forall x, p = Some x -> payload_typed x) -> api_call (AdmitEndorsement s id p)
  | call_revoke s id r :
      ServiceOk s -> (forall x, r = Some x -> revocation_typed x) -> api_call (AdmitRevocation s id r).

(** A payload that verifies is well formed. *)
Lemma verified_ok p :
  payload_typed p -> endorsementv1.AcceptedPayload_Verify p = Ok tt ->
  endorsementv1.accepted_payload_ok p.
Proof using KO.
  intros (Hkp & Hks & ? & ?) Hv. unfold endorsementv1.AcceptedPayload_Verify in Hv. inv_steps.
  apply endorsementv1.NewProposal_Ok in Hok as (-> & Np & Ns & ? & ?).
  destruct Hkp as [Hkp|Hkp]; [by rewrite Hkp in Np|]. destruct Hks as [Hks|Hks]; [by rewrite Hks in Ns|].
  unfold endorsementv1.Proposal_VerifySignature in Hok0.
  unfold endorsementv1.Acceptance_VerifySignature in Hv.
  destruct (endorsementv1.outside _ _ (slen (endorsementv1.ProposerSignature p))) eqn:E1; [done|].
  destruct (endorsementv1.outside _ _ (slen (endorsementv1.SubjectSignature p))) eqn:E2; [done|].
  apply endorsementv1.outside_false in E1, E2. by split.
Qed.

Lemma revoked_verified_ok r :
  revocation_typed r -> endorsementv1.RevokedPayload_Verify r = Ok tt ->
  endorsementv1.revoked_payload_ok r.
Proof using KO.
  intros (Hk & ?) Hv. unfold endorsementv1.RevokedPayload_Verify in Hv. inv_steps.
  apply endorsementv1.NewRevocation_Ok in Hok as (-> & Nk & ? & ?).
  destruct Hk as [Hk|Hk]; [by rewrite Hk in Nk|].
  unfold endorsementv1.Revocation_VerifySignature in Hv.
  destruct (endorsementv1.outside _ _ (slen (endorsementv1.RevokerSignature r))) eqn:E1; [done|].
  apply endorsementv1.outside_false in E1. by split.
Qed.

(** What an endorsement or revocation is admitted as. *)
Definition endorsement_request (id : LedgerID) (p : endorsementv1.EndorsementAcceptedPayload) :
    AdmitRequest :=
  MkAdmitRequest id EventKindEndorsementAccepted 1
    (Some (enc_struct (endorsementv1.accepted_wire p))).

Definition revocation_request (id : LedgerID) (r : endorsementv1.EndorsementRevokedPayload) :
    AdmitRequest :=
  MkAdmitRequest id EventKindEndorsementRevoked 1
    (Some (enc_struct (endorsementv1.revoked_wire r))).

Lemma AdmitEndorsement_eq s id p :
  payload_typed p -> endorsementv1.AcceptedPayload_Verify p = Ok tt ->
  AdmitEndorsement s id (Some p) = Admit s (endorsement_request id p) /\
  request_ok (endorsement_request id p).
Proof using CO KO.
  intros Hp Hv. pose proof (verified_ok p Hp Hv) as Hok. unfold AdmitEndorsement.
  rewrite Hv. unfold pbind_ok. cbn [pbind rmap_err].
  rewrite endorsementv1.AcceptedPayload_Encode_eq by done. cbn [pbind rmap_err].
  split; [done|]. pose proof (endorsementv1.accepted_wire_len p Hok).
  split; cbn; clia || done.
Qed.

Lemma AdmitRevocation_eq s id r :
  revocation_typed r -> endorsementv1.RevokedPayload_Verify r = Ok tt ->
  AdmitRevocation s id (Some r) = Admit s (revocation_request id r) /\
  request_ok (revocation_request id r).
Proof using CO KO.
  intros Hp Hv. pose proof (revoked_verified_ok r Hp Hv) as Hok. unfold AdmitRevocation.
  rewrite Hv. unfold pbind_ok. cbn [pbind rmap_err].
  rewrite endorsementv1.RevokedPayload_Encode_eq by done. cbn [pbind rmap_err].
  split; [done|]. pose proof (endorsementv1.revoked_wire_len r Hok).
  split; cbn; clia || done.
Qed.

Lemma result_post_weaken (P : StructuralRecord -> Prop) t p :
  safe ledgerstore.store_ok (result_post P) p t ->
  safe ledgerstore.store_ok (result_post (fun _ => True)) p t.
Proof.
  apply safe_weaken. intros t1 [r|e] _ _; [|done].
  intros (b & sv & _ & ? & ? & ? & ?). by exists b, sv.
Qed.

Lemma api_call_safe p t :
  api_call p -> ledgerstore.store_ok t ->
  safe ledgerstore.store_ok (result_post (fun _ => True)) p t.
Proof using CO KO.
  intros Hc Ht. destruct Hc as [s id Hs|s req Hs Hr|s id [p|] Hs Hp|s id [r|] Hs Hp]; try done.
  - eapply result_post_weaken. by apply InitLedger_safe.
  - destruct Hr. eapply result_post_weaken. by apply Admit_safe.
  - destruct (endorsementv1.AcceptedPayload_Verify p) as [[]|e] eqn:Hv.
    + destruct (AdmitEndorsement_eq s id p (Hp p eq_refl) Hv) as [-> [? ? ? ?]].
      eapply result_post_weaken. by apply Admit_safe.
    + unfold AdmitEndorsement. by rewrite Hv.
  - destruct (endorsementv1.RevokedPayload_Verify r) as [[]|e] eqn:Hv.
    + destruct (AdmitRevocation_eq s id r (Hp r eq_refl) Hv) as [-> [? ? ? ?]].
      eapply result_post_weaken. by apply Admit_safe.
    + unfold AdmitRevocation. by rewrite Hv.
Qed.

Lemma chain_accepted rs :
  Forall record_ok rs -> accepted rs.
Proof using CO.
  intros H. eapply Forall_impl; [exact H|]. intros r. apply validate_record_complete.
Qed.

(** ** Properties *)

(** C1: any number of concurrent admissions keep every ledger a valid chain,
    provided no direct call of [Admit] carries the kind of a genesis event.
    In every state reachable by interleaving the database requests of any number
    of calls of [InitLedger], [AdmitEndorsement] and [AdmitRevocation] with any
    arguments of their Go types, and of [Admit] with any request of its Go types
    whose event kind is not [EventKindLedgerInitialized] (condition
    [ro_continues] of [request_ok]: the code does not check it, and
    [Admit_accepts_genesis_kind] shows that the property fails without it), with lost connections, ambiguous commits, failing signers and arbitrary
    clocks, the rows of each ledger in commit order are the records of a chain
    that [ValidateRecordStructure] and [ValidateChainConsistency] accept from
    the empty state. *)
Theorem admission_chain_invariant t ps (id : LedgerID) :
  reachable api_call (t, ps) ->
  exists rs, ledger_rows t (arr_list id) = map ledgerstore.row_of rs /\
    accepted rs /\ advance zeroChainState rs = Some (head_state rs).
Proof.
  intros Hr. destruct (reachable_safe ledgerstore.store_ok api_call _ ledgerstore.store_ok_nil
    api_call_safe t ps Hr) as [Ht _].
  destruct (ledgerstore.so_chain t Ht (arr_list id)) as (rs & Hrows & Hok & Hv).
  exists rs. split_and!; [done|by apply chain_accepted|by apply advance_iff].
Qed.

(** C14: durability. When a call has returned a record, that record, or one
    with the same digest whose body collides with it under SHA-256, is in the
    database, in this and every later state; committed rows are never lost or
    reordered. *)
Theorem admission_durable t ps i r t' ps' :
  reachable api_call (t, ps) -> ps !! i = Some (Ret (Ok r)) ->
  rtc (sys_step api_call) (t, ps) (t', ps') ->
  t `prefix_of` t' /\
  exists saved, ledgerstore.stored t' saved /\ same_or_collide saved r.
Proof.
  intros Hr Hi Hsteps. pose proof (reachable_append_only ledgerstore.store_ok api_call _
    ledgerstore.store_ok_nil api_call_safe _ _ Hr Hsteps) as Hpre. split; [done|].
  pose proof (reachable_result ledgerstore.store_ok api_call _ ledgerstore.store_ok_nil
    api_call_safe t ps i _ Hr Hi) as (built & saved & _ & _ & Hs & Hsame & Heq).
  exists saved. split; [by eapply ledgerstore.stored_mono|].
  destruct Heq as [-> | ->]; [done|by left].
Qed.

End System.

(** ** Without failures or contention *)

Section Sequential.
Context {C : Cbor} {CO : CborOk C} {K : Ecdsa}.

(** A signer that works in the environment: a reference the ledger accepts,
    and signatures of valid length for 32-byte digests. *)
Definition signs (env : environment) (sg : signer.Signer) : Prop :=
  signer_ok (signer.KeyReference sg) = true /\
  forall digest t, len digest = 32 -> exists sig,
    run env (signer.Sign sg digest) t = (Ok sig, t) /\ isValidSignatureLength sig = true.

Lemma run_sign_record env s e c1 c2 t :
  signs env (svc_signer s) -> event_ok e ->
  exists sig, isValidSignatureLength sig = true /\
    run env (sign_record s e c1 c2) t
      = (Ok (record_of e (signer.KeyReference (svc_signer s)) sig), t).
Proof.
  intros [Href Hsig] He. destruct (Hsig (arr_list (ev_digest e)) t (len_arr32 _)) as (sig & Hr & Hl).
  exists sig. split; [done|]. unfold sign_record, pbind_ok, pmap_err. rewrite !run_bind, Hr. cbn.
  rewrite NewRecord_eq by done. by rewrite Href, Hl.
Qed.

(** [follows] without the condition on the kind. *)
Definition links (h r : StructuralRecord) : Prop :=
  ev_ledgerID (rec_event r) = ev_ledgerID (rec_event h) /\
  ev_sequence (rec_event r) = ev_sequence (rec_event h) + 1 /\
  PreviousRecordDigest (rec_event r) = (rec_recordDigest h, true).

(** There is room for a record that links to the last one of its ledger. *)
Lemma position_open t rs h r :
  ledgerstore.ledger_chain t (arr_list (ev_ledgerID (rec_event r))) rs ->
  last rs = Some h -> links h r ->
  existsb (same_position (arr_list (ev_ledgerID (rec_event r))) (ev_sequence (rec_event r))) t
    = false.
Proof.
  intros (Hrows & Hok & Hv) Hl (_ & Hseq & _). apply not_true_iff_false.
  intros (rw & Hin & Hpos)%existsb_exists. unfold same_position in Hpos. prep_bool.
  assert (Hrw : rw ∈ ledger_rows t (arr_list (ev_ledgerID (rec_event r)))).
  { apply list_elem_of_filter. split; [done|by apply list_elem_of_In]. }
  rewrite Hrows in Hrw. apply list_elem_of_fmap in Hrw as (r' & -> & [i Hi]%list_elem_of_lookup).
  rewrite last_lookup in Hl. cbn in *. unfold ledgerstore.unsignedNumeric in *.
  rewrite (valid_chain_sequence _ _ _ Hv Hi) in *.
  rewrite (valid_chain_sequence _ _ _ Hv Hl) in *.
  apply lookup_lt_Some in Hi, Hl. lia.
Qed.

Lemma stored_existsb t r :
  ledgerstore.stored t r -> existsb (same_digest (arr_list (rec_recordDigest r))) t = true.
Proof.
  intros [Hin _]. apply existsb_exists. exists (ledgerstore.row_of r).
  split; [by apply list_elem_of_In|by apply bool_decide_eq_true].
Qed.

(** Inserting a record at a free position, with its predecessor stored,
    succeeds unless another record with the same digest is stored. *)
Lemma run_Append env t r :
  ledgerstore.store_ok t -> record_ok r ->
  existsb (same_position (arr_list (ev_ledgerID (rec_event r))) (ev_sequence (rec_event r))) t
    = false ->
  predecessor_stored t (ledgerstore.row_of r) = true ->
  run env (ledgerstore.Append r) t = (Ok tt, t ++ [ledgerstore.row_of r]) \/
  exists saved, ledgerstore.stored t saved /\ rec_recordDigest saved = rec_recordDigest r /\
    saved <> r.
Proof.
  intros Ht Hr Hpos Hpred. unfold ledgerstore.Append. cbn [run pbind ask respond].
  unfold exec_insert. rewrite ledgerstore.row_of_checks by done.
  change (record_digest (ledgerstore.row_of r)) with (arr_list (rec_recordDigest r)).
  change (ledger_id (ledgerstore.row_of r)) with (arr_list (ev_ledgerID (rec_event r))).
  change (sequence_number (ledgerstore.row_of r)) with (ev_sequence (rec_event r)).
  destruct (existsb (same_digest _) t) eqn:Hd.
  - right. destruct (ledgerstore.digest_stored _ _ Ht Hd) as (saved & Hs & He).
    exists saved. split; [done|]. split; [done|]. intros ->.
    apply not_true_iff_false in Hpos. apply Hpos, existsb_exists. exists (ledgerstore.row_of r).
    split; [apply list_elem_of_In, Hs|]. unfold same_position.
    rewrite bool_decide_eq_true_2 by done. cbn. by rewrite Z.eqb_refl.
  - left. by rewrite Hpos, Hpred.
Qed.

Lemma links_predecessor t h r :
  ledgerstore.stored t h -> links h r -> predecessor_stored t (ledgerstore.row_of r) = true.
Proof.
  intros Hs (_ & _ & Hprev). unfold predecessor_stored, ledgerstore.row_of. cbn.
  unfold PreviousRecordDigest in Hprev. injection Hprev as -> ->.
  by rewrite existsb_app, stored_existsb.
Qed.

Lemma attempts_positive n :
  0 <= n < two63 - 1 -> exists m, Z.to_nat (int_add n 1) = S m.
Proof.
  intros. unfold int_add, int_of_u64. rewrite u64_small by clia.
  rewrite (proj2 (Z.ltb_lt _ _)) by clia. exists (Z.to_nat n). lia.
Qed.

(** The environment and service of a run without failures. *)
Record quiet (env : environment) (s : Service) : Prop := {
  q_signs : signs env (svc_signer s);
  q_clock : svc_clock s = ask Now;
  q_retries : 0 <= svc_maxRetries s < two63 - 1
}.

(** A request whose event can be built. *)
Definition admissible (req : AdmitRequest) : Prop :=
  1 <= req_EventKind req < two64 /\ 1 <= req_PayloadVersion req < two64 /\
  1 <= slen (req_PayloadBytes req) <= maxPayloadBytes.

Lemma Admit_run env s req t rs h :
  quiet env s -> ledgerstore.store_ok t ->
  ledgerstore.ledger_chain t (arr_list (req_LedgerID req)) rs -> last rs = Some h ->
  ev_sequence (rec_event h) < MaxUint64 -> admissible req ->
  exists r, links h r /\ admits req r /\ record_ok r /\
    (run env (Admit s req) t = (Ok r, t ++ [ledgerstore.row_of r]) \/
     exists saved, ledgerstore.stored t saved /\ saved <> r /\ same_or_collide saved r).
Proof.
  intros [Hsg Hclock Hmax] Ht Hc Hl Hseq (Hk & Hpv & Hpl).
  destruct (ledgerstore.chain_last_stored _ _ _ _ Hc Hl) as [Hst Hid%array_eq].
  pose proof (proj2 Hst) as Hh.
  unfold Admit. rewrite (proj2 (Z.eqb_neq _ _)) by lia.
  destruct (attempts_positive _ Hmax) as [n ->].
  cbn [admit_loop]. unfold admit_attempt, pmap_err. rewrite !run_bind.
  rewrite (ledgerstore.run_Head env t _ rs Ht Hc). unfold head_state. rewrite Hl.
  rewrite ChainStateFromRecord_ok by done. cbn [run rmap_err cs_initialized negb
    ChainState_LastRecordDigest cs_lastRecordDigest cs_lastSequence].
  unfold now_ms. rewrite !run_bind, Hclock. cbn [run ask respond].
  destruct (slen_Some_pos _ _ Hpl) as (pl & Epl & Hlen). rewrite Epl.
  pose proof (proj1 (proj1 (proj1 Hh))) as Hhs.
  rewrite u64_add_small by clia.
  destruct (NewEvent_valid (req_LedgerID req) (ev_sequence (rec_event h) + 1)
    (Some (rec_recordDigest h)) (u64 (env_now env)) (req_EventKind req) (req_PayloadVersion req) pl)
    as [Hne Heok]; [clia|apply u64_range|done..|].
  rewrite Hne. cbn [ledger_wrap rmap_err]. set (e := event_of _ _ _ _ _ _ _) in *.
  rewrite !run_bind.
  destruct (run_sign_record env s e "sign continuation event" "assemble record" t Hsg Heok)
    as (sig & Hsl & ->).
  set (r := record_of e (signer.KeyReference (svc_signer s)) sig).
  assert (Hr : record_ok r) by (apply record_of_ok; [done|apply Hsg|done]).
  assert (Hf : links h r) by (unfold links; rewrite Hid; by split_and!).
  assert (Ha : admits req r) by (unfold admits; rewrite Epl; by split_and!).
  exists r. split; [done|]. split; [done|]. split; [done|].
  rewrite run_bind.
  destruct (run_Append env t r Ht Hr (position_open t rs h r Hc Hl Hf)
    (links_predecessor t h r Hst Hf)) as [Happ|(saved & Hs & Hd & Hne')].
  - left. by rewrite Happ.
  - right. exists saved. split; [done|]. split; [done|by eapply stored_same].
Qed.

(** C27: a request succeeds. Without failures or contention, [Admit] of a
    payload of 1 to 65536 bytes with a positive version and a kind other than
    genesis, on a ledger that is not exhausted, returns a record that carries
    the request and follows the head of the ledger, and appends exactly its
    row; or some other stored record collides with it under SHA-256. *)
Theorem Admit_succeeds env s req t rs h :
  quiet env s -> ledgerstore.store_ok t ->
  ledgerstore.ledger_chain t (arr_list (req_LedgerID req)) rs -> last rs = Some h ->
  ev_sequence (rec_event h) < MaxUint64 -> admissible req ->
  req_EventKind req <> EventKindLedgerInitialized ->
  exists r, follows h r /\ admits req r /\ record_ok r /\
    (run env (Admit s req) t = (Ok r, t ++ [ledgerstore.row_of r]) \/
     exists saved, ledgerstore.stored t saved /\ saved <> r /\ same_or_collide saved r).
Proof.
  intros Hq Ht Hc Hl Hseq Hadm Hk.
  destruct (Admit_run env s req t rs h Hq Ht Hc Hl Hseq Hadm) as (r & (? & ? & ?) & Ha & ? & ?).
  exists r. split; [|done]. split_and!; try done. destruct Ha as (_ & -> & _). done.
Qed.

(** C40: [Admit] does not check the kind. With the kind of a genesis event it
    signs and stores a continuation record just the same, and
    [ValidateChainConsistency] then refuses that record after the head it was
    built on. *)
Theorem Admit_accepts_genesis_kind env s req t rs h :
  quiet env s -> ledgerstore.store_ok t ->
  ledgerstore.ledger_chain t (arr_list (req_LedgerID req)) rs -> last rs = Some h ->
  ev_sequence (rec_event h) < MaxUint64 -> admissible req ->
  req_EventKind req = EventKindLedgerInitialized ->
  exists r,
    ValidateChainConsistency (ChainStateFromRecord h) r
      = (ChainStateFromRecord h, Some (WrappedError "chain consistency" ErrInvalidSequence)) /\
    (run env (Admit s req) t = (Ok r, t ++ [ledgerstore.row_of r]) \/
     exists saved, ledgerstore.stored t saved /\ saved <> r /\ same_or_collide saved r).
Proof.
  intros Hq Ht Hc Hl Hseq Hadm Hk.
  destruct (ledgerstore.chain_last_stored _ _ _ _ Hc Hl) as [[_ Hh] _].
  destruct (Admit_run env s req t rs h Hq Ht Hc Hl Hseq Hadm) as (r & (H1 & H2 & H3) & Ha & Hr & ?).
  exists r. split; [|done]. destruct Ha as (_ & Ek & _).
  rewrite ChainStateFromRecord_ok by done. unfold ValidateChainConsistency.
  rewrite record_bytes_nonempty by done.
  cbn [cs_initialized cs_lastSequence cs_ledgerID cs_lastRecordDigest negb].
  pose proof (proj1 (proj1 (proj1 Hh))).
  rewrite (proj2 (Z.eqb_neq _ _)) by clia. rewrite bool_decide_eq_true_2 by done. cbn [negb].
  rewrite u64_add_small, H2, Z.eqb_refl by clia. cbn [negb]. rewrite H3. cbn [negb orb].
  rewrite bool_decide_eq_true_2 by done. cbn [negb]. by rewrite Ek, Hk.
Qed.

(** A full ledger stays full. When the head of the ledger has the
    largest uint64 sequence, the next sequence wraps to 0 and [Admit] fails
    with an invalid sequence: nothing is signed, nothing is stored, there is
    no retry. *)
Theorem Admit_exhausted env s req t h :
  svc_clock s = ask Now -> 0 <= svc_maxRetries s < two63 - 1 ->
  select_head t (arr_list (req_LedgerID req)) = Some (ledgerstore.row_of h) -> record_ok h ->
  ev_ledgerID (rec_event h) = req_LedgerID req -> ev_sequence (rec_event h) = MaxUint64 ->
  is_u64 (req_EventKind req) -> is_u64 (req_PayloadVersion req) ->
  1 <= slen (req_PayloadBytes req) <= maxPayloadBytes ->
  run env (Admit s req) t =
    (fail (Wrapped "create continuation event" []
       (Wrapped "event body" [] (Sentinel "ledger v1 invalid sequence"))), t).
Proof.
  intros Hclock Hmax Hsel Hh Hid Hseq Hk Hpv Hpl. unfold Admit.
  rewrite (proj2 (Z.eqb_neq _ _)) by lia.
  destruct (attempts_positive _ Hmax) as [n ->].
  cbn [admit_loop]. unfold admit_attempt, pmap_err, ledgerstore.Head. rewrite !run_bind.
  cbn [run ask respond pbind]. rewrite Hsel. cbn [no_rows record_bytes ledgerstore.row_of run].
  rewrite ledgerstore.validate_stored_ok by done. cbn [rbind].
  rewrite ChainStateFromRecord_ok by done. cbn [ChainState_LedgerID cs_ledgerID cs_initialized negb orb].
  rewrite bool_decide_eq_true_2 by done. cbn [negb run rmap_err cs_initialized
    ChainState_LastRecordDigest cs_lastRecordDigest cs_lastSequence].
  unfold now_ms. rewrite !run_bind, Hclock. cbn [run ask respond]. rewrite Hseq.
  change (u64_add MaxUint64 1) with 0.
  rewrite NewEvent_checked by (apply u64_range || clia).
  rewrite (proj2 (Z.ltb_ge _ _)).
  2: { etrans; [apply len_event_body; cbn; rewrite ?len_arr32; clia|clia]. }
  unfold validateEventBodyWire, raw_wire. cbn. by rewrite len_arr32.
Qed.

(** Initialization, without failures. On a ledger with records,
    [InitLedger] fails and stores nothing; on an empty one it returns a genesis
    record of that ledger and appends exactly its row, or another stored record
    collides with it under SHA-256. *)
Theorem InitLedger_spec env s id t rs :
  quiet env s -> ledgerstore.store_ok t -> ledgerstore.ledger_chain t (arr_list id) rs ->
  match rs with
  | _ :: _ => run env (InitLedger s id) t = (fail ErrLedgerAlreadyInitialized, t)
  | [] => exists r, is_genesis r /\ ev_ledgerID (rec_event r) = id /\ record_ok r /\
      (run env (InitLedger s id) t = (Ok r, t ++ [ledgerstore.row_of r]) \/
       exists saved, ledgerstore.stored t saved /\ saved <> r /\ same_or_collide saved r)
  end.
Proof.
  intros [Hsg Hclock Hmax] Ht Hc. unfold InitLedger, pbind_ok, pmap_err.
  rewrite !run_bind, (ledgerstore.run_Head env t id rs Ht Hc). cbn [run rmap_err].
  unfold head_state. destruct rs as [|g rs].
  - cbn [last zeroChainState cs_initialized]. unfold now_ms. rewrite !run_bind, Hclock.
    cbn [run ask respond pbind].
    destruct (NewGenesisEvent_valid id (u64 (env_now env)) (u64_range _)) as [-> He].
    cbn [ledger_wrap rmap_err]. set (e := event_of _ _ _ _ _ _ _) in *. rewrite !run_bind.
    destruct (run_sign_record env s e "sign genesis event" "assemble genesis record" t Hsg He)
      as (sig & Hsl & ->).
    set (r := record_of e (signer.KeyReference (svc_signer s)) sig).
    assert (Hr : record_ok r) by (apply record_of_ok; [done|apply Hsg|done]).
    exists r. split; [done|]. split; [done|]. split; [done|].
    assert (Hpos : existsb (same_position (arr_list (ev_ledgerID (rec_event r)))
      (ev_sequence (rec_event r))) t = false).
    { apply not_true_iff_false. intros (rw & Hin & Hp)%existsb_exists. unfold same_position in Hp.
      prep_bool. assert (rw ∈ ledger_rows t (arr_list id)) as Hrw
        by (apply list_elem_of_filter; split; [done|by apply list_elem_of_In]).
      destruct Hc as (Hrows & _). rewrite Hrows in Hrw. by apply not_elem_of_nil in Hrw. }
    rewrite run_bind. destruct (run_Append env t r Ht Hr Hpos eq_refl) as [->|(sv & Hs & Hd & Hne)].
    + by left.
    + right. exists sv. split; [done|]. split; [done|by eapply stored_same].
  - assert (Hl : exists h, last (g :: rs) = Some h).
    { destruct (last (g :: rs)) as [h|] eqn:E; [by exists h|]. by apply last_None in E. }
    destruct Hl as [h Hl]. rewrite Hl.
    destruct (ledgerstore.chain_last_stored _ _ _ _ Hc Hl) as [[_ Hh] _].
    by rewrite ChainStateFromRecord_ok.
Qed.

End Sequential.

(** ** Bounded retries *)

Section Retries.
Context {C : Cbor} {K : Ecdsa}.

Lemma sign_record_inserts s e c1 c2 :
  (forall d, inserts_at_most 0 (signer.Sign (svc_signer s) d)) ->
  inserts_at_most 0 (sign_record s e c1 c2).
Proof.
  intros H. apply (inserts_bind 0 0); [by apply inserts_pmap_err|]. by intros [].
Qed.

Lemma Append_inserts r : inserts_at_most 1 (ledgerstore.Append r).
Proof.
  unfold ledgerstore.Append. cbn. intros [n|e]; [by destruct (n =? 0)|].
  by destruct (negb (errors_Is (ledgerstore.classifyAppendError e) e)).
Qed.

Lemma Record_inserts d : inserts_at_most 0 (ledgerstore.Record d).
Proof. unfold ledgerstore.Record. cbn. intros [b|e]; [done|]. by destruct (errors_Is e ErrNoRows). Qed.

Lemma Head_inserts id : inserts_at_most 0 (ledgerstore.Head id).
Proof. unfold ledgerstore.Head. cbn. intros [b|e]; [done|]. by destruct (errors_Is e ErrNoRows). Qed.

Lemma attempt_inserts s req :
  (forall d, inserts_at_most 0 (signer.Sign (svc_signer s) d)) ->
  inserts_at_most 0 (svc_clock s) -> inserts_at_most 1 (admit_attempt s req).
Proof.
  intros Hs Hc. unfold admit_attempt.
  apply (inserts_bind 0 1); [apply inserts_pmap_err, Head_inserts|].
  intros [st|f]; [|done]. destruct (negb (cs_initialized st)); [done|].
  destruct (ChainState_LastRecordDigest st) as [hd ok].
  apply (inserts_bind 0 1); [by apply (inserts_bind 0 0)|]. intros now.
  destruct (ledger_wrap _ _) as [e|f]; [|done].
  apply (inserts_bind 0 1); [by apply sign_record_inserts|]. intros [r|f]; [|done].
  apply (inserts_bind 1 0); [apply Append_inserts|]. intros [u|f]; [done|].
  destruct (is_sentinel f ledgerstore.ErrDuplicateRecord).
  - apply (inserts_bind 0 0); [apply Record_inserts|]. by intros [|[]].
  - destruct (is_sentinel f ledgerstore.ErrChainHeadMoved); [|done]. by intros [].
Qed.

(** Retries are bounded. Whatever the database, the signer and the
    context reply, [Admit] issues at most [maxRetries + 1] inserts, none when
    the payload is empty, before it returns. *)
Theorem Admit_inserts_bounded s req :
  (forall d, inserts_at_most 0 (signer.Sign (svc_signer s) d)) ->
  inserts_at_most 0 (svc_clock s) ->
  inserts_at_most (if slen (req_PayloadBytes req) =? 0 then 0%nat
                   else Z.to_nat (int_add (svc_maxRetries s) 1)) (Admit s req).
Proof.
  intros Hs Hc. unfold Admit. case_match; [done|].
  generalize (Z.to_nat (int_add (svc_maxRetries s) 1)). intros n.
  induction n as [|n IH]; [done|]. cbn [admit_loop].
  apply (inserts_bind 1 n); [by apply attempt_inserts|]. by intros [[]|].
Qed.
End Retries.

(** ** Witnesses *)

Section Witnesses.
#[local] Existing Instance Ref.codec.
#[local] Existing Instance Toy.ecdsa.

Definition sample_service : Service :=
  MkService (signer.local_signer (signer.MkLocalSigner signer.toy_key sample_reference))
    (ask Now) defaultMaxRetries.

Lemma sample_service_ok : ServiceOk sample_service.
Proof.
  split; [apply _|]. intros Inv t Hi t1 reply t2 Hp Hi1 [_ ->]. by split_and!.
Qed.

Lemma sample_quiet : quiet signer.toy_env sample_service.
Proof.
  split; [|done|cbn; unfold defaultMaxRetries; clia]. split; [done|]. intros d t Hd.
  exists (Toy.sign signer.toy_key d). pose proof (Toy.len_sign signer.toy_key d).
  split; [|unfold isValidSignatureLength; clia].
  cbn [svc_signer sample_service signer.local_signer signer.Sign]. unfold signer.LocalSigner_Sign.
  rewrite (proj2 (Z.eqb_neq _ _)) by lia. cbn. unfold signer.signed_hash. by rewrite Hd.
Qed.

Definition sample_table : table := [ledgerstore.row_of sample_record].

Lemma sample_record_ok : record_ok sample_record.
Proof. by apply (validate_record_sound (C := Ref.codec) _ _ sample_record_valid). Qed.

Lemma sample_table_ok : ledgerstore.store_ok sample_table.
Proof.
  apply (ledgerstore.store_ok_snoc [] sample_record); [apply ledgerstore.store_ok_nil|
    apply sample_record_ok|by left|done|done].
Qed.

Lemma sample_ledger_chain : ledgerstore.ledger_chain sample_table (arr_list sample_id) [sample_record].
Proof.
  split; [|split; [constructor; [apply sample_record_ok|constructor]|]].
  - unfold ledger_rows, sample_table. rewrite filter_cons_True by done. done.
  - apply (valid_chain_snoc [] sample_record). split; [apply valid_chain_nil|done].
Qed.

Definition sample_request (kind : Z) : AdmitRequest := MkAdmitRequest sample_id kind 1 (Some [x01]).

Lemma sample_admissible kind : 1 <= kind < two64 -> admissible (sample_request kind).
Proof. intros Hk. split; [done|]. split; [cbn; clia|]. split; vm_compute; discriminate. Qed.

(** Initializing an empty database. *)
Definition sample_run : gores StructuralRecord * table :=
  run signer.toy_env (InitLedger sample_service sample_id) [].

Lemma sample_reachable : reachable api_call (sample_run.2, [Ret sample_run.1]).
Proof.
  apply (run_reachable api_call signer.toy_env [] []); [cbn; clia|constructor|].
  constructor. apply sample_service_ok.
Qed.

Lemma sample_run_ok : exists r, sample_run.1 = Ok r.
Proof.
  destruct (ledgerstore.so_chain [] ledgerstore.store_ok_nil (arr_list sample_id)) as [rs Hrs].
  assert (rs = []) as -> by (destruct Hrs as [H _]; by destruct rs).
  destruct (InitLedger_spec signer.toy_env sample_service sample_id [] [] sample_quiet
    ledgerstore.store_ok_nil Hrs) as (r & _ & _ & _ & [H|(sv & [Hin _] & _)]).
  - exists r. unfold sample_run. by rewrite H.
  - by apply not_elem_of_nil in Hin.
Qed.

Lemma admission_chain_invariant_witness :
  exists rs, ledger_rows sample_run.2 (arr_list sample_id) = map ledgerstore.row_of rs /\
    accepted rs.
Proof.
  destruct (admission_chain_invariant sample_run.2 [Ret sample_run.1] sample_id sample_reachable)
    as (rs & H1 & H2 & _). exact (ex_intro _ rs (conj H1 H2)).
Defined.

Lemma admission_durable_witness :
  exists r saved, ledgerstore.stored sample_run.2 saved /\ same_or_collide saved r.
Proof.
  destruct sample_run_ok as [r Hr].
  assert (Hi : [Ret sample_run.1] !! 0%nat = Some (Ret (Ok r))) by (rewrite Hr; reflexivity).
  destruct (admission_durable sample_run.2 [Ret sample_run.1] 0 r sample_run.2 [Ret sample_run.1]
    sample_reachable Hi (rtc_refl _ _)) as (_ & saved & H).
  exact (ex_intro _ r (ex_intro _ saved H)).
Defined.

Lemma Admit_succeeds_witness : exists r, follows sample_record r /\ admits (sample_request 2) r.
Proof.
  destruct (Admit_succeeds signer.toy_env sample_service (sample_request 2) sample_table
    [sample_record] sample_record sample_quiet sample_table_ok sample_ledger_chain eq_refl)
    as (r & Hf & Ha & _).
  - reflexivity.
  - apply sample_admissible. clia.
  - discriminate.
  - exact (ex_intro _ r (conj Hf Ha)).
Defined.

Lemma Admit_accepts_genesis_kind_witness :
  exists r, ValidateChainConsistency (ChainStateFromRecord sample_record) r
    = (ChainStateFromRecord sample_record,
       Some (WrappedError "chain consistency" ErrInvalidSequence)).
Proof.
  destruct (Admit_accepts_genesis_kind signer.toy_env sample_service (sample_request 1) sample_table
    [sample_record] sample_record sample_quiet sample_table_ok sample_ledger_chain eq_refl)
    as (r & Hr & _).
  - reflexivity.
  - apply sample_admissible. clia.
  - reflexivity.
  - exact (ex_intro _ r Hr).
Defined.

Definition last_event : StructuralEvent :=
  event_of sample_id MaxUint64 (Some (zero_array 32)) 7 2 1 [x01].
Definition last_record : StructuralRecord := record_of last_event sample_reference sample_signature.

Lemma last_record_ok : record_ok last_record.
Proof.
  apply record_of_ok; [|done..]. apply (NewEvent_valid (C := Ref.codec)); try clia.
  split; vm_compute; discriminate.
Qed.

Lemma Admit_exhausted_witness :
  run signer.toy_env (Admit sample_service (sample_request 2)) [ledgerstore.row_of last_record] =
    (fail (Wrapped "create continuation event" []
       (Wrapped "event body" [] (Sentinel "ledger v1 invalid sequence"))),
     [ledgerstore.row_of last_record]).
Proof.
  apply (Admit_exhausted signer.toy_env sample_service (sample_request 2) _ last_record).
  - reflexivity.
  - cbn; unfold defaultMaxRetries; clia.
  - unfold select_head, ledger_rows. rewrite filter_cons_True by reflexivity. reflexivity.
  - exact last_record_ok.
  - reflexivity.
  - reflexivity.
  - cbn; clia.
  - cbn; clia.
  - split; vm_compute; discriminate.
Defined.

Lemma InitLedger_spec_witness :
  run signer.toy_env (InitLedger sample_service sample_id) sample_table
    = (fail ErrLedgerAlreadyInitialized, sample_table).
Proof.
  exact (InitLedger_spec signer.toy_env sample_service sample_id sample_table [sample_record]
    sample_quiet sample_table_ok sample_ledger_chain).
Defined.

Lemma Admit_inserts_bounded_witness :
  inserts_at_most 4 (Admit sample_service (sample_request 2)).
Proof.
  apply (Admit_inserts_bounded sample_service (sample_request 2)).
  - intros d. cbn [svc_signer sample_service signer.Sign signer.local_signer].
    unfold signer.LocalSigner_Sign. destruct (len d =? 0); [exact I|]. intros e. exact I.
  - intros now. exact I.
Defined.

End Witnesses.

End admission.
