(* ===== verification/Identity.v ===== *)
(** * Identities

    [internal/graph/v1/identity.go]: an identity is the uncompressed encoding
    of a P-256 public key; its text form is hexadecimal. *)

From S2P Require Import Prelude Text Ecdsa.

Module identity.

Abbreviation IdentityKey := (array 65).

Definition ErrInvalidIdentityKeyLength : goerror :=
  Sentinel "identity key must be exactly 65 bytes".
Definition ErrInvalidIdentityKeyFormat : goerror :=
  Sentinel "identity key must start with uncompressed SEC1 prefix 0x04".
Definition ErrInvalidCurvePoint : goerror :=
  Sentinel "identity key is not a valid P-256 curve point".

Section Keys.
Context {K : Ecdsa}.

Definition IdentityKeyFromBytes (b : bytes) : gores IdentityKey :=
  if negb (len b =? 65) then fail (Wrapped "got" [len b] ErrInvalidIdentityKeyLength)
  else if negb (bool_decide (b !! 0%nat = Some x04)) then fail ErrInvalidIdentityKeyFormat
  else
    match ParseUncompressedPublicKey b with
    | None => fail (Wrapped "ecdsa" [] ErrInvalidCurvePoint)
    | Some _ => Ok (copy_array 65 b)
    end.

Definition IdentityKeyFromHex (s : gostring) : gores IdentityKey :=
  match DecodeString s with
  | None => fail (Wrapped "decode hex identity key" [] (Foreign "hex" []))
  | Some b => IdentityKeyFromBytes b
  end.

Definition IdentityKeyFromPublicKey (pub : option PublicKey) : gores IdentityKey :=
  match pub with
  | None => fail (Errorf "public key cannot be nil" [])
  | Some k =>
      match KeyBytes k with
      | None => fail (Wrapped "encode public key bytes" [] (Foreign "ecdsa" []))
      | Some b => IdentityKeyFromBytes b
      end
  end.

Definition IdentityKey_PublicKey (k : IdentityKey) : option PublicKey :=
  ParseUncompressedPublicKey (arr_list k).
End Keys.

Definition Hex (k : IdentityKey) : gostring := EncodeToString (arr_list k).

(** A defensive copy has the same contents. *)
Definition IdentityKey_Bytes (k : IdentityKey) : bytes := arr_list k.

Definition IdentityKey_String (k : IdentityKey) : gostring :=
  let h := Hex k in
  if len h <=? 16 then h
  else take 8 h ++ gostr "..." ++ drop (Z.to_nat (len h - 8)) h.

Section Facts.
Context {K : Ecdsa} {KO : EcdsaOk K}.

Lemma IdentityKeyFromBytes_Ok b k :
  IdentityKeyFromBytes b = Ok k <->
    arr_list k = b /\ exists pub, ParseUncompressedPublicKey b = Some pub.
Proof.
  unfold IdentityKeyFromBytes. split.
  - destruct (Z.eqb_spec (len b) 65) as [Hl|]; cbn [negb]; [|done].
    case_match; [done|]. destruct (ParseUncompressedPublicKey b) as [pub|] eqn:Hp; [|done].
    intros [= <-]. split; [|by exists pub]. apply copy_array_list. unfold len in Hl. lia.
  - intros [<- [pub Hp]]. destruct (parse_key _ _ Hp) as (_ & _ & Hl & H4).
    rewrite Hl. cbn [Z.eqb Pos.eqb negb]. rewrite bool_decide_eq_true_2 by done. cbn [negb].
    by rewrite Hp, copy_array_arr.
Qed.

(** The identity of a P-256 key is its encoding. *)
Lemma IdentityKeyFromPublicKey_key k b :
  IsP256 k = true -> KeyBytes k = Some b ->
  exists id, IdentityKeyFromPublicKey (Some k) = Ok id /\ arr_list id = b.
Proof.
  intros Hk Hb. pose proof (key_parse k b Hk Hb) as Hp.
  destruct (parse_key _ _ Hp) as (_ & _ & Hl & _).
  exists (copy_array 65 b). assert (arr_list (copy_array 65 b) = b) as He
    by (apply copy_array_list; unfold len in Hl; lia).
  split; [|done]. unfold IdentityKeyFromPublicKey. rewrite Hb.
  apply IdentityKeyFromBytes_Ok. split; [done|by exists k].
Qed.

(** An identity key survives its text and key forms. For a key accepted
    from bytes, its hexadecimal form has 130 characters and parses to it, and
    it parses to a P-256 public key whose identity it is. *)
Theorem identity_roundtrip b k :
  IdentityKeyFromBytes b = Ok k ->
  IdentityKeyFromHex (Hex k) = Ok k /\ len (Hex k) = 130 /\
  exists pub, IdentityKey_PublicKey k = Some pub /\ IsP256 pub = true /\
    IdentityKeyFromPublicKey (Some pub) = Ok k.
Proof.
  intros H. pose proof H as H'. apply IdentityKeyFromBytes_Ok in H as [<- [pub Hp]].
  split_and!.
  - unfold IdentityKeyFromHex, Hex. by rewrite DecodeString_Encode.
  - unfold Hex. by rewrite len_EncodeToString, len_arr.
  - exists pub. destruct (parse_key _ _ Hp) as (Hk & Hb & _ & _). split; [done|]. split; [done|].
    unfold IdentityKeyFromPublicKey. by rewrite Hb.
Qed.
End Facts.

Definition sample_identity : IdentityKey := copy_array 65 (x04 :: map Z_byte (seqZ 1 64)).

Lemma sample_identity_valid :
  IdentityKeyFromBytes (K := Toy.ecdsa) (arr_list sample_identity) = Ok sample_identity.
Proof.
  apply IdentityKeyFromBytes_Ok. split; [done|].
  exists (copy_array 64 (map Z_byte (seqZ 1 64))). by apply (key_parse (K := Toy.ecdsa)).
Qed.

Lemma identity_roundtrip_witness :
  IdentityKeyFromHex (K := Toy.ecdsa) (Hex sample_identity) = Ok sample_identity.
Proof. exact (proj1 (identity_roundtrip (K := Toy.ecdsa) _ _ sample_identity_valid)). Defined.

End identity.
