(* ===== verification/Graph.v ===== *)
(** * The attestation graph

    [internal/graph/v1/edge.go] and [graph.go].  The four indexes of a graph
    share the edge objects: an edge is a location of a heap, so that a
    revocation through one index is seen through the others.  The
    specification is the log of admitted edges. *)

From S2P Require Import Prelude Ecdsa LedgerCodec Endorsement Identity.

Module graphv1.
Import identity.

(** ** edge.go *)

Record AttestationEdge := MkEdge {
  e_recordDigest : Digest;
  e_sequence : Z;
  e_proposer : IdentityKey;
  e_subject : IdentityKey;
  e_topic : gostring;
  e_claimBody : bytes;
  e_proposedAtUnixMS : Z;
  e_acceptedAtUnixMS : Z;
  e_isActive : bool;
  e_revokedAtUnixMS : option Z;
  e_revocationRecordDigest : option Digest;
  e_revocationReason : gostring;
  e_revokerRole : Z
}.

#[global] Instance edge_eq_dec : EqDecision AttestationEdge.
Proof. solve_decision. Defined.

(** Edge objects by address. *)
Abbreviation loc := nat.
Abbreviation heap := (gmap nat AttestationEdge).

(** The value of a new edge; [new] puts it at a fresh address. *)
Definition NewAttestationEdge (recordDigest : Digest) (sequence : Z)
    (proposer subject : IdentityKey) (topic : gostring) (claimBody : slice)
    (proposedAtUnixMS acceptedAtUnixMS : Z) : AttestationEdge := {|
  e_recordDigest := recordDigest;
  e_sequence := sequence;
  e_proposer := proposer;
  e_subject := subject;
  e_topic := topic;
  e_claimBody := sbytes claimBody;
  e_proposedAtUnixMS := proposedAtUnixMS;
  e_acceptedAtUnixMS := acceptedAtUnixMS;
  e_isActive := true;
  e_revokedAtUnixMS := None;
  e_revocationRecordDigest := None;
  e_revocationReason := [];
  e_revokerRole := 0
|}.

Definition new (h : heap) (e : AttestationEdge) : loc * heap :=
  let l := fresh (dom h) in (l, <[l := e]> h).

Definition RevokedAtUnixMS (e : AttestationEdge) : Z * bool :=
  match e_revokedAtUnixMS e with None => (0, false) | Some t => (t, true) end.

Definition RevocationRecordDigest (e : AttestationEdge) : Digest * bool :=
  match e_revocationRecordDigest e with None => (zero_array 32, false) | Some d => (d, true) end.

(** ** graph.go *)

Definition ErrEdgeNotFound : goerror := Sentinel "target attestation edge not found".
Definition ErrEdgeAlreadyRevoked : goerror := Sentinel "attestation edge is already revoked".
Definition ErrUnauthorizedRevoker : goerror :=
  Sentinel "revoker public key does not match proposer or subject".
Definition ErrDuplicateEdge : goerror :=
  Sentinel "attestation edge with record digest already exists".

Record Graph := MkGraph {
  g_ledgerID : LedgerID;
  g_lastSequence : Z;
  g_nodes : gset IdentityKey;
  g_edgesByDigest : gmap Digest loc;
  g_outEdges : gmap IdentityKey (list loc);
  g_inEdges : gmap IdentityKey (list loc);
  g_topicIndex : gmap gostring (list loc)
}.

Definition NewGraph (ledgerID : LedgerID) : Graph := MkGraph ledgerID 0 ∅ ∅ ∅ ∅ ∅.

Definition SetLastSequence (g : Graph) (seq : Z) : Graph :=
  MkGraph (g_ledgerID g) seq (g_nodes g) (g_edgesByDigest g) (g_outEdges g) (g_inEdges g)
    (g_topicIndex g).

(** A missing key of a map of slices is the nil slice. *)
Definition edges_at `{Countable Key} (m : gmap Key (list loc)) (k : Key) : list loc :=
  default [] (m !! k).

Definition append_at `{Countable Key} (k : Key) (l : loc) (m : gmap Key (list loc)) :
    gmap Key (list loc) :=
  <[k := edges_at m k ++ [l]]> m.

(** A digest printed with [%x]. *)
Definition hex_arg {n} (d : array n) : Z := be_Z (arr_list d).

(** The state of a call is the heap and the graph; on error both are as
    before.  Reading a dangling pointer panics. *)
Definition AddEdge (h : heap) (g : Graph) (edge : option loc) : gores Graph :=
  match edge with
  | None => fail (Errorf "edge cannot be nil" [])
  | Some l =>
      match h !! l with
      | None => Err (Panic "nil pointer dereference")
      | Some e =>
          let digest := e_recordDigest e in
          match g_edgesByDigest g !! digest with
          | Some _ => fail (Wrapped "%x" [hex_arg digest] ErrDuplicateEdge)
          | None => Ok {|
              g_ledgerID := g_ledgerID g;
              g_edgesByDigest := <[digest := l]> (g_edgesByDigest g);
              g_nodes := {[e_subject e]} ∪ ({[e_proposer e]} ∪ g_nodes g);
              g_outEdges := append_at (e_proposer e) l (g_outEdges g);
              g_inEdges := append_at (e_subject e) l (g_inEdges g);
              g_topicIndex := append_at (e_topic e) l (g_topicIndex g);
              g_lastSequence :=
                if g_lastSequence g <? e_sequence e then e_sequence e else g_lastSequence g
            |}
          end
      end
  end.

(** The five assignments to a revoked edge. *)
Definition set_revoked (e : AttestationEdge) (role revokedAt : Z) (revocationDigest : Digest)
    (reason : gostring) : AttestationEdge := {|
  e_recordDigest := e_recordDigest e;
  e_sequence := e_sequence e;
  e_proposer := e_proposer e;
  e_subject := e_subject e;
  e_topic := e_topic e;
  e_claimBody := e_claimBody e;
  e_proposedAtUnixMS := e_proposedAtUnixMS e;
  e_acceptedAtUnixMS := e_acceptedAtUnixMS e;
  e_isActive := false;
  e_revokedAtUnixMS := Some revokedAt;
  e_revocationRecordDigest := Some revocationDigest;
  e_revocationReason := reason;
  e_revokerRole := role
|}.

(** The switch on the role. *)
Definition authorize (e : AttestationEdge) (revoker : IdentityKey) (role : Z) : gores unit :=
  if role =? endorsementv1.RevokerRoleProposer then
    if negb (bool_decide (revoker = e_proposer e))
    then fail (Wrapped "revoker %s is not proposer %s" [hex_arg revoker; hex_arg (e_proposer e)]
                 ErrUnauthorizedRevoker)
    else Ok tt
  else if role =? endorsementv1.RevokerRoleSubject then
    if negb (bool_decide (revoker = e_subject e))
    then fail (Wrapped "revoker %s is not subject %s" [hex_arg revoker; hex_arg (e_subject e)]
                 ErrUnauthorizedRevoker)
    else Ok tt
  else fail (Errorf "unknown revoker role: %d" [role]).

Definition RevokeEdge (h : heap) (g : Graph) (targetDigest : Digest) (revoker : IdentityKey)
    (role revokedAt : Z) (revocationDigest : Digest) (reason : gostring)
    (revocationSequence : Z) : gores (heap * Graph) :=
  match g_edgesByDigest g !! targetDigest with
  | None => fail (Wrapped "%x" [hex_arg targetDigest] ErrEdgeNotFound)
  | Some l =>
      match h !! l with
      | None => Err (Panic "nil pointer dereference")
      | Some edge =>
          if negb (e_isActive edge)
          then fail (Wrapped "%x" [hex_arg targetDigest] ErrEdgeAlreadyRevoked)
          else
            _ <~ authorize edge revoker role ;;
            let h' := <[l := set_revoked edge role revokedAt revocationDigest reason]> h in
            let g' := if g_lastSequence g <? revocationSequence
                      then SetLastSequence g revocationSequence else g in
            Ok (h', g')
      end
  end.

Definition EdgeByDigest (g : Graph) (digest : Digest) : option loc := g_edgesByDigest g !! digest.

(** The loops of the queries: [continue] past inactive or other topics. *)
Fixpoint select_edges (h : heap) (keep : AttestationEdge -> bool) (edges : list loc) :
    gores (list loc) :=
  match edges with
  | [] => Ok []
  | l :: rest =>
      match h !! l with
      | None => Err (Panic "nil pointer dereference")
      | Some e =>
          result <~ select_edges h keep rest ;;
          Ok (if keep e then l :: result else result)
      end
  end.

Definition keep_edge (topic : gostring) (activeOnly : bool) (e : AttestationEdge) : bool :=
  if activeOnly && negb (e_isActive e) then false
  else if negb (bool_decide (topic = [])) && negb (bool_decide (e_topic e = topic)) then false
  else true.

Definition OutEdges (h : heap) (g : Graph) (proposer : IdentityKey) (topic : gostring)
    (activeOnly : bool) : gores (list loc) :=
  select_edges h (keep_edge topic activeOnly) (edges_at (g_outEdges g) proposer).

Definition InEdges (h : heap) (g : Graph) (subject : IdentityKey) (topic : gostring)
    (activeOnly : bool) : gores (list loc) :=
  select_edges h (keep_edge topic activeOnly) (edges_at (g_inEdges g) subject).

Definition TopicEdges (h : heap) (g : Graph) (topic : gostring) (activeOnly : bool) :
    gores (list loc) :=
  select_edges h (fun e => negb (activeOnly && negb (e_isActive e)))
    (edges_at (g_topicIndex g) topic).

(** Go iterates over a map in no particular order. *)
Definition Nodes (g : Graph) (nodes : list IdentityKey) : Prop := nodes ≡ₚ elements (g_nodes g).
Definition NodeCount (g : Graph) : Z := Z.of_nat (size (g_nodes g)).
Definition EdgeCount (g : Graph) : Z := Z.of_nat (size (g_edgesByDigest g)).

Definition count_active (h : heap) (_ : Digest) (l : loc) (count : Z) : Z :=
  match h !! l with
  | Some e => if e_isActive e then count + 1 else count
  | None => count
  end.
Definition ActiveEdgeCount (h : heap) (g : Graph) : Z :=
  map_fold (count_active h) 0 (g_edgesByDigest g).

(** ** The log

    What a graph stands for: the edges in the order they were added, each as
    it is now.  Revocation finds the edge by digest. *)

Abbreviation entry := (loc * AttestationEdge)%type.

Definition has_digest (d : Digest) (e : AttestationEdge) : bool :=
  bool_decide (e_recordDigest e = d).

(** Who may revoke, by role: 1 is the proposer, 2 the subject. *)
Definition may_revoke (e : AttestationEdge) (revoker : IdentityKey) (role : Z) : gores unit :=
  let only (party : string) (key : IdentityKey) : gores unit :=
    if decide (revoker = key) then Ok tt
    else fail (Wrapped ("revoker %s is not " ++ party ++ " %s")%string [hex_arg revoker; hex_arg key]
                 ErrUnauthorizedRevoker) in
  match role with
  | 1 => only "proposer"%string (e_proposer e)
  | 2 => only "subject"%string (e_subject e)
  | _ => fail (Errorf "unknown revoker role: %d" [role])
  end.

Lemma authorize_spec e revoker role : authorize e revoker role = may_revoke e revoker role.
Proof.
  unfold authorize, may_revoke, endorsementv1.RevokerRoleProposer, endorsementv1.RevokerRoleSubject.
  destruct (Z.eqb_spec role 1) as [->|H1]; [case_bool_decide; by case_decide|].
  destruct (Z.eqb_spec role 2) as [->|H2]; [case_bool_decide; by case_decide|].
  destruct role as [|[|[]|]|]; done.
Qed.

Definition log_revoke (log : list AttestationEdge) (targetDigest : Digest)
    (revoker : IdentityKey) (role revokedAt : Z) (revocationDigest : Digest)
    (reason : gostring) : gores (list AttestationEdge) :=
  match List.find (has_digest targetDigest) log with
  | None => fail (Wrapped "%x" [hex_arg targetDigest] ErrEdgeNotFound)
  | Some e =>
      if negb (e_isActive e)
      then fail (Wrapped "%x" [hex_arg targetDigest] ErrEdgeAlreadyRevoked)
      else
        _ <~ may_revoke e revoker role ;;
        Ok (map (fun e' => if has_digest targetDigest e'
                           then set_revoked e' role revokedAt revocationDigest reason else e') log)
  end.

(** The edges of the log an index holds, with their addresses. *)
Definition where_edge (keep : AttestationEdge -> bool) (L : list entry) : list loc :=
  map fst (filter (fun x => keep x.2 = true) L).

Definition from_key (k : IdentityKey) (e : AttestationEdge) : bool := bool_decide (e_proposer e = k).
Definition to_key (k : IdentityKey) (e : AttestationEdge) : bool := bool_decide (e_subject e = k).
Definition on_topic (t : gostring) (e : AttestationEdge) : bool := bool_decide (e_topic e = t).

Record represents (h : heap) (g : Graph) (L : list entry) : Prop := {
  rp_heap l e : (l, e) ∈ L -> h !! l = Some e;
  rp_locs : NoDup (map fst L);
  rp_digests : NoDup (map (fun x => e_recordDigest x.2) L);
  rp_byDigest : g_edgesByDigest g = list_to_map (map (fun x => (e_recordDigest x.2, x.1)) L);
  rp_out k : edges_at (g_outEdges g) k = where_edge (from_key k) L;
  rp_in k : edges_at (g_inEdges g) k = where_edge (to_key k) L;
  rp_topic t : edges_at (g_topicIndex g) t = where_edge (on_topic t) L;
  rp_nodes : g_nodes g =
    list_to_set (map (fun x => e_proposer x.2) L) ∪ list_to_set (map (fun x => e_subject x.2) L)
}.

Lemma represents_nil h id : represents h (NewGraph id) [].
Proof.
  split; try done; try constructor. intros l e H. by apply not_elem_of_nil in H.
Qed.

Lemma where_edge_app keep L1 L2 :
  where_edge keep (L1 ++ L2) = where_edge keep L1 ++ where_edge keep L2.
Proof. unfold where_edge. by rewrite filter_app, map_app. Qed.

Lemma where_edge_one keep x : where_edge keep [x] = if keep x.2 then [x.1] else [].
Proof.
  unfold where_edge. destruct (keep x.2) eqn:E.
  - by rewrite filter_cons_True.
  - rewrite filter_cons_False; [done|congruence].
Qed.

Lemma edges_at_append `{Countable Key} (k k' : Key) l m :
  edges_at (append_at k l m) k' = edges_at m k' ++ (if bool_decide (k = k') then [l] else []).
Proof.
  unfold edges_at at 1, append_at. destruct (decide (k = k')) as [<-|Hne].
  - by rewrite lookup_insert_eq, bool_decide_eq_true_2.
  - rewrite lookup_insert_ne, bool_decide_eq_false_2 by done. by rewrite app_nil_r.
Qed.

Section Representation.
Context {h : heap} {g : Graph} {L : list entry} (R : represents h g L).

Lemma byDigest_pairs_NoDup : NoDup (map fst (map (fun x : entry => (e_recordDigest x.2, x.1)) L)).
Proof using R. rewrite map_map. apply (rp_digests _ _ _ R). Qed.

Lemma lookup_digest d l :
  g_edgesByDigest g !! d = Some l <-> exists e, (l, e) ∈ L /\ e_recordDigest e = d.
Proof using R.
  rewrite (rp_byDigest _ _ _ R), <- elem_of_list_to_map by apply byDigest_pairs_NoDup.
  rewrite list_elem_of_fmap. split.
  - intros ([l' e] & [= -> ->] & Hin). by exists e.
  - intros (e & Hin & <-). by exists (l, e).
Qed.

Lemma lookup_digest_None d :
  g_edgesByDigest g !! d = None <-> List.find (has_digest d) (map snd L) = None.
Proof using R.
  split.
  - intros Hn. destruct (List.find _ _) as [e|] eqn:Hf; [|done].
    apply find_some in Hf as [Hin Hd]. apply in_map_iff in Hin as ([l e'] & <- & Hin).
    apply bool_decide_eq_true in Hd. apply list_elem_of_In in Hin.
    assert (g_edgesByDigest g !! d = Some l) by (apply lookup_digest; by exists e'). congruence.
  - intros Hf. destruct (g_edgesByDigest g !! d) as [l|] eqn:Hl; [|done].
    apply lookup_digest in Hl as (e & Hin & Hd).
    eapply find_none in Hf; [|apply in_map_iff; exists (l, e); split; [done|by apply list_elem_of_In]].
    by apply bool_decide_eq_false in Hf.
Qed.

Lemma find_digest d l :
  g_edgesByDigest g !! d = Some l ->
  exists e, (l, e) ∈ L /\ h !! l = Some e /\ List.find (has_digest d) (map snd L) = Some e.
Proof using R.
  intros Hl. pose proof Hl as Hl'. apply lookup_digest in Hl as (e & Hin & Hd).
  exists e. split; [done|]. split; [by apply (rp_heap _ _ _ R)|].
  destruct (List.find _ _) as [e'|] eqn:Hf.
  2: { apply lookup_digest_None in Hf. congruence. }
  apply find_some in Hf as [Hin' Hd']. apply in_map_iff in Hin' as ([l' e''] & Heq & Hin').
  cbn in Heq. subst e''. apply bool_decide_eq_true in Hd'. apply list_elem_of_In in Hin'.
  assert (g_edgesByDigest g !! d = Some l') as Hl2 by (apply lookup_digest; by exists e').
  rewrite Hl2 in Hl'. injection Hl' as ->. f_equal.
  apply (rp_heap _ _ _ R) in Hin, Hin'. congruence.
Qed.

(** Selecting from an index is selecting from the log. *)
Lemma select_edges_where keep index :
  select_edges h keep (where_edge index L) = Ok (where_edge (fun e => index e && keep e) L).
Proof using R.
  assert (Hheap : forall l e, (l, e) ∈ L -> h !! l = Some e) by apply R. clear R.
  induction L as [|[l e] L' IH]; [done|].
  change (where_edge ?f ((l, e) :: L')) with (where_edge f ([(l, e)] ++ L')).
  rewrite !where_edge_app, !where_edge_one. cbn [fst snd].
  assert (IH' := IH ltac:(intros; apply Hheap; by right)). clear IH.
  destruct (index e); cbn [app andb]; [|done].
  cbn [select_edges]. rewrite (Hheap l e) by left. rewrite IH'. cbn [rbind].
  by destruct (keep e).
Qed.
End Representation.

(** ** Operations on the representation *)

Lemma represents_indexes h g g' L :
  represents h g L -> g_nodes g' = g_nodes g -> g_edgesByDigest g' = g_edgesByDigest g ->
  g_outEdges g' = g_outEdges g -> g_inEdges g' = g_inEdges g -> g_topicIndex g' = g_topicIndex g ->
  represents h g' L.
Proof. intros [] Hn Hd Ho Hi Ht. split; try done; by rewrite ?Hn, ?Hd, ?Ho, ?Hi, ?Ht. Qed.

Lemma represents_heap h h' g L :
  represents h g L -> (forall l, l ∈ map fst L -> h' !! l = h !! l) -> represents h' g L.
Proof.
  intros [] Hh. split; try done. intros l e Hin. rewrite Hh; [by auto|].
  apply list_elem_of_fmap. by exists (l, e).
Qed.

Definition max_sequence (last seq : Z) : Z := if last <? seq then seq else last.

Lemma AddEdge_fresh h g L l e :
  represents h g L -> h !! l = Some e -> l ∉ map fst L ->
  List.find (has_digest (e_recordDigest e)) (map snd L) = None ->
  exists g', AddEdge h g (Some l) = Ok g' /\ represents h g' (L ++ [(l, e)]) /\
    g_lastSequence g' = max_sequence (g_lastSequence g) (e_sequence e) /\
    g_ledgerID g' = g_ledgerID g.
Proof.
  intros R Hl Hfresh Hd. unfold AddEdge. rewrite Hl.
  assert (Hn : g_edgesByDigest g !! e_recordDigest e = None) by by apply (lookup_digest_None R).
  rewrite Hn. eexists. split; [reflexivity|]. split; [|done].
  split; cbn [g_nodes g_edgesByDigest g_outEdges g_inEdges g_topicIndex].
  - intros l' e' [Hin|[= -> ->]%list_elem_of_singleton]%elem_of_app; [|done].
    by apply (rp_heap _ _ _ R).
  - rewrite map_app. apply NoDup_app. split_and!; [apply R| |apply NoDup_singleton].
    intros x Hx ->%list_elem_of_singleton. done.
  - rewrite map_app. apply NoDup_app. split_and!; [apply R| |apply NoDup_singleton].
    intros x ([l' e'] & -> & Hin)%list_elem_of_fmap He%list_elem_of_singleton. cbn in He.
    assert (g_edgesByDigest g !! e_recordDigest e = Some l')
      by (apply (lookup_digest R); exists e'; by split). congruence.
  - rewrite map_app, (rp_byDigest _ _ _ R), list_to_map_app. cbn [map list_to_map foldr].
    rewrite insert_empty, <- insert_union_singleton_r; [done|].
    rewrite <- (rp_byDigest _ _ _ R). exact Hn.
  - intros k. rewrite edges_at_append, where_edge_app, where_edge_one, (rp_out _ _ _ R). done.
  - intros k. rewrite edges_at_append, where_edge_app, where_edge_one, (rp_in _ _ _ R). done.
  - intros t. rewrite edges_at_append, where_edge_app, where_edge_one, (rp_topic _ _ _ R). done.
  - rewrite !map_app, (rp_nodes _ _ _ R), !list_to_set_app_L. cbn [map list_to_set]. set_solver.
Qed.

Lemma AddEdge_duplicate h g L l e e' :
  represents h g L -> h !! l = Some e ->
  List.find (has_digest (e_recordDigest e)) (map snd L) = Some e' ->
  AddEdge h g (Some l) = fail (Wrapped "%x" [hex_arg (e_recordDigest e)] ErrDuplicateEdge).
Proof.
  intros R Hl Hf. unfold AddEdge. rewrite Hl.
  destruct (g_edgesByDigest g !! e_recordDigest e) eqn:E; [done|].
  apply (lookup_digest_None R) in E. congruence.
Qed.

(** An update of edges that keeps what the indexes depend on. *)
Lemma represents_map h h' g L (f : AttestationEdge -> AttestationEdge) :
  represents h g L ->
  (forall e, e_recordDigest (f e) = e_recordDigest e /\ e_proposer (f e) = e_proposer e /\
     e_subject (f e) = e_subject e /\ e_topic (f e) = e_topic e) ->
  (forall l e, (l, e) ∈ L -> h' !! l = Some (f e)) ->
  represents h' g (map (fun x => (x.1, f x.2)) L).
Proof.
  intros R Hf Hh.
  assert (Hw : forall keep, (forall e, keep (f e) = keep e) ->
    where_edge keep (map (fun x => (x.1, f x.2)) L) = where_edge keep L).
  { intros keep Hk. clear R Hh. induction L as [|x L' IH]; [done|]. cbn [map].
    change (where_edge keep (?a :: ?b)) with (where_edge keep ([a] ++ b)).
    rewrite !where_edge_app, IH, !where_edge_one. cbn. by rewrite Hk. }
  split.
  - intros l e ([l' e'] & [= -> ->] & Hin)%list_elem_of_fmap. by apply Hh.
  - rewrite map_map. apply R.
  - rewrite map_map. cbn. erewrite map_ext; [apply R|]. intros x. cbn. apply Hf.
  - rewrite (rp_byDigest _ _ _ R), map_map. f_equal. apply map_ext. intros x. cbn.
    by rewrite (proj1 (Hf _)).
  - intros k. rewrite Hw; [apply R|]. intros e. unfold from_key. by destruct (Hf e) as (_ & -> & _).
  - intros k. rewrite Hw; [apply R|]. intros e. unfold to_key. by destruct (Hf e) as (_ & _ & -> & _).
  - intros t. rewrite Hw; [apply R|]. intros e. unfold on_topic. by destruct (Hf e) as (_ & _ & _ & ->).
  - rewrite (rp_nodes _ _ _ R), !map_map. f_equal; f_equal; apply map_ext; intros x; cbn; by destruct (Hf x.2) as (_ & ? & ? & _).
Qed.

Lemma revoke_simulation h g L d revoker role at_ rd reason seq :
  represents h g L ->
  match log_revoke (map snd L) d revoker role at_ rd reason,
        RevokeEdge h g d revoker role at_ rd reason seq with
  | Ok log', Ok (h', g') =>
      exists L', represents h' g' L' /\ map snd L' = log' /\ map fst L' = map fst L /\
        g_lastSequence g' = max_sequence (g_lastSequence g) seq /\
        g_ledgerID g' = g_ledgerID g /\ dom h' = dom h
  | Err f, Err f' => f = f'
  | _, _ => False
  end.
Proof.
  intros R. unfold log_revoke, RevokeEdge.
  destruct (g_edgesByDigest g !! d) as [l|] eqn:Hl.
  2: { apply (lookup_digest_None R) in Hl. by rewrite Hl. }
  destruct (find_digest R d l Hl) as (e & Hin & Hh & ->). rewrite Hh.
  destruct (e_isActive e); [|done]. cbn [negb]. rewrite authorize_spec.
  destruct (may_revoke e revoker role) as [[]|f]; [|done]. cbn [rbind].
  set (f := fun e' => if has_digest d e' then set_revoked e' role at_ rd reason else e').
  exists (map (fun x => (x.1, f x.2)) L). rewrite !map_map. cbn [fst snd].
  assert (Hd : e_recordDigest e = d).
  { apply (lookup_digest R) in Hl as (e2 & Hin2 & <-). apply (rp_heap _ _ _ R) in Hin, Hin2. congruence. }
  split; [|split; [done|split; [done|]]].
  - assert (RL : represents (<[l := set_revoked e role at_ rd reason]> h) g
      (map (fun x => (x.1, f x.2)) L)).
    { eapply represents_map; [exact R|..].
      - intros e'. subst f. cbn. by destruct (has_digest d e').
      - intros l' e' Hin'. subst f. cbn. unfold has_digest.
        destruct (bool_decide_reflect (e_recordDigest e' = d)) as [Hd'|Hd'].
        + assert (g_edgesByDigest g !! d = Some l') as Hl2
            by (apply (lookup_digest R); by exists e').
          rewrite Hl2 in Hl. injection Hl as ->. rewrite lookup_insert_eq.
          apply (rp_heap _ _ _ R) in Hin'. congruence.
        + rewrite lookup_insert_ne; [by apply (rp_heap _ _ _ R)|].
          intros ->. apply (rp_heap _ _ _ R) in Hin'. congruence. }
    destruct (g_lastSequence g <? seq); [|done]. by eapply represents_indexes.
  - unfold max_sequence. rewrite dom_insert_lookup_L by (by eexists).
    by destruct (g_lastSequence g <? seq).
Qed.

(** ** Counts *)

Lemma EdgeCount_log h g L : represents h g L -> EdgeCount g = len L.
Proof.
  intros R. unfold EdgeCount, len. rewrite <- length_map_to_list, (rp_byDigest _ _ _ R).
  rewrite map_to_list_to_map by apply (byDigest_pairs_NoDup R). by rewrite length_map.
Qed.

Lemma ActiveEdgeCount_log h g L :
  represents h g L -> ActiveEdgeCount h g = len (filter (fun x => e_isActive x.2 = true) L).
Proof.
  intros R. unfold ActiveEdgeCount. rewrite map_fold_foldr, (rp_byDigest _ _ _ R).
  rewrite (foldr_permutation eq (uncurry (count_active h)) 0 _
    (map (fun x => (e_recordDigest x.2, x.1)) L)).
  3: apply map_to_list_to_map, (byDigest_pairs_NoDup R).
  2: { intros _ [d1 l1] _ [d2 l2] a _ _ _. cbn. unfold count_active. repeat case_match; lia. }
  assert (Hheap : forall l e, (l, e) ∈ L -> h !! l = Some e) by apply R. clear R.
  induction L as [|[l e] L' IH]; [done|]. cbn [map foldr uncurry].
  rewrite IH by (intros; apply Hheap; by right). unfold count_active.
  cbn [fst snd]. rewrite (Hheap l e) by left. destruct (e_isActive e) eqn:E.
  - rewrite filter_cons_True by done. rewrite len_cons. lia.
  - rewrite filter_cons_False; [done|]. cbn. congruence.
Qed.

(** ** Properties *)

(** C15: the graph implements the log. Adding an edge object appends it to
    the log unless an edge with its record digest is there, and revoking by
    digest revokes the log's edge with that digest or fails with the log's
    error (not found, already revoked, not authorized); the indexes keep
    describing the log, the sequence watermark never falls, and a failed
    operation changes nothing. *)
Theorem graph_refines_log h g L :
  represents h g L ->
  (forall l e, h !! l = Some e -> l ∉ map fst L ->
     match List.find (has_digest (e_recordDigest e)) (map snd L) with
     | None => exists g', AddEdge h g (Some l) = Ok g' /\ represents h g' (L ++ [(l, e)]) /\
         g_lastSequence g' = max_sequence (g_lastSequence g) (e_sequence e)
     | Some _ => AddEdge h g (Some l)
         = fail (Wrapped "%x" [hex_arg (e_recordDigest e)] ErrDuplicateEdge)
     end) /\
  (forall d revoker role at_ rd reason seq,
     match log_revoke (map snd L) d revoker role at_ rd reason,
           RevokeEdge h g d revoker role at_ rd reason seq with
     | Ok log', Ok (h', g') =>
         exists L', represents h' g' L' /\ map snd L' = log' /\ map fst L' = map fst L /\
           g_lastSequence g' = max_sequence (g_lastSequence g) seq
     | Err f, Err f' => f = f'
     | _, _ => False
     end).
Proof.
  intros R. split.
  - intros l e Hl Hfresh. destruct (List.find _ _) as [e'|] eqn:Hf.
    + by eapply AddEdge_duplicate.
    + destruct (AddEdge_fresh h g L l e R Hl Hfresh Hf) as (g' & ? & ? & ? & _). by exists g'.
  - intros d revoker role at_ rd reason seq.
    pose proof (revoke_simulation h g L d revoker role at_ rd reason seq R) as H.
    destruct (log_revoke _ _ _ _ _ _ _) as [log'|f]; destruct (RevokeEdge _ _ _ _ _ _ _ _ _) as [[h' g']|f'];
      try done. destruct H as (L' & ? & ? & ? & ? & _). by exists L'.
Qed.

(** C31: queries read the log. The three indexed queries return, in admission
    order, the addresses of exactly the edges of the log that match the
    proposer, subject or topic, the topic filter and the activity filter; a
    lookup by digest returns the edge with that digest; the counts are those
    of the log. None of them panics. *)
Theorem graph_queries_log h g L :
  represents h g L ->
  (forall k topic active, OutEdges h g k topic active
     = Ok (where_edge (fun e => from_key k e && keep_edge topic active e) L)) /\
  (forall k topic active, InEdges h g k topic active
     = Ok (where_edge (fun e => to_key k e && keep_edge topic active e) L)) /\
  (forall topic active, TopicEdges h g topic active
     = Ok (where_edge (fun e => on_topic topic e && negb (active && negb (e_isActive e))) L)) /\
  (forall d l, EdgeByDigest g d = Some l <-> exists e, (l, e) ∈ L /\ e_recordDigest e = d) /\
  EdgeCount g = len L /\
  ActiveEdgeCount h g = len (filter (fun x => e_isActive x.2 = true) L).
Proof.
  intros R. split_and!.
  - intros. unfold OutEdges. rewrite (rp_out _ _ _ R). apply (select_edges_where R).
  - intros. unfold InEdges. rewrite (rp_in _ _ _ R). apply (select_edges_where R).
  - intros. unfold TopicEdges. rewrite (rp_topic _ _ _ R). apply (select_edges_where R).
  - intros. apply (lookup_digest R).
  - by eapply EdgeCount_log.
  - by apply ActiveEdgeCount_log.
Qed.

(** ** Witnesses *)

Definition sample_edge : AttestationEdge :=
  NewAttestationEdge (zero_array 32) 2 sample_identity (copy_array 65 [x04]) (gostr "go")
    (Some [x01]) 5 6.
Definition sample_heap : heap := {[0%nat := sample_edge]}.

Lemma sample_graph : exists g,
  AddEdge sample_heap (NewGraph (zero_array 32)) (Some 0%nat) = Ok g /\
  represents sample_heap g [(0%nat, sample_edge)].
Proof.
  destruct (AddEdge_fresh sample_heap (NewGraph (zero_array 32)) [] 0 sample_edge) as (g & H & R & _).
  - apply represents_nil.
  - reflexivity.
  - apply not_elem_of_nil.
  - reflexivity.
  - by exists g.
Qed.

Lemma graph_refines_log_witness : exists g,
  AddEdge sample_heap (NewGraph (zero_array 32)) (Some 0%nat) = Ok g /\ g_lastSequence g = 2.
Proof.
  destruct (proj1 (graph_refines_log sample_heap (NewGraph (zero_array 32)) []
    (represents_nil _ _)) 0%nat sample_edge eq_refl (not_elem_of_nil _)) as (g & H & _ & Hs).
  exact (ex_intro _ g (conj H Hs)).
Defined.

Lemma graph_queries_log_witness : exists g,
  OutEdges sample_heap g sample_identity (gostr "go") true = Ok [0%nat].
Proof.
  destruct sample_graph as (g & _ & R). exists g.
  rewrite (proj1 (graph_queries_log _ _ _ R)). reflexivity.
Defined.

End graphv1.
