(* ===== verification/Evaluator.v ===== *)
(** * The confidence evaluator

    [internal/graph/v1/policy.go], [provenance.go] and [evaluator.go]: the
    search for attestation paths from the trust roots to a subject, the score,
    and its provenance.  The search threads the shared [visited] map and the
    accumulators through its recursion; the specification is the set of simple
    attestation paths of the edge log. *)

From S2P Require Import Prelude Float LedgerCodec Identity Graph Text.

Module evaluator.
Import identity graphv1.

(** ** policy.go *)

Definition DefaultAlgorithmVersion : gostring := gostr "transitive-path-damping:v1".
Definition DefaultMaxHops : Z := 3.
(** 0.6 and 0.001, rounded to binary64. *)
Definition DefaultDecayFactor : float64 := S754_finite false 5404319552844595 (-53).
Definition DefaultMinConfidence : float64 := S754_finite false 4611686018427388 (-62).

Definition ErrEmptyTrustRoots : goerror := Sentinel "trust roots map cannot be empty".
Definition ErrInvalidTrustWeight : goerror := Sentinel "trust root weight must be in (0, 1.0]".
Definition ErrInvalidDecayFactor : goerror := Sentinel "decay factor must be in (0, 1.0)".
Definition ErrInvalidMaxHops : goerror := Sentinel "max hops must be greater than 0".

Record EvaluationPolicy := MkPolicy {
  TrustRoots : gmap IdentityKey float64;
  Topic : gostring;
  MaxHops : Z;
  DecayFactor : float64;
  MinConfidence : float64;
  AlgorithmVersion : gostring
}.

(** The map is copied; a copy of a map of values is the map. *)
Definition NewDefaultPolicy (trustRoots : gmap IdentityKey float64) (topic : gostring) :
    EvaluationPolicy := {|
  TrustRoots := trustRoots;
  Topic := topic;
  MaxHops := DefaultMaxHops;
  DecayFactor := DefaultDecayFactor;
  MinConfidence := DefaultMinConfidence;
  AlgorithmVersion := DefaultAlgorithmVersion
|}.

(** [weight <= 0 || weight > 1.0], false for a NaN. *)
Definition bad_weight (weight : float64) : bool :=
  f64_le weight f64_zero || f64_lt f64_one weight.

(** Go ranges over a map in no particular order: which of several bad roots
    the error names is unspecified. *)
Definition Validate (p : EvaluationPolicy) : gores EvaluationPolicy :=
  if bool_decide (TrustRoots p = ∅) then fail ErrEmptyTrustRoots
  else
    match List.find (fun kw => bad_weight kw.2) (map_to_list (TrustRoots p)) with
    | Some (root, weight) =>
        fail (Wrapped "root %s has weight %f" [hex_arg root; Float64bits weight] ErrInvalidTrustWeight)
    | None =>
        if MaxHops p <=? 0 then fail ErrInvalidMaxHops
        else if f64_le (DecayFactor p) f64_zero || f64_le f64_one (DecayFactor p)
        then fail ErrInvalidDecayFactor
        else Ok {|
          TrustRoots := TrustRoots p;
          Topic := Topic p;
          MaxHops := MaxHops p;
          DecayFactor := DecayFactor p;
          MinConfidence :=
            if f64_le (MinConfidence p) f64_zero then DefaultMinConfidence else MinConfidence p;
          AlgorithmVersion :=
            if bool_decide (AlgorithmVersion p = []) then DefaultAlgorithmVersion
            else AlgorithmVersion p
        |}
    end.

(** ** provenance.go *)

Record PathHop := MkHop {
  From : IdentityKey;
  To : IdentityKey;
  hop_Topic : gostring;
  RecordDigest : Digest;
  hop_Sequence : Z
}.

Record PathTrace := MkTrace {
  Root : IdentityKey;
  RootWeight : float64;
  Hops : list PathHop;
  PathWeight : float64
}.

Record ProvenanceSubgraph := MkSubgraph {
  sub_Nodes : list IdentityKey;
  sub_Edges : list loc
}.

Record ConfidenceResult := MkResult {
  Target : IdentityKey;
  res_Topic : gostring;
  ConfidenceScore : float64;
  Algorithm : gostring;
  EvaluatedAtSequence : Z;
  ContributingPaths : list PathTrace;
  ContributingRecords : list Digest;
  res_ProvenanceSubgraph : ProvenanceSubgraph;
  Explanation : gostring
}.

(** The digests in order, each once. *)
Fixpoint drop_repeats (previous : option Digest) (digests : list Digest) : list Digest :=
  match digests with
  | [] => []
  | d :: rest =>
      if bool_decide (previous = Some d) then drop_repeats (Some d) rest
      else d :: drop_repeats (Some d) rest
  end.

Definition DeduplicateDigests (digests : list Digest) : list Digest :=
  if len digests =? 0 then []
  else drop_repeats None (sort_Slice bytes_lt arr_list digests).

Section Explanation.
Context {U : Unicode}.

Definition explain_hop (hop : PathHop) : gostring :=
  gostr " -> [seq " ++ fmt_d (hop_Sequence hop) ++ gostr " / record " ++
  EncodeToString (take 8 (arr_list (RecordDigest hop))) ++ gostr "... / " ++
  Quote (hop_Topic hop) ++ gostr "] -> " ++ IdentityKey_String (To hop).

(** Path [i] of the list, and the paths after it. *)
Fixpoint explain_paths (i : Z) (paths : list PathTrace) : gostring :=
  match paths with
  | [] => []
  | path :: rest =>
      gostr "  Path #" ++ fmt_d (i + 1) ++ gostr " (weight = " ++ fmt_f 4 (PathWeight path) ++
      gostr "): Root " ++ IdentityKey_String (Root path) ++ gostr " (w=" ++
      fmt_f 2 (RootWeight path) ++ gostr ")" ++
      concat (map explain_hop (Hops path)) ++ [x0a] ++
      explain_paths (i + 1) rest
  end.

Definition BuildExplanation (res : ConfidenceResult) : gostring :=
  let head :=
    gostr "Evaluated confidence for identity " ++ IdentityKey_String (Target res) ++
    gostr " on topic " ++ Quote (res_Topic res) ++ gostr " at ledger sequence " ++
    fmt_d (EvaluatedAtSequence res) ++ gostr ": score = " ++ fmt_f 4 (ConfidenceScore res) ++
    gostr " (" ++ Algorithm res ++ gostr ")." ++ [x0a] in
  if len (ContributingPaths res) =? 0
  then head ++ gostr "No active attestation paths found from the configured trust roots." ++ [x0a]
  else
    head ++ gostr "Confidence derived from " ++ fmt_d (len (ContributingPaths res)) ++
    gostr " independent testimonial path(s) across " ++ fmt_d (len (ContributingRecords res)) ++
    gostr " underlying ledger record(s):" ++ [x0a] ++
    explain_paths 0 (ContributingPaths res).
End Explanation.

(** ** evaluator.go *)

(** What the recursion of [findPaths] shares: the map of visited nodes and the
    four accumulators. *)
Record search := MkSearch {
  visited : gmap IdentityKey bool;
  allPaths : list PathTrace;
  subgraphNodeSet : gset IdentityKey;
  subgraphEdgeSet : gmap Digest loc;
  contributingDigests : list Digest
}.

Definition set_visited (n : IdentityKey) (b : bool) (st : search) : search :=
  MkSearch (<[n := b]> (visited st)) (allPaths st) (subgraphNodeSet st) (subgraphEdgeSet st)
    (contributingDigests st).

(** A missing key of a map of booleans reads as false. *)
Definition is_visited (st : search) (n : IdentityKey) : bool := default false (visited st !! n).

(** The loop over the hops of a path that reached the target. *)
Definition record_hop (g : Graph) (st : search) (h : PathHop) : search :=
  MkSearch (visited st) (allPaths st)
    ({[To h]} ∪ ({[From h]} ∪ subgraphNodeSet st))
    (match EdgeByDigest g (RecordDigest h) with
     | Some edgeObj => <[RecordDigest h := edgeObj]> (subgraphEdgeSet st)
     | None => subgraphEdgeSet st
     end)
    (contributingDigests st ++ [RecordDigest h]).

Definition record_path (g : Graph) (root target : IdentityKey) (st : search) (path : PathTrace) :
    search :=
  foldl (record_hop g)
    (MkSearch (visited st) (allPaths st ++ [path])
       ({[target]} ∪ ({[root]} ∪ subgraphNodeSet st))
       (subgraphEdgeSet st) (contributingDigests st))
    (Hops path).

(** [None] when the fuel of the recursion runs out. *)
Abbreviation outcome := (fun A => option (gores A)).

Fixpoint each {S A} (f : S -> A -> outcome S) (st : S) (l : list A) : outcome S :=
  match l with
  | [] => Some (Ok st)
  | a :: rest =>
      match f st a with
      | Some (Ok st') => each f st' rest
      | stop => stop
      end
  end.

Section Search.
Context (h : heap) (g : Graph).
Context (policy : EvaluationPolicy) (root : IdentityKey) (rootWeight : float64)
  (target : IdentityKey).

(** Edges were read by the query that returned them. *)
Definition sequence_at (l : loc) : Z :=
  match h !! l with Some e => e_sequence e | None => 0 end.

Definition hop_of (current : IdentityKey) (edge : AttestationEdge) : PathHop := {|
  From := current;
  To := e_subject edge;
  hop_Topic := e_topic edge;
  RecordDigest := e_recordDigest edge;
  hop_Sequence := e_sequence edge
|}.

(** The body of the loop over the edges out of [current]; [recurse] is the
    recursive call, given the node, weight and hops. *)
Definition visit_edge
    (recurse : IdentityKey -> float64 -> list PathHop -> search -> outcome search)
    (current : IdentityKey) (currentWeight : float64) (currentHops : list PathHop) (depth : Z)
    (st : search) (l : loc) : outcome search :=
  match h !! l with
  | None => Some (Err (Panic "nil pointer dereference"))
  | Some edge =>
      let neighbor := e_subject edge in
      if is_visited st neighbor then Some (Ok st)
      else
        let pathWeight := f64_mul currentWeight (DecayFactor policy) in
        if f64_lt pathWeight (MinConfidence policy) then Some (Ok st)
        else
          let nextHops := currentHops ++ [hop_of current edge] in
          if bool_decide (neighbor = target) then
            Some (Ok (record_path g root target st (MkTrace root rootWeight nextHops pathWeight)))
          else if depth <? MaxHops policy then
            match recurse neighbor pathWeight nextHops (set_visited neighbor true st) with
            | Some (Ok st') => Some (Ok (set_visited neighbor false st'))
            | stop => stop
            end
          else Some (Ok st)
  end.

Fixpoint findPaths (fuel : nat) (current : IdentityKey) (currentWeight : float64)
    (currentHops : list PathHop) (depth : Z) (st : search) : outcome search :=
  match fuel with
  | O => None
  | S fuel' =>
      if MaxHops policy <? depth then Some (Ok st)
      else
        match OutEdges h g current (Topic policy) true with
        | Err f => Some (Err f)
        | Ok outEdges =>
            each (visit_edge
                    (fun neighbor weight hops => findPaths fuel' neighbor weight hops (depth + 1))
                    current currentWeight currentHops depth)
              st (sort_Slice Z.ltb sequence_at outEdges)
        end
  end.
End Search.

Section Evaluate.
Context {U : Unicode} (h : heap) (g : Graph).

(** The loop over the roots; a root that is the target contributes its node. *)
Definition visit_root (fuel : nat) (policy : EvaluationPolicy) (target : IdentityKey)
    (st : search) (root : IdentityKey * float64) : outcome search :=
  let '(key, weight) := root in
  if bool_decide (key = target) then
    Some (Ok (MkSearch (visited st) (allPaths st) ({[target]} ∪ subgraphNodeSet st)
                (subgraphEdgeSet st) (contributingDigests st)))
  else
    findPaths h g policy key weight target fuel key weight [] 1
      (MkSearch {[key := true]} (allPaths st) (subgraphNodeSet st) (subgraphEdgeSet st)
         (contributingDigests st)).

Definition sorted_roots (policy : EvaluationPolicy) : list (IdentityKey * float64) :=
  sort_Slice bytes_lt (fun kw => Hex kw.1) (map_to_list (TrustRoots policy)).

Definition no_search : search := MkSearch ∅ [] ∅ ∅ [].

(** The noisy-OR of the paths and of direct trust. *)
Definition unconfidence (directTrust : float64) (paths : list PathTrace) : float64 :=
  foldl (fun u path => f64_mul u (f64_sub f64_one (PathWeight path)))
    (f64_sub f64_one directTrust) paths.

Definition confidence (directTrust : float64) (paths : list PathTrace) : float64 :=
  math_Max f64_zero (math_Min f64_one (f64_sub f64_one (unconfidence directTrust paths))).

Definition set_Explanation (res : ConfidenceResult) (text : gostring) : ConfidenceResult :=
  MkResult (Target res) (res_Topic res) (ConfidenceScore res) (Algorithm res)
    (EvaluatedAtSequence res) (ContributingPaths res) (ContributingRecords res)
    (res_ProvenanceSubgraph res) text.

(** After the search: score, provenance and explanation. *)
Definition assemble (policy : EvaluationPolicy) (target : IdentityKey) (st : search) :
    ConfidenceResult :=
  let directTrust := default f64_zero (TrustRoots policy !! target) in
  let result := {|
    Target := target;
    res_Topic := Topic policy;
    ConfidenceScore := confidence directTrust (allPaths st);
    Algorithm := AlgorithmVersion policy;
    EvaluatedAtSequence := g_lastSequence g;
    ContributingPaths := allPaths st;
    ContributingRecords := DeduplicateDigests (contributingDigests st);
    res_ProvenanceSubgraph := {|
      sub_Nodes := sort_Slice bytes_lt Hex (elements (subgraphNodeSet st));
      sub_Edges := sort_Slice Z.ltb (sequence_at h) (map snd (map_to_list (subgraphEdgeSet st)))
    |};
    Explanation := []
  |} in
  set_Explanation result (BuildExplanation result).

Definition Evaluate (fuel : nat) (policy : EvaluationPolicy) (target : IdentityKey) :
    outcome ConfidenceResult :=
  match Validate policy with
  | Err f => Some (Err (wrap "invalid evaluation policy" f))
  | Ok policy =>
      match each (visit_root fuel policy target) no_search (sorted_roots policy) with
      | Some (Ok st) => Some (Ok (assemble policy target st))
      | Some (Err f) => Some (Err f)
      | None => None
      end
  end.
End Evaluate.
End evaluator.
