(* ===== verification/EvaluatorSpec.v ===== *)
(** * What the evaluator computes

    The search of [Evaluator] against its specification: the simple paths of
    active endorsements from a trust root to the subject.  Scores stay in the
    unit interval and grow with the testimony; provenance is exactly what lies
    on the paths. *)

From S2P Require Import Prelude Float LedgerCodec Identity Text Graph Evaluator.

Module evaluator_spec.
Import identity graphv1 evaluator.

(** ** Attestation paths *)

Section Paths.
Context (log : list AttestationEdge) (policy : EvaluationPolicy) (target : IdentityKey).

(** An endorsement that may be followed from [current]. *)
Definition available (current : IdentityKey) (e : AttestationEdge) : Prop :=
  e ∈ log /\ e_proposer e = current /\ keep_edge (Topic policy) true e = true.

(** Each endorsement is by the subject of the one before. *)
Fixpoint linked (current : IdentityKey) (es : list AttestationEdge) : Prop :=
  match es with
  | [] => True
  | e :: es' => available current e /\ linked (e_subject e) es'
  end.

(** The weight [n] hops away from a node of weight [w]. *)
Fixpoint weight_after (w : float64) (n : nat) : float64 :=
  match n with
  | O => w
  | S n' => weight_after (f64_mul w (DecayFactor policy)) n'
  end.

(** The endorsements [es] attest the subject from [root]: a path of active
    endorsements on the topic that visits no identity twice, ends at the
    subject, is not too long, and whose weight never falls below the cutoff. *)
Definition attests (root : IdentityKey) (w : float64) (es : list AttestationEdge) : Prop :=
  linked root es /\
  NoDup (root :: map e_subject es) /\
  last (map e_subject es) = Some target /\
  len es <= MaxHops policy /\
  forall n, (1 <= n <= length es)%nat -> f64_lt (weight_after w n) (MinConfidence policy) = false.

Fixpoint hops_from (current : IdentityKey) (es : list AttestationEdge) : list PathHop :=
  match es with
  | [] => []
  | e :: es' => hop_of current e :: hops_from (e_subject e) es'
  end.

Definition trace_of (root : IdentityKey) (w : float64) (es : list AttestationEdge) : PathTrace :=
  MkTrace root w (hops_from root es) (weight_after w (length es)).

(** The same by recursion along the path, with the nodes visited before. *)
Inductive trail : IdentityKey -> float64 -> gset IdentityKey -> Z -> list AttestationEdge -> Prop :=
  | trail_end current w V depth e :
      available current e -> e_subject e ∉ V ->
      f64_lt (f64_mul w (DecayFactor policy)) (MinConfidence policy) = false ->
      depth <= MaxHops policy -> e_subject e = target ->
      trail current w V depth [e]
  | trail_hop current w V depth e es :
      available current e -> e_subject e ∉ V ->
      f64_lt (f64_mul w (DecayFactor policy)) (MinConfidence policy) = false ->
      depth < MaxHops policy -> e_subject e <> target ->
      trail (e_subject e) (f64_mul w (DecayFactor policy)) ({[e_subject e]} ∪ V) (depth + 1) es ->
      trail current w V depth (e :: es).

Lemma trail_closed current w V depth es :
  trail current w V depth es <->
    linked current es /\ NoDup (map e_subject es) /\
    Forall (fun e => e_subject e ∉ V) es /\ last (map e_subject es) = Some target /\
    depth + len es - 1 <= MaxHops policy /\
    forall n, (1 <= n <= length es)%nat -> f64_lt (weight_after w n) (MinConfidence policy) = false.
Proof.
  split.
  - induction 1 as [current w V depth e Ha HV Hw Hd Ht|current w V depth e es Ha HV Hw Hd Ht Htr IH].
    + split_and!; [done|apply NoDup_singleton|by constructor|by cbn; rewrite Ht|unfold len; cbn; lia|].
      intros n Hn. cbn in Hn. by replace n with 1%nat by lia.
    + destruct IH as (Hl & Hnd & Hf & Hlast & Hlen & Hws). rewrite len_cons.
      split_and!; [done| |constructor; [done|]| |lia|].
      * cbn. apply NoDup_cons. split; [|done].
        intros (e' & He & Hin)%list_elem_of_fmap. rewrite Forall_forall in Hf.
        apply (Hf e' Hin). rewrite <- He. set_solver.
      * eapply Forall_impl; [exact Hf|]. set_solver.
      * cbn. by rewrite last_cons, Hlast.
      * intros [|[|n]] Hn; [lia|done|]. apply (Hws (S n)). cbn in Hn. lia.
  - revert current w V depth. induction es as [|e es IH];
      intros current w V depth (Hl & Hnd & Hf & Hlast & Hlen & Hws); [done|].
    destruct Hl as [Ha Hl]. cbn in Hnd. apply NoDup_cons in Hnd as [Hn Hnd].
    apply Forall_cons in Hf as [HV Hf]. rewrite len_cons in Hlen.
    assert (f64_lt (f64_mul w (DecayFactor policy)) (MinConfidence policy) = false) as Hw
      by (apply (Hws 1%nat); cbn; lia).
    destruct es as [|e2 es].
    + cbn in Hlast. injection Hlast as Ht. apply trail_end; [done..| |done]. unfold len in Hlen. cbn in Hlen. lia.
    + rewrite len_cons in Hlen. pose proof (len_nonneg es).
      assert (last (map e_subject (e2 :: es)) = Some target) as Hlast'
        by exact Hlast.
      apply trail_hop; [done..|lia| |].
      * intros Ht. apply Hn. rewrite Ht. by apply last_Some_elem_of.
      * apply IH. rewrite len_cons. split_and!; [done..| |done|lia|].
        -- rewrite Forall_forall in Hf |- *. intros e' Hin.
           pose proof (list_elem_of_fmap_2 e_subject _ _ Hin). specialize (Hf e' Hin). set_solver.
        -- intros n Hn'. apply (Hws (S n)). cbn in *. lia.
Qed.

Lemma trail_attests root w es : trail root w {[root]} 1 es <-> attests root w es.
Proof.
  rewrite trail_closed. unfold attests. rewrite NoDup_cons, Forall_forall.
  assert (root ∉ map e_subject es <-> forall e, e ∈ es -> e_subject e ∉ ({[root]} : gset IdentityKey)) as ->.
  { rewrite list_elem_of_fmap. set_solver. }
  replace (1 + len es - 1) with (len es) by lia. tauto.
Qed.
End Paths.

(** ** The search as a list of paths *)

Lemma concat_elem {A B} (f : A -> list B) l y :
  y ∈ concat (map f l) <-> exists ys, y ∈ ys /\ exists x, ys = f x /\ x ∈ l.
Proof.
  rewrite list_elem_of_In, in_concat. setoid_rewrite in_map_iff. split.
  - intros (ys & (x & <- & Hx) & Hy). exists (f x). rewrite list_elem_of_In. split; [done|].
    exists x. by rewrite list_elem_of_In.
  - intros (ys & Hy & x & -> & Hx). exists (f x). apply list_elem_of_In in Hx. apply list_elem_of_In in Hy.
    split; [by exists x|done].
Qed.

Section Enumeration.
Context (L : list entry) (policy : EvaluationPolicy)
  (root : IdentityKey) (rootWeight : float64) (target : IdentityKey).

(** The endorsements available from [current], in sequence order. *)
Definition follows (current : IdentityKey) (x : entry) : bool :=
  from_key current x.2 && keep_edge (Topic policy) true x.2.

Definition outs (current : IdentityKey) : list entry :=
  sort_Slice Z.ltb (fun x => e_sequence x.2) (filter (fun x => follows current x = true) L).

Definition paths_via
    (recurse : IdentityKey -> float64 -> list PathHop -> gset IdentityKey -> list PathTrace)
    (current : IdentityKey) (w : float64) (hops : list PathHop) (V : gset IdentityKey) (depth : Z)
    (x : entry) : list PathTrace :=
  let e := x.2 in
  if bool_decide (e_subject e ∈ V) then []
  else
    let w' := f64_mul w (DecayFactor policy) in
    if f64_lt w' (MinConfidence policy) then []
    else
      let hops' := hops ++ [hop_of current e] in
      if bool_decide (e_subject e = target) then [MkTrace root rootWeight hops' w']
      else if depth <? MaxHops policy
      then recurse (e_subject e) w' hops' ({[e_subject e]} ∪ V)
      else [].

Fixpoint paths_from (fuel : nat) (current : IdentityKey) (w : float64) (hops : list PathHop)
    (V : gset IdentityKey) (depth : Z) : list PathTrace :=
  match fuel with
  | O => []
  | S fuel' =>
      if MaxHops policy <? depth then []
      else
        concat (map (paths_via
          (fun next w' hops' V' => paths_from fuel' next w' hops' V' (depth + 1))
          current w hops V depth) (outs current))
  end.

Lemma outs_elem current x : x ∈ outs current <-> x ∈ L /\ follows current x = true.
Proof. unfold outs. rewrite sort_Slice_elem, list_elem_of_filter. tauto. Qed.

Lemma outs_available current x : x ∈ outs current -> available (map snd L) policy current x.2.
Proof.
  intros [Hin [Hf Hk]%andb_prop]%outs_elem. apply bool_decide_eq_true in Hf.
  split; [by apply list_elem_of_fmap_2|done].
Qed.

Lemma available_outs current e :
  available (map snd L) policy current e -> exists l, (l, e) ∈ outs current.
Proof.
  intros (([l e'] & -> & Hin)%list_elem_of_fmap & Hp & Hk). exists l. apply outs_elem.
  split; [done|]. apply andb_true_iff. split; [by apply bool_decide_eq_true|done].
Qed.

(** The identities of the log. *)
Definition log_nodes : gset IdentityKey :=
  list_to_set (map (fun x => e_proposer x.2) L) ∪ list_to_set (map (fun x => e_subject x.2) L).

Lemma outs_node current x : x ∈ outs current -> e_subject x.2 ∈ log_nodes.
Proof.
  intros [Hin _]%outs_elem. apply elem_of_union_r, elem_of_list_to_set.
  apply list_elem_of_fmap. by exists x.
Qed.

(** Each hop visits a new identity of the log. *)
Lemma unvisited_shrinks (V : gset IdentityKey) n :
  n ∈ log_nodes -> n ∉ V -> (size (log_nodes ∖ ({[n]} ∪ V)) < size (log_nodes ∖ V))%nat.
Proof.
  intros Hn HV. apply subset_size. apply strict_spec_alt. split; [set_solver|]. intros Heq.
  assert (n ∈ log_nodes ∖ V) as Hin by set_solver. rewrite <- Heq in Hin. set_solver.
Qed.

Lemma paths_from_spec fuel current w hops V depth p :
  (size (log_nodes ∖ V) < fuel)%nat ->
  p ∈ paths_from fuel current w hops V depth <->
    exists es, trail (map snd L) policy target current w V depth es /\
      p = MkTrace root rootWeight (hops ++ hops_from current es) (weight_after policy w (length es)).
Proof.
  revert current w hops V depth. induction fuel as [|fuel IH]; intros current w hops V depth Hfuel; [lia|].
  cbn [paths_from]. destruct (Z.ltb_spec (MaxHops policy) depth) as [Hd|Hd].
  { split; [by intros ?%not_elem_of_nil|]. intros (es & Htr & _). destruct Htr; lia. }
  rewrite concat_elem. split.
  - intros (ps & Hp & [l e] & -> & Hx). pose proof (outs_available _ _ Hx) as Ha. cbn in Ha.
    unfold paths_via in Hp. cbn [snd] in Hp.
    case_bool_decide as HV; [by apply not_elem_of_nil in Hp|].
    destruct (f64_lt _ _) eqn:Hw; [by apply not_elem_of_nil in Hp|].
    case_bool_decide as Ht.
    + apply list_elem_of_singleton in Hp as ->. exists [e]. split; [by apply trail_end|done].
    + destruct (Z.ltb_spec depth (MaxHops policy)) as [Hlt|]; [|by apply not_elem_of_nil in Hp].
      apply IH in Hp as (es & Htr & ->).
      * exists (e :: es). split; [by apply trail_hop|]. cbn. by rewrite <- app_assoc.
      * pose proof (unvisited_shrinks V (e_subject e) (outs_node _ _ Hx) HV). lia.
  - intros (es & Htr & ->). inversion Htr as [? ? ? ? e Ha HV Hw _ Ht|? ? ? ? e es' Ha HV Hw Hlt Ht Hrest];
      subst; destruct (available_outs _ _ Ha) as [l Hx];
      (eexists; split; [|by exists (l, e)]); unfold paths_via; cbn [snd];
      rewrite bool_decide_eq_false_2, Hw by done.
    + rewrite bool_decide_eq_true_2 by done. by apply list_elem_of_singleton.
    + rewrite bool_decide_eq_false_2 by done. rewrite (proj2 (Z.ltb_lt _ _) Hlt).
      apply IH.
      * pose proof (unvisited_shrinks V (e_subject e) (outs_node _ _ Hx) HV). lia.
      * exists es'. split; [done|]. cbn. by rewrite <- app_assoc.
Qed.

(** *** Each path once *)

Lemma paths_prefix fuel current w hops V depth p :
  p ∈ paths_from fuel current w hops V depth -> hops `prefix_of` Hops p.
Proof.
  revert current w hops V depth. induction fuel as [|fuel IH]; intros current w hops V depth;
    [by intros ?%not_elem_of_nil|].
  cbn [paths_from]. destruct (MaxHops policy <? depth); [by intros ?%not_elem_of_nil|].
  rewrite concat_elem. intros (ps & Hp & x & -> & Hx). unfold paths_via in Hp.
  repeat case_match; try by apply not_elem_of_nil in Hp.
  - apply list_elem_of_singleton in Hp as ->. by exists [hop_of current x.2].
  - apply IH in Hp as [rest ->]. rewrite <- app_assoc. by eexists.
Qed.

Lemma paths_via_prefix fuel current w hops V depth depth' x p :
  p ∈ paths_via (fun next w' hops' V' => paths_from fuel next w' hops' V' depth')
        current w hops V depth x ->
  Hops p !! length hops = Some (hop_of current x.2).
Proof.
  unfold paths_via. repeat case_match; try by intros ?%not_elem_of_nil.
  - intros ->%list_elem_of_singleton. cbn. by rewrite lookup_app_r, Nat.sub_diag by lia.
  - intros [rest ->]%paths_prefix. rewrite <- app_assoc.
    by rewrite lookup_app_r, Nat.sub_diag by lia.
Qed.
End Enumeration.

Lemma NoDup_concat_map {A B} (f : A -> list B) l :
  NoDup l -> (forall x, x ∈ l -> NoDup (f x)) ->
  (forall x y z, x ∈ l -> y ∈ l -> z ∈ f x -> z ∈ f y -> x = y) ->
  NoDup (concat (map f l)).
Proof.
  induction 1 as [|x l Hx Hl IH]; intros Hf Hd; cbn; [constructor|].
  apply NoDup_app. split_and!.
  - apply Hf. left.
  - intros z Hz (ys & Hzy & y & -> & Hy)%concat_elem.
    rewrite (Hd x y z) in Hx; [done|left|by right|done|done].
  - apply IH.
    + intros y Hy. apply Hf. by right.
    + intros y y' z Hy Hy'. apply Hd; by right.
Qed.

(** The log of a graph, with distinct sequence numbers. *)
Record sequenced (h : heap) (g : Graph) (L : list entry) : Prop := {
  sq_log : represents h g L;
  sq_distinct : NoDup (map (fun x => e_sequence x.2) L)
}.

(** Searches that differ in how unvisited nodes are recorded only. *)
Record agrees (st st' : search) : Prop := {
  ag_paths : allPaths st = allPaths st';
  ag_nodes : subgraphNodeSet st = subgraphNodeSet st';
  ag_edges : subgraphEdgeSet st = subgraphEdgeSet st';
  ag_digests : contributingDigests st = contributingDigests st';
  ag_visited n : is_visited st n = is_visited st' n
}.

#[global] Instance agrees_equivalence : Equivalence agrees.
Proof.
  split.
  - intros st. by split.
  - intros st st' []. by split.
  - intros st st' st'' [] []. split; congruence.
Qed.

#[global] Instance record_hop_proper g : Proper (agrees ==> eq ==> agrees) (record_hop g).
Proof.
  intros st st' [Hp Hn He Hd Hv] hop _ <-. split; cbn; by rewrite ?Hp, ?Hn, ?He, ?Hd.
Qed.

Lemma foldl_proper {A B} (Eq : relation A) (f : A -> B -> A) :
  Proper (Eq ==> eq ==> Eq) f -> Proper (Eq ==> eq ==> Eq) (foldl f).
Proof.
  intros Hf st st' Hst l _ <-. revert st st' Hst.
  induction l as [|b l IH]; intros st st' Hst; [done|]. cbn. apply IH. by apply Hf.
Qed.

#[global] Instance record_path_proper g root target :
  Proper (agrees ==> eq ==> agrees) (record_path g root target).
Proof.
  intros st st' [Hp Hn He Hd Hv] p _ <-. unfold record_path.
  apply (foldl_proper _ _ (record_hop_proper g)); [|done].
  split; cbn; [congruence..|exact Hv].
Qed.

#[global] Instance record_paths_proper g root target :
  Proper (agrees ==> eq ==> agrees) (foldl (record_path g root target)) :=
  foldl_proper _ _ (record_path_proper g root target).

Lemma record_hops_visited g st hops : visited (foldl (record_hop g) st hops) = visited st.
Proof. revert st. induction hops as [|hop hops IH]; intros st; [done|]. cbn. by rewrite IH. Qed.

Lemma record_paths_visited g root target st ps :
  visited (foldl (record_path g root target) st ps) = visited st.
Proof.
  revert st. induction ps as [|p ps IH]; intros st; [done|]. cbn. rewrite IH.
  unfold record_path. by rewrite record_hops_visited.
Qed.

(** Recording paths and marking nodes commute. *)
Lemma record_hops_mark g n b st hops :
  foldl (record_hop g) (set_visited n b st) hops = set_visited n b (foldl (record_hop g) st hops).
Proof. revert st. induction hops as [|hop hops IH]; intros st; [done|]. cbn. by rewrite <- IH. Qed.

Lemma record_paths_mark g root target n b st ps :
  foldl (record_path g root target) (set_visited n b st) ps
  = set_visited n b (foldl (record_path g root target) st ps).
Proof.
  revert st. induction ps as [|p ps IH]; intros st; [done|]. cbn. rewrite <- IH. f_equal.
  unfold record_path. by rewrite <- record_hops_mark.
Qed.

Lemma is_visited_set n b st m :
  is_visited (set_visited n b st) m = if bool_decide (n = m) then b else is_visited st m.
Proof.
  unfold is_visited. cbn. destruct (decide (n = m)) as [->|Hne].
  - by rewrite lookup_insert_eq, bool_decide_eq_true_2.
  - by rewrite lookup_insert_ne, bool_decide_eq_false_2.
Qed.

Section Refinement.
Context {h : heap} {g : Graph} {L : list entry} (SQ : sequenced h g L).
Let R : represents h g L := sq_log _ _ _ SQ.

Lemma log_NoDup : NoDup L.
Proof using SQ. eapply NoDup_fmap_1, (rp_locs _ _ _ R). Qed.

Lemma digest_inj x y : x ∈ L -> y ∈ L -> e_recordDigest x.2 = e_recordDigest y.2 -> x = y.
Proof using SQ. apply (NoDup_map_inj (fun x => e_recordDigest x.2)), (rp_digests _ _ _ R). Qed.

Lemma sequence_at_log x : x ∈ L -> sequence_at h x.1 = e_sequence x.2.
Proof using SQ.
  destruct x as [l e]. intros Hin. unfold sequence_at. cbn. by rewrite (rp_heap _ _ _ R l e Hin).
Qed.

Lemma filter_sequences (P : entry -> Prop) {D : forall x, Decision (P x)} :
  NoDup (map (fun x => e_sequence x.2) (filter P L)).
Proof using SQ.
  eapply sublist_NoDup; [apply (sq_distinct _ _ _ SQ)|].
  apply fmap_sublist, sublist_filter.
Qed.

(** The edges the query returns, sorted, are those of the log. *)
Lemma sorted_out_edges policy current :
  exists outEdges, OutEdges h g current (Topic policy) true = Ok outEdges /\
    sort_Slice Z.ltb (sequence_at h) outEdges = map fst (outs L policy current).
Proof using SQ.
  eexists. split.
  { unfold OutEdges. rewrite (rp_out _ _ _ R). apply (select_edges_where R). }
  unfold where_edge, outs, follows. set (F := filter _ L).
  assert (HF : forall x, x ∈ F -> x ∈ L) by (intros x [_ ?]%list_elem_of_filter; done).
  assert (Hkeys : map (sequence_at h) (map fst F) = map (fun x => e_sequence x.2) F).
  { rewrite map_map. apply map_ext_in. intros x Hx%list_elem_of_In. by apply sequence_at_log, HF. }
  apply sort_Slice_unique; [apply _|rewrite Hkeys; apply filter_sequences|by rewrite sort_Slice_Permutation|].
  pose proof (sort_Slice_increasing Z.ltb (fun x : entry => e_sequence x.2) F (filter_sequences _)) as Hi.
  assert (Hs : forall x, x ∈ sort_Slice Z.ltb (fun x : entry => e_sequence x.2) F -> x ∈ L).
  { intros x Hx%sort_Slice_elem. by apply HF. }
  revert Hi Hs. unfold increasing. generalize (sort_Slice Z.ltb (fun x : entry => e_sequence x.2) F).
  intros l Hi. induction Hi as [|x l Hi IH Hx]; intros Hs; cbn; [constructor|]. constructor.
  - apply IH. intros y Hy. apply Hs. by right.
  - apply Forall_forall. intros l' (y & -> & Hy)%list_elem_of_fmap.
    rewrite Forall_forall in Hx. rewrite !sequence_at_log by (apply Hs; (by left) || by right).
    by apply Hx.
Qed.

Context (policy : EvaluationPolicy) (root : IdentityKey) (rootWeight : float64)
  (target : IdentityKey).

Local Abbreviation record := (foldl (record_path g root target)).

(** A loop over edges of the log whose body records paths. *)
Lemma each_records (f : search -> loc -> outcome search) (paths : entry -> list PathTrace)
    (V : gset IdentityKey) xs st :
  (forall x st, x ∈ xs -> (forall n, is_visited st n = bool_decide (n ∈ V)) ->
     exists st', f st x.1 = Some (Ok st') /\ agrees st' (record st (paths x))) ->
  (forall n, is_visited st n = bool_decide (n ∈ V)) ->
  exists st', each f st (map fst xs) = Some (Ok st') /\
    agrees st' (record st (concat (map paths xs))).
Proof.
  revert st. induction xs as [|x xs IH]; intros st Hf HV; [by exists st|]. cbn.
  destruct (Hf x st ltac:(left) HV) as (st1 & -> & H1).
  destruct (IH st1) as (st2 & -> & H2).
  - intros x' st' Hx'. apply Hf. by right.
  - intros n. rewrite (ag_visited _ _ H1). unfold is_visited. rewrite record_paths_visited. apply HV.
  - exists st2. split; [done|]. rewrite H2, H1. by rewrite <- foldl_app.
Qed.

(** The recursion marks a node, searches from it and unmarks it. *)
Lemma mark_search (V : gset IdentityKey) n st st' ps :
  (forall m, is_visited st m = bool_decide (m ∈ V)) -> n ∉ V ->
  agrees st' (record (set_visited n true st) ps) ->
  agrees (set_visited n false st') (record st ps).
Proof.
  intros HV Hn [Hp Hno He Hd Hv]. rewrite record_paths_mark in Hp, Hno, He, Hd.
  split; [done..|]. intros m. rewrite is_visited_set.
  assert (Hm : is_visited (record st ps) m = bool_decide (m ∈ V)).
  { unfold is_visited. rewrite record_paths_visited. apply HV. }
  destruct (decide (n = m)) as [<-|Hnm].
  - rewrite Hm. by rewrite bool_decide_eq_true_2, bool_decide_eq_false_2.
  - rewrite Hv, record_paths_mark, is_visited_set. by rewrite bool_decide_eq_false_2.
Qed.

Lemma findPaths_records fuel current w hops depth (V : gset IdentityKey) st :
  (size (log_nodes L ∖ V) < fuel)%nat ->
  (forall n, is_visited st n = bool_decide (n ∈ V)) ->
  exists st', findPaths h g policy root rootWeight target fuel current w hops depth st = Some (Ok st') /\
    agrees st' (record st (paths_from L policy root rootWeight target fuel current w hops V depth)).
Proof using SQ.
  revert current w hops depth V st. induction fuel as [|fuel IH];
    intros current w hops depth V st Hfuel HV; [lia|].
  cbn [findPaths paths_from]. destruct (MaxHops policy <? depth); [by exists st|].
  destruct (sorted_out_edges policy current) as (outEdges & -> & ->).
  apply each_records with (V := V); [|done]. intros [l e] st1 Hx HV1.
  assert (Hin : (l, e) ∈ L) by (by apply outs_elem in Hx as [? _]).
  unfold visit_edge, paths_via. cbn [fst snd]. rewrite (rp_heap _ _ _ R l e Hin), HV1.
  case_bool_decide as HeV; [by exists st1|].
  destruct (f64_lt _ _); [by exists st1|].
  case_bool_decide as Ht; [by eexists|].
  destruct (depth <? MaxHops policy); [|by exists st1].
  destruct (IH (e_subject e) (f64_mul w (DecayFactor policy)) (hops ++ [hop_of current e]) (depth + 1)
    ({[e_subject e]} ∪ V) (set_visited (e_subject e) true st1)) as (st2 & -> & H2).
  - pose proof (unvisited_shrinks L V (e_subject e) (outs_node _ _ _ _ Hx) HeV). lia.
  - intros n. rewrite is_visited_set, HV1. destruct (decide (e_subject e = n)) as [->|Hne].
    + by rewrite !bool_decide_eq_true_2 by set_solver.
    + rewrite (bool_decide_eq_false_2 (e_subject e = n)) by done. apply bool_decide_ext. set_solver.
  - eexists. split; [done|]. by apply mark_search with (V := V).
Qed.
End Refinement.

(** ** What the accumulators hold *)

(** The record digests on some paths. *)
Definition path_digests (ps : list PathTrace) : list Digest :=
  concat (map (fun p => map RecordDigest (Hops p)) ps).

Definition on_path (target n : IdentityKey) (p : PathTrace) : Prop :=
  n = target \/ n = Root p \/ exists hop, hop ∈ Hops p /\ (n = From hop \/ n = To hop).

(** The paths [ps] were found; [hit] when the target is itself a root. *)
Record summary (g : Graph) (target : IdentityKey) (st : search) (ps : list PathTrace) (hit : bool) :
    Prop := {
  sm_paths : allPaths st = ps;
  sm_digests : contributingDigests st = path_digests ps;
  sm_nodes n : n ∈ subgraphNodeSet st <->
    (hit = true /\ n = target) \/ exists p, p ∈ ps /\ on_path target n p;
  sm_edges d l : subgraphEdgeSet st !! d = Some l <->
    d ∈ path_digests ps /\ EdgeByDigest g d = Some l
}.

Lemma path_digests_app ps qs : path_digests (ps ++ qs) = path_digests ps ++ path_digests qs.
Proof. unfold path_digests. by rewrite map_app, concat_app. Qed.

Lemma exists_cons {A} (Q : A -> Prop) l a :
  (exists x, x ∈ a :: l /\ Q x) <-> Q a \/ (exists x, x ∈ l /\ Q x).
Proof.
  split.
  - intros (x & [->|Hx]%elem_of_cons & HQ); [by left|right; by exists x].
  - intros [HQ|(x & Hx & HQ)]; [exists a|exists x]; (split; [|done]); [left|by right].
Qed.

Lemma record_hops_summary g (st : search) hops (ds : list Digest) :
  (forall d l, subgraphEdgeSet st !! d = Some l <-> d ∈ ds /\ EdgeByDigest g d = Some l) ->
  let st' := foldl (record_hop g) st hops in
  allPaths st' = allPaths st /\
  contributingDigests st' = contributingDigests st ++ map RecordDigest hops /\
  (forall n, n ∈ subgraphNodeSet st' <->
     n ∈ subgraphNodeSet st \/ exists hop, hop ∈ hops /\ (n = From hop \/ n = To hop)) /\
  (forall d l, subgraphEdgeSet st' !! d = Some l <->
     d ∈ ds ++ map RecordDigest hops /\ EdgeByDigest g d = Some l).
Proof.
  revert st ds. induction hops as [|hop hops IH]; intros st ds He; cbn [foldl map].
  { rewrite !app_nil_r. split_and!; [done|done| |done]. intros n. split; [by left|].
    intros [?|(hop & H & _)]; [done|by apply not_elem_of_nil in H]. }
  destruct (IH (record_hop g st hop) (ds ++ [RecordDigest hop])) as (Hp & Hd & Hn & He').
  { intros d l. cbn. rewrite elem_of_app, list_elem_of_singleton.
    destruct (EdgeByDigest g (RecordDigest hop)) as [l'|] eqn:El.
    - destruct (decide (d = RecordDigest hop)) as [->|Hne].
      + rewrite lookup_insert_eq, El. split; [intros; split; [by right|done]|by intros [_ ?]].
      + rewrite lookup_insert_ne, He by done. tauto.
    - rewrite He. split; [tauto|]. intros [[?| ->] He']; [tauto|congruence]. }
  rewrite Hp, Hd. cbn. rewrite <- !app_assoc. split_and!; [done|done| |].
  - intros n. rewrite Hn, exists_cons. cbn. rewrite !elem_of_union, !elem_of_singleton. tauto.
  - intros d l. rewrite He'. by rewrite <- app_assoc.
Qed.

Lemma exists_snoc {A} (Q : A -> Prop) l a :
  (exists x, x ∈ l ++ [a] /\ Q x) <-> (exists x, x ∈ l /\ Q x) \/ Q a.
Proof.
  split.
  - intros (x & [Hx|Hx]%elem_of_app & HQ); [left; by exists x|].
    apply list_elem_of_singleton in Hx as ->. by right.
  - intros [(x & Hx & HQ)|HQ]; [exists x|exists a]; (split; [apply elem_of_app|done]); [by left|].
    right. by apply list_elem_of_singleton.
Qed.

Lemma record_path_summary g target st ps hit p :
  summary g target st ps hit -> summary g target (record_path g (Root p) target st p) (ps ++ [p]) hit.
Proof.
  intros [Hp Hd Hn He]. unfold record_path.
  destruct (record_hops_summary g
    (MkSearch (visited st) (allPaths st ++ [p]) ({[target]} ∪ ({[Root p]} ∪ subgraphNodeSet st))
       (subgraphEdgeSet st) (contributingDigests st)) (Hops p) (path_digests ps) He)
    as (Hp' & Hd' & Hn' & He').
  split.
  - rewrite Hp'. cbn. by rewrite Hp.
  - rewrite Hd'. cbn. rewrite Hd, path_digests_app. unfold path_digests at 3. cbn. by rewrite app_nil_r.
  - intros n. rewrite Hn'. cbn. rewrite !elem_of_union, !elem_of_singleton, Hn, exists_snoc.
    unfold on_path at 3. tauto.
  - intros d l. rewrite He', path_digests_app. unfold path_digests at 3. cbn. by rewrite app_nil_r.
Qed.

Lemma record_paths_summary g root target st ps hit qs :
  Forall (fun p => Root p = root) qs -> summary g target st ps hit ->
  summary g target (foldl (record_path g root target) st qs) (ps ++ qs) hit.
Proof.
  intros Hr. revert st ps. induction Hr as [|q qs <- Hr IH]; intros st ps Hs; cbn.
  - by rewrite app_nil_r.
  - replace (ps ++ q :: qs) with ((ps ++ [q]) ++ qs) by (by rewrite <- app_assoc).
    apply IH. by apply record_path_summary.
Qed.

Lemma summary_agrees g target st st' ps hit :
  agrees st st' -> summary g target st' ps hit -> summary g target st ps hit.
Proof.
  intros [Hp Hn He Hd _] []. split; intros; rewrite ?Hp, ?Hd, ?Hn, ?He; auto.
Qed.

(** The nodes marked as visited are no part of the summary. *)
Lemma summary_visited g target st v ps hit :
  summary g target st ps hit ->
  summary g target (MkSearch v (allPaths st) (subgraphNodeSet st) (subgraphEdgeSet st)
    (contributingDigests st)) ps hit.
Proof. intros []. by split. Qed.

Section Roots.
Context {h : heap} {g : Graph} {L : list entry} (SQ : sequenced h g L).
Context (policy : EvaluationPolicy) (target : IdentityKey) (fuel : nat)
  (Hfuel : (size (log_nodes L) < fuel)%nat).

Definition root_paths (kw : IdentityKey * float64) : list PathTrace :=
  if bool_decide (kw.1 = target) then []
  else paths_from L policy kw.1 kw.2 target fuel kw.1 kw.2 [] {[kw.1]} 1.

Lemma root_fuel k : (size (log_nodes L ∖ {[k]}) < fuel)%nat.
Proof using Hfuel.
  assert (log_nodes L ∖ {[k]} ⊆ log_nodes L) as Hsub by apply subseteq_difference_l, reflexivity.
  apply subseteq_size in Hsub. lia.
Qed.

Lemma root_paths_spec k w p :
  p ∈ root_paths (k, w) <->
    k <> target /\ exists es, attests (map snd L) policy target k w es /\ p = trace_of policy k w es.
Proof using Hfuel.
  unfold root_paths. cbn. case_bool_decide as Hk.
  - split; [by intros ?%not_elem_of_nil|by intros [? _]].
  - rewrite paths_from_spec by apply root_fuel. cbn [app]. setoid_rewrite trail_attests.
    unfold trace_of. naive_solver.
Qed.

Lemma visit_root_summary st ps hit kw :
  summary g target st ps hit ->
  exists st', visit_root h g fuel policy target st kw = Some (Ok st') /\
    summary g target st' (ps ++ root_paths kw) (hit || bool_decide (kw.1 = target)).
Proof using SQ Hfuel.
  intros Hs. destruct kw as [k w]. unfold visit_root, root_paths. cbn.
  case_bool_decide as Hk.
  - eexists. split; [done|]. rewrite app_nil_r, orb_true_r. destruct Hs as [Hp Hd Hn He].
    split; [done|done| |done]. intros n. cbn. rewrite elem_of_union, elem_of_singleton, Hn. naive_solver.
  - rewrite orb_false_r.
    destruct (findPaths_records SQ policy k w target fuel k w [] 1 {[k]}
      (MkSearch {[k := true]} (allPaths st) (subgraphNodeSet st) (subgraphEdgeSet st)
         (contributingDigests st)) (root_fuel k)) as (st' & -> & Ha).
    { intros n. unfold is_visited. cbn. destruct (decide (n = k)) as [->|Hne].
      - rewrite lookup_singleton_eq, bool_decide_eq_true_2 by set_solver. done.
      - rewrite lookup_singleton_ne, bool_decide_eq_false_2 by set_solver. done. }
    exists st'. split; [done|]. eapply summary_agrees; [exact Ha|].
    apply record_paths_summary; [|by apply summary_visited].
    apply Forall_forall. intros p (es & _ & ->)%paths_from_spec; [done|apply root_fuel].
Qed.

Lemma visit_roots_summary roots st ps hit :
  summary g target st ps hit ->
  exists st', each (visit_root h g fuel policy target) st roots = Some (Ok st') /\
    summary g target st' (ps ++ concat (map root_paths roots))
      (hit || existsb (fun kw => bool_decide (kw.1 = target)) roots).
Proof using SQ Hfuel.
  revert st ps hit. induction roots as [|kw roots IH]; intros st ps hit Hs; cbn.
  - exists st. by rewrite app_nil_r, orb_false_r.
  - destruct (visit_root_summary st ps hit kw Hs) as (st1 & -> & Hs1).
    destruct (IH st1 _ _ Hs1) as (st2 & -> & Hs2). exists st2. split; [done|].
    by rewrite app_assoc, orb_assoc.
Qed.

(** *** Each path once *)

Lemma paths_from_NoDup root w0 n current w hops V depth :
  NoDup (paths_from L policy root w0 target n current w hops V depth).
Proof using SQ.
  revert current w hops V depth. induction n as [|n IH]; intros current w hops V depth; [constructor|].
  cbn [paths_from]. destruct (MaxHops policy <? depth); [constructor|].
  apply NoDup_concat_map.
  - unfold outs. rewrite sort_Slice_Permutation. apply NoDup_filter, (log_NoDup SQ).
  - intros x _. unfold paths_via. repeat case_match; try constructor.
    + apply not_elem_of_nil.
    + constructor.
    + apply IH.
  - intros x y p [Hx _]%outs_elem [Hy _]%outs_elem Hpx%paths_via_prefix Hpy%paths_via_prefix.
    apply (digest_inj SQ); [done..|]. rewrite Hpx in Hpy. by injection Hpy.
Qed.

Lemma sorted_roots_elem k w : (k, w) ∈ sorted_roots policy <-> TrustRoots policy !! k = Some w.
Proof. unfold sorted_roots. by rewrite sort_Slice_elem, elem_of_map_to_list. Qed.

Lemma sorted_roots_NoDup : NoDup (sorted_roots policy).
Proof. unfold sorted_roots. rewrite sort_Slice_Permutation. apply NoDup_map_to_list. Qed.

Definition all_paths : list PathTrace := concat (map root_paths (sorted_roots policy)).

Lemma all_paths_spec p :
  p ∈ all_paths <-> exists k w es, TrustRoots policy !! k = Some w /\ k <> target /\
    attests (map snd L) policy target k w es /\ p = trace_of policy k w es.
Proof using Hfuel.
  unfold all_paths. rewrite concat_elem. split.
  - intros (ps & Hp & [k w] & -> & Hk%sorted_roots_elem). apply root_paths_spec in Hp as (Hne & es & Ha & ->).
    by exists k, w, es.
  - intros (k & w & es & Hk & Hne & Ha & ->). eexists. split; [|exists (k, w); split; [done|]].
    + apply root_paths_spec. split; [done|]. by exists es.
    + by apply sorted_roots_elem.
Qed.

Lemma all_paths_NoDup : NoDup all_paths.
Proof using SQ Hfuel.
  apply NoDup_concat_map; [apply sorted_roots_NoDup|..].
  - intros [k w] _. unfold root_paths. case_bool_decide; [constructor|apply paths_from_NoDup].
  - intros [k w] [k' w'] p Hk%sorted_roots_elem Hk'%sorted_roots_elem.
    intros (_ & es & _ & ->)%root_paths_spec (_ & es' & _ & Heq)%root_paths_spec.
    injection Heq as -> -> _ _. done.
Qed.
End Roots.

Lemma NoDup_Hex l : NoDup l -> NoDup (map Hex l).
Proof.
  intros Hl. apply NoDup_fmap_2_strong; [|done]. intros k k' _ _ He.
  apply (f_equal DecodeString) in He. unfold Hex in He. rewrite !DecodeString_Encode in He.
  injection He as He. by apply array_eq.
Qed.

(** The evaluation is the search and its assembly, for fuel beyond the number
    of identities. *)
Lemma Evaluate_search {U : Unicode} {h g L} (SQ : sequenced h g L) policy p target fuel :
  Validate policy = Ok p -> (size (g_nodes g) < fuel)%nat ->
  exists st, Evaluate h g fuel policy target = Some (Ok (assemble h g p target st)) /\
    summary g target st (all_paths (L := L) p target fuel)
      (bool_decide (is_Some (TrustRoots p !! target))).
Proof.
  intros HV Hfuel. unfold Evaluate. rewrite HV.
  assert (Hn : g_nodes g = log_nodes L) by apply (rp_nodes _ _ _ (sq_log _ _ _ SQ)).
  rewrite Hn in Hfuel.
  destruct (visit_roots_summary SQ p target fuel Hfuel (sorted_roots p) no_search [] false)
    as (st & -> & Hs).
  { split; cbn; [done|done| |].
    - intros n. split; [by intros ?%not_elem_of_empty|].
      intros [[? _]|(q & H & _)]; [done|by apply not_elem_of_nil in H].
    - intros d l. split; [done|]. by intros [?%not_elem_of_nil _]. }
  exists st. split; [done|]. cbn in Hs.
  replace (bool_decide _) with (existsb (fun kw => bool_decide (kw.1 = target)) (sorted_roots p)); [done|].
  apply eq_true_iff_eq. rewrite existsb_exists, bool_decide_eq_true. split.
  - intros ([k w] & Hin%list_elem_of_In%sorted_roots_elem & Hk%bool_decide_eq_true). cbn in Hk. subst k.
    by exists w.
  - intros [w Hw]. exists (target, w). split; [by apply list_elem_of_In, sorted_roots_elem|].
    by apply bool_decide_eq_true.
Qed.
End evaluator_spec.
