(* ===== verification/EvaluatorProps.v ===== *)
(** * Properties of the evaluator

    Scores, provenance and their dependence on the graph, from the facts of
    [EvaluatorSpec] and the arithmetic of [Float]. *)

From S2P Require Import Prelude Float LedgerCodec Identity Text Graph Evaluator EvaluatorSpec.

Module evaluator_props.
Import identity graphv1 evaluator evaluator_spec.

Local Abbreviation unit64 := (unit_float 53 1024).

(** ** Policies *)

(** The floats of a policy are [float64] values other than NaN. *)
Record numeric (p : EvaluationPolicy) : Prop := {
  nm_weights k w : TrustRoots p !! k = Some w -> is_f64 w /\ is_NaN w = false;
  nm_decay : is_f64 (DecayFactor p) /\ is_NaN (DecayFactor p) = false
}.

Lemma positive_unit x :
  is_f64 x -> is_NaN x = false -> f64_le x f64_zero = false -> f64_lt f64_one x = false -> unit64 x.
Proof.
  intros Hv Hn H0 H1. apply unit64_in_unit. split; [done|]. split.
  - by apply f64_lt_le, f64_not_le.
  - destruct (f64_le x f64_one) eqn:E; [done|]. apply f64_not_le in E; [congruence|done..].
Qed.

Lemma find_None_Forall {A} (f : A -> bool) l : List.find f l = None -> Forall (fun x => f x = false) l.
Proof. intros H. apply Forall_forall. intros x Hx%list_elem_of_In. by eapply find_none. Qed.

(** What a validated policy satisfies. *)
Lemma Validate_Ok policy p :
  Validate policy = Ok p ->
  TrustRoots p = TrustRoots policy /\ DecayFactor p = DecayFactor policy /\
  Topic p = Topic policy /\ MaxHops p = MaxHops policy /\ 0 < MaxHops p /\
  (forall k w, TrustRoots p !! k = Some w -> bad_weight w = false) /\
  f64_le (DecayFactor p) f64_zero = false /\ f64_le f64_one (DecayFactor p) = false /\
  AlgorithmVersion p = (if bool_decide (AlgorithmVersion policy = []) then DefaultAlgorithmVersion
                        else AlgorithmVersion policy).
Proof.
  unfold Validate. case_bool_decide; [done|].
  destruct (List.find _ _) as [[k w]|] eqn:Hf; [done|].
  destruct (Z.leb_spec (MaxHops policy) 0); [done|].
  destruct (_ || _) eqn:Hd; [done|]. apply orb_false_iff in Hd as [Hd0 Hd1]. intros [= <-]. cbn.
  split_and!; [done..| |done|done|done].
  intros k w Hk%elem_of_map_to_list. apply find_None_Forall in Hf. rewrite Forall_forall in Hf.
  by apply (Hf (k, w)).
Qed.

Section Numeric.
Context (policy p : EvaluationPolicy) (HV : Validate policy = Ok p) (HN : numeric policy).

Lemma weights_unit k w : TrustRoots p !! k = Some w -> unit64 w.
Proof using HV HN.
  intros Hk. destruct (Validate_Ok _ _ HV) as (Hr & _ & _ & _ & _ & Hw & _).
  specialize (Hw k w Hk). apply orb_false_iff in Hw as [H0 H1].
  rewrite Hr in Hk. destruct (nm_weights _ HN k w Hk). by apply positive_unit.
Qed.

Lemma decay_unit : unit64 (DecayFactor p).
Proof using HV HN.
  destruct (Validate_Ok _ _ HV) as (_ & Hd & _ & _ & _ & _ & H0 & H1 & _).
  destruct (nm_decay _ HN) as [Hv Hn]. rewrite Hd in *. apply positive_unit; [done..|].
  apply f64_le_not_lt, f64_lt_le, f64_not_le; done.
Qed.

Lemma weight_after_unit w n :
  unit64 w -> unit64 (weight_after p w n) /\ f64_le (weight_after p w n) w = true.
Proof using HV HN.
  revert w. induction n as [|n IH]; intros w Hw; [split; [done|by apply f64_le_refl]|]. cbn.
  destruct (f64_mul_unit w (DecayFactor p) Hw decay_unit) as [Hu Hle].
  destruct (IH _ Hu) as [Hu' Hle']. split; [done|]. by eapply f64_le_trans; [..|exact Hle].
Qed.

Lemma direct_unit target : unit64 (default f64_zero (TrustRoots p !! target)).
Proof using HV HN.
  destruct (TrustRoots p !! target) eqn:E; [by eapply weights_unit|apply unit64_zero].
Qed.
End Numeric.

Lemma Forall_subset {A} (P : A -> Prop) l k : k ⊆ l -> Forall P l -> Forall P k.
Proof. rewrite !Forall_forall. auto. Qed.

(** ** The noisy-OR *)

Definition discount (u : float64) (path : PathTrace) : float64 :=
  f64_mul u (f64_sub f64_one (PathWeight path)).

Definition unit_path (path : PathTrace) : Prop := unit64 (PathWeight path).

Lemma discount_unit u path :
  unit64 u -> unit_path path -> unit64 (discount u path) /\ f64_le (discount u path) u = true.
Proof. intros Hu Hp. by apply f64_mul_unit, f64_complement_unit. Qed.

Lemma discounts_unit u ps : unit64 u -> Forall unit_path ps -> unit64 (foldl discount u ps).
Proof.
  intros Hu Hps. revert u Hu. induction Hps as [|path ps Hp Hps IH]; intros u Hu; [done|].
  apply IH. by apply discount_unit.
Qed.

(** More paths leave less doubt. *)
Lemma discounts_sublist u u' ps ps' :
  unit64 u -> unit64 u' -> f64_le u u' = true -> Forall unit_path ps -> sublist ps' ps ->
  f64_le (foldl discount u ps) (foldl discount u' ps') = true.
Proof.
  intros Hu Hu' Hle Hps Hsub. revert u u' Hu Hu' Hle Hps.
  induction Hsub as [|path ps' ps Hsub IH|path ps' ps Hsub IH]; intros u u' Hu Hu' Hle Hps; [done|..];
    apply Forall_cons in Hps as [Hp Hps]; cbn [foldl];
    destruct (discount_unit u path Hu Hp) as [Hd Hdle].
  - apply IH; [done|by apply discount_unit| |done].
    apply f64_mul_mono; [done..|by apply f64_complement_unit|done].
  - apply IH; [done..| |done]. by eapply f64_le_trans; [..|exact Hdle|exact Hle].
Qed.

Lemma confidence_unit d ps :
  unit64 d -> Forall unit_path ps ->
  unit64 (f64_sub f64_one (unconfidence d ps)) /\
  confidence d ps = SFabs (f64_sub f64_one (unconfidence d ps)).
Proof.
  intros Hd Hps. assert (unit64 (f64_sub f64_one (unconfidence d ps))) as Hu.
  { apply f64_complement_unit, discounts_unit; [by apply f64_complement_unit|done]. }
  split; [done|]. by apply clamp_unit.
Qed.

Lemma confidence_mono d ps ps' :
  unit64 d -> Forall unit_path ps -> sublist ps' ps ->
  f64_le (confidence d ps') (confidence d ps) = true.
Proof.
  intros Hd Hps Hsub.
  assert (Hps' : Forall unit_path ps') 
    by (eapply Forall_subset; [by apply sublist_subseteq|done]).
  destruct (confidence_unit d ps Hd Hps) as [Hu ->].
  destruct (confidence_unit d ps' Hd Hps') as [Hu' ->].
  apply clamped_le; [done..|]. apply f64_complement_unit in Hd.
  apply f64_complement_antitone; [by apply discounts_unit..|].
  apply discounts_sublist; [done..|by apply f64_le_refl|done|done].
Qed.

(** ** Results of an evaluation *)

Section Results.
Context {U : Unicode} {h : heap} {g : Graph} {L : list entry} (SQ : sequenced h g L).
Context (policy p : EvaluationPolicy) (target : IdentityKey) (fuel : nat).
Context (HV : Validate policy = Ok p) (Hfuel : (size (g_nodes g) < fuel)%nat).

Lemma log_fuel : (size (log_nodes L) < fuel)%nat.
Proof using SQ Hfuel.
  assert (g_nodes g = log_nodes L) as <- by apply (rp_nodes _ _ _ (sq_log _ _ _ SQ)). done.
Qed.

Local Abbreviation paths := (all_paths (L := L) p target fuel).

Lemma paths_unit : numeric policy -> Forall unit_path paths.
Proof using SQ HV Hfuel.
  intros HN. apply Forall_forall. intros q Hq.
  apply (all_paths_spec p target fuel log_fuel) in Hq as (k & w & es & Hk & _ & _ & ->).
  unfold unit_path. cbn. eapply weight_after_unit; [done..|]. by eapply weights_unit.
Qed.

(** A digest on a path is that of an active endorsement of the log. *)
Lemma path_digest_active d :
  d ∈ path_digests paths ->
  exists l e, (l, e) ∈ L /\ e_recordDigest e = d /\ e_isActive e = true.
Proof using SQ Hfuel.
  unfold path_digests. intros (ds & Hd & q & -> & Hq)%concat_elem.
  apply (all_paths_spec p target fuel log_fuel) in Hq as (k & w & es & _ & _ & (Hl & _) & ->).
  apply list_elem_of_fmap in Hd as (hop & -> & Hhop). cbn in Hhop. revert k Hl Hhop.
  induction es as [|e es IH]; intros k Hl Hhop; [by apply not_elem_of_nil in Hhop|].
  destruct Hl as [(Hin & _ & Hkeep) Hl]. cbn in Hhop. apply elem_of_cons in Hhop as [->|Hhop].
  - apply list_elem_of_fmap in Hin as ([l e'] & -> & Hin). exists l, e'. split; [done|].
    split; [done|]. unfold keep_edge in Hkeep. cbn in Hkeep. by destruct (e_isActive e').
  - by apply (IH (e_subject e)).
Qed.
End Results.

(** C5: the evaluator finds exactly the attestation paths. On a graph of
    distinct sequence numbers and for a policy that validates, an evaluation
    returns, however large the maximal number of hops (recursion no deeper than
    the number of identities suffices); its contributing paths are, each once,
    the paths of active endorsements on the topic from a trust root other than
    the subject, visiting no identity twice, of at most that many hops, and of
    weight at or above the cutoff at every hop. *)
Theorem Evaluate_paths {U : Unicode} h g L policy p target fuel :
  sequenced h g L -> Validate policy = Ok p -> (size (g_nodes g) < fuel)%nat ->
  exists res, Evaluate h g fuel policy target = Some (Ok res) /\
    NoDup (ContributingPaths res) /\
    forall q, q ∈ ContributingPaths res <->
      exists k w es, TrustRoots policy !! k = Some w /\ k <> target /\
        attests (map snd L) p target k w es /\ q = trace_of p k w es.
Proof.
  intros SQ HV Hfuel. destruct (Evaluate_search SQ policy p target fuel HV Hfuel) as (st & HE & Hs).
  pose proof (log_fuel SQ fuel Hfuel) as Hf. destruct (Validate_Ok _ _ HV) as (<- & _).
  eexists. split; [exact HE|]. cbn. rewrite (sm_paths _ _ _ _ _ Hs). split.
  - by apply (all_paths_NoDup SQ).
  - by apply all_paths_spec.
Qed.

(** C17: under every valid policy whose trust weights and decay factor are not
    NaN ([numeric]; validation lets a NaN pass, and [NaN_decay_score] shows a
    score that is NaN), the confidence score is a number of the unit interval, and
    so is the weight of every contributing path, which is at most the weight of its root
    and not below the cutoff; without direct trust and without paths the score
    is zero. *)
Theorem Evaluate_score {U : Unicode} h g L policy p target fuel :
  sequenced h g L -> Validate policy = Ok p -> numeric policy -> (size (g_nodes g) < fuel)%nat ->
  exists res, Evaluate h g fuel policy target = Some (Ok res) /\
    in_unit (ConfidenceScore res) /\
    (forall q, q ∈ ContributingPaths res ->
       in_unit (PathWeight q) /\ f64_le (PathWeight q) (RootWeight q) = true /\
       f64_lt (PathWeight q) (MinConfidence p) = false) /\
    (ContributingPaths res = [] -> TrustRoots policy !! target = None ->
       ConfidenceScore res = f64_zero).
Proof.
  intros SQ HV HN Hfuel.
  destruct (Evaluate_search SQ policy p target fuel HV Hfuel) as (st & HE & Hs).
  pose proof (paths_unit SQ policy p target fuel HV Hfuel HN) as Hu.
  pose proof (direct_unit policy p HV HN target) as Hd. pose proof (log_fuel SQ fuel Hfuel) as Hf.
  eexists. split; [exact HE|]. cbn. rewrite (sm_paths _ _ _ _ _ Hs). split_and!.
  - destruct (confidence_unit _ _ Hd Hu) as [Hc ->]. by apply unit64_in_unit, clamped_unit.
  - intros q Hq. pose proof Hq as Hq'. rewrite Forall_forall in Hu.
    apply (all_paths_spec p target fuel Hf) in Hq' as (k & w & es & Hk & _ & Ha & ->). cbn.
    split; [by apply unit64_in_unit, (Hu _ Hq)|]. split.
    + eapply weight_after_unit; [done..|]. by eapply weights_unit.
    + destruct Ha as (_ & _ & Hlast & _ & Hw). apply Hw. destruct es; [done|]. cbn. lia.
  - intros Hps Ht. destruct (Validate_Ok _ _ HV) as (-> & _). rewrite Hps, Ht. reflexivity.
Qed.

(** ** Provenance *)

Lemma drop_repeats_spec prev l :
  StronglySorted (not_after bytes_lt arr_list) l ->
  (forall d, prev = Some d -> Forall (not_after bytes_lt arr_list d) l) ->
  increasing bytes_lt arr_list (drop_repeats prev l) /\
  forall x, x ∈ drop_repeats prev l <-> x ∈ l /\ prev <> Some x.
Proof.
  intros Hl. revert prev. induction Hl as [|d l Hl IH Hd]; intros prev Hprev; cbn [drop_repeats].
  { split; [constructor|]. intros x. split; [by intros ?%not_elem_of_nil|by intros [? _]]. }
  destruct (IH (Some d)) as [Hi Hin]; [by intros ? [= <-]|]. case_bool_decide as Hp.
  - split; [done|]. intros x. rewrite Hin, Hp, elem_of_cons. naive_solver.
  - split.
    + constructor; [exact Hi|]. apply Forall_forall. intros x [Hx Hne]%Hin.
      rewrite Forall_forall in Hd. specialize (Hd x Hx). unfold not_after in Hd.
      destruct (bytes_lt (arr_list d) (arr_list x)) eqn:E; [done|]. destruct Hne. f_equal.
      by apply array_eq, bytes_lt_total.
    + intros x. rewrite !elem_of_cons, Hin. split.
      * intros [->|[Hx Hne]]; [split; [by left|done]|]. split; [by right|]. intros ->.
        specialize (Hprev x eq_refl). rewrite Forall_forall in Hd, Hprev.
        destruct Hne. f_equal. apply array_eq, bytes_lt_total.
        -- apply Hprev. left.
        -- by apply Hd.
      * intros [[->|Hx] Hne]; [by left|]. destruct (decide (d = x)) as [->|]; [by left|].
        right. split; [done|congruence].
Qed.

(** Sorting and dropping repeats gives the set of digests, in order. *)
Lemma DeduplicateDigests_spec ds :
  increasing bytes_lt arr_list (DeduplicateDigests ds) /\
  forall d, d ∈ DeduplicateDigests ds <-> d ∈ ds.
Proof.
  unfold DeduplicateDigests. destruct (Z.eqb_spec (len ds) 0) as [->%len_zero|_].
  { split; [constructor|done]. }
  destruct (drop_repeats_spec None (sort_Slice bytes_lt arr_list ds)) as [Hi Hin].
  - apply sort_Slice_sorted; apply _.
  - done.
  - split; [done|]. intros d. rewrite Hin, sort_Slice_elem. naive_solver.
Qed.

(** The edge objects of the subgraph, by the digests of their records. *)
Lemma edge_set_values h g L (m : gmap Digest loc) :
  sequenced h g L -> (forall d l, m !! d = Some l -> EdgeByDigest g d = Some l) ->
  NoDup (map (sequence_at h) (map snd (map_to_list m))).
Proof.
  intros SQ Hm. pose proof (sq_log _ _ _ SQ) as R. rewrite map_map.
  apply NoDup_fmap_2_strong; [|apply NoDup_map_to_list].
  intros [d1 l1] [d2 l2] H1%elem_of_map_to_list H2%elem_of_map_to_list. cbn. intros Hseq.
  apply Hm, (lookup_digest R) in H1 as (e1 & Hin1 & <-).
  apply Hm, (lookup_digest R) in H2 as (e2 & Hin2 & <-).
  pose proof (sequence_at_log SQ _ Hin1) as Hs1. pose proof (sequence_at_log SQ _ Hin2) as Hs2.
  cbn in Hs1, Hs2. assert ((l1, e1) = (l2, e2)) as [= -> ->]; [|done].
  apply (NoDup_map_inj (fun x : entry => e_sequence x.2) L); [apply SQ|done..|]. cbn. congruence.
Qed.

Lemma path_digests_elem ps d :
  d ∈ path_digests ps <-> exists q hop, q ∈ ps /\ hop ∈ Hops q /\ d = RecordDigest hop.
Proof.
  unfold path_digests. rewrite concat_elem. split.
  - intros (ds & Hin & q & -> & Hq). apply list_elem_of_fmap in Hin as (hop & -> & Hhop).
    by exists q, hop.
  - intros (q & hop & Hq & Hhop & ->). eexists. split; [|by exists q]. by apply list_elem_of_fmap_2.
Qed.

(** C29: the provenance of a result is what lies on its paths. The contributing
    records are the record digests of the hops of the contributing paths, each
    once and in byte order, every one of them of an active endorsement; the
    nodes of the subgraph are the identities on the paths, and the subject when
    it is a trust root, in the order of their hexadecimal form; its edges are
    the edge objects of the contributing records, in sequence order. *)
Theorem Evaluate_provenance {U : Unicode} h g L policy p target fuel :
  sequenced h g L -> Validate policy = Ok p -> (size (g_nodes g) < fuel)%nat ->
  exists res, Evaluate h g fuel policy target = Some (Ok res) /\
    increasing bytes_lt arr_list (ContributingRecords res) /\
    (forall d, d ∈ ContributingRecords res <->
       exists q hop, q ∈ ContributingPaths res /\ hop ∈ Hops q /\ d = RecordDigest hop) /\
    (forall d, d ∈ ContributingRecords res ->
       exists l e, (l, e) ∈ L /\ e_recordDigest e = d /\ e_isActive e = true) /\
    increasing bytes_lt Hex (sub_Nodes (res_ProvenanceSubgraph res)) /\
    (forall n, n ∈ sub_Nodes (res_ProvenanceSubgraph res) <->
       (is_Some (TrustRoots policy !! target) /\ n = target) \/
       exists q, q ∈ ContributingPaths res /\ on_path target n q) /\
    increasing Z.ltb (sequence_at h) (sub_Edges (res_ProvenanceSubgraph res)) /\
    (forall l, l ∈ sub_Edges (res_ProvenanceSubgraph res) <->
       exists e, (l, e) ∈ L /\ e_recordDigest e ∈ ContributingRecords res).
Proof.
  intros SQ HV Hfuel. destruct (Evaluate_search SQ policy p target fuel HV Hfuel) as (st & HE & Hs).
  pose proof (sq_log _ _ _ SQ) as R. destruct (Validate_Ok _ _ HV) as (<- & _).
  destruct (DeduplicateDigests_spec (contributingDigests st)) as [Hinc Hded].
  destruct Hs as [Hp Hd Hn He].
  eexists. split; [exact HE|]. cbn. rewrite Hp. rewrite Hd in *. split_and!.
  - done.
  - intros d. rewrite Hded. apply path_digests_elem.
  - intros d Hin%Hded. by eapply path_digest_active.
  - apply sort_Slice_increasing; [apply _|]. apply NoDup_Hex, NoDup_elements.
  - intros n. rewrite sort_Slice_elem, elem_of_elements, Hn, bool_decide_eq_true. done.
  - apply sort_Slice_increasing; [apply _|]. eapply edge_set_values; [done|]. by intros d l [_ ?]%He.
  - intros l. rewrite sort_Slice_elem, list_elem_of_fmap. split.
    + intros ([d l'] & -> & [Hin Hl]%elem_of_map_to_list%He).
      apply (lookup_digest R) in Hl as (e & HL & <-). exists e. by rewrite Hded.
    + intros (e & HL & Hin%Hded). exists (e_recordDigest e, l). split; [done|].
      apply elem_of_map_to_list, He. split; [done|]. apply (lookup_digest R). by exists e.
Qed.

(** ** Testimony *)

Lemma sublist_concat_map {A B} (f f' : A -> list B) l l' :
  sublist l l' -> (forall x, sublist (f x) (f' x)) -> sublist (concat (map f l)) (concat (map f' l')).
Proof.
  intros Hl Hf. induction Hl as [|x l l' Hl IH|x l l' Hl IH]; cbn; [done|by apply sublist_app|].
  by apply sublist_inserts_l.
Qed.

Section Testimony.
Context {h h' : heap} {g g' : Graph} {L L' : list entry}.
Context (SQ : sequenced h g L) (SQ' : sequenced h' g' L').
Context (Hactive : forall x, x ∈ L -> e_isActive x.2 = true -> x ∈ L').

Lemma outs_sublist policy current : sublist (outs L policy current) (outs L' policy current).
Proof using SQ SQ' Hactive.
  apply sort_Slice_sublist; [apply _|by eapply filter_sequences..|].
  intros x [Hf Hx]%list_elem_of_filter. apply list_elem_of_filter. split; [done|].
  apply Hactive; [done|]. apply andb_prop in Hf as [_ Hf]. unfold keep_edge in Hf. cbn in Hf.
  by destruct (e_isActive x.2).
Qed.

Lemma paths_from_sublist policy root w0 target fuel current w hops V depth :
  sublist (paths_from L policy root w0 target fuel current w hops V depth)
    (paths_from L' policy root w0 target fuel current w hops V depth).
Proof using SQ SQ' Hactive.
  revert current w hops V depth. induction fuel as [|fuel IH]; intros current w hops V depth; [done|].
  cbn [paths_from]. destruct (MaxHops policy <? depth); [done|].
  apply sublist_concat_map; [apply outs_sublist|]. intros x. unfold paths_via.
  repeat case_match; done.
Qed.

Lemma all_paths_sublist policy target fuel :
  sublist (all_paths (L := L) policy target fuel) (all_paths (L := L') policy target fuel).
Proof using SQ SQ' Hactive.
  apply sublist_concat_map; [done|]. intros [k w]. unfold root_paths.
  case_bool_decide; [done|]. apply paths_from_sublist.
Qed.

(** With at least the active endorsements of [L], [L'] gives at least its
    score. *)
Lemma more_testimony {U : Unicode} policy p target fuel :
  Validate policy = Ok p -> numeric policy ->
  (size (g_nodes g) < fuel)%nat -> (size (g_nodes g') < fuel)%nat ->
  exists res res', Evaluate h g fuel policy target = Some (Ok res) /\
    Evaluate h' g' fuel policy target = Some (Ok res') /\
    f64_le (ConfidenceScore res) (ConfidenceScore res') = true /\
    sublist (ContributingPaths res) (ContributingPaths res').
Proof using SQ SQ' Hactive.
  intros HV HN Hf Hf'. destruct (Evaluate_search SQ policy p target fuel HV Hf) as (st & HE & Hs).
  destruct (Evaluate_search SQ' policy p target fuel HV Hf') as (st' & HE' & Hs').
  do 2 eexists. split; [exact HE|]. split; [exact HE'|]. cbn.
  rewrite (sm_paths _ _ _ _ _ Hs), (sm_paths _ _ _ _ _ Hs'). split; [|apply all_paths_sublist].
  apply confidence_mono; [by eapply direct_unit|by eapply paths_unit|apply all_paths_sublist].
Qed.
End Testimony.

(** *** Revoking *)

Lemma map_pairs (f : AttestationEdge -> AttestationEdge) (L L' : list entry) :
  map fst L' = map fst L -> map snd L' = map f (map snd L) ->
  L' = map (fun x => (x.1, f x.2)) L.
Proof.
  revert L'. induction L as [|[l e] L IH]; intros [|[l' e'] L'] H1 H2; try done. cbn in *.
  injection H1 as -> H1. injection H2 as -> H2. f_equal. by apply IH.
Qed.

(** A revocation that succeeds deactivates the edge of its digest and leaves
    the others. *)
Lemma revoked_log h g L d revoker role at_ rd reason seq h' g' :
  sequenced h g L -> RevokeEdge h g d revoker role at_ rd reason seq = Ok (h', g') ->
  exists L', sequenced h' g' L' /\ g_nodes g' = g_nodes g /\
    (forall x, x ∈ L' -> e_isActive x.2 = true -> x ∈ L) /\
    (forall x, x ∈ L' -> e_recordDigest x.2 = d -> e_isActive x.2 = false).
Proof.
  intros [R Hseq] Hr. pose proof (revoke_simulation h g L d revoker role at_ rd reason seq R) as Hsim.
  rewrite Hr in Hsim. destruct (log_revoke _ _ _ _ _ _ _) as [log'|] eqn:Hlog; [|done].
  destruct Hsim as (L' & R' & Hsnd & Hfst & _). unfold log_revoke in Hlog.
  destruct (List.find _ _) as [e0|]; [|done]. destruct (negb (e_isActive e0)); [done|].
  destruct (may_revoke e0 revoker role); [|done]. cbn in Hlog. injection Hlog as <-.
  apply map_pairs in Hsnd; [|done]. exists L'. split_and!.
  - split; [done|]. rewrite Hsnd, map_map. erewrite map_ext; [exact Hseq|].
    intros [l e]. cbn. by destruct (has_digest d e).
  - unfold RevokeEdge in Hr. destruct (g_edgesByDigest g !! d) as [l|]; [|done].
    destruct (h !! l) as [e|]; [|done]. destruct (negb (e_isActive e)); [done|].
    destruct (authorize e revoker role); [|done]. cbn in Hr. injection Hr as _ <-. by case_match.
  - rewrite Hsnd. intros x ([l e] & -> & Hin)%list_elem_of_fmap. cbn.
    by destruct (has_digest d e).
  - rewrite Hsnd. intros x ([l e] & -> & Hin)%list_elem_of_fmap. cbn. unfold has_digest.
    case_bool_decide; done.
Qed.

(** C9: revoking an endorsement never raises a confidence score. After a
    revocation that succeeds, every subject under every valid policy without a
    NaN among its trust weights and its decay factor has at most the score it had, its contributing paths are among those it had, and the
    revoked record contributes to no result. *)
Theorem revocation_never_raises {U : Unicode} h g L policy p target fuel
    d revoker role at_ rd reason seq h' g' :
  sequenced h g L -> Validate policy = Ok p -> numeric policy -> (size (g_nodes g) < fuel)%nat ->
  RevokeEdge h g d revoker role at_ rd reason seq = Ok (h', g') ->
  exists res res', Evaluate h g fuel policy target = Some (Ok res) /\
    Evaluate h' g' fuel policy target = Some (Ok res') /\
    f64_le (ConfidenceScore res') (ConfidenceScore res) = true /\
    sublist (ContributingPaths res') (ContributingPaths res) /\
    d ∉ ContributingRecords res'.
Proof.
  intros SQ HV HN Hf Hr. destruct (revoked_log _ _ _ _ _ _ _ _ _ _ _ _ SQ Hr) as (L' & SQ' & Hn & Hact & Hd).
  assert (Hf' : (size (g_nodes g') < fuel)%nat) by (by rewrite Hn).
  destruct (more_testimony SQ' SQ Hact policy p target fuel HV HN Hf' Hf)
    as (res' & res & HE' & HE & Hle & Hsub).
  exists res, res'. split_and!; [done..|].
  destruct (Evaluate_search SQ' policy p target fuel HV Hf') as (st & HE2 & Hs).
  rewrite HE2 in HE'. injection HE' as <-. cbn. rewrite (sm_digests _ _ _ _ _ Hs).
  rewrite (proj2 (DeduplicateDigests_spec _)). intros Hin.
  apply (path_digest_active SQ' p target fuel Hf') in Hin as (l & e & HL & He & Ha).
  specialize (Hd (l, e) HL He). cbn in Hd. congruence.
Qed.

(** *** Endorsing *)

(** A new endorsement never lowers a confidence score, and the paths that
    contributed before still do. *)
Theorem endorsement_never_lowers {U : Unicode} h g L policy p target fuel l e g' :
  sequenced h g L -> Validate policy = Ok p -> numeric policy ->
  h !! l = Some e -> l ∉ map fst L -> e_sequence e ∉ map (fun x => e_sequence x.2) L ->
  AddEdge h g (Some l) = Ok g' -> (size (g_nodes g') < fuel)%nat ->
  exists res res', Evaluate h g fuel policy target = Some (Ok res) /\
    Evaluate h g' fuel policy target = Some (Ok res') /\
    f64_le (ConfidenceScore res) (ConfidenceScore res') = true /\
    sublist (ContributingPaths res) (ContributingPaths res').
Proof.
  intros SQ HV HN Hl Hfresh Hseq Hadd Hf'. pose proof (sq_log _ _ _ SQ) as R.
  destruct (List.find (has_digest (e_recordDigest e)) (map snd L)) as [e0|] eqn:Hfind.
  { rewrite (AddEdge_duplicate h g L l e e0 R Hl Hfind) in Hadd. done. }
  destruct (AddEdge_fresh h g L l e R Hl Hfresh Hfind) as (g1 & Hadd1 & R1 & _).
  rewrite Hadd in Hadd1. injection Hadd1 as <-.
  assert (SQ' : sequenced h g' (L ++ [(l, e)])).
  { split; [done|]. rewrite map_app. apply NoDup_app. split_and!; [apply SQ| |apply NoDup_singleton].
    intros s Hs ->%list_elem_of_singleton. done. }
  apply (more_testimony SQ SQ') with (p := p); [|done..| |done].
  - intros x Hx _. apply elem_of_app. by left.
  - apply Nat.le_lt_trans with (size (g_nodes g')); [|done]. apply subseteq_size.
    rewrite (rp_nodes _ _ _ R), (rp_nodes _ _ _ R1), !map_app, !list_to_set_app_L. set_solver.
Qed.

(** ** Policies *)

Lemma f64_le_NaN x y : is_NaN x = true \/ is_NaN y = true -> f64_le x y = false /\ f64_lt x y = false.
Proof. unfold f64_le, f64_lt, SFleb, SFltb. intros [H|H]; destruct x, y; done. Qed.

Lemma good_weight w :
  bad_weight w = false <-> is_NaN w = true \/ (f64_lt f64_zero w = true /\ f64_le w f64_one = true).
Proof.
  unfold bad_weight. rewrite orb_false_iff. destruct (is_NaN w) eqn:Hn.
  - split; [by left|]. intros _. split; apply f64_le_NaN; auto.
  - split.
    + intros [H0 H1]. right. split; [by apply f64_not_le|].
      destruct (f64_le w f64_one) eqn:E; [done|]. apply f64_not_le in E; [congruence|done..].
    + intros [?|[H0 H1]]; [done|]. split; [|by apply f64_le_not_lt].
      destruct (f64_le w f64_zero) eqn:E; [|done]. apply f64_le_not_lt in E. congruence.
Qed.

Lemma good_decay d :
  f64_le d f64_zero || f64_le f64_one d = false <->
  is_NaN d = true \/ (f64_lt f64_zero d = true /\ f64_lt d f64_one = true).
Proof.
  rewrite orb_false_iff. destruct (is_NaN d) eqn:Hn.
  - split; [by left|]. intros _. split; apply f64_le_NaN; auto.
  - split.
    + intros [H0 H1]. right. split; by apply f64_not_le.
    + intros [?|[H0 H1]]; [done|]. split.
      * destruct (f64_le d f64_zero) eqn:E; [|done]. apply f64_le_not_lt in E. congruence.
      * destruct (f64_le f64_one d) eqn:E; [|done]. apply f64_le_not_lt in E. congruence.
Qed.

(** Validation accepts exactly the documented policies and those with a
    NaN. It succeeds when and only when there are trust roots, every weight is
    in (0, 1] or NaN, the hops are positive and the decay factor is in (0, 1) or
    NaN; an empty algorithm and a cutoff at or below 0 get their defaults and
    the rest is kept. A policy it refuses gets the error of a rule it breaks. *)
Theorem Validate_spec policy :
  (is_ok (Validate policy) = true <->
   TrustRoots policy <> ∅ /\
   (forall k w, TrustRoots policy !! k = Some w ->
      is_NaN w = true \/ (f64_lt f64_zero w = true /\ f64_le w f64_one = true)) /\
   0 < MaxHops policy /\
   (is_NaN (DecayFactor policy) = true \/
    (f64_lt f64_zero (DecayFactor policy) = true /\ f64_lt (DecayFactor policy) f64_one = true))) /\
  match Validate policy with
  | Ok p => p = MkPolicy (TrustRoots policy) (Topic policy) (MaxHops policy) (DecayFactor policy)
      (if f64_le (MinConfidence policy) f64_zero then DefaultMinConfidence else MinConfidence policy)
      (if bool_decide (AlgorithmVersion policy = []) then DefaultAlgorithmVersion
       else AlgorithmVersion policy)
  | Err (Fail err) =>
      (TrustRoots policy = ∅ /\ err = ErrEmptyTrustRoots) \/
      (exists k w, TrustRoots policy !! k = Some w /\ bad_weight w = true /\
         errors_Is err ErrInvalidTrustWeight = true) \/
      (MaxHops policy <= 0 /\ err = ErrInvalidMaxHops) \/
      (f64_le (DecayFactor policy) f64_zero || f64_le f64_one (DecayFactor policy) = true /\
         err = ErrInvalidDecayFactor)
  | Err (Panic _) => False
  end.
Proof.
  unfold Validate. case_bool_decide as He.
  { split; [|by left]. split; [done|]. by intros [? _]. }
  destruct (List.find _ _) as [[k w]|] eqn:Hf.
  { apply find_some in Hf as [Hin%list_elem_of_In%elem_of_map_to_list Hb]. cbn in Hb. split.
    - split; [done|]. intros (_ & Hw & _). apply Hw, good_weight in Hin. congruence.
    - right. left. exists k, w. split_and!; [done..|]. apply errors_Is_wrapped, errors_Is_refl. }
  assert (Hw : forall k w, TrustRoots policy !! k = Some w ->
    is_NaN w = true \/ (f64_lt f64_zero w = true /\ f64_le w f64_one = true)).
  { intros k w Hk%elem_of_map_to_list. apply find_None_Forall in Hf. rewrite Forall_forall in Hf.
    apply good_weight, (Hf (k, w) Hk). }
  destruct (Z.leb_spec (MaxHops policy) 0) as [Hm|Hm].
  { split; [split; [done|]; intros (_ & _ & ? & _); lia|]. right. right. by left. }
  destruct (_ || _) eqn:Hd.
  { split; [split; [done|]; intros (_ & _ & _ & Hd'%good_decay); congruence|].
    right. right. right. done. }
  apply good_decay in Hd. done.
Qed.

Lemma f64_NaN x : f64_mul x S754_nan = S754_nan /\ f64_mul S754_nan x = S754_nan /\ f64_sub x S754_nan = S754_nan.
Proof. by destruct x. Qed.

Lemma discounts_NaN ps : foldl discount S754_nan ps = S754_nan.
Proof. by induction ps as [|q ps IH]. Qed.

(** A decay factor of NaN passes validation and makes the score NaN. Under
    such a policy, whenever a path contributes, the confidence score is NaN
    rather than a number of the unit interval. *)
Theorem NaN_decay_score {U : Unicode} h g L policy p target fuel :
  sequenced h g L -> Validate policy = Ok p -> DecayFactor policy = S754_nan ->
  (size (g_nodes g) < fuel)%nat ->
  exists res, Evaluate h g fuel policy target = Some (Ok res) /\
    (ContributingPaths res <> [] -> ConfidenceScore res = S754_nan).
Proof.
  intros SQ HV Hnan Hfuel. destruct (Evaluate_search SQ policy p target fuel HV Hfuel) as (st & HE & Hs).
  destruct (Validate_Ok _ _ HV) as (_ & Hd & _). rewrite Hnan in Hd.
  eexists. split; [exact HE|]. cbn. rewrite (sm_paths _ _ _ _ _ Hs).
  destruct (all_paths p target fuel) as [|q ps] eqn:Hps; [done|]. intros _.
  assert (PathWeight q = S754_nan) as Hq.
  { assert (q ∈ all_paths (L := L) p target fuel) as Hin by (rewrite Hps; left).
    apply (all_paths_spec p target fuel (log_fuel SQ fuel Hfuel)) in Hin
      as (k & w & es & _ & _ & (_ & _ & Hlast & _) & ->). cbn.
    destruct es as [|e es]; [done|]. cbn. rewrite Hd, (proj1 (f64_NaN w)).
    generalize (length es). intros n. by induction n. }
  unfold confidence, unconfidence. cbn [foldl]. rewrite Hq, (proj2 (proj2 (f64_NaN f64_one))).
  rewrite (proj1 (f64_NaN _)). fold discount. change (foldl _ S754_nan ps) with (foldl discount S754_nan ps).
  rewrite discounts_NaN. reflexivity.
Qed.

(** ** The explanation *)

Definition count_lines (s : gostring) : Z := len (filter (fun b => byte_Z b = 10) s).

Lemma count_lines_app a b : count_lines (a ++ b) = count_lines a + count_lines b.
Proof. unfold count_lines. by rewrite filter_app, len_app. Qed.

Lemma one_line_count s : one_line s = true -> count_lines s = 0.
Proof.
  unfold count_lines, one_line. induction s as [|b s IH]; [done|]. cbn [forallb].
  intros [Hb Hs]%andb_prop. rewrite filter_cons_False by lia. by apply IH.
Qed.

Lemma String_one_line k : one_line (IdentityKey_String k) = true.
Proof.
  unfold IdentityKey_String. pose proof (EncodeToString_one_line (arr_list k)) as H. fold (Hex k) in H.
  assert (Hsub : forall l, l ⊆ Hex k -> one_line l = true).
  { intros l Hl. apply forallb_forall. intros b Hb%list_elem_of_In%Hl.
    unfold one_line in H. rewrite forallb_forall in H. by apply H, list_elem_of_In. }
  case_match; [done|]. rewrite !one_line_app, (Hsub (take _ _)), (Hsub (drop _ _)); [done|..].
  - apply sublist_subseteq, sublist_drop.
  - apply sublist_subseteq, sublist_take.
Qed.

Section Explained.
Context {U : Unicode}.

(** Rewrite with the line counts of the parts of a message. *)
Ltac count_parts :=
  repeat rewrite count_lines_app;
  repeat match goal with
  | |- context [count_lines (fmt_d ?n)] => rewrite (one_line_count _ (fmt_d_one_line n))
  | |- context [count_lines (fmt_f ?k ?x)] => rewrite (one_line_count _ (fmt_f_one_line k x))
  | |- context [count_lines (Quote ?s)] => rewrite (one_line_count _ (Quote_one_line s))
  | |- context [count_lines (EncodeToString ?s)] =>
      rewrite (one_line_count _ (EncodeToString_one_line s))
  | |- context [count_lines (IdentityKey_String ?k)] =>
      rewrite (one_line_count _ (String_one_line k))
  | |- context [count_lines (gostr ?s)] => change (count_lines (gostr s)) with 0
  | |- context [count_lines [x0a]] => change (count_lines [x0a]) with 1
  end.

Lemma explain_hops_lines hops : count_lines (concat (map explain_hop hops)) = 0.
Proof.
  induction hops as [|hop hops IH]; [done|]. cbn [map concat]. unfold explain_hop at 1. count_parts.
  by rewrite IH.
Qed.

Lemma explain_paths_lines i ps : count_lines (explain_paths i ps) = len ps.
Proof.
  revert i. induction ps as [|q ps IH]; intros i; [done|]. cbn [explain_paths]. count_parts.
  rewrite explain_hops_lines, IH, len_cons. lia.
Qed.

Lemma BuildExplanation_lines res :
  one_line (Algorithm res) = true ->
  count_lines (BuildExplanation res) = 2 + len (ContributingPaths res).
Proof.
  intros Ha. unfold BuildExplanation. destruct (Z.eqb_spec (len (ContributingPaths res)) 0) as [->|Hne];
    count_parts; rewrite (one_line_count _ Ha), ?explain_paths_lines; lia.
Qed.
End Explained.

(** The explanation has one line per contributing path after its two
    heading lines. No topic, identity or record on the paths can add or forge a
    line, provided the algorithm's name is on one line, as the default is. *)
Theorem Evaluate_explanation {U : Unicode} h g policy target fuel res :
  one_line (AlgorithmVersion policy) = true ->
  Evaluate h g fuel policy target = Some (Ok res) ->
  count_lines (Explanation res) = 2 + len (ContributingPaths res).
Proof.
  intros Ha. unfold Evaluate. destruct (Validate policy) as [p|] eqn:HV; [|done].
  destruct (each _ _ _) as [[st|]|]; [|done..]. intros [= <-].
  unfold assemble. cbn [Explanation set_Explanation ContributingPaths].
  rewrite BuildExplanation_lines; [done|]. cbn.
  destruct (Validate_Ok _ _ HV) as (_ & _ & _ & _ & _ & _ & _ & _ & ->). by case_bool_decide.
Qed.

(** ** Witnesses *)

Definition sample_target : IdentityKey := copy_array 65 [x04].

Definition sample_g : Graph :=
  match AddEdge sample_heap (NewGraph (zero_array 32)) (Some 0%nat) with
  | Ok g => g
  | Err _ => NewGraph (zero_array 32)
  end.

Lemma sample_sequenced : sequenced sample_heap sample_g [(0%nat, sample_edge)].
Proof.
  unfold sample_g. destruct sample_graph as (g & -> & R). split; [done|apply NoDup_singleton].
Qed.

Lemma sample_added : AddEdge sample_heap (NewGraph (zero_array 32)) (Some 0%nat) = Ok sample_g.
Proof. unfold sample_g. by destruct sample_graph as (g & -> & _). Qed.

Definition sample_policy : EvaluationPolicy :=
  NewDefaultPolicy {[sample_identity := f64_one]} (gostr "go").

Definition sample_unicode : Unicode := {| IsPrint_table := fun _ => false |}.

Lemma sample_validates : Validate sample_policy = Ok sample_policy.
Proof. vm_compute. reflexivity. Qed.

Lemma sample_numeric : numeric sample_policy.
Proof.
  split; [|done]. intros k w. unfold sample_policy. cbn. intros [_ <-]%lookup_singleton_Some. done.
Qed.

Lemma sample_fuel : (size (g_nodes sample_g) < 3)%nat.
Proof. vm_compute. lia. Qed.

(** One endorsement from a root of weight 1 on the default policy. *)
Example sample_confidence :
  match Evaluate (U := sample_unicode) sample_heap sample_g 3 sample_policy sample_target with
  | Some (Ok res) => ConfidenceScore res = DefaultDecayFactor /\ len (ContributingPaths res) = 1
  | _ => False
  end.
Proof. vm_compute. done. Qed.

Lemma Evaluate_paths_witness : exists res,
  Evaluate (U := sample_unicode) sample_heap sample_g 3 sample_policy sample_target = Some (Ok res) /\
  NoDup (ContributingPaths res).
Proof.
  destruct (Evaluate_paths (U := sample_unicode) _ _ _ _ _ sample_target 3 sample_sequenced
    sample_validates sample_fuel) as (res & HE & Hn & _).
  exact (ex_intro _ res (conj HE Hn)).
Defined.

Lemma Evaluate_score_witness : exists res,
  Evaluate (U := sample_unicode) sample_heap sample_g 3 sample_policy sample_target = Some (Ok res) /\
  in_unit (ConfidenceScore res).
Proof.
  destruct (Evaluate_score (U := sample_unicode) _ _ _ _ _ sample_target 3 sample_sequenced
    sample_validates sample_numeric sample_fuel) as (res & HE & Hu & _).
  exact (ex_intro _ res (conj HE Hu)).
Defined.

Lemma Evaluate_provenance_witness : exists res,
  Evaluate (U := sample_unicode) sample_heap sample_g 3 sample_policy sample_target = Some (Ok res) /\
  increasing bytes_lt arr_list (ContributingRecords res).
Proof.
  destruct (Evaluate_provenance (U := sample_unicode) _ _ _ _ _ sample_target 3 sample_sequenced
    sample_validates sample_fuel) as (res & HE & Hu & _).
  exact (ex_intro _ res (conj HE Hu)).
Defined.

(** The proposer revokes the endorsement. *)
Lemma sample_revoked : exists h' g',
  RevokeEdge sample_heap sample_g (zero_array 32) sample_identity 1 9 (zero_array 32) [] 3 = Ok (h', g').
Proof.
  assert (is_ok (RevokeEdge sample_heap sample_g (zero_array 32) sample_identity 1 9
    (zero_array 32) [] 3) = true) as H by (vm_compute; reflexivity).
  destruct (RevokeEdge _ _ _ _ _ _ _ _ _) as [[h' g']|]; [by exists h', g'|done].
Qed.

Lemma revocation_never_raises_witness : exists h' g' res',
  Evaluate (U := sample_unicode) h' g' 3 sample_policy sample_target = Some (Ok res') /\
  zero_array 32 ∉ ContributingRecords res'.
Proof.
  destruct sample_revoked as (h' & g' & Hr).
  destruct (revocation_never_raises (U := sample_unicode) _ _ _ _ _ sample_target 3 _ _ _ _ _ _ _ _ _
    sample_sequenced sample_validates sample_numeric sample_fuel Hr) as (res & res' & _ & HE & _ & _ & Hd).
  exact (ex_intro _ h' (ex_intro _ g' (ex_intro _ res' (conj HE Hd)))).
Defined.

Lemma endorsement_never_lowers_witness : exists res,
  Evaluate (U := sample_unicode) sample_heap sample_g 3 sample_policy sample_target = Some (Ok res).
Proof.
  destruct (endorsement_never_lowers (U := sample_unicode) sample_heap (NewGraph (zero_array 32)) []
    _ _ sample_target 3 0%nat sample_edge sample_g
    ltac:(split; [apply represents_nil|constructor]) sample_validates sample_numeric eq_refl
    (not_elem_of_nil _) (not_elem_of_nil _) sample_added sample_fuel)
    as (_ & res & _ & HE & _).
  exact (ex_intro _ res HE).
Defined.

Definition sample_NaN_policy : EvaluationPolicy :=
  MkPolicy {[sample_identity := f64_one]} (gostr "go") 3 S754_nan DefaultMinConfidence
    DefaultAlgorithmVersion.

Lemma sample_NaN_validates : Validate sample_NaN_policy = Ok sample_NaN_policy.
Proof. vm_compute. reflexivity. Qed.

Lemma NaN_decay_score_witness : exists res,
  Evaluate (U := sample_unicode) sample_heap sample_g 3 sample_NaN_policy sample_target = Some (Ok res) /\
  (ContributingPaths res <> [] -> ConfidenceScore res = S754_nan).
Proof.
  exact (NaN_decay_score (U := sample_unicode) _ _ _ sample_NaN_policy sample_NaN_policy sample_target 3
    sample_sequenced sample_NaN_validates eq_refl sample_fuel).
Defined.

(** The NaN is reached: the sample graph has a path. *)
Example sample_NaN_reached :
  match Evaluate (U := sample_unicode) sample_heap sample_g 3 sample_NaN_policy sample_target with
  | Some (Ok res) => ConfidenceScore res = S754_nan
  | _ => False
  end.
Proof. vm_compute. done. Qed.

Lemma Evaluate_explanation_witness :
  match Evaluate (U := sample_unicode) sample_heap sample_g 3 sample_policy sample_target with
  | Some (Ok res) => count_lines (Explanation res) = 2 + len (ContributingPaths res)
  | _ => False
  end.
Proof.
  destruct (Evaluate (U := sample_unicode) sample_heap sample_g 3 sample_policy sample_target)
    as [[res|f]|] eqn:E.
  - exact (Evaluate_explanation (U := sample_unicode) _ _ sample_policy _ _ res eq_refl E).
  - vm_compute in E. discriminate E.
  - vm_compute in E. discriminate E.
Defined.
End evaluator_props.
