(* ===== verification/Projector.v ===== *)
(** * Projecting the ledger into the graph

    [internal/graph/v1/projector.go]: applying records in sequence, and
    replaying a ledger from the store in batches. *)

From S2P Require Import Prelude Sha256 Cbor CborRef LedgerCodec LedgerEvent LedgerRecord LedgerChain Ecdsa Endorsement Effects Store Signer Admission Identity Graph.

Module projector.
Import identity graphv1.

Definition ErrLedgerMismatch : goerror := Sentinel "record ledger ID does not match graph ledger ID".
Definition ErrSequenceBreak : goerror := Sentinel "record sequence is not strictly continuous".
Definition ErrUnsupportedEvent : goerror := Sentinel "unsupported event kind for graph projection".

(** The graph and the heap its edges live in. *)
Record Projector := MkProjector { p_heap : heap; p_graph : Graph }.

Definition NewProjector (ledgerID : LedgerID) : Projector := MkProjector ∅ (NewGraph ledgerID).

Definition NewProjectorWithGraph (h : heap) (graph : Graph) : Projector := MkProjector h graph.

Section Operations.
Context {C : Cbor} {K : Ecdsa}.

(** The continuity check. *)
Definition check_sequence (lastSeq seq : Z) : gores unit :=
  if lastSeq =? 0 then
    if negb (seq =? 1)
    then fail (Wrapped "initial record sequence must be 1, got %d" [seq] ErrSequenceBreak)
    else Ok tt
  else if negb (seq =? u64_add lastSeq 1)
  then fail (Wrapped "expected sequence %d, got %d" [u64_add lastSeq 1; seq] ErrSequenceBreak)
  else Ok tt.

(** The edge of an accepted endorsement record. *)
Definition record_edge (record : StructuralRecord) : gores AttestationEdge :=
  let event := rec_event record in
  payload <~ rmap_err (wrapf "decode accepted payload for record %x" [hex_arg (rec_recordDigest record)])
    (endorsementv1.DecodeAcceptedPayload (ev_payloadBytes event)) ;;
  proposerKey <~ rmap_err (wrap "invalid proposer public key")
    (IdentityKeyFromPublicKey (endorsementv1.ProposerPublicKey payload)) ;;
  subjectKey <~ rmap_err (wrap "invalid subject public key")
    (IdentityKeyFromPublicKey (endorsementv1.SubjectPublicKey payload)) ;;
  Ok (NewAttestationEdge (rec_recordDigest record) (ev_sequence event) proposerKey subjectKey
        (endorsementv1.Topic payload) (endorsementv1.ClaimBodyBytes payload)
        (endorsementv1.ProposedAtUnixMS payload) (endorsementv1.AcceptedAtUnixMS payload)).

(** The payload and revoker of a revocation record. *)
Definition record_revocation (record : StructuralRecord) :
    gores (endorsementv1.EndorsementRevokedPayload * IdentityKey) :=
  payload <~ rmap_err (wrapf "decode revoked payload for record %x" [hex_arg (rec_recordDigest record)])
    (endorsementv1.DecodeRevokedPayload (ev_payloadBytes (rec_event record))) ;;
  revokerKey <~ rmap_err (wrap "invalid revoker public key")
    (IdentityKeyFromPublicKey (endorsementv1.RevokerPublicKey payload)) ;;
  Ok (payload, revokerKey).

(** On error the projector is as before. *)
Definition ApplyRecord (p : Projector) (record : StructuralRecord) : gores Projector :=
  let event := rec_event record in
  let ledgerID := ev_ledgerID event in
  if negb (bool_decide (ledgerID = g_ledgerID (p_graph p)))
  then fail (Wrapped "record has %x, graph has %x" [hex_arg ledgerID; hex_arg (g_ledgerID (p_graph p))]
               ErrLedgerMismatch)
  else
    let seq := ev_sequence event in
    let lastSeq := g_lastSequence (p_graph p) in
    _ <~ check_sequence lastSeq seq ;;
    if ev_kind event =? EventKindLedgerInitialized
    then Ok (MkProjector (p_heap p) (SetLastSequence (p_graph p) seq))
    else if ev_kind event =? EventKindEndorsementAccepted then
      edge <~ record_edge record ;;
      let '(l, h) := new (p_heap p) edge in
      g <~ AddEdge h (p_graph p) (Some l) ;;
      Ok (MkProjector h g)
    else if ev_kind event =? EventKindEndorsementRevoked then
      ' (payload, revokerKey) <~ record_revocation record ;;
      ' (h, g) <~ RevokeEdge (p_heap p) (p_graph p) (endorsementv1.TargetRecordDigest payload)
                    revokerKey (endorsementv1.Role payload) (endorsementv1.RevokedAtUnixMS payload)
                    (rec_recordDigest record) (endorsementv1.Reason payload) seq ;;
      Ok (MkProjector h g)
    else Ok (MkProjector (p_heap p) (SetLastSequence (p_graph p) seq)).

(** The inner loop: the projector, the count and the error after it. *)
Fixpoint apply_batch (p : Projector) (totalApplied : Z) (records : list StructuralRecord) :
    Projector * Z * gores unit :=
  match records with
  | [] => (p, totalApplied, Ok tt)
  | record :: rest =>
      match ApplyRecord p record with
      | Err (Fail err) =>
          (p, totalApplied,
           fail (Wrapped "apply record %x at sequence %d"
                   [hex_arg (rec_recordDigest record); ev_sequence (rec_event record)] err))
      | Err (Panic msg) => (p, totalApplied, Err (Panic msg))
      | Ok p' => apply_batch p' (totalApplied + 1) rest
      end
  end.

(** The outer loop, [fuel] iterations of it; [None] when they do not suffice. *)
Fixpoint replay_loop (fuel : nat) (p : Projector) (totalApplied batchSize : Z) :
    prog (option (Projector * Z * gores unit)) :=
  match fuel with
  | O => Ret None
  | S fuel' =>
      let startSeq := u64_add (g_lastSequence (p_graph p)) 1 in
      records <-- ledgerstore.ScanRecords (g_ledgerID (p_graph p)) startSeq batchSize ;;
      match records with
      | Err (Fail err) =>
          Ret (Some (p, totalApplied, fail (Wrapped "scan records at sequence %d" [startSeq] err)))
      | Err (Panic msg) => Ret (Some (p, totalApplied, Err (Panic msg)))
      | Ok records =>
          if len records =? 0 then Ret (Some (p, totalApplied, Ok tt))
          else
            match apply_batch p totalApplied records with
            | (p', total', Err f) => Ret (Some (p', total', Err f))
            | (p', total', Ok _) =>
                if len records <? batchSize then Ret (Some (p', total', Ok tt))
                else replay_loop fuel' p' total' batchSize
            end
      end
  end.

Definition ReplayFromStore (fuel : nat) (p : Projector) (store : option unit) (batchSize : Z) :
    prog (option (Projector * Z * gores unit)) :=
  match store with
  | None => Ret (Some (p, 0, fail (Errorf "store cannot be nil" [])))
  | Some _ =>
      let batchSize := if batchSize <=? 0 then 256 else batchSize in
      replay_loop fuel p 0 batchSize
  end.

(** ** The specification: projecting into the log *)

(** The edge an accepted endorsement stands for, with the proposer as its source
    and the subject as its target. *)
Definition attested_edge (record : StructuralRecord) : gores AttestationEdge :=
  match endorsementv1.DecodeAcceptedPayload (ev_payloadBytes (rec_event record)) with
  | Err f => Err (wrapf "decode accepted payload for record %x" [hex_arg (rec_recordDigest record)] f)
  | Ok p =>
      match IdentityKeyFromPublicKey (endorsementv1.ProposerPublicKey p),
            IdentityKeyFromPublicKey (endorsementv1.SubjectPublicKey p) with
      | Err f, _ => Err (wrap "invalid proposer public key" f)
      | Ok _, Err f => Err (wrap "invalid subject public key" f)
      | Ok proposer, Ok subject => Ok {|
          e_recordDigest := rec_recordDigest record;
          e_sequence := ev_sequence (rec_event record);
          e_proposer := proposer;
          e_subject := subject;
          e_topic := endorsementv1.Topic p;
          e_claimBody := sbytes (endorsementv1.ClaimBodyBytes p);
          e_proposedAtUnixMS := endorsementv1.ProposedAtUnixMS p;
          e_acceptedAtUnixMS := endorsementv1.AcceptedAtUnixMS p;
          e_isActive := true;
          e_revokedAtUnixMS := None;
          e_revocationRecordDigest := None;
          e_revocationReason := [];
          e_revokerRole := 0
        |}
      end
  end.

Lemma record_edge_spec r : record_edge r = attested_edge r.
Proof.
  unfold record_edge, attested_edge. destruct (endorsementv1.DecodeAcceptedPayload _) as [p|]; [|done].
  cbn [rmap_err rbind]. destruct (IdentityKeyFromPublicKey (endorsementv1.ProposerPublicKey p)); [|done].
  by destruct (IdentityKeyFromPublicKey (endorsementv1.SubjectPublicKey p)).
Qed.

(** The revocation a record holds, and the key of its revoker. *)
Definition attested_revocation (record : StructuralRecord) :
    gores (endorsementv1.EndorsementRevokedPayload * IdentityKey) :=
  match endorsementv1.DecodeRevokedPayload (ev_payloadBytes (rec_event record)) with
  | Err f => Err (wrapf "decode revoked payload for record %x" [hex_arg (rec_recordDigest record)] f)
  | Ok p =>
      match IdentityKeyFromPublicKey (endorsementv1.RevokerPublicKey p) with
      | Err f => Err (wrap "invalid revoker public key" f)
      | Ok revoker => Ok (p, revoker)
      end
  end.

Lemma record_revocation_spec r : record_revocation r = attested_revocation r.
Proof.
  unfold record_revocation, attested_revocation. destruct (endorsementv1.DecodeRevokedPayload _) as [p|]; [|done].
  cbn [rmap_err rbind]. by destruct (IdentityKeyFromPublicKey _).
Qed.

Definition project_record (id : LedgerID) (last : Z) (log : list AttestationEdge)
    (record : StructuralRecord) : gores (Z * list AttestationEdge) :=
  let event := rec_event record in
  if negb (bool_decide (ev_ledgerID event = id))
  then fail (Wrapped "record has %x, graph has %x" [hex_arg (ev_ledgerID event); hex_arg id]
               ErrLedgerMismatch)
  else
    _ <~ check_sequence last (ev_sequence event) ;;
    if ev_kind event =? EventKindEndorsementAccepted then
      edge <~ attested_edge record ;;
      match List.find (has_digest (rec_recordDigest record)) log with
      | Some _ => fail (Wrapped "%x" [hex_arg (rec_recordDigest record)] ErrDuplicateEdge)
      | None => Ok (ev_sequence event, log ++ [edge])
      end
    else if ev_kind event =? EventKindEndorsementRevoked then
      ' (payload, revoker) <~ attested_revocation record ;;
      log' <~ log_revoke log (endorsementv1.TargetRecordDigest payload) revoker
                (endorsementv1.Role payload) (endorsementv1.RevokedAtUnixMS payload)
                (rec_recordDigest record) (endorsementv1.Reason payload) ;;
      Ok (ev_sequence event, log')
    else Ok (ev_sequence event, log).

(** Projecting records until one fails: the sequence and log reached, how many
    were applied, and the error. *)
Fixpoint project_all (id : LedgerID) (last : Z) (log : list AttestationEdge) (total : Z)
    (records : list StructuralRecord) : Z * list AttestationEdge * Z * gores unit :=
  match records with
  | [] => (last, log, total, Ok tt)
  | record :: rest =>
      match project_record id last log record with
      | Ok (last', log') => project_all id last' log' (total + 1) rest
      | Err f =>
          (last, log, total,
           Err (wrapf "apply record %x at sequence %d"
                  [hex_arg (rec_recordDigest record); ev_sequence (rec_event record)] f))
      end
  end.
End Operations.

(** ** Refinement *)

(** A projector shows a log: its graph represents it, at the given ledger and
    sequence. *)
Definition shows (p : Projector) (id : LedgerID) (last : Z) (log : list AttestationEdge) : Prop :=
  exists L, represents (p_heap p) (p_graph p) L /\ map snd L = log /\
    g_lastSequence (p_graph p) = last /\ g_ledgerID (p_graph p) = id.

Lemma shows_new id : shows (NewProjector id) id 0 [].
Proof. exists []. split; [apply represents_nil|done]. Qed.

Lemma check_sequence_iff last seq :
  is_u64 last -> 1 <= seq < two64 -> check_sequence last seq = Ok tt <-> seq = last + 1.
Proof.
  intros Hl Hs. unfold check_sequence. destruct (Z.eqb_spec last 0) as [->|Hne].
  - destruct (Z.eqb_spec seq 1); cbn; split; done || lia.
  - destruct (Z.eq_dec last MaxUint64) as [->|Hm].
    + change (u64_add MaxUint64 1) with 0. destruct (Z.eqb_spec seq 0); cbn; split; done || clia.
    + rewrite u64_add_small by clia. destruct (Z.eqb_spec seq (last + 1)); cbn; split; done || lia.
Qed.

Lemma max_sequence_next last : max_sequence last (last + 1) = last + 1.
Proof. unfold max_sequence. by rewrite (proj2 (Z.ltb_lt _ _)) by lia. Qed.

Section Refinement.
Context {C : Cbor} {CO : CborOk C} {K : Ecdsa} {KO : EcdsaOk K}.

Lemma shows_sequence p id last log seq :
  shows p id last log ->
  shows (MkProjector (p_heap p) (SetLastSequence (p_graph p) seq)) id seq log.
Proof.
  intros (L & R & Hlog & _ & Hid). exists L. split; [by eapply represents_indexes|done].
Qed.

Lemma shows_add p id last log e :
  shows p id last log -> e_sequence e = last + 1 ->
  let '(l, h) := new (p_heap p) e in
  match List.find (has_digest (e_recordDigest e)) log with
  | None => exists g, AddEdge h (p_graph p) (Some l) = Ok g /\
      shows (MkProjector h g) id (last + 1) (log ++ [e])
  | Some _ => AddEdge h (p_graph p) (Some l)
      = fail (Wrapped "%x" [hex_arg (e_recordDigest e)] ErrDuplicateEdge)
  end.
Proof.
  intros (L & R & <- & Hlast & Hid) Hseq. unfold new. set (l := fresh (dom (p_heap p))).
  assert (Hl : l ∉ dom (p_heap p)) by apply is_fresh.
  assert (Hfresh : l ∉ map fst L).
  { intros ([l' e'] & Heq & Hin)%list_elem_of_fmap. cbn in Heq. subst l'.
    apply (rp_heap _ _ _ R) in Hin. apply Hl. by eapply elem_of_dom_2. }
  assert (R' : represents (<[l := e]> (p_heap p)) (p_graph p) L).
  { eapply represents_heap; [exact R|]. intros l' Hin. rewrite lookup_insert_ne; [done|].
    by intros ->. }
  assert (He : <[l := e]> (p_heap p) !! l = Some e) by apply lookup_insert_eq.
  destruct (List.find _ _) as [e'|] eqn:Hf.
  - by eapply AddEdge_duplicate.
  - destruct (AddEdge_fresh _ _ _ l e R' He Hfresh Hf) as (g & Hg & Rg & Hlg & Hidg).
    exists g. split; [done|]. exists (L ++ [(l, e)]).
    split; [done|]. split; [by rewrite map_app|]. cbn.
    by rewrite Hlg, Hidg, Hlast, Hseq, max_sequence_next.
Qed.

Lemma shows_revoke p id last log d revoker role at_ rd reason :
  shows p id last log ->
  match log_revoke log d revoker role at_ rd reason,
        RevokeEdge (p_heap p) (p_graph p) d revoker role at_ rd reason (last + 1) with
  | Ok log', Ok (h, g) => shows (MkProjector h g) id (last + 1) log'
  | Err f, Err f' => f = f'
  | _, _ => False
  end.
Proof.
  intros (L & R & <- & Hlast & Hid).
  pose proof (revoke_simulation _ _ L d revoker role at_ rd reason (last + 1) R) as H.
  destruct (log_revoke _ _ _ _ _ _ _), (RevokeEdge _ _ _ _ _ _ _ _ _) as [[h g]|]; try done.
  destruct H as (L' & RL & Hlog & _ & Hl & Hi & _). exists L'. split; [done|]. split; [done|]. cbn.
  by rewrite Hl, Hi, Hlast, max_sequence_next.
Qed.

Lemma apply_simulation p id last log r :
  shows p id last log -> is_u64 last -> 1 <= ev_sequence (rec_event r) < two64 ->
  match project_record id last log r, ApplyRecord p r with
  | Ok (last', log'), Ok p' => shows p' id last' log' /\ last' = last + 1
  | Err f, Err f' => f = f'
  | _, _ => False
  end.
Proof.
  intros Hs Hlast Hseq. pose proof Hs as (_ & _ & _ & HL & Hid).
  unfold project_record, ApplyRecord. rewrite <- record_edge_spec, <- record_revocation_spec, Hid, HL.
  destruct (negb _); [done|]. destruct (check_sequence last _) as [[]|f] eqn:Hc; [|done].
  apply check_sequence_iff in Hc; [|done..]. cbn [rbind].
  destruct (ev_kind (rec_event r) =? EventKindLedgerInitialized) eqn:E1.
  { replace (ev_kind (rec_event r) =? EventKindEndorsementAccepted) with false by clia.
    replace (ev_kind (rec_event r) =? EventKindEndorsementRevoked) with false by clia.
    split; [by eapply shows_sequence|done]. }
  destruct (ev_kind (rec_event r) =? EventKindEndorsementAccepted).
  { destruct (record_edge r) as [e|f] eqn:He; [|done]. cbn [rbind].
    assert (e_sequence e = last + 1 /\ e_recordDigest e = rec_recordDigest r) as [Hes Hed].
    { unfold record_edge in He. inv_steps. injection He as <-. done. }
    pose proof (shows_add p id last log e Hs Hes) as Ha.
    destruct (new (p_heap p) e) as [l h]. rewrite Hed in Ha.
    destruct (List.find _ _); [by rewrite Ha|]. destruct Ha as (g & -> & Hg). cbn [rbind].
    by rewrite Hc. }
  destruct (ev_kind (rec_event r) =? EventKindEndorsementRevoked).
  { destruct (record_revocation r) as [[pl k]|f]; [|done]. cbn [rbind]. rewrite Hc.
    pose proof (shows_revoke p id last log (endorsementv1.TargetRecordDigest pl) k
      (endorsementv1.Role pl) (endorsementv1.RevokedAtUnixMS pl) (rec_recordDigest r)
      (endorsementv1.Reason pl) Hs) as Hr.
    destruct (log_revoke _ _ _ _ _ _ _), (RevokeEdge _ _ _ _ _ _ _ _ _) as [[h g]|]; try done. }
  split; [by eapply shows_sequence|done].
Qed.

Lemma apply_batch_cons p total r rs :
  apply_batch p total (r :: rs) =
    match ApplyRecord p r with
    | Ok p' => apply_batch p' (total + 1) rs
    | Err f => (p, total, Err (wrapf "apply record %x at sequence %d"
                 [hex_arg (rec_recordDigest r); ev_sequence (rec_event r)] f))
    end.
Proof. cbn [apply_batch]. by destruct (ApplyRecord p r) as [|[]]. Qed.

Lemma apply_batch_app p total rs1 rs2 :
  apply_batch p total (rs1 ++ rs2) =
    match apply_batch p total rs1 with
    | (p', total', Ok _) => apply_batch p' total' rs2
    | (p', total', Err f) => (p', total', Err f)
    end.
Proof.
  revert p total. induction rs1 as [|r rs1 IH]; intros p total; [done|].
  rewrite <- app_comm_cons, !apply_batch_cons. destruct (ApplyRecord p r); [apply IH|done].
Qed.

(** Sequences that fit, one after the other from [last + 1]. *)
Definition in_sequence (last : Z) (rs : list StructuralRecord) : Prop :=
  0 <= last /\ last + len rs < two64 /\
  Forall (fun r => 1 <= ev_sequence (rec_event r) < two64) rs.

Lemma batch_simulation p id last log total rs :
  shows p id last log -> in_sequence last rs ->
  let '(p', n, res) := apply_batch p total rs in
  let '(last', log', n', res') := project_all id last log total rs in
  shows p' id last' log' /\ n = n' /\ res = res' /\ (res = Ok tt -> last' = last + len rs).
Proof.
  revert p last log total. induction rs as [|r rs IH]; intros p last log total Hs (H0 & H1 & H2).
  { cbn. split_and!; try done. intros _. unfold len. cbn. lia. }
  apply Forall_cons in H2 as [Hr H2]. rewrite len_cons in *. pose proof (len_nonneg rs).
  rewrite apply_batch_cons. cbn [project_all].
  pose proof (apply_simulation p id last log r Hs ltac:(clia) Hr) as Ha.
  destruct (project_record id last log r) as [[last' log']|f], (ApplyRecord p r) as [p'|f'];
    try done.
  - destruct Ha as [Ha ->]. specialize (IH p' (last + 1) log' (total + 1) Ha).
    destruct (apply_batch p' _ rs) as [[p'' n] res].
    destruct (project_all _ _ _ _ rs) as [[[last'' log''] n'] res'].
    destruct IH as (? & ? & ? & Hlast); [split_and!; [lia|lia|done]|]. split_and!; try done.
    intros Hres. rewrite Hlast by done. lia.
  - by subst f'.
Qed.

(** The replay loop applies what the store holds, whatever the batch size. *)
Lemma run_replay_loop env t id rs fuel n p log total batchSize :
  ledgerstore.ledger_chain t (arr_list id) rs -> len rs < MaxUint64 -> 0 < batchSize ->
  shows p id (Z.of_nat n) log -> (n <= length rs)%nat -> (length rs - n < fuel)%nat ->
  run env (replay_loop fuel p total batchSize) t = (Some (apply_batch p total (drop n rs)), t).
Proof.
  intros Hc Hlen Hb. revert n p log total.
  induction fuel as [|fuel IH]; intros n p log total Hs Hn Hf; [lia|].
  pose proof Hs as (_ & _ & _ & Hlast & Hid). cbn [replay_loop]. rewrite Hlast, Hid.
  assert (Hall : Forall (fun r => 1 <= ev_sequence (rec_event r) < two64) rs).
  { destruct Hc as (_ & Hok & _). eapply Forall_impl; [exact Hok|]. intros r [[(Hq & _) _] _]. done. }
  rewrite u64_add_small by (unfold len in *; clia). rewrite run_bind.
  rewrite (ledgerstore.run_ScanRecords env t id rs) by (done || lia).
  replace (Z.to_nat (Z.of_nat n + 1 - 1)) with n by lia.
  set (rest := drop n rs). set (batch := take (Z.to_nat batchSize) rest).
  assert (Hrest : rest = batch ++ drop (Z.to_nat batchSize) rest) by (symmetry; apply take_drop).
  assert (Hlr : length rest = (length rs - n)%nat) by apply length_drop.
  assert (Hlb : length batch = Nat.min (Z.to_nat batchSize) (length rest)) by apply length_take.
  destruct (Z.eqb_spec (len batch) 0) as [Hz|Hz].
  { assert (rest = []) as ->; [|done]. apply nil_length_inv. unfold len in Hz. lia. }
  assert (Hin : in_sequence (Z.of_nat n) batch).
  { split_and!; [lia|unfold len in *; clia|]. by apply Forall_take, Forall_drop. }
  pose proof (batch_simulation p id _ log total batch Hs Hin) as Hsim.
  rewrite Hrest, apply_batch_app.
  destruct (apply_batch p total batch) as [[p' total'] [[]|f]]; [|done].
  destruct (project_all _ _ _ _ batch) as [[[last' log'] n'] res'].
  destruct Hsim as (Hs' & _ & _ & Hl). specialize (Hl eq_refl).
  destruct (Z.ltb_spec (len batch) batchSize) as [Hlt|Hge].
  - assert (drop (Z.to_nat batchSize) rest = []) as ->; [|done].
    apply drop_ge. unfold len in Hlt. lia.
  - assert (Hbl : length batch = Z.to_nat batchSize) by (unfold len in Hge; lia).
    unfold rest. rewrite drop_drop. apply (IH _ _ log').
    + rewrite Hl in Hs'. unfold len in Hs'. by replace (Z.of_nat (n + Z.to_nat batchSize))
        with (Z.of_nat n + Z.of_nat (length batch)) by lia.
    + lia.
    + lia.
Qed.

Lemma chain_in_sequence t (id : LedgerID) rs :
  ledgerstore.ledger_chain t (arr_list id) rs -> len rs < MaxUint64 -> in_sequence 0 rs.
Proof.
  intros (_ & Hok & _) Hlen. split_and!; [lia|clia|].
  eapply Forall_impl; [exact Hok|]. intros r [[(Hq & _) _] _]. done.
Qed.

(** An admitted revocation is read back by the projector. *)
Lemma record_revocation_of r rv :
  endorsementv1.revoked_payload_ok rv -> utf8_valid (endorsementv1.Reason rv) = true ->
  ev_payloadBytes (rec_event r) = enc_struct (endorsementv1.revoked_wire rv) ->
  exists k, record_revocation r = Ok (rv, k).
Proof.
  intros Hok Hu Hpl. unfold record_revocation. rewrite Hpl.
  rewrite endorsementv1.DecodeRevokedPayload_complete by done. cbn [rmap_err rbind].
  destruct (endorsementv1.rpo_revoker _ Hok) as (k & b & -> & Hk & Hb).
  destruct (IdentityKeyFromPublicKey_key k b Hk Hb) as (idk & -> & _). by exists idk.
Qed.

(** ** Properties *)

(** C25: applying a record refines projecting it into the log. From any
    projector that shows a log, [ApplyRecord] succeeds exactly when the
    projection into the log does, and then shows the projected log at the next
    sequence; when it fails it fails with the same error. *)
Theorem ApplyRecord_refines p id last log encoded r :
  ValidateRecordStructure encoded = Ok r -> shows p id last log -> is_u64 last ->
  match project_record id last log r, ApplyRecord p r with
  | Ok (last', log'), Ok p' => shows p' id last' log' /\ last' = last + 1
  | Err f, Err f' => f = f'
  | _, _ => False
  end.
Proof.
  intros [Hr _]%validate_record_sound Hs Hl. apply apply_simulation; try done.
  by destruct Hr as [[(? & _) _] _].
Qed.

(** C7: replay projects the ledger. For every batch size, [ReplayFromStore]
    into a new projector terminates within one loop iteration per stored
    record and one more, and what it leaves is the projection of the ledger's
    chain, record by record up to the first that fails: the same log and
    sequence, the number of records applied, the same error. *)
Theorem ReplayFromStore_projects env t (id : LedgerID) rs fuel batchSize :
  ledgerstore.ledger_chain t (arr_list id) rs -> len rs < MaxUint64 -> (length rs < fuel)%nat ->
  let '(last, log, total, res) := project_all id 0 [] 0 rs in
  exists p, run env (ReplayFromStore fuel (NewProjector id) (Some tt) batchSize) t
      = (Some (p, total, res), t) /\
    shows p id last log.
Proof.
  intros Hc Hlen Hfuel. unfold ReplayFromStore.
  rewrite (run_replay_loop env t id rs fuel 0 _ [] 0 _ Hc Hlen);
    [|by destruct (Z.leb_spec batchSize 0)|apply shows_new|lia|lia].
  pose proof (batch_simulation (NewProjector id) id 0 [] 0 rs (shows_new id)
    (chain_in_sequence t id rs Hc Hlen)) as Hsim. rewrite drop_0.
  destruct (apply_batch _ _ rs) as [[p n] res], (project_all _ _ _ _ rs) as [[[last log] n'] res'].
  destruct Hsim as (Hs & -> & -> & _). by exists p.
Qed.

(** An incremental replay catches up. From a projector that shows the
    first [n] records, [ReplayFromStore] applies exactly the others, whatever
    the batch size. *)
Theorem ReplayFromStore_incremental env t (id : LedgerID) rs n p log fuel b1 b2 :
  ledgerstore.ledger_chain t (arr_list id) rs -> len rs < MaxUint64 ->
  shows p id (Z.of_nat n) log -> (n <= length rs)%nat -> (length rs - n < fuel)%nat ->
  run env (ReplayFromStore fuel p (Some tt) b1) t = (Some (apply_batch p 0 (drop n rs)), t) /\
  run env (ReplayFromStore fuel p (Some tt) b1) t = run env (ReplayFromStore fuel p (Some tt) b2) t.
Proof.
  intros Hc Hlen Hs Hn Hf.
  assert (H : forall b, run env (ReplayFromStore fuel p (Some tt) b) t
    = (Some (apply_batch p 0 (drop n rs)), t)).
  { intros b. unfold ReplayFromStore.
    by rewrite (run_replay_loop env t id rs fuel n p log 0 _ Hc Hlen);
      [|destruct (Z.leb_spec b 0)|..]. }
  split; [apply H|]. by rewrite !H.
Qed.


End Refinement.

(** ** Witnesses *)

Section Witnesses.
#[local] Existing Instance Ref.codec.
#[local] Existing Instance Toy.ecdsa.

Lemma genesis_projects : project_all sample_id 0 [] 0 [sample_record] = (1, [], 1, Ok tt).
Proof. reflexivity. Qed.

Lemma ApplyRecord_refines_witness :
  match ApplyRecord (NewProjector sample_id) sample_record with
  | Ok p' => shows p' sample_id 1 []
  | Err _ => False
  end.
Proof.
  pose proof (ApplyRecord_refines (NewProjector sample_id) sample_id 0 [] _ sample_record
    sample_record_valid (shows_new sample_id) ltac:(clia)) as H.
  change (project_record sample_id 0 [] sample_record) with (Ok (E := failure) (1, @nil AttestationEdge)) in H.
  destruct (ApplyRecord (NewProjector sample_id) sample_record); [exact (proj1 H)|exact H].
Defined.

Lemma ReplayFromStore_projects_witness : exists p,
  run signer.toy_env (ReplayFromStore 2 (NewProjector sample_id) (Some tt) 100) admission.sample_table
    = (Some (p, 1, Ok tt), admission.sample_table) /\
  shows p sample_id 1 [].
Proof.
  exact (ReplayFromStore_projects signer.toy_env admission.sample_table sample_id [sample_record] 2 100
    admission.sample_ledger_chain ltac:(reflexivity) ltac:(cbn; lia)).
Defined.

Lemma ReplayFromStore_incremental_witness :
  run signer.toy_env (ReplayFromStore 2 (NewProjector sample_id) (Some tt) 1) admission.sample_table
  = run signer.toy_env (ReplayFromStore 2 (NewProjector sample_id) (Some tt) 0) admission.sample_table.
Proof.
  exact (proj2 (ReplayFromStore_incremental signer.toy_env admission.sample_table sample_id
    [sample_record] 0 (NewProjector sample_id) [] 2 1 0 admission.sample_ledger_chain
    ltac:(reflexivity) (shows_new sample_id) ltac:(cbn; lia) ltac:(cbn; lia))).
Defined.

Lemma sample_revocation_typed : admission.revocation_typed endorsementv1.sample_revocation.
Proof. split; [right; apply endorsementv1.sample_key_ok|cbn; clia]. Qed.

Lemma sample_revocation_verifies :
  endorsementv1.RevokedPayload_Verify endorsementv1.sample_revocation = Ok tt.
Proof.
  apply endorsementv1.revoked_verify_ok; [apply endorsementv1.sample_revocation_ok|].
  apply endorsementv1.sample_signed.
Qed.


End Witnesses.

End projector.
