(* ===== verification/Net.v ===== *)
(** * Network text

    What the sources use of [strings], [net/textproto], [net/http], [net],
    [net/netip] and [net/url]: folding of letters, header maps, IP addresses and
    request URLs, as of Go 1.26.  Callers only ask whether a parser failed: an
    error is [None]. *)

From S2P Require Import Prelude Text Strconv.

(** ** Searching *)

(** [strings.Cut] at the first [c], [None] when there is none. *)
Fixpoint cut (c : byte) (s : gostring) : option (gostring * gostring) :=
  match s with
  | [] => None
  | b :: rest =>
      if bool_decide (b = c) then Some ([], rest)
      else match cut c rest with Some (l, r) => Some (b :: l, r) | None => None end
  end.

(** The same at the last [c]. *)
Fixpoint cut_last (c : byte) (s : gostring) : option (gostring * gostring) :=
  match s with
  | [] => None
  | b :: rest =>
      match cut_last c rest with
      | Some (l, r) => Some (b :: l, r)
      | None => if bool_decide (b = c) then Some ([], rest) else None
      end
  end.

Definition HasPrefix (s prefix : gostring) : bool := bool_decide (take (length prefix) s = prefix).

(** The bytes of a set written as a string. *)
Definition one_of (set : string) (b : byte) : bool := bool_decide (b ∈ gostr set).

Definition is_letter (b : byte) : bool := is_lower b || is_upper b.

Definition to_lower (b : byte) : byte := if is_upper b then Z_byte (byte_Z b + 32) else b.
Definition to_upper (b : byte) : byte := if is_lower b then Z_byte (byte_Z b - 32) else b.

(** ** [strings.EqualFold] *)

Fixpoint runes (fuel : nat) (s : gostring) : list Z :=
  match fuel, s with
  | O, _ | _, [] => []
  | S fuel', _ => let '(r, w) := decode_rune s in r :: runes fuel' (drop w s)
  end.

(** One rune per class of simple folding, on the classes that have an ASCII
    letter: besides the two cases, U+017F folds with s and U+212A with k. *)
Definition fold_rune (r : Z) : Z :=
  if (65 <=? r) && (r <=? 90) then r + 32
  else if r =? 383 then 115
  else if r =? 8490 then 107
  else r.

(** Equality under folding, where one of the strings is ASCII. *)
Definition EqualFold (s t : gostring) : bool :=
  bool_decide (map fold_rune (runes (length s) s) = map fold_rune (runes (length t) t)).

(** ** [http.Header] *)

(** The bytes of a token. *)
Definition validHeaderFieldByte (b : byte) : bool :=
  is_letter b || is_digit b || one_of "!#$%&'*+-.^_`|~" b.

Fixpoint canonical_key (upper : bool) (s : gostring) : gostring :=
  match s with
  | [] => []
  | b :: rest =>
      (if upper then to_upper b else to_lower b) :: canonical_key (bool_decide (b = x2d)) rest
  end.

(** [textproto.CanonicalMIMEHeaderKey]: a key that is no token stays. *)
Definition CanonicalHeaderKey (s : gostring) : gostring :=
  if forallb validHeaderFieldByte s then canonical_key true s else s.

Abbreviation Header := (gmap gostring (list gostring)).

Definition Header_Values (h : Header) (key : gostring) : list gostring :=
  default [] (h !! CanonicalHeaderKey key).

Definition Header_Get (h : Header) (key : gostring) : gostring :=
  match Header_Values h key with
  | [] => []
  | v :: _ => v
  end.

Definition Header_Add (h : Header) (key value : gostring) : Header :=
  <[CanonicalHeaderKey key := Header_Values h key ++ [value]]> h.

Definition Header_Set (h : Header) (key value : gostring) : Header :=
  <[CanonicalHeaderKey key := [value]]> h.

Definition Header_Del (h : Header) (key : gostring) : Header := delete (CanonicalHeaderKey key) h.

(** ** [netip.ParseAddr] *)

Inductive Addr :=
  | Addr4 (fields : list Z)
  | Addr16 (ip : list Z) (zone : gostring).

(** [parseIPv4Fields]: the fields read so far, the value and the number of
    digits of the one being read. *)
Fixpoint parseIPv4Fields (fields : list Z) (val : Z) (digLen : nat) (s : gostring) : option (list Z) :=
  match s with
  | [] => if Nat.ltb (length fields) 3 then None else Some (fields ++ [val])
  | c :: rest =>
      if is_digit c then
        if Nat.eqb digLen 1 && (val =? 0) then None
        else
          let val := val * 10 + (byte_Z c - 48) in
          if 255 <? val then None else parseIPv4Fields fields val (S digLen) rest
      else if bool_decide (c = x2e) then
        if Nat.eqb digLen 0 || bool_decide (rest = []) then None
        else if Nat.eqb (length fields) 3 then None
        else parseIPv4Fields (fields ++ [val]) 0 0 rest
      else None
  end.

(** The digits of one group: its value, their number and what follows. *)
Fixpoint hex_group (off : nat) (acc : Z) (s : gostring) : option (Z * nat * gostring) :=
  match s with
  | [] => Some (acc, off, [])
  | c :: rest =>
      match hex_value c with
      | None => Some (acc, off, s)
      | Some d =>
          let acc := acc * 16 + d in
          if Nat.ltb 3 off || (65535 <? acc) then None else hex_group (S off) acc rest
      end
  end.

(** The loop of [parseIPv6]: the bytes so far, the position of the ellipsis and
    the rest; every iteration adds at least two bytes. *)
Fixpoint ipv6_loop (fuel : nat) (ip : list Z) (ellipsis : option nat) (s : gostring) :
    option (list Z * option nat * gostring) :=
  match fuel with
  | O => Some (ip, ellipsis, s)
  | S fuel' =>
      if negb (Nat.ltb (length ip) 16) then Some (ip, ellipsis, s)
      else
        match hex_group 0 0 s with
        | None | Some (_, O, _) => None
        | Some (acc, _, rest) =>
            if bool_decide (head rest = Some x2e) then
              if bool_decide (ellipsis = None) && negb (Nat.eqb (length ip) 12) then None
              else if Nat.ltb 16 (length ip + 4) then None
              else
                match parseIPv4Fields [] 0 0 s with
                | None => None
                | Some fields => Some (ip ++ fields, ellipsis, [])
                end
            else
              let ip := ip ++ [acc / 256; acc mod 256] in
              match rest with
              | [] => Some (ip, ellipsis, [])
              | sep :: more =>
                  if negb (bool_decide (sep = x3a)) || bool_decide (more = []) then None
                  else if bool_decide (head more = Some x3a) then
                    if bool_decide (is_Some ellipsis) then None
                    else if bool_decide (drop 1 more = []) then Some (ip, Some (length ip), [])
                    else ipv6_loop fuel' ip (Some (length ip)) (drop 1 more)
                  else ipv6_loop fuel' ip ellipsis more
              end
        end
  end.

(** Zeros where the ellipsis stood. *)
Definition expand (ip : list Z) (ellipsis : option nat) : option (list Z) :=
  match ellipsis with
  | None => if Nat.ltb (length ip) 16 then None else Some ip
  | Some e =>
      if Nat.ltb (length ip) 16
      then Some (take e ip ++ replicate (16 - length ip) 0 ++ drop e ip)
      else None
  end.

Definition parseIPv6 (s : gostring) : option Addr :=
  let '(s, zone) := match cut x25 s with Some (l, r) => (l, Some r) | None => (s, None) end in
  if bool_decide (zone = Some []) then None
  else
    let zone := default [] zone in
    let '(ellipsis, s) := match s with x3a :: x3a :: rest => (Some O, rest) | _ => (None, s) end in
    if bool_decide (ellipsis = Some O) && bool_decide (s = [])
    then Some (Addr16 (replicate 16 0) zone)
    else
      match ipv6_loop 8 [] ellipsis s with
      | Some (ip, ellipsis, []) =>
          match expand ip ellipsis with Some ip => Some (Addr16 ip zone) | None => None end
      | _ => None
      end.

Definition ParseAddr (s : gostring) : option Addr :=
  match List.find (one_of ".:%") s with
  | Some x2e => match parseIPv4Fields [] 0 0 s with Some fields => Some (Addr4 fields) | None => None end
  | Some x3a => parseIPv6 s
  | _ => None
  end.

(** [net.ParseIP]: sixteen bytes, an IPv4 address as its mapped form. *)
Definition v4InV6Prefix : list Z := replicate 10 0 ++ [255; 255].

Definition ParseIP (s : gostring) : option (list Z) :=
  match ParseAddr s with
  | Some (Addr4 fields) => Some (v4InV6Prefix ++ fields)
  | Some (Addr16 ip []) => Some ip
  | _ => None
  end.

(** [IP.To4] and [IP.IsLoopback], of sixteen bytes. *)
Definition To4 (ip : list Z) : option (list Z) :=
  if bool_decide (take 12 ip = v4InV6Prefix) then Some (drop 12 ip) else None.

Definition IPv6loopback : list Z := replicate 15 0 ++ [1].

Definition IsLoopback (ip : list Z) : bool :=
  match To4 ip with
  | Some ip4 => bool_decide (head ip4 = Some 127)
  | None => bool_decide (ip = IPv6loopback)
  end.

(** ** [url.ParseRequestURI] *)

Record URL := MkURL {
  Scheme : gostring;
  Opaque : gostring;
  User : option (gostring * option gostring);
  url_Host : gostring;
  Path : gostring;
  ForceQuery : bool;
  RawQuery : gostring
}.

(** The parts of a URL that are unescaped here. *)
Inductive encoding := encodePath | encodeHost | encodeZone | encodeUserPassword.

(** [shouldEscape(c, encodeHost)], which is also that of a zone. *)
Definition shouldEscape_host (c : byte) : bool :=
  negb (is_letter c || is_digit c || one_of "!$&'()*+,;=:[]<>" c || bool_decide (c = x22)
        || one_of "-_.~" c).

Definition hex_byte (a b : byte) : option Z :=
  match hex_value a, hex_value b with
  | Some x, Some y => Some (x * 16 + y)
  | _, _ => None
  end.

(** May the escape of [v] be used? *)
Definition escape_allowed (mode : encoding) (v : Z) : bool :=
  match mode with
  | encodeHost => (128 <=? v) || (v =? 37)
  | encodeZone => (v =? 37) || (v =? 32) || negb (shouldEscape_host (Z_byte v))
  | _ => true
  end.

(** May [c] stand for itself? *)
Definition byte_allowed (mode : encoding) (c : byte) : bool :=
  match mode with
  | encodeHost | encodeZone => negb (byte_Z c <? 128) || negb (shouldEscape_host c)
  | _ => true
  end.

Fixpoint unescape (mode : encoding) (s : gostring) : option gostring :=
  match s with
  | [] => Some []
  | x25 :: a :: b :: rest =>
      match hex_byte a b with
      | Some v =>
          if escape_allowed mode v
          then match unescape mode rest with Some t => Some (Z_byte v :: t) | None => None end
          else None
      | None => None
      end
  | x25 :: _ => None
  | c :: rest =>
      if byte_allowed mode c
      then match unescape mode rest with Some t => Some (c :: t) | None => None end
      else None
  end.

(** [getScheme]: the scheme, or none, and the rest; [None] for a leading colon. *)
Fixpoint scheme_loop (before : gostring) (rawURL s : gostring) : option (gostring * gostring) :=
  match s with
  | [] => Some ([], rawURL)
  | c :: rest =>
      if is_letter c then scheme_loop (before ++ [c]) rawURL rest
      else if is_digit c || one_of "+-." c then
        if bool_decide (before = []) then Some ([], rawURL)
        else scheme_loop (before ++ [c]) rawURL rest
      else if bool_decide (c = x3a) then
        if bool_decide (before = []) then None else Some (before, rest)
      else Some ([], rawURL)
  end.

Definition getScheme (rawURL : gostring) : option (gostring * gostring) := scheme_loop [] rawURL rawURL.

Definition validOptionalPort (port : gostring) : bool :=
  match port with
  | [] => true
  | c :: digits => bool_decide (c = x3a) && forallb is_digit digits
  end.

(** A host in brackets: only an IPv6 address may be. *)
Definition parse_ip_literal (host : gostring) : option gostring :=
  match cut_last x5d (drop 1 host) with
  | None => None
  | Some (hostname, colonPort) =>
      if negb (validOptionalPort colonPort) then None
      else
        let unescaped :=
          match cut x25 hostname with
          | Some (hostPart, x32 :: x35 :: _) =>
              match unescape encodeHost hostPart, unescape encodeZone (drop (length hostPart) hostname) with
              | Some h, Some z => Some (h ++ z)
              | _, _ => None
              end
          | _ => unescape encodeHost hostname
          end in
        match unescaped, unescape encodeHost colonPort with
        | Some name, Some port =>
            match ParseAddr name with
            | Some (Addr16 _ _) => Some ([x5b] ++ name ++ [x5d] ++ port)
            | _ => None
            end
        | _, _ => None
        end
  end.

(** PostgreSQL URLs may have a list of hosts with ports. *)
Definition postgres_scheme (scheme : gostring) : bool :=
  bool_decide (scheme = gostr "postgresql") || bool_decide (scheme = gostr "postgres").

Definition parseHost (scheme host : gostring) : option gostring :=
  match cut_last x5b host with
  | Some ([], _) => parse_ip_literal host
  | Some _ => None
  | None =>
      match (if postgres_scheme scheme then cut_last x3a host else cut x3a host) with
      | Some (_, port) => if forallb is_digit port then unescape encodeHost host else None
      | None => unescape encodeHost host
      end
  end.

Definition validUserinfo (s : gostring) : bool :=
  forallb (fun c => is_letter c || is_digit c || one_of "-._:~!$&'()*+,;=%@" c) s.

Definition parse_userinfo (userinfo : gostring) : option (gostring * option gostring) :=
  if negb (validUserinfo userinfo) then None
  else
    match cut x3a userinfo with
    | None => match unescape encodeUserPassword userinfo with Some u => Some (u, None) | None => None end
    | Some (username, password) =>
        match unescape encodeUserPassword username, unescape encodeUserPassword password with
        | Some u, Some p => Some (u, Some p)
        | _, _ => None
        end
    end.

Definition parseAuthority (scheme authority : gostring) :
    option (option (gostring * option gostring) * gostring) :=
  match cut_last x40 authority with
  | None => match parseHost scheme authority with Some host => Some (None, host) | None => None end
  | Some (userinfo, host) =>
      match parseHost scheme host, parse_userinfo userinfo with
      | Some host, Some user => Some (Some user, host)
      | _, _ => None
      end
  end.

(** The path: only malformed escapes are refused. *)
Definition with_path (scheme : gostring) (user : option (gostring * option gostring))
    (host rest : gostring) (force : bool) (query : gostring) : option URL :=
  match unescape encodePath rest with
  | Some path => Some (MkURL scheme [] user host path force query)
  | None => None
  end.

(** The query: a single question mark at the end is kept as a flag. *)
Definition split_query (rest : gostring) : gostring * bool * gostring :=
  match cut x3f rest with
  | None => (rest, false, [])
  | Some (path, []) => (path, true, [])
  | Some (path, query) => (path, false, query)
  end.

Definition ParseRequestURI (rawURL : gostring) : option URL :=
  if existsb (fun b => (byte_Z b <? 32) || (byte_Z b =? 127)) rawURL then None
  else if bool_decide (rawURL = []) then None
  else if bool_decide (rawURL = gostr "*") then Some (MkURL [] [] None [] (gostr "*") false [])
  else
    match getScheme rawURL with
    | None => None
    | Some (scheme, rest) =>
        let scheme := map to_lower scheme in
        let '(rest, force, query) := split_query rest in
        if negb (HasPrefix rest (gostr "/")) then
          if negb (bool_decide (scheme = [])) then Some (MkURL scheme rest None [] [] force query)
          else None
        else if negb (bool_decide (scheme = [])) && HasPrefix rest (gostr "//") then
          let authority := drop 2 rest in
          let '(authority, rest) :=
            match cut x2f authority with
            | Some (l, r) => (l, x2f :: r)
            | None => (authority, [])
            end in
          match parseAuthority scheme authority with
          | None => None
          | Some (user, host) => with_path scheme user host rest force query
          end
        else with_path scheme None [] rest force query
    end.

(** [URL.Hostname]. *)
Definition Hostname (u : URL) : gostring :=
  let host :=
    match cut_last x3a (url_Host u) with
    | Some (l, digits) => if forallb is_digit digits then l else url_Host u
    | None => url_Host u
    end in
  if HasPrefix host [x5b] && bool_decide (last host = Some x5d)
  then take (length host - 2) (drop 1 host)
  else host.

(** ** Facts about searching *)

Lemma forallb_not_elem (P : byte -> bool) c s : forallb P s = true -> P c = false -> c ∉ s.
Proof.
  intros Hs Hc Hin. apply forallb_forall with (x := c) in Hs; [congruence|]. by apply list_elem_of_In.
Qed.

Lemma cut_None c s : c ∉ s -> cut c s = None.
Proof.
  induction s as [|b s IH]; intros H; [done|]. cbn. rewrite not_elem_of_cons in H. destruct H as [Hb Hs].
  rewrite bool_decide_eq_false_2 by congruence. by rewrite IH.
Qed.

Lemma cut_app c l r : c ∉ l -> cut c (l ++ c :: r) = Some (l, r).
Proof.
  induction l as [|b l IH]; intros H; cbn; [by rewrite bool_decide_eq_true_2|].
  rewrite not_elem_of_cons in H. destruct H as [Hb Hl].
  rewrite bool_decide_eq_false_2 by congruence. by rewrite IH.
Qed.

Lemma cut_Some c s l r : cut c s = Some (l, r) -> s = l ++ c :: r /\ c ∉ l.
Proof.
  revert l. induction s as [|b s IH]; intros l H; [done|]. cbn in H. case_bool_decide as Hb.
  - injection H as <- <-. subst. split; [done|]. apply not_elem_of_nil.
  - destruct (cut c s) as [[l' r']|]; [|done]. injection H as <- ->.
    destruct (IH l' eq_refl) as [-> Hn]. split; [done|]. rewrite not_elem_of_cons. auto.
Qed.

Lemma cut_last_None c s : c ∉ s -> cut_last c s = None.
Proof.
  induction s as [|b s IH]; intros H; [done|]. cbn. rewrite not_elem_of_cons in H. destruct H as [Hb Hs].
  rewrite IH by done. by rewrite bool_decide_eq_false_2 by congruence.
Qed.

Lemma cut_last_app c l r : c ∉ r -> cut_last c (l ++ c :: r) = Some (l, r).
Proof.
  intros H. induction l as [|b l IH]; cbn; [|by rewrite IH].
  rewrite cut_last_None by done. by rewrite bool_decide_eq_true_2.
Qed.

(** ** Facts about folding *)

Definition is_ascii (s : gostring) : bool := forallb (in_range 0 127) s.

Lemma runes_ascii s : is_ascii s = true -> runes (length s) s = map byte_Z s.
Proof.
  unfold is_ascii. induction s as [|b s IH]; intros H; [done|]. cbn [forallb] in H. prep_bool.
  cbn [length runes map]. unfold decode_rune. rewrite H. cbn [skipn]. rewrite drop_0. by rewrite IH.
Qed.

Lemma fold_rune_ascii b : in_range 0 127 b = true -> fold_rune (byte_Z b) = byte_Z (to_lower b).
Proof.
  intros Hb. unfold fold_rune, to_lower, is_upper, in_range in *.
  destruct ((65 <=? byte_Z b) && (byte_Z b <=? 90)) eqn:E; [rewrite byte_Z_byte; lia|].
  destruct (Z.eqb_spec (byte_Z b) 383); [lia|]. destruct (Z.eqb_spec (byte_Z b) 8490); [lia|done].
Qed.

#[global] Instance byte_Z_injective : Inj (=) (=) byte_Z.
Proof. intros a b. apply byte_Z_inj. Qed.

(** On ASCII text, folding is lower case. *)
Lemma EqualFold_ascii s t :
  is_ascii s = true -> is_ascii t = true -> EqualFold s t = true <-> map to_lower s = map to_lower t.
Proof.
  intros Hs Ht. unfold EqualFold. rewrite (runes_ascii s Hs), (runes_ascii t Ht), bool_decide_eq_true.
  assert (Hm : forall l, is_ascii l = true ->
    map fold_rune (map byte_Z l) = map byte_Z (map to_lower l)).
  { intros l Hl. unfold is_ascii in Hl. induction l as [|b l IH]; [done|]. cbn in Hl. prep_bool.
    cbn. by rewrite fold_rune_ascii, IH. }
  rewrite !Hm by done. split; [apply (inj (fmap byte_Z))|by intros ->].
Qed.

(** ** Dotted addresses *)

Definition is_octet (n : Z) : Prop := 0 <= n <= 255.

Definition dotted (a b c d : Z) : gostring :=
  fmt_d a ++ [x2e] ++ fmt_d b ++ [x2e] ++ fmt_d c ++ [x2e] ++ fmt_d d.

(** Facts about the octets, decided by going through them. *)
Lemma octet_ind (P : Z -> Prop) : Forall P (map Z.of_nat (seq 0 256)) -> forall n, is_octet n -> P n.
Proof.
  intros H n [H1 H2]. rewrite Forall_forall in H. apply H, list_elem_of_fmap. exists (Z.to_nat n).
  rewrite elem_of_seq. lia.
Qed.

Lemma read_octet fields n rest :
  is_octet n ->
  parseIPv4Fields fields 0 0 (fmt_d n ++ rest) = parseIPv4Fields fields n (length (fmt_d n)) rest.
Proof. revert n. apply octet_ind. repeat (constructor; [reflexivity|]). constructor. Qed.

Lemma octet_text n : is_octet n -> (1 <= length (fmt_d n))%nat /\ forallb is_digit (fmt_d n) = true.
Proof. revert n. apply octet_ind. repeat (constructor; [split; [apply (Nat.leb_le 1); reflexivity|reflexivity]|]). constructor. Qed.

Lemma octet_zero n : is_octet n -> n = 0 -> fmt_d n = [x30].
Proof. intros _ ->. reflexivity. Qed.

(** The text of an octet with one more digit. *)
Lemma octet_snoc n c :
  1 <= n -> is_digit c = true -> n * 10 + (byte_Z c - 48) <= 255 ->
  fmt_d (n * 10 + (byte_Z c - 48)) = fmt_d n ++ [c].
Proof.
  intros Hn Hc Hle. pose proof (is_digit_range c Hc) as Hd.
  assert (Hc' : c = Z_byte (48 + (byte_Z c - 48))) by (rewrite <- (Z_byte_Z c) at 1; f_equal; lia).
  set (d := byte_Z c - 48) in *. rewrite Hc'. clearbody d. clear Hc Hc' c.
  assert (Hall : forallb (fun n => forallb (fun d =>
    negb (n * 10 + d <=? 255) || bool_decide (fmt_d (n * 10 + d) = fmt_d n ++ [Z_byte (48 + d)]))
    (map Z.of_nat (seq 0 10))) (map Z.of_nat (seq 1 25)) = true) by (vm_compute; reflexivity).
  assert (Hin : forall k a m, Z.of_nat a <= k < Z.of_nat (a + m) -> In k (map Z.of_nat (seq a m))).
  { intros k a m Hk. apply in_map_iff. exists (Z.to_nat k). rewrite in_seq. lia. }
  apply forallb_forall with (x := n) in Hall; [|apply Hin; lia].
  apply forallb_forall with (x := d) in Hall; [|apply Hin; lia].
  apply orb_true_iff in Hall as [H|H]; [lia|]. by apply bool_decide_eq_true in H.
Qed.

Lemma octet_digit c : is_digit c = true -> fmt_d (byte_Z c - 48) = [c].
Proof.
  intros Hc. pose proof (is_digit_range c Hc) as Hd.
  assert (Hc' : c = Z_byte (48 + (byte_Z c - 48))) by (rewrite <- (Z_byte_Z c) at 1; f_equal; lia).
  set (d := byte_Z c - 48) in *. rewrite Hc'. clearbody d. clear Hc Hc' c.
  assert (Hall : Forall (fun d => fmt_d d = [Z_byte (48 + d)]) (map Z.of_nat (seq 0 10)))
    by (repeat (constructor; [reflexivity|]); constructor).
  rewrite Forall_forall in Hall. apply Hall, list_elem_of_fmap. exists (Z.to_nat d). rewrite elem_of_seq. lia.
Qed.

Fixpoint dots (fields : list Z) : gostring :=
  match fields with
  | [] => []
  | [n] => fmt_d n
  | n :: rest => fmt_d n ++ [x2e] ++ dots rest
  end.

(** The text of the field being read: nothing yet, or the octet [val]. *)
Definition reading (val : Z) (cur : gostring) : Prop :=
  (cur = [] /\ val = 0) \/ (is_octet val /\ cur = fmt_d val).

Lemma reading_digit val cur c :
  reading val cur -> is_digit c = true -> Nat.eqb (length cur) 1 && (val =? 0) = false ->
  val * 10 + (byte_Z c - 48) <= 255 ->
  reading (val * 10 + (byte_Z c - 48)) (cur ++ [c]).
Proof.
  intros Hr Hc H0 Hle. pose proof (is_digit_range c Hc). right. destruct Hr as [[-> ->]|[Ho ->]].
  - split; [unfold is_octet; lia|]. by rewrite Z.mul_0_l, Z.add_0_l, octet_digit.
  - destruct (Z.eq_dec val 0) as [->|Hn]; [discriminate H0|]. unfold is_octet in Ho.
    split; [unfold is_octet; lia|]. symmetry. apply octet_snoc; [lia|done|done].
Qed.

Lemma parseIPv4Fields_sound fields val cur s l :
  parseIPv4Fields fields val (length cur) s = Some l -> reading val cur ->
  (length fields <= 3)%nat -> (cur = [] -> s = [] -> fields = []) ->
  exists l', l = fields ++ l' /\ length l = 4%nat /\ l' <> [] /\ Forall is_octet l' /\ cur ++ s = dots l'.
Proof.
  revert fields val cur. induction s as [|c s IH]; intros fields val cur H Hr Hl Hne; cbn [parseIPv4Fields] in H.
  - destruct (Nat.ltb_spec (length fields) 3) as [|H3]; [done|]. injection H as <-. exists [val].
    destruct Hr as [[-> _]|[Ho ->]]; [rewrite (Hne eq_refl eq_refl) in H3; cbn in H3; lia|].
    rewrite length_app, app_nil_r. cbn. split_and!; [done|lia|done| |done]. by apply Forall_singleton.
  - destruct (is_digit c) eqn:Hc.
    + destruct (_ && _) eqn:H0; [done|]. destruct (Z.ltb_spec 255 (val * 10 + (byte_Z c - 48))); [done|].
      pose proof (reading_digit _ _ _ Hr Hc H0 ltac:(lia)) as Hr'.
      replace (S (length cur)) with (length (cur ++ [c])) in H by (rewrite length_app; cbn; lia).
      destruct (IH _ _ _ H Hr' Hl ltac:(by destruct cur)) as (l' & ? & ? & ? & ? & Ht).
      exists l'. rewrite <- Ht, <- app_assoc. done.
    + case_bool_decide as Hdot; [|done]. subst c. destruct (_ || _) eqn:Hd; [done|]. prep_bool.
      destruct (Nat.eqb_spec (length fields) 3); [done|].
      destruct (IH (fields ++ [val]) 0 [] H ltac:(by left)) as (l' & -> & Hl4 & Hn & Ho' & Ht).
      { rewrite length_app. cbn. lia. }
      { done. }
      destruct Hr as [[-> _]|[Ho ->]]; [done|]. exists (val :: l').
      rewrite <- app_assoc in *. split_and!; [done|done|done|by constructor|].
      cbn in Ht. rewrite Ht. cbn [dots]. by destruct l'.
Qed.

(** An IPv4 address is read exactly from its dotted text. *)
Lemma parseIPv4_spec s l :
  parseIPv4Fields [] 0 0 s = Some l <->
    exists a b c d, l = [a; b; c; d] /\ Forall is_octet l /\ s = dotted a b c d.
Proof.
  split.
  - intros H. destruct (parseIPv4Fields_sound [] 0 [] s l H ltac:(by left) ltac:(cbn; lia) ltac:(done))
      as (l' & -> & Hl & _ & Ho & Ht). cbn in Hl, Ht.
    destruct l' as [|a [|b [|c [|d [|? ?]]]]]; try discriminate Hl. by exists a, b, c, d.
  - intros (a & b & c & d & -> & Ho & ->). unfold dotted.
    apply Forall_cons in Ho as [Ha [Hb [Hc [Hd _]%Forall_cons]%Forall_cons]%Forall_cons].
    pose proof (octet_text a Ha) as [La _]. pose proof (octet_text b Hb) as [Lb _].
    pose proof (octet_text c Hc) as [Lc _]. pose proof (octet_text d Hd) as [Ld _].
    assert (Hdot : forall fields n m k rest, is_octet n -> (length fields < 3)%nat -> (1 <= m)%nat ->
      parseIPv4Fields fields k m ([x2e] ++ fmt_d n ++ rest) =
      parseIPv4Fields (fields ++ [k]) 0 0 (fmt_d n ++ rest)).
    { intros fields n m k rest Hn Hf Hm. pose proof (octet_text n Hn) as [Ln _]. cbn -[fmt_d].
      destruct (fmt_d n) as [|x y]; [cbn in Ln; lia|]. destruct m; [lia|].
      rewrite bool_decide_eq_true_2, bool_decide_eq_false_2 by done. cbn [Nat.eqb orb].
      by destruct (Nat.eqb_spec (length fields) 3); [lia|]. }
    rewrite read_octet, Hdot, read_octet, Hdot, read_octet by (done || (cbn; lia)).
    rewrite <- (app_nil_r (fmt_d d)). rewrite Hdot, read_octet by (done || (cbn; lia)). reflexivity.
Qed.

(** ** URLs that are a scheme, a host and a port *)

Definition host_byte (b : byte) : bool := is_letter b || is_digit b || one_of "-." b.
Definition authority_byte (b : byte) : bool := host_byte b || bool_decide (b = x3a).

(** Facts about the bytes, decided by going through them. *)
Lemma byte_cases (P : byte -> bool) : forallb P (map Z_byte (map Z.of_nat (seq 0 256))) = true -> forall b, P b = true.
Proof.
  intros H b. rewrite forallb_forall in H. apply H. rewrite <- (Z_byte_Z b). apply in_map, in_map_iff.
  exists (Z.to_nat (byte_Z b)). pose proof (byte_Z_range b). rewrite in_seq. lia.
Qed.

Lemma authority_byte_plain b :
  authority_byte b = true ->
  byte_allowed encodeHost b = true /\ b <> x25 /\ (byte_Z b <? 32) || (byte_Z b =? 127) = false.
Proof.
  intros H.
  assert (Hb : forall b, negb (authority_byte b) || (byte_allowed encodeHost b
    && negb (bool_decide (b = x25)) && negb ((byte_Z b <? 32) || (byte_Z b =? 127))) = true)
    by (apply byte_cases; vm_compute; reflexivity).
  specialize (Hb b). rewrite H in Hb. cbn [negb orb] in Hb. prep_bool.
  split_and!; [done|done|]. by apply orb_false_iff.
Qed.

Lemma unescape_plain s : forallb authority_byte s = true -> unescape encodeHost s = Some s.
Proof.
  induction s as [|b s IH]; intros H; [done|]. cbn [forallb] in H. prep_bool.
  destruct (authority_byte_plain b H) as (Ha & Hp & _).
  assert (Hu : unescape encodeHost (b :: s) = if byte_allowed encodeHost b
    then match unescape encodeHost s with Some t => Some (b :: t) | None => None end else None)
    by (destruct b; try done). by rewrite Hu, Ha, IH.
Qed.

Section Authority.
Context (host port : gostring) (Hhost : forallb host_byte host = true) (Hport : forallb is_digit port = true).

Lemma authority_bytes : forallb authority_byte (host ++ x3a :: port) = true.
Proof using Hhost Hport.
  rewrite forallb_app. apply andb_true_iff. split.
  - apply forallb_forall. intros b Hb. apply forallb_forall with (x := b) in Hhost; [|done].
    unfold authority_byte. by rewrite Hhost.
  - cbn [forallb]. apply forallb_forall. intros b Hb. apply forallb_forall with (x := b) in Hport; [|done].
    unfold authority_byte, host_byte. by rewrite Hport, orb_true_r.
Qed.

Lemma authority_no c : authority_byte c = false -> c ∉ host ++ x3a :: port.
Proof using Hhost Hport. apply (forallb_not_elem authority_byte), authority_bytes. Qed.

Lemma host_no c : host_byte c = false -> c ∉ host.
Proof using Hhost. by apply forallb_not_elem. Qed.

Lemma port_no_colon : x3a ∉ port.
Proof using Hport. by apply (forallb_not_elem is_digit). Qed.

Lemma parseAuthority_plain scheme :
  parseAuthority scheme (host ++ x3a :: port) = Some (None, host ++ x3a :: port).
Proof using Hhost Hport.
  unfold parseAuthority. rewrite cut_last_None by by apply authority_no.
  unfold parseHost. rewrite cut_last_None by by apply authority_no.
  rewrite cut_app by by apply host_no. rewrite cut_last_app by apply port_no_colon.
  rewrite unescape_plain by apply authority_bytes. by destruct (postgres_scheme scheme); rewrite Hport.
Qed.

Lemma authority_no_control : existsb (fun b => (byte_Z b <? 32) || (byte_Z b =? 127)) (host ++ x3a :: port) = false.
Proof using Hhost Hport.
  apply not_true_is_false. intros (b & Hb & Hc)%existsb_exists.
  pose proof authority_bytes as Ha. apply forallb_forall with (x := b) in Ha; [|done].
  destruct (authority_byte_plain b Ha) as (_ & _ & Hn). congruence.
Qed.

Lemma ParseRequestURI_plain scheme :
  scheme = gostr "http" \/ scheme = gostr "https" ->
  ParseRequestURI (scheme ++ gostr "://" ++ host ++ x3a :: port) =
    Some (MkURL scheme [] None (host ++ x3a :: port) [] false []).
Proof using Hhost Hport.
  intros Hs. unfold ParseRequestURI.
  rewrite (existsb_app _ scheme), (existsb_app _ (gostr "://")), authority_no_control.
  assert (Hget : getScheme (scheme ++ gostr "://" ++ host ++ x3a :: port) =
    Some (scheme, gostr "//" ++ host ++ x3a :: port)) by (by destruct Hs as [-> | ->]).
  assert (Hq : cut x3f (gostr "//" ++ host ++ x3a :: port) = None).
  { apply cut_None. cbn. rewrite !not_elem_of_cons. split_and!; [done..|]. by apply authority_no. }
  rewrite Hget. unfold split_query. rewrite Hq. clear Hget.
  assert (Hslash : cut x2f (host ++ x3a :: port) = None) by (by apply cut_None, authority_no).
  destruct Hs as [-> | ->]; cbn [existsb app gostr]; rewrite !bool_decide_eq_false_2 by done; cbn -[cut parseAuthority];
    rewrite !drop_0, Hslash, parseAuthority_plain; done.
Qed.

Lemma Hostname_plain scheme :
  Hostname (MkURL scheme [] None (host ++ x3a :: port) [] false []) = host.
Proof using Hhost Hport.
  unfold Hostname. cbn [url_Host]. rewrite cut_last_app by apply port_no_colon. rewrite Hport.
  destruct host as [|b h] eqn:E; [done|]. unfold HasPrefix. cbn [length take].
  destruct (decide (b = x5b)) as [->|Hb]; [done|]. by rewrite bool_decide_eq_false_2 by congruence.
Qed.
End Authority.
