(* ===== verification/Json.v ===== *)
(** * JSON

    What the sources use of [encoding/json]: reading the first value of a body as
    a [json.Decoder] does, storing it into the fields of a struct, and writing
    values as a [json.Encoder] does.  Callers of the decoder only ask whether it
    failed: an error is [None]. *)

From S2P Require Import Prelude Float Text Strconv Net Utf8.

(** A value.  A number is its text; an object has its members in the order they
    stand, duplicates included. *)
Inductive json :=
  | JNull
  | JBool (b : bool)
  | JNumber (literal : gostring)
  | JString (s : gostring)
  | JArray (elements : list json)
  | JObject (members : list (gostring * json)).

(** ** Reading *)

(** [isSpace] *)
Definition json_space (b : byte) : bool := existsb (Z.eqb (byte_Z b)) [32; 9; 13; 10].

Fixpoint skip_space (s : gostring) : gostring :=
  match s with
  | b :: rest => if json_space b then skip_space rest else s
  | [] => []
  end.

(** Digits at the start. *)
Fixpoint span_digits (s : gostring) : gostring * gostring :=
  match s with
  | b :: rest =>
      if is_digit b then let '(ds, rest') := span_digits rest in (b :: ds, rest') else ([], s)
  | [] => ([], [])
  end.

(** A number is read as far as it goes: the scanner's states [stateNeg] to
    [stateE0].  It fails where a digit must follow. *)
Definition number_integer (s : gostring) : option (gostring * gostring) :=
  match s with
  | x30 :: rest => Some ([x30], rest)
  | _ => let '(ds, rest) := span_digits s in
         match ds with [] => None | _ => Some (ds, rest) end
  end.

Definition number_fraction (s : gostring) : option (gostring * gostring) :=
  match s with
  | x2e :: rest =>
      let '(ds, rest') := span_digits rest in
      match ds with [] => None | _ => Some (x2e :: ds, rest') end
  | _ => Some ([], s)
  end.

Definition exponent_sign (s : gostring) : gostring * gostring :=
  match s with ((x2b | x2d) as c) :: rest => ([c], rest) | _ => ([], s) end.

Definition number_exponent (s : gostring) : option (gostring * gostring) :=
  match s with
  | ((x65 | x45) as e) :: rest =>
      let '(sign, rest) := exponent_sign rest in
      let '(ds, rest') := span_digits rest in
      match ds with [] => None | _ => Some (e :: sign ++ ds, rest') end
  | _ => Some ([], s)
  end.

Definition number_sign (s : gostring) : gostring * gostring :=
  match s with x2d :: rest => ([x2d], rest) | _ => ([], s) end.

Definition read_number (s : gostring) : option (gostring * gostring) :=
  let '(sign, s) := number_sign s in
  match number_integer s with
  | None => None
  | Some (whole, s) =>
      match number_fraction s with
      | None => None
      | Some (fraction, s) =>
          match number_exponent s with
          | None => None
          | Some (exponent, s) => Some (sign ++ whole ++ fraction ++ exponent, s)
          end
      end
  end.

(** Four hexadecimal digits. *)
Definition hex4 (s : gostring) : option (Z * gostring) :=
  match s with
  | a :: b :: c :: d :: rest =>
      match hex_value a, hex_value b, hex_value c, hex_value d with
      | Some a, Some b, Some c, Some d => Some (a * 4096 + b * 256 + c * 16 + d, rest)
      | _, _, _, _ => None
      end
  | _ => None
  end.

(** [getu4]: an escape for one UTF-16 unit. *)
Definition getu4 (s : gostring) : option (Z * gostring) :=
  match s with
  | x5c :: x75 :: rest => hex4 rest
  | _ => None
  end.

(** What follows a backslash: the bytes it stands for.  A surrogate that has no
    partner stands for U+FFFD. *)
Definition read_escape (s : gostring) : option (bytes * gostring) :=
  match s with
  | ((x22 | x5c | x2f) as c) :: rest => Some ([c], rest)
  | x62 :: rest => Some ([x08], rest)
  | x66 :: rest => Some ([x0c], rest)
  | x6e :: rest => Some ([x0a], rest)
  | x72 :: rest => Some ([x0d], rest)
  | x74 :: rest => Some ([x09], rest)
  | x75 :: rest =>
      match hex4 rest with
      | None => None
      | Some (rr, rest) =>
          if IsSurrogate rr then
            match getu4 rest with
            | Some (rr1, rest') =>
                let dec := DecodeRune16 rr rr1 in
                if dec =? RuneError then Some (encode_rune RuneError, rest)
                else Some (encode_rune dec, rest')
            | None => Some (encode_rune RuneError, rest)
            end
          else Some (encode_rune rr, rest)
      end
  | _ => None
  end.

(** The rest of a string after its opening quote, unquoted: control characters
    are refused, invalid UTF-8 is replaced by U+FFFD, byte by byte.  Every step
    takes a byte. *)
Fixpoint read_string (fuel : nat) (s : gostring) : option (gostring * gostring) :=
  match fuel, s with
  | O, _ | _, [] => None
  | S fuel', b :: rest =>
      if byte_Z b =? 34 then Some ([], rest)
      else
        let piece :=
          if byte_Z b =? 92 then read_escape rest
          else if byte_Z b <? 32 then None
          else let '(r, w) := decode_rune s in Some (encode_rune r, drop w s) in
        match piece with
        | None => None
        | Some (bs, rest') =>
            match read_string fuel' rest' with
            | None => None
            | Some (more, rest'') => Some (bs ++ more, rest'')
            end
        end
  end.

(** The text after [prefix], if it starts with it. *)
Fixpoint cut_prefix (prefix s : gostring) : option gostring :=
  match prefix, s with
  | [], _ => Some s
  | a :: prefix', b :: s' => if bool_decide (a = b) then cut_prefix prefix' s' else None
  | _, _ => None
  end.

Section Containers.
Context (read_value : gostring -> option (json * gostring)).

(** The elements of an array from the first one on. *)
Fixpoint read_elements (fuel : nat) (s : gostring) : option (list json * gostring) :=
  match fuel with
  | O => None
  | S fuel' =>
      match read_value s with
      | None => None
      | Some (v, s) =>
          match skip_space s with
          | x5d :: rest => Some ([v], rest)
          | x2c :: rest =>
              match read_elements fuel' rest with
              | None => None
              | Some (vs, rest) => Some (v :: vs, rest)
              end
          | _ => None
          end
      end
  end.

(** The members of an object from the first one on. *)
Fixpoint read_members (fuel : nat) (s : gostring) : option (list (gostring * json) * gostring) :=
  match fuel with
  | O => None
  | S fuel' =>
      match skip_space s with
      | x22 :: s =>
          match read_string (length s) s with
          | None => None
          | Some (key, s) =>
              match skip_space s with
              | x3a :: s =>
                  match read_value s with
                  | None => None
                  | Some (v, s) =>
                      match skip_space s with
                      | x7d :: rest => Some ([(key, v)], rest)
                      | x2c :: rest =>
                          match read_members fuel' rest with
                          | None => None
                          | Some (members, rest) => Some ((key, v) :: members, rest)
                          end
                      | _ => None
                      end
                  end
              | _ => None
              end
          end
      | _ => None
      end
  end.
End Containers.

(** A value and the text after it; [depth] is how many more objects and arrays
    may be open at a time. *)
Fixpoint read_value (depth : nat) (s : gostring) : option (json * gostring) :=
  match skip_space s with
  | x7b :: rest =>
      match depth with
      | O => None
      | S depth' =>
          match skip_space rest with
          | x7d :: rest => Some (JObject [], rest)
          | _ =>
              match read_members (read_value depth') (length rest) rest with
              | None => None
              | Some (members, rest) => Some (JObject members, rest)
              end
          end
      end
  | x5b :: rest =>
      match depth with
      | O => None
      | S depth' =>
          match skip_space rest with
          | x5d :: rest => Some (JArray [], rest)
          | _ =>
              match read_elements (read_value depth') (length rest) rest with
              | None => None
              | Some (elements, rest) => Some (JArray elements, rest)
              end
          end
      end
  | x22 :: rest =>
      match read_string (length rest) rest with
      | None => None
      | Some (str, rest) => Some (JString str, rest)
      end
  | s =>
      match cut_prefix (gostr "null") s, cut_prefix (gostr "true") s, cut_prefix (gostr "false") s with
      | Some rest, _, _ => Some (JNull, rest)
      | _, Some rest, _ => Some (JBool true, rest)
      | _, _, Some rest => Some (JBool false, rest)
      | None, None, None =>
          match read_number s with
          | None => None
          | Some (literal, rest) => Some (JNumber literal, rest)
          end
      end
  end.

Definition maxNestingDepth : Z := 10000.

(** [dec.readValue] of a new decoder: the first value; what follows is left. *)
Definition first_value (body : gostring) : option json :=
  option_map fst (read_value (Z.to_nat maxNestingDepth) body).

(** ** Storing

    [decodeState.value] for the kinds of fields the sources have: what the value
    makes of the field's content, [None] for a type that does not fit.  The decoder
    goes on after such an error and reports it in the end. *)

Definition decoder (A : Type) : Type := json -> A -> option A.

(** null leaves strings, numbers and structs as they are. *)
Definition store_string : decoder gostring := fun v old =>
  match v with JNull => Some old | JString s => Some s | _ => None end.

Definition store_int : decoder Z := fun v old =>
  match v with JNull => Some old | JNumber literal => ParseInt literal 64 | _ => None end.

Definition store_float32 : decoder spec_float := fun v old =>
  match v with JNull => Some old | JNumber literal => ParseFloat32 literal | _ => None end.

(** null makes a pointer nil; another value is stored where it points to, a new
    [zero] if it is nil. *)
Definition store_pointer {A} (zero : A) (store : decoder A) : decoder (option A) := fun v old =>
  match v with
  | JNull => Some None
  | _ => option_map Some (store v (default zero old))
  end.

(** A slice: the array under it, as far as it was ever written, and its length. *)
Record go_slice (A : Type) := MkGoSlice { gs_array : list A; gs_len : nat }.
Arguments MkGoSlice {A} _ _.
Arguments gs_array {A} _.
Arguments gs_len {A} _.

Definition gs_nil {A} : go_slice A := MkGoSlice [] 0.
Definition gs_elements {A} (l : go_slice A) : list A := take (gs_len l) (gs_array l).

Section Slices.
Context {A : Type} (zero : A) (store : decoder A).

(** Each element is stored over what the array holds at its place, also beyond
    the length of the slice. *)
Fixpoint store_elements (vs : list json) (array : list A) : option (list A) :=
  match vs with
  | [] => Some array
  | v :: vs' =>
      match store v (hd zero array) with
      | None => None
      | Some a =>
          match store_elements vs' (tl array) with
          | None => None
          | Some array' => Some (a :: array')
          end
      end
  end.

(** An empty array makes a new slice. *)
Definition store_slice : decoder (go_slice A) := fun v old =>
  match v with
  | JNull | JArray [] => Some gs_nil
  | JArray vs =>
      match store_elements vs (gs_array old) with
      | None => None
      | Some array => Some (MkGoSlice array (length vs))
      end
  | _ => None
  end.
End Slices.

(** A struct is its fields, by their names in JSON. *)
Definition fields (A : Type) : Type := list (string * decoder A).

(** The field of a key: the one with its name, or with its name up to case. *)
Definition find_field {A} (fs : fields A) (key : gostring) : option (decoder A) :=
  match List.find (fun f => bool_decide (gostr (fst f) = key)) fs with
  | Some (_, store) => Some store
  | None => option_map snd (List.find (fun f => EqualFold (gostr (fst f)) key) fs)
  end.

(** The members in their order; those of no field are skipped. *)
Definition store_member {A} (fs : fields A) (acc : option A) (member : gostring * json) : option A :=
  match acc, find_field fs (fst member) with
  | Some a, Some store => store (snd member) a
  | _, None => acc
  | None, _ => None
  end.

Definition store_struct {A} (fs : fields A) : decoder A := fun v old =>
  match v with
  | JNull => Some old
  | JObject members => foldl (store_member fs) (Some old) members
  | _ => None
  end.

(** [json.NewDecoder(body).Decode(&v)] for a struct that is zero. *)
Definition Decode {A} (fs : fields A) (zero : A) (body : gostring) : option A :=
  match first_value body with
  | None => None
  | Some v => store_struct fs v zero
  end.

(** ** Writing *)

(** [appendString] with the escapes for HTML: the bytes below U+0080 that stay. *)
Definition html_safe (b : byte) : bool :=
  in_range 32 127 b && negb (existsb (Z.eqb (byte_Z b)) [34; 38; 60; 62; 92]).

Definition escape_byte (b : byte) : gostring :=
  match b with
  | x5c | x22 => [x5c; b]
  | x08 => [x5c; x62]
  | x0c => [x5c; x66]
  | x0a => [x5c; x6e]
  | x0d => [x5c; x72]
  | x09 => [x5c; x74]
  | _ => [x5c; x75; x30; x30; hex_digit (byte_Z b / 16); hex_digit (byte_Z b mod 16)]
  end.

(** Invalid bytes, U+2028 and U+2029 are escaped too. *)
Fixpoint write_runes (fuel : nat) (s : gostring) : gostring :=
  match fuel, s with
  | O, _ | _, [] => []
  | S fuel', b :: rest =>
      if in_range 0 127 b then (if html_safe b then [b] else escape_byte b) ++ write_runes fuel' rest
      else
        let '(c, size) := decode_rune s in
        (if (c =? RuneError) && Nat.eqb size 1 then gostr "\ufffd"
         else if (c =? 8232) || (c =? 8233) then gostr "\u202" ++ [hex_digit (Z.land c 15)]
         else take size s)
        ++ write_runes fuel' (drop size s)
  end.

Definition write_string (s : gostring) : gostring := [x22] ++ write_runes (length s) s ++ [x22].

(** The values with separators between them. *)
Fixpoint separated (texts : list gostring) : gostring :=
  match texts with
  | [] => []
  | [t] => t
  | t :: rest => t ++ [x2c] ++ separated rest
  end.

Fixpoint write_value (v : json) : gostring :=
  match v with
  | JNull => gostr "null"
  | JBool true => gostr "true"
  | JBool false => gostr "false"
  | JNumber literal => literal
  | JString s => write_string s
  | JArray elements => [x5b] ++ separated (map write_value elements) ++ [x5d]
  | JObject members =>
      [x7b] ++ separated (map (fun '(key, v) => write_string key ++ [x3a] ++ write_value v) members) ++ [x7d]
  end.

(** [json.NewEncoder(w).Encode(v)]: the value and a newline. *)
Definition Encode (v : json) : gostring := write_value v ++ [x0a].

(** * Properties *)

(** ** Values that are read *)

Definition is_number (literal : gostring) : bool := bool_decide (read_number literal = Some (literal, [])).

(** Strings are valid UTF-8 and numbers are of the grammar. *)
Fixpoint json_ok (v : json) : bool :=
  match v with
  | JNull | JBool _ => true
  | JNumber literal => is_number literal
  | JString s => utf8_valid s
  | JArray elements => forallb json_ok elements
  | JObject members => forallb (fun '(key, v) => utf8_valid key && json_ok v) members
  end.

Lemma read_escape_valid s bs rest : read_escape s = Some (bs, rest) -> utf8_valid bs = true.
Proof.
  assert (He : forall r, utf8_valid (encode_rune r) = true)
    by (intros r; rewrite <- (app_nil_r (encode_rune r)); apply encode_rune_valid).
  unfold read_escape. intros H. repeat case_match; simplify_eq/=; done.
Qed.

Lemma read_string_valid fuel s str rest : read_string fuel s = Some (str, rest) -> utf8_valid str = true.
Proof.
  revert s str. induction fuel as [|fuel IH]; intros s str H; [done|]. cbn [read_string] in H.
  destruct s as [|b s]; [done|]. destruct (byte_Z b =? 34); [by injection H as <- <-|]. cbv zeta in H.
  destruct (if byte_Z b =? 92 then _ else _) as [[bs s']|] eqn:Hp; [|done].
  destruct (read_string fuel s') as [[more s'']|] eqn:Hm; [|done]. injection H as <- <-.
  rewrite utf8_valid_app; [by eapply IH|]. destruct (byte_Z b =? 92); [by eapply read_escape_valid|].
  destruct (byte_Z b <? 32); [done|]. destruct (decode_rune (b :: s)) as [r w]. injection Hp as <- <-.
  rewrite <- (app_nil_r (encode_rune r)). apply encode_rune_valid.
Qed.

(** *** Numbers *)

(** Where digits and numbers end. *)
Definition starts_with (p : byte -> bool) (s : gostring) : bool :=
  match s with b :: _ => p b | [] => false end.

Definition number_stops (tail : gostring) : bool :=
  negb (starts_with (fun b => is_digit b || existsb (Z.eqb (byte_Z b)) [46; 69; 101]) tail).

Lemma span_digits_spec s ds rest :
  span_digits s = (ds, rest) <->
  s = ds ++ rest /\ forallb is_digit ds = true /\ starts_with is_digit rest = false.
Proof.
  revert ds. induction s as [|b s IH]; intros ds; cbn [span_digits].
  - split; [by intros [= <- <-]|]. by intros ([-> ->]%symmetry%app_nil & _).
  - destruct (is_digit b) eqn:Hb.
    + destruct (span_digits s) as [ds' rest'] eqn:Hs. split.
      * intros [= <- <-]. destruct (proj1 (IH ds') eq_refl) as (-> & Hd & Hr). cbn. by rewrite Hb.
      * intros (Hs' & Hd & Hr). destruct ds as [|d ds]; cbn in *.
        { rewrite <- Hs' in Hr. cbn in Hr. congruence. }
        injection Hs' as -> ->. apply andb_prop in Hd as [_ Hd].
        assert ((ds', rest') = (ds, rest)) as [= -> ->] by (apply IH; done). done.
    + split; [intros [= <- <-]; cbn; by rewrite Hb|]. intros (Hs & Hd & Hr). destruct ds as [|d ds]; cbn in *.
      * by subst.
      * injection Hs as -> ->. rewrite Hb in Hd. done.
Qed.

Definition digits_ok (ds : gostring) : Prop := ds <> [] /\ forallb is_digit ds = true.

(** The grammar of the parts of a number. *)
Definition whole_ok (p : gostring) : Prop :=
  p = [x30] \/ (digits_ok p /\ starts_with (fun b => bool_decide (b = x30)) p = false).
Definition fraction_ok (p : gostring) : Prop := p = [] \/ exists ds, digits_ok ds /\ p = x2e :: ds.
Definition exponent_ok (p : gostring) : Prop :=
  p = [] \/ exists e sign ds, (e = x65 \/ e = x45) /\ (sign = [] \/ sign = [x2b] \/ sign = [x2d]) /\
    digits_ok ds /\ p = e :: sign ++ ds.

Lemma span_digits_app ds tail :
  forallb is_digit ds = true -> starts_with is_digit tail = false -> span_digits (ds ++ tail) = (ds, tail).
Proof. intros. by apply span_digits_spec. Qed.

(** Each part is read as far as its grammar goes. *)
Lemma number_integer_sound s p rest :
  number_integer s = Some (p, rest) -> s = p ++ rest /\ whole_ok p.
Proof.
  unfold number_integer. intros H.
  assert (Hd : forall s, (let '(ds, rest) := span_digits s in match ds with [] => None | _ => Some (ds, rest) end)
    = Some (p, rest) -> starts_with (fun b => bool_decide (b = x30)) s = false -> s = p ++ rest /\ whole_ok p).
  { intros s0 H0 Hs0. destruct (span_digits s0) as [ds r] eqn:E. apply span_digits_spec in E as (-> & Hds & _).
    destruct ds as [|d ds]; [done|]. injection H0 as <- <-. split; [done|]. right. by split. }
  destruct s as [|b s]; [done|]. destruct (decide (b = x30)) as [->|Hb].
  - injection H as <- <-. split; [done|by left].
  - apply Hd; [|by cbn; rewrite bool_decide_eq_false]. by destruct b.
Qed.

Lemma number_integer_complete p tail :
  whole_ok p -> starts_with is_digit tail = false -> number_integer (p ++ tail) = Some (p, tail).
Proof.
  intros [->|[[Hne Hd] Hs]] Ht; [done|]. destruct p as [|b p]; [done|].
  assert (b <> x30) as Hb by (intros ->; done). pose proof (span_digits_app (b :: p) tail Hd Ht) as E.
  unfold number_integer. cbn [app] in *. destruct b; try done; by rewrite E.
Qed.

Lemma number_fraction_sound s p rest :
  number_fraction s = Some (p, rest) -> s = p ++ rest /\ fraction_ok p.
Proof.
  unfold number_fraction. intros H. destruct s as [|b s]; [injection H as <- <-; split; [done|by left]|].
  destruct (decide (b = x2e)) as [->|Hb].
  - destruct (span_digits s) as [ds r] eqn:E. apply span_digits_spec in E as (-> & Hds & _).
    destruct ds as [|d ds]; [done|]. injection H as <- <-. split; [done|]. right. by exists (d :: ds).
  - assert (Some ([], b :: s) = Some (p, rest)) as [= <- <-] by (by destruct b). split; [done|by left].
Qed.

Lemma number_fraction_complete p tail :
  fraction_ok p -> starts_with (fun b => is_digit b || (byte_Z b =? 46)) tail = false ->
  number_fraction (p ++ tail) = Some (p, tail).
Proof.
  intros [->|(ds & [Hne Hd] & ->)] Ht; cbn [app number_fraction].
  - destruct tail as [|b tail]; [done|]. cbn in Ht. apply orb_false_iff in Ht as [_ Ht]. by destruct b.
  - assert (starts_with is_digit tail = false) as Ht'
      by (destruct tail; [done|]; cbn in *; by apply orb_false_iff in Ht as [-> _]).
    rewrite span_digits_app by done. by destruct ds.
Qed.

Lemma number_exponent_sound s p rest :
  number_exponent s = Some (p, rest) -> s = p ++ rest /\ exponent_ok p.
Proof.
  assert (Hex : forall e s, e = x65 \/ e = x45 ->
    (let '(sign, s) := exponent_sign s in
     let '(ds, rest') := span_digits s in
     match ds with [] => None | _ => Some (e :: sign ++ ds, rest') end) = Some (p, rest) ->
    e :: s = p ++ rest /\ exponent_ok p).
  { intros e s0 He H.
    assert (exists sign s1, (sign = [] \/ sign = [x2b] \/ sign = [x2d]) /\ s0 = sign ++ s1 /\
      exponent_sign s0 = (sign, s1))
      as (sign & s1 & Hsign & -> & E).
    { destruct s0 as [|c s0]; [exists [], []; by eauto|].
      destruct (decide (c = x2b)) as [->|]; [exists [x2b], s0; by eauto|].
      destruct (decide (c = x2d)) as [->|]; [exists [x2d], s0; by eauto|].
      exists [], (c :: s0). split_and!; [by left|done|by destruct c]. }
    rewrite E in H. destruct (span_digits s1) as [ds r] eqn:Eds. apply span_digits_spec in Eds as (-> & Hds & _).
    destruct ds as [|d ds]; [done|]. injection H as <- <-. split; [cbn; by rewrite <- app_assoc|].
    right. by exists e, sign, (d :: ds). }
  intros H. destruct s as [|b s]; [injection H as <- <-; split; [done|by left]|].
  destruct (decide (b = x65)) as [->|H1]; [apply Hex; [by left|done]|].
  destruct (decide (b = x45)) as [->|H2]; [apply Hex; [by right|done]|].
  assert (Some ([], b :: s) = Some (p, rest)) as [= <- <-] by (by destruct b). split; [done|by left].
Qed.

Lemma number_exponent_complete p tail :
  exponent_ok p -> number_stops tail = true -> number_exponent (p ++ tail) = Some (p, tail).
Proof.
  intros [->|(e & sign & ds & He & Hsign & [Hne Hd] & ->)] Ht; cbn [app].
  - destruct tail as [|b tail]; [done|]. by destruct b.
  - assert (starts_with is_digit tail = false) as Ht'.
    { destruct tail; [done|]. unfold number_stops in Ht. cbn in Ht |- *. by destruct (is_digit b). }
    pose proof (span_digits_app ds tail Hd Ht') as E. rewrite <- app_assoc.
    destruct ds as [|d ds]; [done|]. cbn [forallb] in Hd. apply andb_prop in Hd as [Hd _].
    assert (Es : exponent_sign (sign ++ (d :: ds) ++ tail) = (sign, (d :: ds) ++ tail))
      by (destruct Hsign as [->|[->| ->]]; [by destruct d|done..]).
    destruct He as [->| ->]; cbn [number_exponent]; by rewrite Es, E.
Qed.

Definition number_ok (literal : gostring) : Prop :=
  exists sign whole fraction exponent, (sign = [] \/ sign = [x2d]) /\ whole_ok whole /\
    fraction_ok fraction /\ exponent_ok exponent /\ literal = sign ++ whole ++ fraction ++ exponent.

Lemma read_number_sound s literal rest :
  read_number s = Some (literal, rest) -> s = literal ++ rest /\ number_ok literal.
Proof.
  unfold read_number. intros H.
  assert (exists sign s1, (sign = [] \/ sign = [x2d]) /\ s = sign ++ s1 /\
    number_sign s = (sign, s1)) as (sign & s1 & Hsign & -> & E).
  { destruct s as [|c s]; [exists [], []; by eauto|].
    destruct (decide (c = x2d)) as [->|]; [exists [x2d], s; by eauto|].
    exists [], (c :: s). split_and!; [by left|done|by destruct c]. }
  rewrite E in H. clear E. destruct (number_integer s1) as [[whole s2]|] eqn:E1; [|done].
  apply number_integer_sound in E1 as [-> H1]. destruct (number_fraction s2) as [[fraction s3]|] eqn:E2; [|done].
  apply number_fraction_sound in E2 as [-> H2]. destruct (number_exponent s3) as [[exponent s4]|] eqn:E3; [|done].
  apply number_exponent_sound in E3 as [-> H3]. injection H as <- <-.
  split; [by rewrite <- !app_assoc|]. by exists sign, whole, fraction, exponent.
Qed.

Lemma starts_with_app p a b : a <> [] -> starts_with p (a ++ b) = starts_with p a.
Proof. by destruct a. Qed.

Lemma starts_with_impl (p q : byte -> bool) s :
  (forall b, p b = true -> q b = true) -> starts_with q s = false -> starts_with p s = false.
Proof.
  intros H Hq. destruct s as [|b s]; [done|]. cbn in *. destruct (p b) eqn:E; [|done]. by rewrite (H b E) in Hq.
Qed.

(** What follows a part of a number. *)
Lemma exponent_head exponent tail :
  exponent_ok exponent -> number_stops tail = true ->
  starts_with (fun b => is_digit b || (byte_Z b =? 46)) (exponent ++ tail) = false.
Proof.
  intros [->|(e & sign & ds & [->| ->] & _ & _ & ->)] Ht; [|done..]. cbn [app].
  apply negb_true_iff in Ht. eapply starts_with_impl; [|exact Ht]. intros b Hb. cbn.
  apply orb_true_iff in Hb as [-> | ->]; [done|by rewrite orb_true_r].
Qed.

Lemma fraction_head fraction tail :
  fraction_ok fraction -> starts_with (fun b => is_digit b || (byte_Z b =? 46)) tail = false ->
  starts_with is_digit (fraction ++ tail) = false.
Proof.
  intros [->|(ds & _ & ->)] Ht; [|done]. eapply starts_with_impl; [|exact Ht]. intros b Hb. cbn beta. by rewrite Hb.
Qed.

Lemma read_number_complete literal tail :
  number_ok literal -> number_stops tail = true -> read_number (literal ++ tail) = Some (literal, tail).
Proof.
  intros (sign & whole & fraction & exponent & Hsign & H1 & H2 & H3 & ->) Ht.
  pose proof (exponent_head exponent tail H3 Ht) as He. pose proof (fraction_head fraction _ H2 He) as Hf.
  pose proof (number_integer_complete whole _ H1 Hf) as Ew.
  assert (Hs : number_sign (sign ++ whole ++ fraction ++ exponent ++ tail) = (sign, whole ++ fraction ++ exponent ++ tail)).
  { destruct Hsign as [->| ->]; [|done]. cbn [app].
    destruct H1 as [->|[[Hne Hd] _]]; [done|]. destruct whole as [|d whole]; [done|]. cbn in Hd |- *.
    by destruct d. }
  unfold read_number. rewrite <- !app_assoc, Hs, Ew. cbn beta iota.
  by rewrite (number_fraction_complete _ _ H2 He), (number_exponent_complete _ _ H3 Ht).
Qed.

Lemma is_number_ok literal : is_number literal = true <-> number_ok literal.
Proof.
  unfold is_number. rewrite bool_decide_eq_true. split.
  - intros H. by apply read_number_sound in H as [_ H].
  - intros H. pose proof (read_number_complete literal [] H eq_refl) as E. by rewrite app_nil_r in E.
Qed.

(** *** Containers *)

(** What is true of every value the reader of the elements returns. *)
Lemma read_elements_ok rv fuel s vs rest :
  (forall s v rest, rv s = Some (v, rest) -> json_ok v = true) ->
  read_elements rv fuel s = Some (vs, rest) -> forallb json_ok vs = true.
Proof.
  intros Hrv. revert s vs. induction fuel as [|fuel IH]; intros s vs H; [done|]. cbn [read_elements] in H.
  destruct (rv s) as [[v s1]|] eqn:Hv; [|done]. apply Hrv in Hv.
  repeat case_match; try done; injection H as <- <-; cbn; rewrite Hv; [by eapply IH|done].
Qed.

Lemma read_members_ok rv fuel s members rest :
  (forall s v rest, rv s = Some (v, rest) -> json_ok v = true) ->
  read_members rv fuel s = Some (members, rest) ->
  forallb (fun '(key, v) => utf8_valid key && json_ok v) members = true.
Proof.
  intros Hrv. revert s members. induction fuel as [|fuel IH]; intros s members H; [done|]. cbn [read_members] in H.
  destruct (skip_space s) as [|b s1]; [done|]. destruct (decide (b = x22)) as [->|]; [|by destruct b].
  destruct (read_string _ s1) as [[key s2]|] eqn:Hk; [|done]. apply read_string_valid in Hk.
  destruct (skip_space s2) as [|c s3]; [done|]. destruct (decide (c = x3a)) as [->|]; [|by destruct c].
  destruct (rv s3) as [[v s4]|] eqn:Hv; [|done]. apply Hrv in Hv.
  destruct (skip_space s4) as [|d s5]; [done|]. destruct (decide (d = x7d)) as [->|].
  { injection H as <- <-. cbn. by rewrite Hk, Hv. }
  destruct (decide (d = x2c)) as [->|]; [|by destruct d].
  destruct (read_members _ _ s5) as [[more s6]|] eqn:Hm; [|done]. injection H as <- <-.
  cbn. rewrite Hk, Hv. by eapply IH.
Qed.

(** The text of a literal or a number. *)
Definition read_scalar (s : gostring) : option (json * gostring) :=
  match cut_prefix (gostr "null") s, cut_prefix (gostr "true") s, cut_prefix (gostr "false") s with
  | Some rest, _, _ => Some (JNull, rest)
  | _, Some rest, _ => Some (JBool true, rest)
  | _, _, Some rest => Some (JBool false, rest)
  | None, None, None =>
      match read_number s with
      | None => None
      | Some (literal, rest) => Some (JNumber literal, rest)
      end
  end.

(** The reader, by the first byte of the value. *)
Lemma read_value_eq depth s :
  read_value depth s =
  match skip_space s with
  | [] => None
  | b :: rest =>
      if decide (b = x7b) then
        match depth with
        | O => None
        | S depth' =>
            if decide (starts_with (fun b => bool_decide (b = x7d)) (skip_space rest) = true)
            then Some (JObject [], tl (skip_space rest))
            else match read_members (read_value depth') (length rest) rest with
                 | None => None
                 | Some (members, rest) => Some (JObject members, rest)
                 end
        end
      else if decide (b = x5b) then
        match depth with
        | O => None
        | S depth' =>
            if decide (starts_with (fun b => bool_decide (b = x5d)) (skip_space rest) = true)
            then Some (JArray [], tl (skip_space rest))
            else match read_elements (read_value depth') (length rest) rest with
                 | None => None
                 | Some (elements, rest) => Some (JArray elements, rest)
                 end
        end
      else if decide (b = x22) then
        match read_string (length rest) rest with
        | None => None
        | Some (str, rest) => Some (JString str, rest)
        end
      else read_scalar (b :: rest)
  end.
Proof.
  destruct depth as [|depth]; cbn [read_value]; destruct (skip_space s) as [|b rest]; try done;
    (destruct (decide (b = x7b)) as [->|H1];
     [|destruct (decide (b = x5b)) as [->|H2]; [|destruct (decide (b = x22)) as [->|H3]; [done|by destruct b]]]);
    try done; destruct (skip_space rest) as [|c rest']; try done; cbn [starts_with tl];
    [destruct (decide (c = x7d)) as [->|H]|destruct (decide (c = x5d)) as [->|H]]; try done;
    rewrite bool_decide_eq_false_2 by done; by destruct c.
Qed.

(** Everything that is read is in order. *)
Lemma read_scalar_ok s v rest : read_scalar s = Some (v, rest) -> json_ok v = true.
Proof.
  unfold read_scalar. intros H.
  destruct (cut_prefix (gostr "null") s), (cut_prefix (gostr "true") s), (cut_prefix (gostr "false") s);
    try by injection H as <- <-.
  destruct (read_number s) as [[literal r]|] eqn:E; [|done]. injection H as <- <-.
  apply read_number_sound in E as [_ E]. by apply is_number_ok.
Qed.

Lemma read_value_ok depth s v rest : read_value depth s = Some (v, rest) -> json_ok v = true.
Proof.
  revert s v rest. induction depth as [|depth IH]; intros s v rest H; rewrite read_value_eq in H;
    destruct (skip_space s) as [|b s1]; try done;
    (destruct (decide (b = x7b)); [|destruct (decide (b = x5b)); [|destruct (decide (b = x22)); [|by apply read_scalar_ok in H]]]);
    try done; try (destruct (decide _); [by injection H as <- <-|]).
  - destruct (read_string _ s1) as [[str r]|] eqn:E; [|done]. injection H as <- <-. by apply read_string_valid in E.
  - destruct (read_members _ _ s1) as [[members r]|] eqn:E; [|done]. injection H as <- <-.
    cbn. by eapply read_members_ok.
  - destruct (read_elements _ _ s1) as [[elements r]|] eqn:E; [|done]. injection H as <- <-.
    cbn. by eapply read_elements_ok.
  - destruct (read_string _ s1) as [[str r]|] eqn:E; [|done]. injection H as <- <-. by apply read_string_valid in E.
Qed.

Lemma first_value_ok body v : first_value body = Some v -> json_ok v = true.
Proof.
  unfold first_value. destruct (read_value _ body) as [[v' rest]|] eqn:E; [|done]. intros [= <-].
  by apply read_value_ok in E.
Qed.

(** ** What is written is read again *)

(** A piece of a written string: read in one step, as the bytes [bs]. *)
Definition piece_reads (bs piece : bytes) : Prop :=
  piece <> [] /\ forall fuel tail, read_string (S fuel) (piece ++ tail) =
    match read_string fuel tail with
    | None => None
    | Some (more, rest) => Some (bs ++ more, rest)
    end.

Lemma escape_reads b : in_range 0 127 b = true -> html_safe b = false -> piece_reads [b] (escape_byte b).
Proof. destruct b; intros H1 H2; try discriminate H1; try discriminate H2; split; done. Qed.

Lemma plain_reads b conts :
  encoding b conts -> byte_Z b <> 34 -> byte_Z b <> 92 -> 32 <= byte_Z b ->
  piece_reads (b :: conts) (b :: conts).
Proof.
  intros He H1 H2 H3. destruct (encoding_rune b conts He) as (r & _ & Hr & Hd). split; [done|].
  intros fuel tail. cbn [read_string app]. rewrite (proj2 (Z.eqb_neq _ _) H1), (proj2 (Z.eqb_neq _ _) H2).
  rewrite (proj2 (Z.ltb_ge _ _) H3), Hd, Hr. cbn [skipn]. by rewrite drop_app_length.
Qed.

(** The two runes that are escaped though valid. *)
Lemma separator_reads b conts c :
  encoding b conts -> (forall tail, decode_rune (b :: conts ++ tail) = (c, S (length conts))) ->
  (c =? 8232) || (c =? 8233) = true ->
  piece_reads (b :: conts) (gostr "\u202" ++ [hex_digit (Z.land c 15)]).
Proof.
  intros He Hd Hc. destruct (encoding_rune b conts He) as (r & _ & Hr & Hd').
  specialize (Hd []). rewrite (Hd' []) in Hd. injection Hd as ->. split; [done|]. intros fuel tail. rewrite <- Hr.
  apply orb_true_iff in Hc as [Hc|Hc]; apply Z.eqb_eq in Hc as ->; done.
Qed.

Lemma write_runes_reads n s tail fuel :
  utf8_valid s = true -> (length s <= n)%nat ->
  (length (write_runes n s) < fuel)%nat ->
  read_string fuel (write_runes n s ++ x22 :: tail) = Some (s, tail).
Proof.
  revert s fuel. induction n as [|n IH]; intros s fuel Hv Hn Hf.
  { destruct s; [|cbn in Hn; lia]. destruct fuel; [lia|done]. }
  destruct s as [|b0 s0]; [destruct fuel; [lia|done]|].
  destruct (valid_first (b0 :: s0) Hv ltac:(done)) as (b & conts & rest & Hs & He & Hr).
  assert (Hpiece : exists piece, piece_reads (b :: conts) piece /\ write_runes (S n) (b0 :: s0) = piece ++ write_runes n rest).
  { rewrite Hs. destruct (encoding_rune b conts He) as (r & _ & Hr' & Hd). pose proof (enc_ascii _ _ He) as Ha.
    cbn [write_runes]. destruct conts as [|c conts].
    - rewrite bool_decide_eq_true_2 in Ha by done. rewrite Ha. cbn [app].
      destruct (html_safe b) eqn:Hh; [|exists (escape_byte b); split; [by apply escape_reads|done]].
      exists [b]. split; [|done]. apply plain_reads; [done|..]; unfold html_safe, in_range in Hh; cbn in Hh; lia.
    - rewrite bool_decide_eq_false_2 in Ha by done. rewrite Ha, Hd. cbn [length Nat.eqb]. rewrite andb_false_r.
      replace (drop (S (S (length conts))) (b :: (c :: conts) ++ rest)) with rest
        by (cbn [skipn app]; by rewrite drop_app_length).
      replace (take (S (S (length conts))) (b :: (c :: conts) ++ rest)) with (b :: c :: conts)
        by (cbn [firstn app]; by rewrite take_app_length).
      destruct (_ || _) eqn:Hc; eexists; (split; [|done]); [by apply separator_reads|].
      unfold in_range in Ha. pose proof (byte_Z_range b). apply plain_reads; [done|lia..]. }
  destruct Hpiece as (piece & [Hne Hp] & Hw). rewrite Hw in *. rewrite length_app in Hf.
  destruct fuel as [|fuel]; [lia|]. rewrite <- app_assoc, Hp.
  assert (length piece <> 0%nat) by (by destruct piece).
  assert (Hl : length (b0 :: s0) = S (length conts + length rest)) by (rewrite Hs; cbn; by rewrite length_app).
  rewrite IH by (done || lia). by rewrite Hs.
Qed.

Lemma write_string_reads s tail :
  utf8_valid s = true ->
  read_string (length (write_runes (length s) s ++ x22 :: tail)) (write_runes (length s) s ++ x22 :: tail)
    = Some (s, tail).
Proof. intros Hs. apply write_runes_reads; [done..|]. rewrite length_app. cbn. lia. Qed.

(** Induction over values. *)
Lemma json_nested (P : json -> Prop) :
  P JNull -> (forall b, P (JBool b)) -> (forall l, P (JNumber l)) -> (forall s, P (JString s)) ->
  (forall vs, Forall P vs -> P (JArray vs)) ->
  (forall ms, Forall (fun m => P (snd m)) ms -> P (JObject ms)) ->
  forall v, P v.
Proof.
  intros H1 H2 H3 H4 H5 H6. fix IH 1. intros [|b|l|s|vs|ms].
  - exact H1.
  - apply H2.
  - apply H3.
  - apply H4.
  - apply H5. induction vs as [|v vs IHl]; [constructor|]. constructor; [apply IH|exact IHl].
  - apply H6. induction ms as [|[k v] ms IHl]; [constructor|]. constructor; [apply IH|exact IHl].
Qed.

(** How deep a value is nested. *)
Fixpoint nesting (v : json) : nat :=
  match v with
  | JArray elements => S (foldr Nat.max 0 (map nesting elements))
  | JObject members => S (foldr Nat.max 0 (map (fun m => nesting (snd m)) members))
  | _ => 0
  end%nat.

Lemma foldr_max_le {A} (f : A -> nat) l n :
  (foldr Nat.max 0 (map f l) <= n)%nat <-> Forall (fun x => (f x <= n)%nat) l.
Proof.
  induction l as [|x l IH]; cbn; [split; [constructor|lia]|]. rewrite Forall_cons, <- IH. lia.
Qed.

(** A value starts with a byte that is no space and closes nothing. *)
Definition value_start (b : byte) : bool := negb (json_space b) && negb (existsb (Z.eqb (byte_Z b)) [93; 125]).

Lemma number_first literal :
  number_ok literal -> exists b t, literal = b :: t /\ (b = x2d \/ is_digit b = true).
Proof.
  intros (sign & whole & fraction & exponent & [->| ->] & Hw & _ & _ & ->); [|by eauto].
  destruct Hw as [->|[[Hne Hd] _]]; [by eauto|]. destruct whole as [|d whole]; [done|]. cbn in *.
  exists d. eexists. split; [done|]. right. by apply andb_prop in Hd as [? _].
Qed.

Lemma write_value_first v : json_ok v = true -> exists b t, write_value v = b :: t /\ value_start b = true.
Proof.
  destruct v as [|b|l|s|vs|ms]; intros H; try (destruct b); try by repeat eexists.
  apply is_number_ok, number_first in H as (b & t & Hl & Hb). exists b, t. split; [done|].
  destruct Hb as [->|Hb]; [done|]. by destruct b.
Qed.

Lemma skip_space_start b t : json_space b = false -> skip_space (b :: t) = b :: t.
Proof. intros H. cbn [skip_space]. by rewrite H. Qed.

Lemma value_start_space b : value_start b = true -> json_space b = false.
Proof. unfold value_start. by destruct (json_space b). Qed.

Lemma skip_space_value v tail :
  json_ok v = true -> skip_space (write_value v ++ tail) = write_value v ++ tail.
Proof.
  intros (b & t & -> & Hb)%write_value_first. by apply skip_space_start, value_start_space.
Qed.

Lemma read_scalar_number literal tail :
  number_ok literal -> number_stops tail = true -> read_scalar (literal ++ tail) = Some (JNumber literal, tail).
Proof.
  intros Hl Ht. destruct (number_first literal Hl) as (b & t & El & Hb).
  assert (Hno : forall c w, (c = x6e \/ c = x74 \/ c = x66) -> cut_prefix (c :: w) (literal ++ tail) = None).
  { intros c w Hc. rewrite El. cbn. rewrite bool_decide_eq_false_2; [done|]. intros ->.
    destruct Hc as [->|[->| ->]], Hb; done. }
  unfold read_scalar. change (gostr "null") with (x6e :: gostr "ull"). change (gostr "true") with (x74 :: gostr "rue").
  change (gostr "false") with (x66 :: gostr "alse"). rewrite !Hno by auto. by rewrite read_number_complete.
Qed.

(** Values one after another, and members. *)
Lemma read_elements_reads rv fuel vs tail :
  vs <> [] -> (length vs <= fuel)%nat ->
  Forall (fun v => forall tail, number_stops tail = true -> rv (write_value v ++ tail) = Some (v, tail)) vs ->
  read_elements rv fuel (separated (map write_value vs) ++ x5d :: tail) = Some (vs, tail).
Proof.
  intros Hne Hf Hrv. revert fuel Hf. induction Hrv as [|v vs Hv Hvs IH]; intros fuel Hf; [done|].
  destruct fuel as [|fuel]; [cbn in Hf; lia|]. cbn [read_elements].
  destruct vs as [|v' vs]; cbn [map separated].
  - rewrite Hv by done. done.
  - rewrite <- app_assoc, Hv by done. cbn [app]. rewrite skip_space_start by done.
    rewrite IH by (done || cbn in *; lia). done.
Qed.

Definition write_member (m : gostring * json) : gostring := write_string (fst m) ++ [x3a] ++ write_value (snd m).

Lemma read_members_reads rv fuel ms tail :
  ms <> [] -> (length ms <= fuel)%nat -> Forall (fun m => utf8_valid (fst m) = true) ms ->
  Forall (fun m => forall tail, number_stops tail = true -> rv (write_value (snd m) ++ tail) = Some (snd m, tail)) ms ->
  read_members rv fuel (separated (map write_member ms) ++ x7d :: tail) = Some (ms, tail).
Proof.
  intros Hne Hf Hk Hrv. revert fuel Hf Hk. induction Hrv as [|[key v] ms Hv Hms IH]; intros fuel Hf Hk; [done|].
  apply Forall_cons in Hk as [Hkey Hk]. cbn [fst snd] in *. destruct fuel as [|fuel]; [cbn in Hf; lia|].
  assert (Hone : forall after, number_stops after = true ->
    read_members rv (S fuel) (write_member (key, v) ++ after) =
      match skip_space after with
      | x7d :: rest => Some ([(key, v)], rest)
      | x2c :: rest =>
          match read_members rv fuel rest with
          | None => None
          | Some (members, rest) => Some ((key, v) :: members, rest)
          end
      | _ => None
      end).
  { intros after Ha. unfold write_member, write_string. cbn [fst snd]. rewrite <- !app_assoc. cbn [app read_members].
    rewrite skip_space_start by done. rewrite write_string_reads by done. rewrite skip_space_start by done.
    by rewrite Hv. }
  destruct ms as [|m' ms]; cbn [map separated].
  - by rewrite Hone.
  - rewrite <- app_assoc, Hone by done. cbn [app]. rewrite skip_space_start by done.
    rewrite IH by (done || cbn in *; lia). done.
Qed.

Lemma separated_cons t u l : separated (t :: u :: l) = t ++ [x2c] ++ separated (u :: l).
Proof. done. Qed.

Lemma length_separated {A} (f : A -> gostring) l :
  Forall (fun x => f x <> []) l -> (length l <= length (separated (map f l)))%nat.
Proof.
  induction 1 as [|x l Hx Hl IH]; [done|]. assert (length (f x) <> 0%nat) by (by destruct (f x)).
  destruct l as [|y l]; [cbn; lia|]. cbn [map] in *. rewrite separated_cons, !length_app. cbn [length] in *. lia.
Qed.

Lemma separated_start b t rest l :
  exists t', separated ((b :: t) :: l) ++ rest = b :: t'.
Proof. destruct l; eexists; cbn; done. Qed.

(** A container is no empty one where its first part does not close it. *)
Lemma value_start_not b c : value_start b = true -> (c = x5d \/ c = x7d) -> bool_decide (b = c) = false.
Proof. intros Hb Hc. apply bool_decide_eq_false. intros ->. by destruct Hc as [->| ->]. Qed.

Lemma read_array depth vs tail :
  vs <> [] -> forallb json_ok vs = true ->
  Forall (fun v => forall tail, number_stops tail = true -> read_value depth (write_value v ++ tail) = Some (v, tail)) vs ->
  read_value (S depth) (write_value (JArray vs) ++ tail) = Some (JArray vs, tail).
Proof.
  intros Hne Hok Hrv. rewrite read_value_eq. cbn [write_value]. rewrite <- !app_assoc. cbn [app].
  rewrite skip_space_start by done. cbn [decide]. rewrite decide_False, decide_True by done.
  assert (Hnil : Forall (fun v => write_value v <> []) vs).
  { apply Forall_forall. intros v Hv%list_elem_of_In. rewrite forallb_forall in Hok.
    by apply Hok, write_value_first in Hv as (? & ? & -> & _). }
  rewrite read_elements_reads; [|done| |done].
  - rewrite decide_False; [done|]. destruct vs as [|v vs]; [done|]. cbn [forallb] in Hok. prep_bool.
    destruct (write_value_first v H) as (b & t & Ev & Hb). cbn [map]. rewrite Ev.
    destruct (separated_start b t (x5d :: tail) (map write_value vs)) as [t' ->].
    rewrite skip_space_start by (by apply value_start_space). cbn [starts_with].
    rewrite value_start_not by auto. done.
  - rewrite length_app. pose proof (length_separated write_value vs Hnil). lia.
Qed.

Lemma read_object depth ms tail :
  ms <> [] -> Forall (fun m => utf8_valid (fst m) = true) ms ->
  Forall (fun m => forall tail, number_stops tail = true ->
    read_value depth (write_value (snd m) ++ tail) = Some (snd m, tail)) ms ->
  read_value (S depth) (write_value (JObject ms) ++ tail) = Some (JObject ms, tail).
Proof.
  intros Hne Hok Hrv. rewrite read_value_eq.
  assert (Hw : write_value (JObject ms) = [x7b] ++ separated (map write_member ms) ++ [x7d]).
  { cbn [write_value]. do 3 f_equal. apply map_ext. by intros []. }
  rewrite Hw, <- !app_assoc. cbn [app]. rewrite skip_space_start, decide_True by done.
  rewrite read_members_reads; [|done| |done|done].
  - destruct ms as [|m ms]; [done|]. cbn [map].
    assert (exists t, write_member m = x22 :: t) as [t ->] by (by eexists).
    by destruct (separated_start x22 t (x7d :: tail) (map write_member ms)) as [t' ->].
  - rewrite length_app.
    assert (Hnil : Forall (fun m => write_member m <> []) ms) by (apply Forall_forall; done).
    pose proof (length_separated write_member ms Hnil). lia.
Qed.

(** Reading what was written gives the value back, before anything that does not
    continue a number. *)
Lemma write_value_reads v depth tail :
  json_ok v = true -> (nesting v <= depth)%nat -> number_stops tail = true ->
  read_value depth (write_value v ++ tail) = Some (v, tail).
Proof.
  revert depth tail. induction v as [|b|l|s|vs IH|ms IH] using json_nested; intros depth tail Hok Hd Ht.
  - by destruct depth.
  - by destruct depth, b.
  - cbn in Hok. apply is_number_ok in Hok. rewrite read_value_eq, skip_space_value by (by apply is_number_ok).
    cbn [write_value]. rewrite <- (read_scalar_number l tail) by done.
    destruct (number_first l Hok) as (b & t & -> & Hb). cbn [app].
    rewrite !decide_False; [done|intros ->; by destruct Hb..].
  - rewrite read_value_eq, skip_space_value by done. cbn [write_value]. unfold write_string. rewrite <- app_assoc.
    cbn [app]. rewrite <- app_assoc. cbn [app]. rewrite write_string_reads by done. done.
  - cbn [nesting] in Hd. destruct depth as [|depth]; [lia|]. destruct vs as [|v vs]; [done|].
    apply read_array; [done|done|]. apply le_S_n, foldr_max_le in Hd. cbn [json_ok] in Hok.
    rewrite forallb_forall in Hok. rewrite Forall_forall in IH, Hd |- *. intros x Hx tail' Ht'.
    apply IH; [done| |by apply Hd|done]. apply Hok. by apply list_elem_of_In.
  - cbn [nesting] in Hd. destruct depth as [|depth]; [lia|]. destruct ms as [|m ms]; [done|].
    apply le_S_n in Hd. rewrite foldr_max_le in Hd. cbn [json_ok] in Hok. rewrite forallb_forall in Hok.
    assert (Hm : forall x, x ∈ m :: ms -> utf8_valid (fst x) = true /\ json_ok (snd x) = true).
    { intros [k v] Hx%list_elem_of_In. apply Hok in Hx. by apply andb_prop in Hx. }
    rewrite Forall_forall in IH, Hd. apply read_object; [done|apply Forall_forall; intros x Hx..].
    + by apply Hm.
    + intros tail' Ht'. apply IH; [done|by apply Hm|by apply Hd|done].
Qed.

Lemma Encode_first v :
  json_ok v = true -> (nesting v <= Z.to_nat maxNestingDepth)%nat -> first_value (Encode v) = Some v.
Proof. intros Hok Hd. unfold first_value, Encode. by rewrite write_value_reads. Qed.

(** A decimal number is a number of the grammar. *)
Lemma dec_nonneg_whole m : 0 <= m -> whole_ok (dec_nonneg m).
Proof.
  intros Hm. destruct (Z.eq_dec m 0) as [->|H0]; [by left|right].
  destruct (dec_nonneg_spec m Hm) as (H1 & H2 & _ & H3). split; [by split|]. specialize (H3 H0).
  destruct (dec_nonneg m) as [|b s]; [done|]. cbn in H3 |- *. apply bool_decide_eq_false. congruence.
Qed.

Lemma fmt_d_number n : is_number (fmt_d n) = true.
Proof.
  apply is_number_ok. unfold fmt_d. destruct (Z.ltb_spec n 0).
  - exists [x2d], (dec_nonneg (- n)), [], [].
    split_and!; [by right|apply dec_nonneg_whole; lia|by left|by left|]. by rewrite app_nil_r.
  - exists [], (dec_nonneg n), [], []. split_and!; [by left|by apply dec_nonneg_whole|by left|by left|].
    by rewrite app_nil_r.
Qed.

(** So is the exact text of a floating point number. *)
Lemma float_literal_number x : finite x -> is_number (float_literal x) = true.
Proof.
  intros Hf. apply is_number_ok.
  assert (Hsign : forall (s : bool) whole exponent, whole_ok whole -> exponent_ok exponent ->
    number_ok (if s then x2d :: whole ++ exponent else whole ++ exponent)).
  { intros s whole exponent Hw He. exists (if s then [x2d] else []), whole, [], exponent.
    split_and!; [destruct s; auto|done|by left|done|by destruct s]. }
  destruct x as [s|s| |s m e]; try done; unfold float_literal; cbv zeta.
  - apply (Hsign s [x30] []); [by left|by left].
  - destruct (Z.leb_spec 0 e).
    + rewrite <- (app_nil_r (dec_nonneg _)).
      apply Hsign; [apply dec_nonneg_whole; pose proof (Z.pow_nonneg 2 e); lia|by left].
    + apply Hsign; [apply dec_nonneg_whole; pose proof (Z.pow_nonneg 5 (- e)); lia|].
      right. exists x65, [x2d], (dec_nonneg (- e)). destruct (dec_nonneg_spec (- e) ltac:(lia)) as (? & ? & _).
      split_and!; [by left|by right; right|by split|done].
Qed.

(** ** What is stored *)

(** Whatever keeps a property of the struct for every field keeps it for the
    whole. *)
Lemma find_field_in {A} (fs : fields A) key store :
  find_field fs key = Some store -> exists name, (name, store) ∈ fs.
Proof.
  unfold find_field. destruct (List.find _ fs) as [[name st]|] eqn:E.
  - intros [= <-]. apply find_some in E as [Hin _]. exists name. by apply list_elem_of_In.
  - destruct (List.find (fun f => EqualFold _ _) fs) as [[name st]|] eqn:E2; [|done]. intros [= <-].
    apply find_some in E2 as [Hin _]. exists name. by apply list_elem_of_In.
Qed.

Definition keeps {A} (P : A -> Prop) (store : decoder A) : Prop :=
  forall v a a', json_ok v = true -> P a -> store v a = Some a' -> P a'.

Lemma store_member_field {A} (fs : fields A) a key v :
  store_member fs (Some a) (key, v) = match find_field fs key with Some store => store v a | None => Some a end.
Proof. done. Qed.

Lemma store_members_none {A} (fs : fields A) members : foldl (store_member fs) None members = None.
Proof.
  induction members as [|m members IH]; [done|]. cbn [foldl]. unfold store_member at 2.
  by destruct (find_field fs (fst m)).
Qed.

Lemma store_struct_keeps {A} (P : A -> Prop) (fs : fields A) :
  Forall (fun f => keeps P (snd f)) fs -> keeps P (store_struct fs).
Proof.
  intros Hfs v a a' Hv Ha H. destruct v as [| | | | |members]; cbn [store_struct] in H; try done;
    [by injection H as <-|].
  cbn [json_ok] in Hv. revert a Ha H. induction members as [|[key v] members IH]; intros a Ha H.
  { by injection H as <-. }
  cbn [forallb] in Hv. apply andb_prop in Hv as [[_ Hv]%andb_prop Hvs]. cbn [foldl] in H.
  rewrite store_member_field in H. destruct (find_field fs key) as [store|] eqn:Ef; [|by eapply IH].
  destruct (store v a) as [a1|] eqn:Es; [|by rewrite store_members_none in H].
  eapply IH; [done| |exact H]. apply find_field_in in Ef as [name Hin].
  rewrite Forall_forall in Hfs. exact (Hfs _ Hin v a a1 Hv Ha Es).
Qed.

Lemma Decode_keeps {A} (P : A -> Prop) (fs : fields A) zero body a :
  Forall (fun f => keeps P (snd f)) fs -> P zero -> Decode fs zero body = Some a -> P a.
Proof.
  intros Hfs Hz. unfold Decode. destruct (first_value body) as [v|] eqn:E; [|done].
  apply first_value_ok in E. by apply store_struct_keeps.
Qed.

Lemma store_string_keeps : keeps (fun s => utf8_valid s = true) store_string.
Proof. intros [] a a' Hv Ha H; try done; by injection H as <-. Qed.

Definition is_int64 (n : Z) : Prop := - two63 <= n < two63.

Lemma store_int_keeps : keeps is_int64 store_int.
Proof. intros [] a a' Hv Ha H; try done; [by injection H as <-|]. by apply ParseInt_range in H. Qed.

(** A number of JSON is no special value of [ParseFloat]. *)
Lemma number_not_special literal : number_ok literal -> special literal = None.
Proof.
  intros (sign & whole & fraction & exponent & Hsign & Hw & _ & _ & ->).
  assert (Hds : whole <> [] /\ forallb is_digit whole = true) by (by destruct Hw as [->|[[? ?] _]]).
  destruct Hsign as [-> | ->]; [apply (special_digits false)|apply (special_digits true)]; by apply Hds.
Qed.

Lemma store_float32_keeps : keeps f32_number store_float32.
Proof.
  intros [] a a' Hv Ha H; try done; [by injection H as <-|]. cbn in Hv, H.
  apply is_number_ok, number_not_special in Hv. by eapply ParseFloat32_number.
Qed.

Lemma store_pointer_keeps {A} (P : A -> Prop) zero store :
  P zero -> keeps P store -> keeps (fun o => forall a, o = Some a -> P a) (store_pointer zero store).
Proof.
  intros Hz Hs v o o' Hv Ho H a ->.
  assert (Hd : P (default zero o)) by (destruct o as [x|]; [by apply Ho|done]).
  unfold store_pointer in H.
  assert (Hst : option_map Some (store v (default zero o)) = Some (Some a)) by (destruct v; done).
  destruct (store v (default zero o)) as [x|] eqn:E; [|done]. injection Hst as ->. by eapply Hs.
Qed.

Lemma store_slice_keeps {A} (P : A -> Prop) zero store :
  P zero -> keeps P store -> keeps (fun l => Forall P (gs_array l)) (store_slice zero store).
Proof.
  intros Hz Hs v l l' Hv Hl H.
  assert (He : forall vs array array', forallb json_ok vs = true -> Forall P array ->
    store_elements zero store vs array = Some array' -> Forall P array').
  { clear -Hz Hs. induction vs as [|v vs IH]; intros array array' Hv Ha H; cbn in H; [by injection H as <-|].
    cbn in Hv. apply andb_prop in Hv as [Hv Hvs].
    destruct (store v (hd zero array)) as [a|] eqn:Es; [|done].
    destruct (store_elements zero store vs (tl array)) as [rest|] eqn:Er; [|done]. injection H as <-. constructor.
    - eapply Hs; [exact Hv| |exact Es]. by destruct Ha.
    - eapply IH; [done| |exact Er]. by destruct Ha. }
  unfold store_slice in H. destruct v as [| | | |vs|]; try done; [by injection H as <-|].
  destruct vs as [|v vs]; [by injection H as <-|].
  destruct (store_elements zero store (v :: vs) (gs_array l)) as [array|] eqn:E; [|done].
  injection H as <-. by eapply He.
Qed.

(** A member with the name of a field is stored in it. *)
Lemma gostr_inj a b : gostr a = gostr b -> a = b.
Proof.
  unfold gostr. intros H. by rewrite <- (String.string_of_list_byte_of_string a), H, String.string_of_list_byte_of_string.
Qed.

Lemma find_field_nth {A} (fs : fields A) i name store :
  fs !! i = Some (name, store) -> NoDup (map fst fs) -> find_field fs (gostr name) = Some store.
Proof.
  intros Hi Hnd. unfold find_field.
  assert (List.find (fun f => bool_decide (gostr (fst f) = gostr name)) fs = Some (name, store)) as ->; [|done].
  revert i Hi. induction fs as [|[n st] fs IH]; intros i Hi; [done|]. apply NoDup_cons in Hnd as [Hn Hnd].
  cbn [List.find fst]. destruct i as [|i]; cbn in Hi.
  - injection Hi as -> ->. by rewrite bool_decide_eq_true_2.
  - rewrite bool_decide_eq_false_2; [by eapply IH|]. intros ->%gostr_inj. apply Hn.
    apply list_elem_of_fmap. exists (name, store). split; [done|]. by eapply list_elem_of_lookup_2.
Qed.

Lemma store_int_reads n old : is_int64 n -> store_int (JNumber (fmt_d n)) old = Some n.
Proof. apply ParseInt_fmt_d. Qed.

Lemma store_float32_reads x old : f32_number x -> store_float32 (JNumber (float_literal x)) old = Some x.
Proof. apply ParseFloat32_literal. Qed.

(** An array into an empty slice. *)
Lemma store_elements_reads {A} zero (store : decoder A) (write : A -> json) l :
  Forall (fun a => store (write a) zero = Some a) l -> store_elements zero store (map write l) [] = Some l.
Proof. induction 1 as [|a l Ha _ IH]; [done|]. cbn. by rewrite Ha, IH. Qed.

Lemma store_slice_reads {A} zero (store : decoder A) (write : A -> json) l :
  Forall (fun a => store (write a) zero = Some a) l ->
  exists sl, store_slice zero store (JArray (map write l)) gs_nil = Some sl /\ gs_elements sl = l.
Proof.
  intros H. unfold store_slice. destruct l as [|a l]; [by exists gs_nil|]. cbn [map].
  change (write a :: map write l) with (map write (a :: l)). cbn [gs_array gs_nil].
  rewrite store_elements_reads by done. eexists. split; [done|].
  unfold gs_elements. cbn [gs_len gs_array]. rewrite length_map. by apply take_ge.
Qed.

Lemma store_members_next {A} (fs : fields A) i name store a a' v members :
  fs !! i = Some (name, store) -> NoDup (map fst fs) -> store v a = Some a' ->
  foldl (store_member fs) (Some a) ((gostr name, v) :: members) = foldl (store_member fs) (Some a') members.
Proof. intros Hi Hnd Hs. cbn [foldl]. by rewrite store_member_field, (find_field_nth fs i name store Hi Hnd), Hs. Qed.
