(* ===== verification/HttpApi.v ===== *)
(** * The HTTP API

    [internal/httpapi]: the request handlers of [server.go] as programs over
    the store, and what [openapi.gen.go] does around them: the request and
    response types, the writing of a response and the mapping of errors.
    The binding of path parameters (oapi-codegen's runtime) is a parameter.
    Routing is in [Router], the decoding of bodies in [Bodies]: a handler gets its
    outcome.  A written response holds the value that is encoded, and a write to a
    client that is gone is not told from one that arrives. *)

From S2P Require Import Prelude Float Text Cbor LedgerCodec LedgerEvent LedgerRecord LedgerChain Ecdsa Endorsement Effects Store Signer Admission Identity Graph Evaluator Projector.

Module httpapi.
Import identity.

(** ** openapi.gen.go: the types *)

Record AcceptEndorsementRequest := MkAcceptRequest {
  acc_AcceptedAtUnixMs : Z;
  acc_ClaimBodyHex : gostring;
  acc_ProposedAtUnixMs : Z;
  acc_ProposerPublicKeyHex : gostring;
  acc_ProposerSignatureHex : gostring;
  acc_SubjectPublicKeyHex : gostring;
  acc_SubjectSignatureHex : gostring;
  acc_Topic : gostring
}.

Record AdmitResponse := MkAdmitResponse {
  adm_EventKind : Z;
  adm_LedgerId : gostring;
  adm_RecordDigest : gostring;
  adm_SequenceNumber : Z
}.

Record ConfidenceResponse := MkConfidenceResponse {
  con_Algorithm : gostring;
  con_ConfidenceScore : spec_float;
  con_ContributingRecordsHex : list gostring;
  con_EvaluatedAtSequence : Z;
  con_Explanation : gostring;
  con_TargetPublicKeyHex : gostring;
  con_Topic : option gostring
}.

(** The text of an error response: a literal, the text of an error, or a format
    with some strings and an error in it. *)
Inductive message :=
  | Text (s : string)
  | ErrorText (err : goerror)
  | Sprintf (format : string) (args : list gostring) (err : goerror).

Record ErrorResponse := MkErrorResponse { Error : message }.

Record TrustRootSpec := MkTrustRootSpec {
  PublicKeyHex : gostring;
  Weight : spec_float
}.

Record EvaluateConfidenceRequest := MkEvaluateRequest {
  ev_DecayFactor : option spec_float;
  ev_MaxHops : option Z;
  ev_TargetPublicKeyHex : gostring;
  ev_Topic : option gostring;
  ev_TrustRoots : list TrustRootSpec
}.

Record HeadResponse := MkHeadResponse {
  hd_LedgerId : gostring;
  hd_RecordDigest : gostring;
  hd_SequenceNumber : Z
}.

Record HealthzResponse := MkHealthzResponse { Status : string }.

Record InitLedgerResponse := MkInitLedgerResponse {
  ini_AdmittedAtUnixMs : Z;
  ini_LedgerId : gostring;
  ini_RecordDigest : gostring;
  ini_SequenceNumber : Z
}.

Record RecordResponse := MkRecordResponse {
  rc_AdmittedAtUnixMs : Z;
  rc_EventKind : Z;
  rc_LedgerId : gostring;
  rc_PayloadVersion : Z;
  rc_PreviousRecordDigest : option gostring;
  rc_RecordBytesHex : gostring;
  rc_RecordDigest : gostring;
  rc_SequenceNumber : Z;
  rc_SignerKeyReference : gostring
}.

Record RevokeEndorsementRequest := MkRevokeRequest {
  rev_Reason : option gostring;
  rev_RevokedAtUnixMs : Z;
  rev_RevokerPublicKeyHex : gostring;
  rev_RevokerSignatureHex : gostring;
  rev_Role : Z;
  rev_TargetRecordDigest : gostring
}.

(** The response objects of the operations. *)
Inductive GetHealthzResponseObject :=
  | GetHealthz200JSONResponse (r : HealthzResponse).
Inductive EvaluateConfidenceResponseObject :=
  | EvaluateConfidence200JSONResponse (r : ConfidenceResponse)
  | EvaluateConfidence400JSONResponse (r : ErrorResponse)
  | EvaluateConfidence404JSONResponse (r : ErrorResponse).
Inductive AcceptEndorsementResponseObject :=
  | AcceptEndorsement201JSONResponse (r : AdmitResponse)
  | AcceptEndorsement400JSONResponse (r : ErrorResponse)
  | AcceptEndorsement404JSONResponse (r : ErrorResponse).
Inductive RevokeEndorsementResponseObject :=
  | RevokeEndorsement201JSONResponse (r : AdmitResponse)
  | RevokeEndorsement400JSONResponse (r : ErrorResponse)
  | RevokeEndorsement404JSONResponse (r : ErrorResponse).
Inductive GetLedgerHeadResponseObject :=
  | GetLedgerHead200JSONResponse (r : HeadResponse)
  | GetLedgerHead404JSONResponse (r : ErrorResponse).
Inductive InitLedgerResponseObject :=
  | InitLedger201JSONResponse (r : InitLedgerResponse)
  | InitLedger400JSONResponse (r : ErrorResponse)
  | InitLedger409JSONResponse (r : ErrorResponse).
Inductive GetRecordResponseObject :=
  | GetRecord200JSONResponse (r : RecordResponse)
  | GetRecord404JSONResponse (r : ErrorResponse).

(** ** server.go *)

(** A nil pointer is [None]; the store is its requests. *)
Record Server := MkServer {
  srv_admission : option admission.Service;
  srv_store : option unit
}.

Definition healthStatus : string := "ok".
Definition invalidRequestMessage : string := "invalid request".
Definition internalServerErrorMessage : string := "internal server error".

Definition NewServer (admissionService : option admission.Service) (store : option unit) : Server :=
  MkServer admissionService store.

Definition error_response (s : string) : ErrorResponse := MkErrorResponse (Text s).

(** [int(x)] of a [uint64] and [uint64(x)] of an [int]: the bits stay. *)
Definition go_int (z : Z) : Z := int_of_u64 z.
Definition go_uint64 (z : Z) : Z := u64 z.

Section Parsing.
Context {K : Ecdsa}.

Definition parseHex32 (s : gostring) : gores (array 32) :=
  match DecodeString s with
  | None => fail (Foreign "hex" [])
  | Some b =>
      if negb (len b =? 32) then fail (Errorf "expected 32 bytes, got %d" [len b])
      else Ok (copy_array 32 b)
  end.

Definition parseHexPublicKey (s : gostring) : gores PublicKey :=
  match DecodeString s with
  | None => fail (Foreign "hex" [])
  | Some b =>
      match ParseUncompressedPublicKey b with
      | None => fail (Foreign "ecdsa" [])
      | Some pub => Ok pub
      end
  end.
End Parsing.

Definition GetHealthz : prog (gores GetHealthzResponseObject) :=
  Ret (Ok (GetHealthz200JSONResponse (MkHealthzResponse healthStatus))).

(** An early return: the response [resp err] when [r] failed; a panic unwinds. *)
Definition guard {A R} (r : gores A) (resp : goerror -> R) (k : A -> prog (gores R)) :
    prog (gores R) :=
  match r with
  | Ok a => k a
  | Err (Fail err) => Ret (Ok (resp err))
  | Err (Panic msg) => Ret (Err (Panic msg))
  end.

Notation "a <-! r 'else' resp ;; k" := (guard r resp (fun a => k))
  (at level 100, r at next level, resp at next level, right associativity) : go_scope.

(** A decoding error of [hex.DecodeString]. *)
Definition decode_hex (s : gostring) : gores slice :=
  match DecodeString s with
  | None => fail (Foreign "hex" [])
  | Some b => Ok (Some b)
  end.

Section Handlers.
Context {C : Cbor} {K : Ecdsa} {U : Unicode}.

(** The success responses. *)
Definition init_response (ledgerID : array 32) (record : StructuralRecord) : InitLedgerResponse := {|
  ini_LedgerId := EncodeToString (arr_list ledgerID);
  ini_SequenceNumber := go_int (ev_sequence (rec_event record));
  ini_RecordDigest := EncodeToString (arr_list (rec_recordDigest record));
  ini_AdmittedAtUnixMs := go_int (ev_admittedAtUnixMS (rec_event record))
|}.

Definition head_response (ledgerID : array 32) (head : ChainState) : HeadResponse :=
  let '(digest, _) := ChainState_LastRecordDigest head in {|
  hd_LedgerId := EncodeToString (arr_list ledgerID);
  hd_SequenceNumber := go_int (cs_lastSequence head);
  hd_RecordDigest := EncodeToString (arr_list digest)
|}.

Definition record_response (digest : array 32) (record : StructuralRecord) : RecordResponse :=
  let event := rec_event record in {|
  rc_RecordDigest := EncodeToString (arr_list digest);
  rc_LedgerId := EncodeToString (arr_list (ev_ledgerID event));
  rc_SequenceNumber := go_int (ev_sequence event);
  rc_EventKind := go_int (ev_kind event);
  rc_PayloadVersion := go_int (ev_payloadVersion event);
  rc_AdmittedAtUnixMs := go_int (ev_admittedAtUnixMS event);
  rc_SignerKeyReference := rec_signerKeyReference record;
  rc_RecordBytesHex := EncodeToString (rec_bytes record);
  rc_PreviousRecordDigest :=
    let '(prevDigest, ok) := PreviousRecordDigest event in
    if ok then Some (EncodeToString (arr_list prevDigest)) else None
|}.

Definition InitLedger (s : Server) (ledgerId : gostring) : prog (gores InitLedgerResponseObject) :=
  match srv_admission s with
  | None => Ret (Ok (InitLedger400JSONResponse (error_response "admission service unavailable")))
  | Some svc =>
      ledgerID <-! parseHex32 ledgerId else
        (fun _ => InitLedger400JSONResponse (error_response "invalid ledger_id: must be 32-byte hex")) ;;
      record <-- admission.InitLedger svc ledgerID ;;
      match record with
      | Err (Fail err) =>
          if errors_Is err admission.ErrLedgerAlreadyInitialized
          then Ret (Ok (InitLedger409JSONResponse (error_response "ledger already initialized")))
          else Ret (fail err)
      | Err (Panic msg) => Ret (Err (Panic msg))
      | Ok record => Ret (Ok (InitLedger201JSONResponse (init_response ledgerID record)))
      end
  end.

Definition GetLedgerHead (s : Server) (ledgerId : gostring) :
    prog (gores GetLedgerHeadResponseObject) :=
  match srv_store s with
  | None => Ret (Ok (GetLedgerHead404JSONResponse (error_response "ledger store unavailable")))
  | Some _ =>
      ledgerID <-! parseHex32 ledgerId else
        (fun _ => GetLedgerHead404JSONResponse
                    (error_response "invalid ledger_id: must be 32-byte hex")) ;;
      head <-? ledgerstore.Head ledgerID ;;
      if negb (cs_initialized head)
      then Ret (Ok (GetLedgerHead404JSONResponse (error_response "ledger not found or uninitialized")))
      else Ret (Ok (GetLedgerHead200JSONResponse (head_response ledgerID head)))
  end.

Definition GetRecord (s : Server) (recordDigest : gostring) : prog (gores GetRecordResponseObject) :=
  match srv_store s with
  | None => Ret (Ok (GetRecord404JSONResponse (error_response "ledger store unavailable")))
  | Some _ =>
      digest <-! parseHex32 recordDigest else
        (fun _ => GetRecord404JSONResponse
                    (error_response "invalid record_digest: must be 32-byte hex")) ;;
      record <-- ledgerstore.Record digest ;;
      match record with
      | Err (Fail err) =>
          if errors_Is err ledgerstore.ErrRecordNotFound
          then Ret (Ok (GetRecord404JSONResponse (error_response "record not found")))
          else Ret (fail err)
      | Err (Panic msg) => Ret (Err (Panic msg))
      | Ok record => Ret (Ok (GetRecord200JSONResponse (record_response digest record)))
      end
  end.

(** The response to an admitted record. *)
Definition admit_response (ledgerID : array 32) (record : StructuralRecord) : AdmitResponse := {|
  adm_LedgerId := EncodeToString (arr_list ledgerID);
  adm_SequenceNumber := go_int (ev_sequence (rec_event record));
  adm_RecordDigest := EncodeToString (arr_list (rec_recordDigest record));
  adm_EventKind := go_int (ev_kind (rec_event record))
|}.

Definition AcceptEndorsement (s : Server) (ledgerId : gostring)
    (Body : option AcceptEndorsementRequest) : prog (gores AcceptEndorsementResponseObject) :=
  let bad (m : string) := AcceptEndorsement400JSONResponse (error_response m) in
  let bad_err (err : goerror) := AcceptEndorsement400JSONResponse (MkErrorResponse (ErrorText err)) in
  match srv_admission s with
  | None => Ret (Ok (bad "admission service unavailable"))
  | Some svc =>
      ledgerID <-! parseHex32 ledgerId else (fun _ => bad "invalid ledger_id") ;;
      match Body with
      | None => Ret (Ok (bad "missing request body"))
      | Some body =>
          proposerPub <-! parseHexPublicKey (acc_ProposerPublicKeyHex body) else
            (fun _ => bad "invalid proposer_public_key_hex") ;;
          subjectPub <-! parseHexPublicKey (acc_SubjectPublicKeyHex body) else
            (fun _ => bad "invalid subject_public_key_hex") ;;
          claimBody <-! decode_hex (acc_ClaimBodyHex body) else
            (fun _ => bad "invalid claim_body_hex") ;;
          proposerSig <-! decode_hex (acc_ProposerSignatureHex body) else
            (fun _ => bad "invalid proposer_signature_hex") ;;
          subjectSig <-! decode_hex (acc_SubjectSignatureHex body) else
            (fun _ => bad "invalid subject_signature_hex") ;;
          payload <-! endorsementv1.NewAcceptedPayload (Some proposerPub) (Some subjectPub)
              (acc_Topic body) claimBody (go_uint64 (acc_ProposedAtUnixMs body)) proposerSig
              (go_uint64 (acc_AcceptedAtUnixMs body)) subjectSig else bad_err ;;
          record <-- admission.AdmitEndorsement svc ledgerID (Some payload) ;;
          record <-! record else bad_err ;;
          Ret (Ok (AcceptEndorsement201JSONResponse (admit_response ledgerID record)))
      end
  end.

Definition RevokeEndorsement (s : Server) (ledgerId : gostring)
    (Body : option RevokeEndorsementRequest) : prog (gores RevokeEndorsementResponseObject) :=
  let bad (m : string) := RevokeEndorsement400JSONResponse (error_response m) in
  let bad_err (err : goerror) := RevokeEndorsement400JSONResponse (MkErrorResponse (ErrorText err)) in
  match srv_admission s with
  | None => Ret (Ok (bad "admission service unavailable"))
  | Some svc =>
      ledgerID <-! parseHex32 ledgerId else (fun _ => bad "invalid ledger_id") ;;
      match Body with
      | None => Ret (Ok (bad "missing request body"))
      | Some body =>
          targetDigest <-! parseHex32 (rev_TargetRecordDigest body) else
            (fun _ => bad "invalid target_record_digest") ;;
          revokerPub <-! parseHexPublicKey (rev_RevokerPublicKeyHex body) else
            (fun _ => bad "invalid revoker_public_key_hex") ;;
          revokerSig <-! decode_hex (rev_RevokerSignatureHex body) else
            (fun _ => bad "invalid revoker_signature_hex") ;;
          let reason := default [] (rev_Reason body) in
          payload <-! endorsementv1.NewRevokedPayload targetDigest (Some revokerPub)
              (go_uint64 (rev_Role body)) (go_uint64 (rev_RevokedAtUnixMs body)) reason revokerSig
              else bad_err ;;
          record <-- admission.AdmitRevocation svc ledgerID (Some payload) ;;
          record <-! record else bad_err ;;
          Ret (Ok (RevokeEndorsement201JSONResponse (admit_response ledgerID record)))
      end
  end.

(** The loop over the trust roots of a request: a repeated key overwrites. *)
Fixpoint parse_roots (trustRoots : gmap IdentityKey float64) (roots : list TrustRootSpec) :
    result (gostring * failure) (gmap IdentityKey float64) :=
  match roots with
  | [] => Ok trustRoots
  | root :: rest =>
      match IdentityKeyFromHex (PublicKeyHex root) with
      | Err f => Err (PublicKeyHex root, f)
      | Ok rootKey => parse_roots (<[rootKey := f64_of_f32 (Weight root)]> trustRoots) rest
      end
  end.

(** The policy of a request. *)
Definition request_policy (trustRoots : gmap IdentityKey float64) (body : EvaluateConfidenceRequest) :
    evaluator.EvaluationPolicy :=
  let policy := evaluator.NewDefaultPolicy trustRoots (default [] (ev_Topic body)) in
  let policy := match ev_MaxHops body with
    | Some maxHops => evaluator.MkPolicy (evaluator.TrustRoots policy) (evaluator.Topic policy)
        maxHops (evaluator.DecayFactor policy) (evaluator.MinConfidence policy)
        (evaluator.AlgorithmVersion policy)
    | None => policy
    end in
  match ev_DecayFactor body with
  | Some decay => evaluator.MkPolicy (evaluator.TrustRoots policy) (evaluator.Topic policy)
      (evaluator.MaxHops policy) (f64_of_f32 decay) (evaluator.MinConfidence policy)
      (evaluator.AlgorithmVersion policy)
  | None => policy
  end.

Definition confidence_response (result : evaluator.ConfidenceResult) : ConfidenceResponse := {|
  con_TargetPublicKeyHex := Hex (evaluator.Target result);
  con_Topic :=
    if bool_decide (evaluator.res_Topic result = []) then None
    else Some (evaluator.res_Topic result);
  con_ConfidenceScore := f32_of_f64 (evaluator.ConfidenceScore result);
  con_Algorithm := evaluator.Algorithm result;
  con_EvaluatedAtSequence := go_int (evaluator.EvaluatedAtSequence result);
  con_ContributingRecordsHex :=
    map (fun digest : Digest => EncodeToString (arr_list digest)) (evaluator.ContributingRecords result);
  con_Explanation := evaluator.Explanation result
|}.

(** After the replay: evaluate the graph. *)
Definition evaluate_graph (fuel : nat) (policy : evaluator.EvaluationPolicy) (targetKey : IdentityKey)
    (p : projector.Projector) : option (gores EvaluateConfidenceResponseObject) :=
  match evaluator.Evaluate (projector.p_heap p) (projector.p_graph p) fuel policy targetKey with
  | None => None
  | Some (Err (Fail err)) =>
      Some (Ok (EvaluateConfidence400JSONResponse (MkErrorResponse (ErrorText err))))
  | Some (Err (Panic msg)) => Some (Err (Panic msg))
  | Some (Ok result) =>
      Some (Ok (EvaluateConfidence200JSONResponse (confidence_response result)))
  end.

(** [None] when the fuel of the replay or of the search runs out. *)
Definition EvaluateConfidence (fuel : nat) (s : Server) (ledgerId : gostring)
    (Body : option EvaluateConfidenceRequest) :
    prog (option (gores EvaluateConfidenceResponseObject)) :=
  let ret (r : EvaluateConfidenceResponseObject) := Ret (Some (Ok r)) in
  let bad (m : message) := EvaluateConfidence400JSONResponse (MkErrorResponse m) in
  match srv_store s with
  | None => ret (EvaluateConfidence404JSONResponse (error_response "ledger store unavailable"))
  | Some store =>
      match parseHex32 ledgerId, Body with
      | Err (Panic msg), _ => Ret (Some (Err (Panic msg)))
      | Err (Fail _), _ => ret (bad (Text "invalid ledger_id: must be 32-byte hex"))
      | Ok _, None => ret (bad (Text "missing request body"))
      | Ok ledgerID, Some body =>
          match IdentityKeyFromHex (ev_TargetPublicKeyHex body) with
          | Err (Panic msg) => Ret (Some (Err (Panic msg)))
          | Err (Fail err) => ret (bad (Sprintf "invalid target_public_key_hex: %v" [] err))
          | Ok targetKey =>
              match parse_roots ∅ (ev_TrustRoots body) with
              | Err (_, Panic msg) => Ret (Some (Err (Panic msg)))
              | Err (hex, Fail err) => ret (bad (Sprintf "invalid trust root %s: %v" [hex] err))
              | Ok trustRoots =>
                  replayed <-- projector.ReplayFromStore fuel (projector.NewProjector ledgerID)
                    (Some store) 256 ;;
                  match replayed with
                  | None => Ret None
                  | Some (_, _, Err f) =>
                      Ret (Some (Err (wrap "replay ledger for confidence evaluation" f)))
                  | Some (p, _, Ok _) =>
                      Ret (evaluate_graph fuel (request_policy trustRoots body) targetKey p)
                  end
              end
          end
      end
  end.
End Handlers.

(** ** Writing responses

    [openapi.gen.go]: a response object is encoded into a buffer, then the
    status and the body are written; an error of the handler or of the encoder
    is answered by the configured handlers. *)

Record written (R : Type) := MkWritten {
  w_status : Z;
  w_contentType : string;
  w_body : R + string
}.
Arguments MkWritten {R} _ _ _.
Arguments w_status {R} _.
Arguments w_contentType {R} _.
Arguments w_body {R} _.

(** [http.Error]. *)
Definition http_Error {R} (text : string) (code : Z) : written R :=
  MkWritten code "text/plain; charset=utf-8" (inr text).

(** [strictHTTPServerOptions]: what the request and response error handlers
    answer, whatever the error. *)
Definition RequestErrorHandlerFunc {R} (_ : goerror) : written R := http_Error invalidRequestMessage 400.
Definition ResponseErrorHandlerFunc {R} (_ : goerror) : written R :=
  http_Error internalServerErrorMessage 500.

(** The visitors: [encodes] is whether [json.Encode] succeeds. *)
Definition visit {R} (code : Z) (encodes : bool) (response : R) : gores (written R) :=
  if encodes then Ok (MkWritten code "application/json" (inl response))
  else fail (Foreign "json.UnsupportedValueError" []).

(** Only a float that is no number cannot be encoded. *)
Definition json_float (x : spec_float) : bool :=
  match x with S754_nan | S754_infinity _ => false | _ => true end.

Definition VisitGetHealthzResponse (response : GetHealthzResponseObject) :=
  match response with GetHealthz200JSONResponse _ => visit 200 true response end.

Definition VisitEvaluateConfidenceResponse (response : EvaluateConfidenceResponseObject) :=
  match response with
  | EvaluateConfidence200JSONResponse r => visit 200 (json_float (con_ConfidenceScore r)) response
  | EvaluateConfidence400JSONResponse _ => visit 400 true response
  | EvaluateConfidence404JSONResponse _ => visit 404 true response
  end.

Definition VisitAcceptEndorsementResponse (response : AcceptEndorsementResponseObject) :=
  match response with
  | AcceptEndorsement201JSONResponse _ => visit 201 true response
  | AcceptEndorsement400JSONResponse _ => visit 400 true response
  | AcceptEndorsement404JSONResponse _ => visit 404 true response
  end.

Definition VisitRevokeEndorsementResponse (response : RevokeEndorsementResponseObject) :=
  match response with
  | RevokeEndorsement201JSONResponse _ => visit 201 true response
  | RevokeEndorsement400JSONResponse _ => visit 400 true response
  | RevokeEndorsement404JSONResponse _ => visit 404 true response
  end.

Definition VisitGetLedgerHeadResponse (response : GetLedgerHeadResponseObject) :=
  match response with
  | GetLedgerHead200JSONResponse _ => visit 200 true response
  | GetLedgerHead404JSONResponse _ => visit 404 true response
  end.

Definition VisitInitLedgerResponse (response : InitLedgerResponseObject) :=
  match response with
  | InitLedger201JSONResponse _ => visit 201 true response
  | InitLedger400JSONResponse _ => visit 400 true response
  | InitLedger409JSONResponse _ => visit 409 true response
  end.

Definition VisitGetRecordResponse (response : GetRecordResponseObject) :=
  match response with
  | GetRecord200JSONResponse _ => visit 200 true response
  | GetRecord404JSONResponse _ => visit 404 true response
  end.

(** What a strict handler does with the outcome of its operation. *)
Definition finish {R} (visitor : R -> gores (written R)) (outcome : gores R) : gores (written R) :=
  match outcome with
  | Err (Fail err) => Ok (ResponseErrorHandlerFunc err)
  | Err (Panic msg) => Err (Panic msg)
  | Ok response =>
      match visitor response with
      | Err (Fail err) => Ok (ResponseErrorHandlerFunc err)
      | other => other
      end
  end.

Section Strict.
Context {C : Cbor} {K : Ecdsa} {U : Unicode} (s : Server).

(** The strict handlers; [body] is the outcome of decoding the request. *)
Definition strict_GetHealthz : prog (gores (written GetHealthzResponseObject)) :=
  outcome <-- GetHealthz ;; Ret (finish VisitGetHealthzResponse outcome).

Definition strict_InitLedger (ledgerId : gostring) : prog (gores (written InitLedgerResponseObject)) :=
  outcome <-- InitLedger s ledgerId ;; Ret (finish VisitInitLedgerResponse outcome).

Definition strict_GetLedgerHead (ledgerId : gostring) :
    prog (gores (written GetLedgerHeadResponseObject)) :=
  outcome <-- GetLedgerHead s ledgerId ;; Ret (finish VisitGetLedgerHeadResponse outcome).

Definition strict_GetRecord (recordDigest : gostring) :
    prog (gores (written GetRecordResponseObject)) :=
  outcome <-- GetRecord s recordDigest ;; Ret (finish VisitGetRecordResponse outcome).

Definition strict_AcceptEndorsement (ledgerId : gostring)
    (body : result goerror AcceptEndorsementRequest) :
    prog (gores (written AcceptEndorsementResponseObject)) :=
  match body with
  | Err err => Ret (Ok (RequestErrorHandlerFunc (Wrapped "can't decode JSON body" [] err)))
  | Ok body =>
      outcome <-- AcceptEndorsement s ledgerId (Some body) ;;
      Ret (finish VisitAcceptEndorsementResponse outcome)
  end.

Definition strict_RevokeEndorsement (ledgerId : gostring)
    (body : result goerror RevokeEndorsementRequest) :
    prog (gores (written RevokeEndorsementResponseObject)) :=
  match body with
  | Err err => Ret (Ok (RequestErrorHandlerFunc (Wrapped "can't decode JSON body" [] err)))
  | Ok body =>
      outcome <-- RevokeEndorsement s ledgerId (Some body) ;;
      Ret (finish VisitRevokeEndorsementResponse outcome)
  end.

Definition strict_EvaluateConfidence (fuel : nat) (ledgerId : gostring)
    (body : result goerror EvaluateConfidenceRequest) :
    prog (option (gores (written EvaluateConfidenceResponseObject))) :=
  match body with
  | Err err => Ret (Some (Ok (RequestErrorHandlerFunc (Wrapped "can't decode JSON body" [] err))))
  | Ok body =>
      outcome <-- EvaluateConfidence fuel s ledgerId (Some body) ;;
      Ret (finish VisitEvaluateConfidenceResponse <$> outcome)
  end.
End Strict.

(** ** Path parameters

    The wrappers bind the path parameter, whatever was in the path, and answer
    with the error handler of [chiServerOptions] when that fails. *)

(** [runtime.BindStyledParameterWithOptions] of a required path parameter. *)
Class Binder := { BindPath : gostring -> result goerror gostring }.

(** [chiServerOptions]. *)
Definition ErrorHandlerFunc {R} (_ : goerror) : written R := http_Error invalidRequestMessage 400.

Section Wrappers.
Context {C : Cbor} {K : Ecdsa} {U : Unicode} {B : Binder} (s : Server).

Definition InvalidParamFormatError (err : goerror) : goerror := Wrapped "Invalid format for parameter" [] err.

Definition wrapper_GetHealthz : prog (gores (written GetHealthzResponseObject)) := strict_GetHealthz.

Definition wrapper_EvaluateConfidence (fuel : nat) (raw : gostring)
    (body : result goerror EvaluateConfidenceRequest) :
    prog (option (gores (written EvaluateConfidenceResponseObject))) :=
  match BindPath raw with
  | Err err => Ret (Some (Ok (ErrorHandlerFunc (InvalidParamFormatError err))))
  | Ok ledgerId => strict_EvaluateConfidence s fuel ledgerId body
  end.

Definition wrapper_AcceptEndorsement (raw : gostring) (body : result goerror AcceptEndorsementRequest) :
    prog (gores (written AcceptEndorsementResponseObject)) :=
  match BindPath raw with
  | Err err => Ret (Ok (ErrorHandlerFunc (InvalidParamFormatError err)))
  | Ok ledgerId => strict_AcceptEndorsement s ledgerId body
  end.

Definition wrapper_RevokeEndorsement (raw : gostring) (body : result goerror RevokeEndorsementRequest) :
    prog (gores (written RevokeEndorsementResponseObject)) :=
  match BindPath raw with
  | Err err => Ret (Ok (ErrorHandlerFunc (InvalidParamFormatError err)))
  | Ok ledgerId => strict_RevokeEndorsement s ledgerId body
  end.

Definition wrapper_GetLedgerHead (raw : gostring) : prog (gores (written GetLedgerHeadResponseObject)) :=
  match BindPath raw with
  | Err err => Ret (Ok (ErrorHandlerFunc (InvalidParamFormatError err)))
  | Ok ledgerId => strict_GetLedgerHead s ledgerId
  end.

Definition wrapper_InitLedger (raw : gostring) : prog (gores (written InitLedgerResponseObject)) :=
  match BindPath raw with
  | Err err => Ret (Ok (ErrorHandlerFunc (InvalidParamFormatError err)))
  | Ok ledgerId => strict_InitLedger s ledgerId
  end.

Definition wrapper_GetRecord (raw : gostring) : prog (gores (written GetRecordResponseObject)) :=
  match BindPath raw with
  | Err err => Ret (Ok (ErrorHandlerFunc (InvalidParamFormatError err)))
  | Ok recordDigest => strict_GetRecord s recordDigest
  end.
End Wrappers.
End httpapi.
