(* ===== verification/HttpProps.v ===== *)
(** * What the HTTP API guarantees

    The handlers of [HttpApi] as the calls of a concurrent system on one
    database: the chains stay valid, every success response is true of the
    database, and an answer is tied to its request and to the tables between
    which the request ran ([answered]).  Then each handler alone, without failures: what is
    written on every branch, and the confidence of a replayed ledger. *)

From S2P Require Import Prelude Float Text Cbor CborRef LedgerCodec LedgerEvent LedgerRecord LedgerChain Ecdsa Endorsement Effects Store Signer Admission Identity Graph Evaluator EvaluatorSpec EvaluatorProps Projector HttpApi.

Module httpapi_props.
Import identity graphv1 httpapi.

(** ** The calls of the API *)

Inductive response :=
  | Healthz (r : GetHealthzResponseObject)
  | Confidence (r : EvaluateConfidenceResponseObject)
  | Accepted (r : AcceptEndorsementResponseObject)
  | Revoked (r : RevokeEndorsementResponseObject)
  | LedgerHead (r : GetLedgerHeadResponseObject)
  | Initialized (r : InitLedgerResponseObject)
  | RecordRead (r : GetRecordResponseObject).

Definition wmap {R S} (f : R -> S) (w : written R) : written S :=
  MkWritten (w_status w) (w_contentType w)
    (match w_body w with inl r => inl (f r) | inr text => inr text end).

Definition omap_ok {R S} (f : R -> S) (r : gores (written R)) : gores (written S) :=
  match r with Ok w => Ok (wmap f w) | Err e => Err e end.

Definition serve {R S} (f : R -> S) (p : prog (gores (written R))) :
    prog (option (gores (written S))) :=
  r <-- p ;; Ret (Some (omap_ok f r)).

Definition server_ok (s : Server) : Prop :=
  forall svc, srv_admission s = Some svc -> admission.ServiceOk svc.

Lemma chain_head_sequence t id rs h :
  ledgerstore.ledger_chain t id rs -> last rs = Some h -> ev_sequence (rec_event h) = len rs.
Proof.
  intros (_ & _ & Hv) Hl. rewrite last_lookup in Hl. rewrite (valid_chain_sequence _ _ _ Hv Hl).
  apply lookup_lt_Some in Hl. unfold len. lia.
Qed.

Section System.
Context {C : Cbor} {CO : CborOk C} {K : Ecdsa} {KO : EcdsaOk K} {U : Unicode} {B : Binder}.

Inductive http_call : prog (option (gores (written response))) -> Prop :=
  | call_healthz : http_call (serve Healthz wrapper_GetHealthz)
  | call_init s raw :
      server_ok s -> http_call (serve Initialized (wrapper_InitLedger s raw))
  | call_head s raw : http_call (serve LedgerHead (wrapper_GetLedgerHead s raw))
  | call_record s raw : http_call (serve RecordRead (wrapper_GetRecord s raw))
  | call_accept s raw body :
      server_ok s -> http_call (serve Accepted (wrapper_AcceptEndorsement s raw body))
  | call_revoke s raw body :
      server_ok s -> http_call (serve Revoked (wrapper_RevokeEndorsement s raw body))
  | call_evaluate s fuel raw body :
      http_call (r <-- wrapper_EvaluateConfidence s fuel raw body ;; Ret (omap_ok Confidence <$> r)).

(** What a success response says of the database.  [admission.returned] is a
    record that is stored, or whose body collides with that of a stored one. *)
Definition truthful (t : table) (resp : response) : Prop :=
  match resp with
  | Initialized (InitLedger201JSONResponse r) => exists id record,
      admission.returned t (fun r => is_genesis r /\ ev_ledgerID (rec_event r) = id) record /\
      r = init_response id record
  | Accepted (AcceptEndorsement201JSONResponse r) => exists id payload record,
      endorsementv1.AcceptedPayload_Verify payload = Ok tt /\
      admission.returned t (admission.admits (admission.endorsement_request id payload)) record /\
      r = admit_response id record
  | Revoked (RevokeEndorsement201JSONResponse r) => exists id payload record,
      endorsementv1.RevokedPayload_Verify payload = Ok tt /\
      admission.returned t (admission.admits (admission.revocation_request id payload)) record /\
      r = admit_response id record
  | LedgerHead (GetLedgerHead200JSONResponse r) => exists id record,
      ledgerstore.stored t record /\ ev_ledgerID (rec_event record) = id /\
      r = head_response id (ChainStateFromRecord record)
  | RecordRead (GetRecord200JSONResponse r) => exists record,
      ledgerstore.stored t record /\ r = record_response (rec_recordDigest record) record
  | _ => True
  end.

(** The status of a response is the one its type names. *)
Definition status (resp : response) : Z :=
  match resp with
  | Initialized (InitLedger201JSONResponse _) | Accepted (AcceptEndorsement201JSONResponse _)
  | Revoked (RevokeEndorsement201JSONResponse _) => 201
  | Initialized (InitLedger409JSONResponse _) => 409
  | Initialized (InitLedger400JSONResponse _) | Accepted (AcceptEndorsement400JSONResponse _)
  | Revoked (RevokeEndorsement400JSONResponse _)
  | Confidence (EvaluateConfidence400JSONResponse _) => 400
  | Accepted (AcceptEndorsement404JSONResponse _) | Revoked (RevokeEndorsement404JSONResponse _)
  | Confidence (EvaluateConfidence404JSONResponse _)
  | LedgerHead (GetLedgerHead404JSONResponse _) | RecordRead (GetRecord404JSONResponse _) => 404
  | Healthz (GetHealthz200JSONResponse _) | Confidence (EvaluateConfidence200JSONResponse _)
  | LedgerHead (GetLedgerHead200JSONResponse _) | RecordRead (GetRecord200JSONResponse _) => 200
  end.

Definition written_ok (t : table) (w : written response) : Prop :=
  match w_body w with
  | inl resp => w_status w = status resp /\ w_contentType w = "application/json"%string /\
      truthful t resp
  | inr text =>
      (w_status w, text) = (400, invalidRequestMessage) \/
      (w_status w, text) = (500, internalServerErrorMessage)
  end.

Definition reply_ok (t : table) (r : option (gores (written response))) : Prop :=
  match r with Some (Ok w) => written_ok t w | _ => True end.

Lemma truthful_mono t t' resp : t `prefix_of` t' -> truthful t resp -> truthful t' resp.
Proof.
  intros Hp. destruct resp as [r|r|r|r|r|r|r]; destruct r; cbn; try done.
  - intros (id & pl & rec & Hv & Hr & ->). exists id, pl, rec. split_and!; [done| |done].
    by eapply admission.returned_mono.
  - intros (id & pl & rec & Hv & Hr & ->). exists id, pl, rec. split_and!; [done| |done].
    by eapply admission.returned_mono.
  - intros (id & rec & Hr & Hid & ->). exists id, rec. split_and!; [|done..].
    by eapply ledgerstore.stored_mono.
  - intros (id & rec & Hr & ->). exists id, rec. split; [|done].
    by eapply admission.returned_mono.
  - intros (rec & Hr & ->). exists rec. split; [|done]. by eapply ledgerstore.stored_mono.
Qed.

Lemma written_ok_mono t t' w : t `prefix_of` t' -> written_ok t w -> written_ok t' w.
Proof.
  unfold written_ok. intros Hp. destruct (w_body w); [|done]. intros (? & ? & ?).
  split_and!; [done..|by eapply truthful_mono].
Qed.

(** A handler's outcome and what is written of it. *)
Lemma finish_ok {R} (f : R -> response) visitor t (outcome : gores R) :
  (forall r, truthful t (f r) -> visitor r = visit (status (f r)) true r \/
                                 visitor r = visit (status (f r)) false r) ->
  (forall r, outcome = Ok r -> truthful t (f r)) ->
  reply_ok t (Some (omap_ok f (finish visitor outcome))).
Proof.
  intros Hv Ho. destruct outcome as [r|[err|msg]]; cbn; [|by right|done].
  specialize (Ho r eq_refl). destruct (Hv r Ho) as [-> | ->]; cbn; [done|by right].
Qed.

(** The post of a handler: its success responses are truthful. *)
Definition outcome_ok {R} (f : R -> response) (t : table) (outcome : gores R) : Prop :=
  match outcome with Ok r => truthful t (f r) | Err _ => True end.

Lemma serve_safe {R} (f : R -> response) visitor (p : prog (gores R)) t :
  (forall r, visitor r = visit (status (f r)) true r \/ visitor r = visit (status (f r)) false r) ->
  ledgerstore.store_ok t -> safe ledgerstore.store_ok (outcome_ok f) p t ->
  safe ledgerstore.store_ok reply_ok (serve f (outcome <-- p ;; Ret (finish visitor outcome))) t.
Proof.
  intros Hv Ht Hp. unfold serve. eapply safe_pbind; [done| |].
  - eapply safe_pbind; [done|exact Hp|]. intros t1 outcome _ Ht1 Ho.
    apply (safe_ret _ (fun t res => reply_ok t (Some (omap_ok f res)))).
    intros t2 Hp2 _. apply finish_ok; [auto|]. intros r ->. by eapply truthful_mono.
  - intros t1 res _ Ht1 Hres. apply safe_ret. intros t2 Hp2 _.
    destruct res as [w|]; [|done]. by eapply written_ok_mono.
Qed.

(** An early return satisfies the post when its response does. *)
Lemma guard_safe {A R} (f : R -> response) (r : gores A) resp (k : A -> prog (gores R)) t :
  (forall t1 err, truthful t1 (f (resp err))) ->
  (forall a, r = Ok a -> safe ledgerstore.store_ok (outcome_ok f) (k a) t) ->
  safe ledgerstore.store_ok (outcome_ok f) (guard r resp k) t.
Proof.
  intros He Hk. destruct r as [a|[err|msg]]; cbn [guard]; [by apply Hk| |]; apply safe_ret; intros; [apply He|done].
Qed.

Lemma init_handler_safe s ledgerId t :
  server_ok s -> ledgerstore.store_ok t ->
  safe ledgerstore.store_ok (outcome_ok Initialized) (InitLedger s ledgerId) t.
Proof using CO KO.
  intros Hs Ht. unfold InitLedger. destruct (srv_admission s) as [svc|] eqn:Es; [|done].
  apply guard_safe; [done|]. intros id _. pose proof (Hs svc Es).
  eapply safe_pbind; [done|by apply admission.InitLedger_safe|].
  intros t1 [r|[err|msg]] _ Ht1 Hr; [|by case_match|done].
  apply safe_ret. intros t2 Hp _. exists id, r. split; [|done]. by eapply admission.returned_mono.
Qed.

Lemma GetLedgerHead_safe s ledgerId t :
  ledgerstore.store_ok t ->
  safe ledgerstore.store_ok (outcome_ok LedgerHead) (GetLedgerHead s ledgerId) t.
Proof using CO.
  intros Ht. unfold GetLedgerHead. destruct (srv_store s); [|done].
  apply guard_safe; [done|]. intros id _.
  eapply safe_pbind_ok; [done|apply ledgerstore.Head_safe|done|].
  intros t1 st _ Ht1 [->|(h & Hst & -> & Hid)]; [done|].
  rewrite ChainStateFromRecord_ok by apply Hst. apply safe_ret. intros t2 Hp _.
  exists id, h. split_and!; [by eapply ledgerstore.stored_mono|done|].
  by rewrite ChainStateFromRecord_ok by apply Hst.
Qed.

Lemma GetRecord_safe s digest t :
  ledgerstore.store_ok t ->
  safe ledgerstore.store_ok (outcome_ok RecordRead) (GetRecord s digest) t.
Proof using CO.
  intros Ht. unfold GetRecord. destruct (srv_store s); [|done].
  apply guard_safe; [done|]. intros d _.
  eapply safe_pbind; [done|apply ledgerstore.Record_safe|].
  intros t1 [r|[err|msg]] _ Ht1 Hr; [|by case_match|done]. destruct Hr as [Hst <-].
  apply safe_ret. intros t2 Hp _. exists r. split; [by eapply ledgerstore.stored_mono|done].
Qed.

(** A parsed key is an encodable P-256 key. *)
Lemma parsed_key_ok h k : parseHexPublicKey h = Ok k -> admission.key_or_nil (Some k).
Proof using KO.
  unfold parseHexPublicKey. destruct (DecodeString h) as [b|]; [|done].
  destruct (ParseUncompressedPublicKey b) as [k'|] eqn:Hk; [|done]. intros [= <-].
  apply parse_key in Hk as (H1 & H2 & _). right. by exists k', b.
Qed.

Lemma AdmitEndorsement_safe s id p t :
  admission.ServiceOk s -> admission.payload_typed p -> ledgerstore.store_ok t ->
  safe ledgerstore.store_ok
    (fun t res => match res with
     | Ok r => endorsementv1.AcceptedPayload_Verify p = Ok tt /\
         admission.returned t (admission.admits (admission.endorsement_request id p)) r
     | Err _ => True end) (admission.AdmitEndorsement s id (Some p)) t.
Proof using CO KO.
  intros Hs Hp Ht. destruct (endorsementv1.AcceptedPayload_Verify p) as [[]|e] eqn:Hv.
  - destruct (admission.AdmitEndorsement_eq s id p Hp Hv) as [-> [? ? ? ?]].
    eapply safe_weaken; [|by apply admission.Admit_safe]. by intros t1 [r|].
  - unfold admission.AdmitEndorsement. by rewrite Hv.
Qed.

Lemma AdmitRevocation_safe s id p t :
  admission.ServiceOk s -> admission.revocation_typed p -> ledgerstore.store_ok t ->
  safe ledgerstore.store_ok
    (fun t res => match res with
     | Ok r => endorsementv1.RevokedPayload_Verify p = Ok tt /\
         admission.returned t (admission.admits (admission.revocation_request id p)) r
     | Err _ => True end) (admission.AdmitRevocation s id (Some p)) t.
Proof using CO KO.
  intros Hs Hp Ht. destruct (endorsementv1.RevokedPayload_Verify p) as [[]|e] eqn:Hv.
  - destruct (admission.AdmitRevocation_eq s id p Hp Hv) as [-> [? ? ? ?]].
    eapply safe_weaken; [|by apply admission.Admit_safe]. by intros t1 [r|].
  - unfold admission.AdmitRevocation. by rewrite Hv.
Qed.

Lemma AcceptEndorsement_safe s ledgerId body t :
  server_ok s -> ledgerstore.store_ok t ->
  safe ledgerstore.store_ok (outcome_ok Accepted) (AcceptEndorsement s ledgerId body) t.
Proof using CO KO.
  intros Hs Ht. unfold AcceptEndorsement. destruct (srv_admission s) as [svc|] eqn:Es; [|done].
  apply guard_safe; [done|]. intros id _. destruct body as [body|]; [|done].
  apply guard_safe; [done|]. intros kp Hkp. apply guard_safe; [done|]. intros ks Hks.
  do 4 (apply guard_safe; [done|]; intros ? ?).
  match goal with H : endorsementv1.NewAcceptedPayload _ _ _ _ _ _ _ _ = Ok ?p |- _ =>
    apply endorsementv1.NewAcceptedPayload_Ok in H as [-> _] end.
  eapply safe_pbind; [done|apply AdmitEndorsement_safe; [by apply Hs| |done]|].
  { split_and!; cbn; [by eapply parsed_key_ok..|apply u64_range|apply u64_range]. }
  intros t1 res _ Ht1 Hr. apply guard_safe; [done|]. intros r ->. destruct Hr as [Hv Hr].
  apply safe_ret. intros t2 Hp _. eexists id, _, r. split_and!; [exact Hv| |done].
  by eapply admission.returned_mono.
Qed.

Lemma RevokeEndorsement_safe s ledgerId body t :
  server_ok s -> ledgerstore.store_ok t ->
  safe ledgerstore.store_ok (outcome_ok Revoked) (RevokeEndorsement s ledgerId body) t.
Proof using CO KO.
  intros Hs Ht. unfold RevokeEndorsement. destruct (srv_admission s) as [svc|] eqn:Es; [|done].
  apply guard_safe; [done|]. intros id _. destruct body as [body|]; [|done].
  apply guard_safe; [done|]. intros d _. apply guard_safe; [done|]. intros k Hk.
  do 2 (apply guard_safe; [done|]; intros ? ?).
  match goal with H : endorsementv1.NewRevokedPayload _ _ _ _ _ _ = Ok ?p |- _ =>
    apply endorsementv1.NewRevokedPayload_Ok in H as [-> _] end.
  eapply safe_pbind; [done|apply AdmitRevocation_safe; [by apply Hs| |done]|].
  { split; cbn; [by eapply parsed_key_ok|apply u64_range]. }
  intros t1 res _ Ht1 Hr. apply guard_safe; [done|]. intros r ->. destruct Hr as [Hv Hr].
  apply safe_ret. intros t2 Hp _. eexists id, _, r. split_and!; [exact Hv| |done].
  by eapply admission.returned_mono.
Qed.

(** A replay only reads. *)
Lemma ScanRecords_safe id from limit t :
  safe ledgerstore.store_ok (fun _ _ => True) (ledgerstore.ScanRecords id from limit) t.
Proof.
  unfold ledgerstore.ScanRecords. case_match; [done|].
  intros t1 reply t2 Hp Ht1 [-> _]. split_and!; [done..|].
  by destruct reply as [[rows err]|].
Qed.

Lemma replay_loop_safe fuel p total batch t :
  ledgerstore.store_ok t ->
  safe ledgerstore.store_ok (fun _ _ => True) (projector.replay_loop fuel p total batch) t.
Proof.
  revert p total t. induction fuel as [|fuel IH]; intros p total t Ht; [done|].
  cbn [projector.replay_loop]. eapply safe_pbind; [done|apply ScanRecords_safe|].
  intros t1 [records|[err|msg]] _ Ht1 _; [|done..].
  case_match; [done|]. destruct (projector.apply_batch p total records) as [[p' total'] [u|f]]; [|done].
  case_match; [done|]. by apply IH.
Qed.

Lemma EvaluateConfidence_safe s fuel ledgerId body t :
  ledgerstore.store_ok t ->
  safe ledgerstore.store_ok (fun _ _ => True) (EvaluateConfidence fuel s ledgerId body) t.
Proof.
  intros Ht. unfold EvaluateConfidence. destruct (srv_store s); [|done].
  destruct (parseHex32 ledgerId) as [id|[]]; [|done..]. destruct body as [body|]; [|done].
  destruct (IdentityKeyFromHex _) as [k|[]]; [|done..].
  destruct (parse_roots _ _) as [roots|[h []]]; [|done..].
  eapply safe_pbind; [done|by apply replay_loop_safe|].
  by intros t1 [[[p n] [[]|f]]|] _ _ _.
Qed.

Lemma bad_request_ok {R} (f : R -> response) t :
  safe ledgerstore.store_ok reply_ok (serve f (Ret (Ok (http_Error invalidRequestMessage 400)))) t.
Proof. apply safe_ret. intros t1 _ _. by left. Qed.

Lemma evaluate_call_safe s fuel ledgerId body t :
  ledgerstore.store_ok t ->
  safe ledgerstore.store_ok reply_ok
    (r <-- strict_EvaluateConfidence s fuel ledgerId (Ok body) ;; Ret (omap_ok Confidence <$> r)) t.
Proof.
  intros Ht. eapply safe_pbind; [done| |].
  - eapply safe_pbind; [done|by apply EvaluateConfidence_safe|].
    intros t1 outcome _ Ht1 _.
    apply (safe_ret _ (fun t res => reply_ok t (omap_ok Confidence <$> res))). intros t2 _ _.
    destruct outcome as [outcome|]; [|done]. apply finish_ok; [|by intros []].
    intros [r|r|r] _; [|by left..]. cbn. destruct (json_float _); [by left|by right].
  - intros t1 res _ Ht1 Hres. apply safe_ret. intros t2 Hp2 _.
    destruct res as [[w|]|]; [|done..]. by eapply written_ok_mono.
Qed.

Lemma http_call_safe p t :
  http_call p -> ledgerstore.store_ok t -> safe ledgerstore.store_ok reply_ok p t.
Proof using CO KO.
  intros Hc Ht.
  destruct Hc as [|s raw Hs|s raw|s raw|s raw body Hs|s raw body Hs|s fuel raw body]; [by apply safe_ret|..].
  all: cbv [wrapper_InitLedger wrapper_GetLedgerHead wrapper_GetRecord wrapper_AcceptEndorsement
    wrapper_RevokeEndorsement wrapper_EvaluateConfidence].
  all: destruct (BindPath raw) as [param|err]; [|apply (bad_request_ok)].
  - apply serve_safe; [by intros []; left|done|by apply init_handler_safe].
  - apply serve_safe; [by intros []; left|done|by apply GetLedgerHead_safe].
  - apply serve_safe; [by intros []; left|done|by apply GetRecord_safe].
  - destruct body as [body|err]; [|apply bad_request_ok].
    apply serve_safe; [by intros []; left|done|by apply AcceptEndorsement_safe].
  - destruct body as [body|err]; [|apply bad_request_ok].
    apply serve_safe; [by intros []; left|done|by apply RevokeEndorsement_safe].
  - destruct body as [body|err]; [|apply (bad_request_ok Confidence)]. by apply evaluate_call_safe.
Qed.

(** The digest of a created record. *)
Definition created (resp : response) : option gostring :=
  match resp with
  | Initialized (InitLedger201JSONResponse r) => Some (ini_RecordDigest r)
  | Accepted (AcceptEndorsement201JSONResponse r)
  | Revoked (RevokeEndorsement201JSONResponse r) => Some (adm_RecordDigest r)
  | _ => None
  end.

Lemma returned_digest t P r :
  admission.returned t P r ->
  exists saved, ledgerstore.stored t saved /\ rec_recordDigest saved = rec_recordDigest r.
Proof.
  intros (built & saved & _ & Hb & [Hin Hs] & Hsame & [-> | ->]); exists saved; [|done].
  split; [done|]. destruct Hsame as [->|[_ Hc]]; [done|].
  destruct Hb as (_ & _ & _ & _ & Db & _), Hs as (_ & _ & _ & _ & Ds & _). rewrite Db, Ds. exact Hc.
Qed.

Lemma created_stored t resp dg :
  truthful t resp -> created resp = Some dg ->
  exists saved, ledgerstore.stored t saved /\ dg = EncodeToString (arr_list (rec_recordDigest saved)).
Proof.
  destruct resp as [r|r|r|r|r|r|r]; destruct r; cbn; try done.
  - intros (id & pl & rec & _ & Hr & ->) [= <-].
    destruct (returned_digest _ _ _ Hr) as (sv & ? & Hd). exists sv. by rewrite Hd.
  - intros (id & pl & rec & _ & Hr & ->) [= <-].
    destruct (returned_digest _ _ _ Hr) as (sv & ? & Hd). exists sv. by rewrite Hd.
  - intros (id & rec & Hr & ->) [= <-].
    destruct (returned_digest _ _ _ Hr) as (sv & ? & Hd). exists sv. by rewrite Hd.
Qed.

(** *** Reading one record *)

Lemma parseHex32_Ok h d : parseHex32 h = Ok d <-> DecodeString h = Some (arr_list d).
Proof.
  unfold parseHex32. destruct (DecodeString h) as [b|]; [|done].
  destruct (Z.eqb_spec (len b) 32) as [Hb|Hb]; cbn [negb].
  - pose proof (copy_array_list 32 b ltac:(unfold len in Hb; lia)) as Hc. split.
    + intros [= <-]. by rewrite Hc.
    + intros [= Hd]. f_equal. apply array_eq. by rewrite Hc.
  - split; [done|]. intros [= Hd]. rewrite Hd, len_arr in Hb. done.
Qed.

Lemma parseHex32_Encode d : parseHex32 (EncodeToString (arr_list d)) = Ok d.
Proof. apply parseHex32_Ok, DecodeString_Encode. Qed.

Lemma select_stored t r :
  ledgerstore.store_ok t -> ledgerstore.stored t r ->
  select_record t (arr_list (rec_recordDigest r)) = Some (ledgerstore.row_of r).
Proof.
  intros Ht [Hin Hr]. destruct (select_record t (arr_list (rec_recordDigest r))) as [rw|] eqn:E.
  - f_equal. apply find_some in E as [Hin'%list_elem_of_In Hd%bool_decide_eq_true].
    eapply (NoDup_map_inj record_digest); [apply (ledgerstore.so_digests t Ht)|done..].
  - eapply find_none in E; [|by apply list_elem_of_In].
    by apply bool_decide_eq_false in E.
Qed.

Lemma run_Record env t d :
  ledgerstore.store_ok t ->
  (exists r, ledgerstore.stored t r /\ rec_recordDigest r = d /\
     run env (ledgerstore.Record d) t = (Ok r, t)) \/
  ((forall r, ledgerstore.stored t r -> rec_recordDigest r <> d) /\
     run env (ledgerstore.Record d) t = (fail ledgerstore.ErrRecordNotFound, t)).
Proof using CO.
  intros Ht. unfold ledgerstore.Record. cbn [run pbind ask respond].
  destruct (select_record t (arr_list d)) as [rw|] eqn:E.
  - left. destruct (ledgerstore.select_digest _ _ _ Ht E) as (r & -> & Hs & He).
    exists r. split_and!; [done..|]. cbn [no_rows run record_bytes ledgerstore.row_of].
    rewrite ledgerstore.validate_stored_ok by apply Hs. cbn [rbind run].
    by rewrite bool_decide_eq_true_2.
  - right. split; [|done]. intros r Hs <-. by rewrite (select_stored t r Ht Hs) in E.
Qed.

Lemma run_serve {R} env visitor (p : prog (gores R)) t :
  run env (outcome <-- p ;; Ret (finish visitor outcome)) t
    = (finish visitor (run env p t).1, (run env p t).2).
Proof. rewrite run_bind. by destruct (run env p t). Qed.

(** A JSON answer. *)
Definition json {R} (code : Z) (r : R) : gores (written R) :=
  Ok (MkWritten code "application/json" (inl r)).

Lemma run_GetRecord env s t h :
  ledgerstore.store_ok t -> srv_store s = Some tt ->
  exists w, run env (strict_GetRecord s h) t = (w, t) /\
  match parseHex32 h with
  | Err _ => w = json 404 (GetRecord404JSONResponse
      (error_response "invalid record_digest: must be 32-byte hex"))
  | Ok d =>
      (exists r, ledgerstore.stored t r /\ rec_recordDigest r = d /\
         w = json 200 (GetRecord200JSONResponse (record_response d r))) \/
      ((forall r, ledgerstore.stored t r -> rec_recordDigest r <> d) /\
         w = json 404 (GetRecord404JSONResponse (error_response "record not found")))
  end.
Proof using CO.
  intros Ht Hs. unfold strict_GetRecord. rewrite run_serve. unfold GetRecord. rewrite Hs.
  destruct (parseHex32 h) as [d|[err|msg]] eqn:Hp; cbn [guard run fst snd].
  - rewrite run_bind. destruct (run_Record env t d Ht) as [(r & Hst & Hd & ->)|[Hn ->]].
    + eexists. split; [done|]. left. by exists r.
    + eexists. split; [done|]. by right.
  - by eexists.
  - exfalso. unfold parseHex32 in Hp. repeat case_match; done.
Qed.

Lemma run_GetLedgerHead env s t ledgerId :
  srv_store s = Some tt ->
  match parseHex32 ledgerId with
  | Err _ => run env (strict_GetLedgerHead s ledgerId) t =
      (json 404 (GetLedgerHead404JSONResponse
         (error_response "invalid ledger_id: must be 32-byte hex")), t)
  | Ok id => forall rs, ledgerstore.store_ok t -> ledgerstore.ledger_chain t (arr_list id) rs ->
      run env (strict_GetLedgerHead s ledgerId) t =
        (if cs_initialized (head_state rs)
         then json 200 (GetLedgerHead200JSONResponse (head_response id (head_state rs)))
         else json 404 (GetLedgerHead404JSONResponse
                (error_response "ledger not found or uninitialized")), t)
  end.
Proof using CO.
  intros Hs. unfold strict_GetLedgerHead. rewrite run_serve. unfold GetLedgerHead. rewrite Hs.
  destruct (parseHex32 ledgerId) as [id|[err|msg]] eqn:Hp; cbn [guard].
  - intros rs Ht Hc. unfold pbind_ok. rewrite run_bind, (ledgerstore.run_Head env t id rs Ht Hc).
    by destruct (cs_initialized (head_state rs)).
  - done.
  - exfalso. unfold parseHex32 in Hp. repeat case_match; done.
Qed.

(** ** One request among others *)

(** The payloads of request bodies. *)
Definition accept_payload (body : AcceptEndorsementRequest) :
    gores endorsementv1.EndorsementAcceptedPayload :=
  proposer <~ parseHexPublicKey (acc_ProposerPublicKeyHex body) ;;
  subject <~ parseHexPublicKey (acc_SubjectPublicKeyHex body) ;;
  claim <~ decode_hex (acc_ClaimBodyHex body) ;;
  proposerSig <~ decode_hex (acc_ProposerSignatureHex body) ;;
  subjectSig <~ decode_hex (acc_SubjectSignatureHex body) ;;
  endorsementv1.NewAcceptedPayload (Some proposer) (Some subject) (acc_Topic body) claim
    (go_uint64 (acc_ProposedAtUnixMs body)) proposerSig
    (go_uint64 (acc_AcceptedAtUnixMs body)) subjectSig.

Definition revoke_payload (body : RevokeEndorsementRequest) :
    gores endorsementv1.EndorsementRevokedPayload :=
  target <~ parseHex32 (rev_TargetRecordDigest body) ;;
  revoker <~ parseHexPublicKey (rev_RevokerPublicKeyHex body) ;;
  sig <~ decode_hex (rev_RevokerSignatureHex body) ;;
  endorsementv1.NewRevokedPayload target (Some revoker) (go_uint64 (rev_Role body))
    (go_uint64 (rev_RevokedAtUnixMs body)) (default [] (rev_Reason body)) sig.

(** The requests to the ledger operations, with the path parameter as it came in
    and the outcome of decoding the body. *)
Inductive ledger_request :=
  | ToInit (raw : gostring)
  | ToHead (raw : gostring)
  | ToRecord (raw : gostring)
  | ToAccept (raw : gostring) (body : result goerror AcceptEndorsementRequest)
  | ToRevoke (raw : gostring) (body : result goerror RevokeEndorsementRequest).

Definition ledger_program (s : Server) (req : ledger_request) : prog (option (gores (written response))) :=
  match req with
  | ToInit raw => serve Initialized (wrapper_InitLedger s raw)
  | ToHead raw => serve LedgerHead (wrapper_GetLedgerHead s raw)
  | ToRecord raw => serve RecordRead (wrapper_GetRecord s raw)
  | ToAccept raw body => serve Accepted (wrapper_AcceptEndorsement s raw body)
  | ToRevoke raw body => serve Revoked (wrapper_RevokeEndorsement s raw body)
  end.

Definition reads (req : ledger_request) : bool :=
  match req with ToHead _ | ToRecord _ => true | _ => false end.

Definition raw_parameter (req : ledger_request) : gostring :=
  match req with ToInit raw | ToHead raw | ToRecord raw | ToAccept raw _ | ToRevoke raw _ => raw end.

Lemma ledger_program_call s req : server_ok s -> http_call (ledger_program s req).
Proof. intros Hs. destruct req; by constructor. Qed.

(** What is written: JSON or plain text. *)
Definition writes (w : written response) (code : Z) (resp : response) : Prop :=
  w = MkWritten code "application/json" (inl resp).

Definition writes_text (w : written response) (code : Z) (text : string) : Prop :=
  w = MkWritten code "text/plain; charset=utf-8" (inr text).

Definition refusal (text : string) : ErrorResponse := MkErrorResponse (Text text).

(** The answers to a request that began on [t0] and was answered on [t1], with
    the bound path parameter. *)
Section Answers.
Context (s : Server) (param : gostring) (t0 t1 : table) (w : written response).

Definition init_answer : Prop :=
  match srv_admission s, parseHex32 param with
  | None, _ => writes w 400 (Initialized (InitLedger400JSONResponse
      (refusal "admission service unavailable")))
  | Some _, Err _ => writes w 400 (Initialized (InitLedger400JSONResponse
      (refusal "invalid ledger_id: must be 32-byte hex")))
  | Some _, Ok id =>
      (exists r, admission.returned t1 (fun r => is_genesis r /\ ev_ledgerID (rec_event r) = id) r /\
         writes w 201 (Initialized (InitLedger201JSONResponse {|
           ini_AdmittedAtUnixMs := go_int (ev_admittedAtUnixMS (rec_event r));
           ini_LedgerId := EncodeToString (arr_list id);
           ini_RecordDigest := EncodeToString (arr_list (rec_recordDigest r));
           ini_SequenceNumber := go_int (ev_sequence (rec_event r)) |}))) \/
      (admission.taken t1 id /\
         writes w 409 (Initialized (InitLedger409JSONResponse (refusal "ledger already initialized")))) \/
      writes_text w 500 internalServerErrorMessage
  end.

Definition head_answer : Prop :=
  match srv_store s, parseHex32 param with
  | None, _ => writes w 404 (LedgerHead (GetLedgerHead404JSONResponse
      (refusal "ledger store unavailable")))
  | Some _, Err _ => writes w 404 (LedgerHead (GetLedgerHead404JSONResponse
      (refusal "invalid ledger_id: must be 32-byte hex")))
  | Some _, Ok id =>
      (exists t rs h, t0 `prefix_of` t /\ t `prefix_of` t1 /\
         ledgerstore.ledger_chain t (arr_list id) rs /\ last rs = Some h /\
         writes w 200 (LedgerHead (GetLedgerHead200JSONResponse {|
           hd_LedgerId := EncodeToString (arr_list id);
           hd_RecordDigest := EncodeToString (arr_list (rec_recordDigest h));
           hd_SequenceNumber := go_int (len rs) |}))) \/
      (ledger_rows t0 (arr_list id) = [] /\
         writes w 404 (LedgerHead (GetLedgerHead404JSONResponse
           (refusal "ledger not found or uninitialized")))) \/
      writes_text w 500 internalServerErrorMessage
  end.

Definition record_answer : Prop :=
  match srv_store s, parseHex32 param with
  | None, _ => writes w 404 (RecordRead (GetRecord404JSONResponse (refusal "ledger store unavailable")))
  | Some _, Err _ => writes w 404 (RecordRead (GetRecord404JSONResponse
      (refusal "invalid record_digest: must be 32-byte hex")))
  | Some _, Ok d =>
      (exists r, ledgerstore.stored t1 r /\ rec_recordDigest r = d /\
         writes w 200 (RecordRead (GetRecord200JSONResponse {|
           rc_AdmittedAtUnixMs := go_int (ev_admittedAtUnixMS (rec_event r));
           rc_EventKind := go_int (ev_kind (rec_event r));
           rc_LedgerId := EncodeToString (arr_list (ev_ledgerID (rec_event r)));
           rc_PayloadVersion := go_int (ev_payloadVersion (rec_event r));
           rc_PreviousRecordDigest :=
             let '(previous, present) := PreviousRecordDigest (rec_event r) in
             if present then Some (EncodeToString (arr_list previous)) else None;
           rc_RecordBytesHex := EncodeToString (rec_bytes r);
           rc_RecordDigest := EncodeToString (arr_list d);
           rc_SequenceNumber := go_int (ev_sequence (rec_event r));
           rc_SignerKeyReference := rec_signerKeyReference r |}))) \/
      ((forall r, ledgerstore.stored t0 r -> rec_recordDigest r <> d) /\
         writes w 404 (RecordRead (GetRecord404JSONResponse (refusal "record not found")))) \/
      writes_text w 500 internalServerErrorMessage
  end.

(** The answer for an admitted record. *)
Definition admitted (id : LedgerID) (r : StructuralRecord) : AdmitResponse := {|
  adm_EventKind := go_int (ev_kind (rec_event r));
  adm_LedgerId := EncodeToString (arr_list id);
  adm_RecordDigest := EncodeToString (arr_list (rec_recordDigest r));
  adm_SequenceNumber := go_int (ev_sequence (rec_event r))
|}.

Definition accept_answer (body : result goerror AcceptEndorsementRequest) : Prop :=
  match body with
  | Err _ => writes_text w 400 invalidRequestMessage
  | Ok body =>
      (exists id p r, parseHex32 param = Ok id /\ accept_payload body = Ok p /\
         endorsementv1.AcceptedPayload_Verify p = Ok tt /\
         admission.returned t1 (admission.admits (admission.endorsement_request id p)) r /\
         writes w 201 (Accepted (AcceptEndorsement201JSONResponse (admitted id r)))) \/
      exists message, writes w 400 (Accepted (AcceptEndorsement400JSONResponse message))
  end.

Definition revoke_answer (body : result goerror RevokeEndorsementRequest) : Prop :=
  match body with
  | Err _ => writes_text w 400 invalidRequestMessage
  | Ok body =>
      (exists id p r, parseHex32 param = Ok id /\ revoke_payload body = Ok p /\
         endorsementv1.RevokedPayload_Verify p = Ok tt /\
         admission.returned t1 (admission.admits (admission.revocation_request id p)) r /\
         writes w 201 (Revoked (RevokeEndorsement201JSONResponse (admitted id r)))) \/
      exists message, writes w 400 (Revoked (RevokeEndorsement400JSONResponse message))
  end.
End Answers.

Definition answered (s : Server) (req : ledger_request) (t0 t1 : table) (w : written response) : Prop :=
  match BindPath (raw_parameter req) with
  | Err _ => writes_text w 400 invalidRequestMessage
  | Ok param =>
      match req with
      | ToInit _ => init_answer s param t1 w
      | ToHead _ => head_answer s param t0 t1 w
      | ToRecord _ => record_answer s param t0 t1 w
      | ToAccept _ body => accept_answer param t1 w body
      | ToRevoke _ body => revoke_answer param t1 w body
      end
  end.

(** The signer's errors are not the program's. *)
Definition signer_outside (s : Server) : Prop :=
  forall svc, srv_admission s = Some svc -> signer.SignerOutside (admission.svc_signer svc).

(** What is promised of a finished call. *)
Definition promised (Q : table -> written response -> Prop) (t : table)
    (reply : option (gores (written response))) : Prop :=
  forall w, reply = Some (Ok w) -> Q t w.

(** The same of the outcome of a handler. *)
Definition handles {R} (f : R -> response) visitor (Q : table -> written response -> Prop) (t : table)
    (outcome : gores R) : Prop :=
  promised Q t (Some (omap_ok f (finish visitor outcome))).

Lemma strict_serves {R} class (f : R -> response) visitor Q (p : prog (gores R)) t :
  serves ledgerstore.store_ok class (handles f visitor Q) p t ->
  serves ledgerstore.store_ok class (promised Q) (serve f (outcome <-- p ;; Ret (finish visitor outcome))) t.
Proof. intros H. unfold serve. by do 2 apply serves_map. Qed.

Lemma text_serves {R} class (f : R -> response) (Q : table -> written response -> Prop) code text t :
  (forall t1, Q t1 (http_Error text code)) ->
  serves ledgerstore.store_ok class (promised Q) (serve f (Ret (Ok (http_Error text code)))) t.
Proof. intros H t1 _ _ w [= <-]. apply H. Qed.

(** An early return keeps the promise when its response does. *)
Lemma guard_serves {A R} class (f : R -> response) visitor Q (r : gores A) resp (k : A -> prog (gores R)) t :
  (forall t1 err, r = Err (Fail err) -> handles f visitor Q t1 (Ok (resp err))) ->
  (forall a, r = Ok a -> serves ledgerstore.store_ok class (handles f visitor Q) (k a) t) ->
  serves ledgerstore.store_ok class (handles f visitor Q) (guard r resp k) t.
Proof.
  intros He Hk. destruct r as [a|[err|msg]]; cbn [guard]; [by apply Hk| |].
  - intros t1 _ _. by apply He.
  - by intros t1 _ _ w.
Qed.

(** A failed handler is a bare 500. *)
Lemma handles_failed {R} (f : R -> response) visitor (Q : table -> written response -> Prop) t err :
  Q t (http_Error internalServerErrorMessage 500) -> handles f visitor Q t (fail err).
Proof. intros H w [= <-]. exact H. Qed.

Lemma parseHex32_no_panic h msg : parseHex32 h <> Err (Panic msg).
Proof. unfold parseHex32. by repeat case_match. Qed.

Lemma init_serves s param t :
  server_ok s -> signer_outside s -> ledgerstore.store_ok t ->
  serves ledgerstore.store_ok outside
    (handles Initialized VisitInitLedgerResponse (fun t1 w => init_answer s param t1 w))
    (InitLedger s param) t.
Proof using CO KO.
  intros Hs Hso Ht. unfold InitLedger, init_answer. destruct (srv_admission s) as [svc|] eqn:Es.
  2: { by intros t1 _ _ w [= <-]. }
  apply guard_serves; [by intros t1 err -> w [= <-]|]. intros id ->. pose proof (Hs svc Es).
  eapply serves_bind; [done|apply admission.InitLedger_serves; [done|by apply Hso|done]|].
  intros t1 [r|[err|msg]] _ Ht1 Hr; [..|by intros t2 _ _ w].
  - intros t2 Hp _ w [= <-]. left. exists r. split; [by eapply admission.returned_mono|done].
  - destruct (errors_Is err _) eqn:E; intros t2 Hp _.
    + intros w [= <-]. right. left. split; [|done]. eapply admission.taken_mono; [exact Hp|]. by apply Hr.
    + apply handles_failed. by right; right.
Qed.

(** The two reads, for any class of replies; [fault] is whether a 500 is
    allowed. *)
Lemma head_serves (class : reply_class) s param t (fault : Prop) :
  (forall (id : LedgerID) e, read_failure e -> class _ (QueryHead (arr_list id)) (Err e) -> fault) ->
  ledgerstore.store_ok t ->
  serves ledgerstore.store_ok class
    (handles LedgerHead VisitGetLedgerHeadResponse (fun t1 w =>
       head_answer s param t t1 w /\ (w_status w = 500 -> fault)))
    (GetLedgerHead s param) t.
Proof using CO.
  intros Hf Ht. unfold GetLedgerHead, head_answer. destruct (srv_store s) as [st|].
  2: { by intros t1 _ _ w [= <-]. }
  apply guard_serves; [by intros t1 err -> w [= <-]|]. intros id ->. unfold pbind_ok.
  eapply serves_bind; [done|apply (ledgerstore.Head_serves class)|].
  intros t1 [head|f] _ Ht1 Hr.
  - destruct Hr as [[-> Hrows]|(t2 & rs & h & Hp & Hp2 & Hc & Hl & ->)].
    + intros t3 _ _ w [= <-]. split; [by right; left|done].
    + destruct (ledgerstore.chain_last_stored _ _ _ _ Hc Hl) as [[_ Hok] _].
      rewrite ChainStateFromRecord_ok by done. intros t3 Hp3 _ w [= <-]. split; [|done]. left.
      exists t2, rs, h. split_and!; [done|by etrans|done|done|].
      by rewrite <- (chain_head_sequence _ _ _ _ Hc Hl).
  - destruct Hr as (e & -> & He & Hcl). intros t2 _ _. apply handles_failed.
    split; [by right; right|]. intros _. by eapply Hf.
Qed.

Lemma record_serves (class : reply_class) s param t (fault : Prop) :
  (forall (d : Digest) e, read_failure e -> class _ (QueryRecord (arr_list d)) (Err e) ->
     fault /\ errors_Is e ledgerstore.ErrRecordNotFound = false) ->
  ledgerstore.store_ok t ->
  serves ledgerstore.store_ok class
    (handles RecordRead VisitGetRecordResponse (fun t1 w =>
       record_answer s param t t1 w /\ (w_status w = 500 -> fault)))
    (GetRecord s param) t.
Proof using CO.
  intros Hf Ht. unfold GetRecord, record_answer. destruct (srv_store s) as [st|].
  2: { by intros t1 _ _ w [= <-]. }
  apply guard_serves; [by intros t1 err -> w [= <-]|]. intros d ->.
  eapply serves_bind; [done|apply (ledgerstore.Record_serves class)|].
  intros t1 [r|f] _ Ht1 Hr.
  - destruct Hr as [Hst Hd]. intros t2 Hp _ w [= <-]. split; [|done]. left. exists r.
    split_and!; [by eapply ledgerstore.stored_mono|done|done].
  - destruct Hr as [[-> Hn]|(e & -> & He & Hcl)].
    + intros t2 _ _ w [= <-]. split; [by right; left|done].
    + destruct (Hf d e He Hcl) as [Hfault Hnot].
      assert (errors_Is (Wrapped "read ledger record" [] e) ledgerstore.ErrRecordNotFound = false) as ->
        by (cbn; by rewrite Hnot).
      intros t2 _ _. apply handles_failed. by split; [right; right|].
Qed.

Lemma accept_serves (class : reply_class) s param body t :
  server_ok s -> ledgerstore.store_ok t ->
  serves ledgerstore.store_ok class
    (handles Accepted VisitAcceptEndorsementResponse (fun t1 w => accept_answer param t1 w (Ok body)))
    (AcceptEndorsement s param (Some body)) t.
Proof using CO KO.
  intros Hs Ht. unfold AcceptEndorsement. destruct (srv_admission s) as [svc|] eqn:Es.
  2: { intros t1 _ _ w [= <-]. right. by eexists. }
  apply guard_serves; [intros t1 err _ w [= <-]; right; by eexists|]. intros id Hid.
  do 6 (apply guard_serves; [intros t1 err _ w [= <-]; right; by eexists|]; intros ? ?).
  match goal with H : endorsementv1.NewAcceptedPayload _ _ _ _ _ _ _ _ = Ok ?p |- _ =>
    rename H into Hp; assert (Hpl : accept_payload body = Ok p) end.
  { unfold accept_payload. by repeat (match goal with H : _ = Ok _ |- _ => rewrite H end; cbn [rbind]). }
  pose proof (endorsementv1.NewAcceptedPayload_Ok _ _ _ _ _ _ _ _ _ Hp) as [-> _].
  eapply serves_bind; [done|apply safe_serves, AdmitEndorsement_safe; [by apply Hs| |done]|].
  { split_and!; cbn; [by eapply parsed_key_ok..|apply u64_range|apply u64_range]. }
  intros t1 res _ Ht1 Hr. apply guard_serves; [intros t2 err _ w [= <-]; right; by eexists|].
  intros r ->. destruct Hr as [Hv Hr]. intros t2 Hp2 _ w [= <-]. left.
  eexists id, _, r. split_and!; [done|done|exact Hv|by eapply admission.returned_mono|done].
Qed.

Lemma revoke_serves (class : reply_class) s param body t :
  server_ok s -> ledgerstore.store_ok t ->
  serves ledgerstore.store_ok class
    (handles Revoked VisitRevokeEndorsementResponse (fun t1 w => revoke_answer param t1 w (Ok body)))
    (RevokeEndorsement s param (Some body)) t.
Proof using CO KO.
  intros Hs Ht. unfold RevokeEndorsement. destruct (srv_admission s) as [svc|] eqn:Es.
  2: { intros t1 _ _ w [= <-]. right. by eexists. }
  apply guard_serves; [intros t1 err _ w [= <-]; right; by eexists|]. intros id Hid.
  do 4 (apply guard_serves; [intros t1 err _ w [= <-]; right; by eexists|]; intros ? ?).
  match goal with H : endorsementv1.NewRevokedPayload _ _ _ _ _ _ = Ok ?p |- _ =>
    rename H into Hp; assert (Hpl : revoke_payload body = Ok p) end.
  { unfold revoke_payload. by repeat (match goal with H : _ = Ok _ |- _ => rewrite H end; cbn [rbind]). }
  pose proof (endorsementv1.NewRevokedPayload_Ok _ _ _ _ _ _ _ Hp) as [-> _].
  eapply serves_bind; [done|apply safe_serves, AdmitRevocation_safe; [by apply Hs| |done]|].
  { split; cbn; [by eapply parsed_key_ok|apply u64_range]. }
  intros t1 res _ Ht1 Hr. apply guard_serves; [intros t2 err _ w [= <-]; right; by eexists|].
  intros r ->. destruct Hr as [Hv Hr]. intros t2 Hp2 _ w [= <-]. left.
  eexists id, _, r. split_and!; [done|done|exact Hv|by eapply admission.returned_mono|done].
Qed.

Lemma handles_weaken {R} class (f : R -> response) visitor (Q P : table -> written response -> Prop) p t :
  serves ledgerstore.store_ok class (handles f visitor Q) p t ->
  (forall t1 w, Q t1 w -> P t1 w) -> serves ledgerstore.store_ok class (handles f visitor P) p t.
Proof. intros H HQ. eapply serves_weaken; [|exact H]. intros t1 o _ _ Ho w Hw. by apply HQ, Ho. Qed.

Lemma ledger_program_serves s req t :
  server_ok s -> signer_outside s -> ledgerstore.store_ok t ->
  serves ledgerstore.store_ok outside (promised (answered s req t)) (ledger_program s req) t.
Proof using CO KO.
  intros Hs Hso Ht. unfold answered, ledger_program.
  destruct req as [raw|raw|raw|raw body|raw body]; cbn [raw_parameter];
    cbv [wrapper_InitLedger wrapper_GetLedgerHead wrapper_GetRecord wrapper_AcceptEndorsement
      wrapper_RevokeEndorsement]; (destruct (BindPath raw) as [param|err]; [|by apply text_serves]).
  - by apply strict_serves, init_serves.
  - apply strict_serves. eapply handles_weaken; [by apply (head_serves outside s param t True)|]. by intros t1 w [? _].
  - apply strict_serves. eapply handles_weaken; [apply (record_serves outside s param t True)|].
    + intros d e _ Hout. split; [done|]. by apply (Hout e eq_refl).
    + done.
    + by intros t1 w [? _].
  - destruct body as [body|err]; [|by apply text_serves]. by apply strict_serves, accept_serves.
  - destruct body as [body|err]; [|by apply text_serves]. by apply strict_serves, revoke_serves.
Qed.

Lemma reads_no_fault s req t :
  reads req = true -> ledgerstore.store_ok t ->
  serves ledgerstore.store_ok faultless (promised (fun _ w => w_status w <> 500)) (ledger_program s req) t.
Proof using CO.
  intros Hreads Ht. unfold ledger_program.
  destruct req as [raw|raw|raw|raw body|raw body]; try done;
    cbv [wrapper_GetLedgerHead wrapper_GetRecord]; (destruct (BindPath raw) as [param|err]; [|by apply text_serves]).
  - apply strict_serves. eapply handles_weaken; [apply (head_serves faultless s param t False)|].
    + intros id e He Hc. by rewrite (Hc e eq_refl) in He.
    + done.
    + by intros t1 w [_ ?].
  - apply strict_serves. eapply handles_weaken; [apply (record_serves faultless s param t False)|].
    + intros d e He Hc. by rewrite (Hc e eq_refl) in He.
    + done.
    + by intros t1 w [_ ?].
Qed.

(** ** Properties *)

(** Reading the head and a record, on every branch. The head answer is that
    of the last record of the ledger's chain, with the length of the chain as its
    sequence, or 404 when the chain is empty; the record answer is the stored
    record with that digest, or 404 when there is none; identifiers that are not
    32 bytes of hex are 404. Nothing is written to the database. *)
Theorem http_reads env s t id rs ledgerId digest :
  ledgerstore.store_ok t -> srv_store s = Some tt -> ledgerstore.ledger_chain t (arr_list id) rs ->
  (parseHex32 ledgerId = Ok id -> run env (strict_GetLedgerHead s ledgerId) t =
     (match last rs with
      | None => json 404 (GetLedgerHead404JSONResponse
                  (error_response "ledger not found or uninitialized"))
      | Some h => json 200 (GetLedgerHead200JSONResponse {|
          hd_LedgerId := EncodeToString (arr_list id);
          hd_RecordDigest := EncodeToString (arr_list (rec_recordDigest h));
          hd_SequenceNumber := go_int (len rs) |})
      end, t)) /\
  (is_ok (parseHex32 ledgerId) = false -> run env (strict_GetLedgerHead s ledgerId) t =
     (json 404 (GetLedgerHead404JSONResponse
        (error_response "invalid ledger_id: must be 32-byte hex")), t)) /\
  (forall r, ledgerstore.stored t r -> parseHex32 digest = Ok (rec_recordDigest r) ->
     run env (strict_GetRecord s digest) t =
       (json 200 (GetRecord200JSONResponse (record_response (rec_recordDigest r) r)), t)) /\
  (forall d, parseHex32 digest = Ok d -> (forall r, ledgerstore.stored t r -> rec_recordDigest r <> d) ->
     run env (strict_GetRecord s digest) t =
       (json 404 (GetRecord404JSONResponse (error_response "record not found")), t)) /\
  (is_ok (parseHex32 digest) = false -> run env (strict_GetRecord s digest) t =
     (json 404 (GetRecord404JSONResponse
        (error_response "invalid record_digest: must be 32-byte hex")), t)).
Proof.
  intros Ht Hs Hc. destruct (run_GetRecord env s t digest Ht Hs) as (w & Hw & Hcase).
  pose proof (run_GetLedgerHead env s t ledgerId Hs) as Hh. rewrite Hw. split_and!.
  - intros Hid. rewrite Hid in Hh. rewrite (Hh rs Ht Hc). unfold head_state.
    destruct (last rs) as [h|] eqn:Hl; [|done].
    rewrite <- (chain_head_sequence _ _ _ _ Hc Hl).
    destruct (ledgerstore.chain_last_stored _ _ _ _ Hc Hl) as [[_ Hok] _].
    by rewrite ChainStateFromRecord_ok.
  - intros Hid. destruct (parseHex32 ledgerId); [done|exact Hh].
  - intros r Hst Hd. rewrite Hd in Hcase. destruct Hcase as [(r' & [Hin' Hr'] & He & ->)|[Hn _]];
      [|by destruct (Hn r Hst)].
    assert (r' = r) as ->; [|done]. destruct Hst as [Hin Hr]. apply ledgerstore.row_of_inj; [done..|].
    eapply (NoDup_map_inj record_digest); [apply (ledgerstore.so_digests t Ht)|done..|].
    cbn. by rewrite He.
  - intros d Hd Hn. rewrite Hd in Hcase. destruct Hcase as [(r & Hst & He & _)|[_ ->]]; [|done].
    by destruct (Hn r Hst).
  - intros Hd. destruct (parseHex32 digest); [done|]. by rewrite Hcase.
Qed.

(** The API keeps every ledger a valid chain. In every state reachable by
    any interleaving of any number of requests to the seven operations, with
    arbitrary path parameters and bodies, lost connections, ambiguous commits, failing signers and
    arbitrary clocks, the rows of each ledger are the records of a chain that
    validation accepts from the empty state. *)
Theorem http_chain_invariant t ps (id : LedgerID) :
  reachable http_call (t, ps) ->
  exists rs, ledger_rows t (arr_list id) = map ledgerstore.row_of rs /\
    accepted rs /\ advance zeroChainState rs = Some (head_state rs).
Proof.
  intros Hr. destruct (reachable_safe ledgerstore.store_ok http_call _ ledgerstore.store_ok_nil
    http_call_safe t ps Hr) as [Ht _].
  destruct (ledgerstore.so_chain t Ht (arr_list id)) as (rs & Hrows & Hok & Hv).
  exists rs. split_and!; [done|by apply admission.chain_accepted|by apply advance_iff].
Qed.

(** C12: every answer to a ledger operation is true of the database. Let a
    request to initialize a ledger, read its head, read a record, or accept or
    revoke an endorsement start when the table is [t], beside any number of
    other requests in any state, and let it have written [w] when the table is
    [t'], after any interleaving with those requests and with new ones. Whatever
    the replies to the others, if the errors of the database and the signer
    replied to this request are none of the program's own, then [w] is
    [answered]:
    - 201 for a genesis, of the ledger in the path, that is stored in [t'] (up to
      a collision of SHA-256), or 409 only if that ledger has a record in [t']
      (or another record collides with its genesis);
    - 200 for a head only if it is the last record of that ledger's chain on a
      table between [t] and [t'], and "not found" only if the ledger was empty in
      [t];
    - 200 for a record only if a record with the digest in the path is stored in
      [t'], with the fields of that record, and "not found" only if none was
      stored in [t];
    - 201 for an endorsement or revocation only if the body decodes to a payload
      whose signatures verify and a record for that payload on the ledger in the
      path is stored in [t'] (up to a collision); any other answer is a 400,
      whose JSON text may be that of an internal error and is not constrained;
    - malformed parameters and bodies get the fixed refusals, and what remains is
      the bare 500.
    A head or record request gets no 500 at all if its own query does not fail. *)
Theorem http_answers_truthful t ps s req t' ps' w :
  server_ok s -> signer_outside s -> reachable http_call (t, ps) ->
  ps' !! length ps = Some (Ret (Some (Ok w))) ->
  (rtc (beside outside http_call (length ps)) (t, ps ++ [ledger_program s req]) (t', ps') ->
   answered s req t t' w) /\
  (rtc (beside faultless http_call (length ps)) (t, ps ++ [ledger_program s req]) (t', ps') ->
   reads req = true -> w_status w <> 500).
Proof.
  intros Hs Hso Hr Hw.
  destruct (reachable_safe ledgerstore.store_ok http_call _ ledgerstore.store_ok_nil
    http_call_safe t ps Hr) as [Ht _].
  pose proof (rtc_r _ _ _ Hr (step_call http_call t ps _ (ledger_program_call s req Hs))) as Hr'.
  assert (Hi : (ps ++ [ledger_program s req]) !! length ps = Some (ledger_program s req))
    by by apply list_lookup_middle.
  split; intros Hsteps.
  - exact (beside_result ledgerstore.store_ok outside http_call _ _ ledgerstore.store_ok_nil
      http_call_safe _ _ _ _ _ _ _ Hr' Hi (ledger_program_serves s req t Hs Hso Ht) Hsteps Hw w eq_refl).
  - intros Hreads. exact (beside_result ledgerstore.store_ok faultless http_call _ _
      ledgerstore.store_ok_nil http_call_safe _ _ _ _ _ _ _ Hr' Hi
      (reads_no_fault s req t Hreads Ht) Hsteps Hw w eq_refl).
Qed.

(** What was created can be read. After a 201 for a genesis, an
    endorsement or a revocation, at any later time, requesting the record of
    the digest in that answer gives a 200 for a stored record of that digest. *)
Theorem http_created_readable env s t ps i w resp dg t' ps' :
  srv_store s = Some tt ->
  reachable http_call (t, ps) -> ps !! i = Some (Ret (Some (Ok w))) ->
  w_body w = inl resp -> created resp = Some dg ->
  rtc (sys_step http_call) (t, ps) (t', ps') ->
  exists r, ledgerstore.stored t' r /\ rc_RecordDigest (record_response (rec_recordDigest r) r) = dg /\
    run env (strict_GetRecord s dg) t'
      = (json 200 (GetRecord200JSONResponse (record_response (rec_recordDigest r) r)), t').
Proof.
  intros Hs Hr Hi Hb Hc Hsteps.
  pose proof (reachable_result ledgerstore.store_ok http_call _ ledgerstore.store_ok_nil
    http_call_safe t ps i _ Hr Hi) as Hw. cbn in Hw. unfold written_ok in Hw. rewrite Hb in Hw.
  destruct Hw as (_ & _ & Htr).
  pose proof (reachable_append_only ledgerstore.store_ok http_call _
    ledgerstore.store_ok_nil http_call_safe _ _ Hr Hsteps) as Hpre.
  destruct (created_stored t' resp dg (truthful_mono _ _ _ Hpre Htr) Hc) as (saved & Hst & ->).
  destruct (reachable_safe ledgerstore.store_ok http_call _ ledgerstore.store_ok_nil
    http_call_safe t' ps' (transitivity Hr Hsteps)) as [Ht _].
  destruct (run_GetRecord env s t' (EncodeToString (arr_list (rec_recordDigest saved))) Ht Hs)
    as (w' & -> & Hw'). rewrite parseHex32_Encode in Hw'.
  destruct Hw' as [(r & Hst' & Hd & ->)|[Hn _]]; [|by destruct (Hn saved)].
  exists r. rewrite Hd. split_and!; [done|done|done].
Qed.
End System.

(** ** The graph of a replayed ledger *)

Section Replayed.
Context {C : Cbor} {CO : CborOk C} {K : Ecdsa} {KO : EcdsaOk K}.

(** The edges of a projected log have distinct sequences, up to the last. *)
Definition log_ok (last : Z) (log : list AttestationEdge) : Prop :=
  NoDup (map e_sequence log) /\ Forall (fun e => e_sequence e <= last) log.

Lemma log_ok_mono last last' log : last <= last' -> log_ok last log -> log_ok last' log.
Proof. intros Hl [H1 H2]. split; [done|]. eapply Forall_impl; [exact H2|]. cbn. lia. Qed.

Lemma log_revoke_sequences log d k role at_ rd reason log' :
  log_revoke log d k role at_ rd reason = Ok log' -> map e_sequence log' = map e_sequence log.
Proof.
  unfold log_revoke. intros H. repeat case_match; try done. inv_steps. injection H as <-.
  rewrite map_map. apply map_ext. intros e. by case_match.
Qed.

Lemma project_record_ok id last log r last' log' :
  is_u64 last -> 1 <= ev_sequence (rec_event r) < two64 -> log_ok last log ->
  projector.project_record id last log r = Ok (last', log') ->
  last' = last + 1 /\ log_ok last' log' /\ (length log' <= S (length log))%nat.
Proof.
  intros Hl Hs Hok H. unfold projector.project_record in H.
  rewrite <- projector.record_edge_spec, <- projector.record_revocation_spec in H. destruct (negb _); [done|].
  destruct (projector.check_sequence _ _) as [[]|] eqn:Hc; [|done].
  rewrite (projector.check_sequence_iff _ _ Hl Hs) in Hc. cbn [rbind] in H. rewrite Hc in H.
  assert (Hok' : log_ok (last + 1) log) by (eapply log_ok_mono; [|done]; lia).
  destruct (_ =? EventKindEndorsementAccepted).
  { destruct (projector.record_edge r) as [e|] eqn:He; [|done]. cbn [rbind] in H.
    case_match; [done|]. injection H as <- <-.
    assert (e_sequence e = last + 1) as Hes
      by (unfold projector.record_edge in He; inv_steps; by injection He as <-).
    split_and!; [done| |rewrite length_app; cbn; lia]. destruct Hok as [Hnd Hf]. split.
    - rewrite map_app. apply NoDup_app. split_and!; [done| |apply NoDup_singleton].
      intros q (e' & -> & Hin)%list_elem_of_fmap Hq%list_elem_of_singleton.
      rewrite Forall_forall in Hf. specialize (Hf e' Hin). lia.
    - apply Forall_app. split; [apply Hok'|]. constructor; [lia|constructor]. }
  destruct (_ =? EventKindEndorsementRevoked).
  { destruct (projector.record_revocation r) as [[pl k]|]; [|done]. cbn [rbind] in H.
    destruct (log_revoke _ _ _ _ _ _ _) as [log2|] eqn:Hr; [|done]. injection H as <- <-.
    apply log_revoke_sequences in Hr. split_and!; [done| |].
    - destruct Hok' as [Hnd Hf]. split; [by rewrite Hr|].
      rewrite <- (Forall_map e_sequence (fun q => q <= last + 1)) in Hf |- *. by rewrite Hr.
    - apply (f_equal length) in Hr. rewrite !length_map in Hr. lia. }
  injection H as <- <-. split_and!; [done|done|lia].
Qed.

Lemma project_all_ok id last log total rs last' log' total' res :
  projector.in_sequence last rs -> log_ok last log ->
  projector.project_all id last log total rs = (last', log', total', res) ->
  log_ok last' log' /\ (length log' <= length log + length rs)%nat /\
  (res = Ok tt -> last' = last + len rs).
Proof.
  revert last log total. induction rs as [|r rs IH]; intros last log total (H0 & H1 & H2) Hok H; cbn in H.
  { injection H as <- <- <- <-. split_and!; [done|cbn; lia|]. intros _. unfold len. cbn. lia. }
  apply Forall_cons in H2 as [Hr H2]. rewrite len_cons in *. pose proof (len_nonneg rs).
  destruct (projector.project_record id last log r) as [[last1 log1]|] eqn:Hp.
  - apply project_record_ok in Hp as (-> & Hok1 & Hlen); [|clia|done..].
    apply IH in H as (? & ? & Hl); [|split_and!; [lia|lia|done]|done].
    split_and!; [done|cbn; lia|]. intros Hres. rewrite Hl by done. lia.
  - injection H as <- <- <- <-. split_and!; [done|cbn; lia|done].
Qed.

(** Few identities. *)
Lemma size_list_to_set (l : list IdentityKey) : (size (list_to_set l : gset IdentityKey) <= length l)%nat.
Proof.
  induction l as [|k l IH]; cbn [list_to_set length]; [by rewrite size_empty|].
  pose proof (size_union_alt ({[k]} : gset IdentityKey) (list_to_set l)) as Hu.
  change (list_to_set (k :: l)) with ({[k]} ∪ list_to_set l : gset IdentityKey).
  rewrite Hu, size_singleton.
  assert (size ((list_to_set l : gset IdentityKey) ∖ {[k]}) <= size (list_to_set l : gset IdentityKey))%nat
    by (apply subseteq_size; set_solver). lia.
Qed.

Lemma log_nodes_size L : (size (evaluator_spec.log_nodes L) <= 2 * length L)%nat.
Proof.
  unfold evaluator_spec.log_nodes. rewrite size_union_alt.
  assert (forall X Y : gset IdentityKey, size (X ∖ Y) <= size X)%nat as Hs
    by (intros X Y; apply subseteq_size; set_solver).
  match goal with |- (_ + size (?X ∖ ?Y) <= _)%nat => specialize (Hs X Y) end.
  pose proof (size_list_to_set (map (fun x => e_proposer x.2) L)) as H1.
  pose proof (size_list_to_set (map (fun x => e_subject x.2) L)) as H2.
  rewrite length_map in H1, H2. lia.
Qed.

(** A replay leaves a graph that can be evaluated. *)
Lemma replayed env t (id : LedgerID) rs fuel :
  ledgerstore.ledger_chain t (arr_list id) rs -> len rs < MaxUint64 -> (2 * length rs < fuel)%nat ->
  let '(last, log, total, res) := projector.project_all id 0 [] 0 rs in
  exists p L, run env (projector.ReplayFromStore fuel (projector.NewProjector id) (Some tt) 256) t
      = (Some (p, total, res), t) /\
    evaluator_spec.sequenced (projector.p_heap p) (projector.p_graph p) L /\ map snd L = log /\
    (size (g_nodes (projector.p_graph p)) < fuel)%nat /\
    (res = Ok tt -> g_lastSequence (projector.p_graph p) = len rs).
Proof using CO KO.
  intros Hc Hlen Hfuel. pose proof (projector.chain_in_sequence t id rs Hc Hlen) as Hseq.
  pose proof (projector.batch_simulation (projector.NewProjector id) id 0 [] 0 rs
    (projector.shows_new id) Hseq) as Hsim.
  pose proof (projector.run_replay_loop env t id rs fuel 0 _ [] 0 256 Hc Hlen ltac:(lia)
    (projector.shows_new id) ltac:(lia) ltac:(lia)) as Hrun. rewrite drop_0 in Hrun.
  destruct (projector.project_all id 0 [] 0 rs) as [[[last log] total] res] eqn:Hp.
  apply project_all_ok in Hp as ([Hnd _] & Hln & Hlast);
    [|done|split; [apply NoDup_nil_2|constructor]]. cbn in Hln.
  destruct (projector.apply_batch _ _ rs) as [[p n] res'].
  destruct Hsim as ((L & R & Hlog & Hl & _) & -> & -> & _).
  exists p, L. split; [exact Hrun|].
  rewrite <- Hlog in Hnd, Hln. rewrite map_map in Hnd. rewrite length_map in Hln.
  split_and!; [by split|done| |].
  - rewrite (rp_nodes _ _ _ R). fold (evaluator_spec.log_nodes L).
    pose proof (log_nodes_size L). lia.
  - intros ->. rewrite Hl. by apply Hlast.
Qed.
End Replayed.

(** ** Confidence over HTTP *)

Section Confidence.
Context {C : Cbor} {CO : CborOk C} {K : Ecdsa} {KO : EcdsaOk K} {U : Unicode}.

(** JSON has no NaN. *)
Record json_numbers (body : EvaluateConfidenceRequest) : Prop := {
  jn_weights : Forall (fun root => is_NaN (Weight root) = false) (ev_TrustRoots body);
  jn_decay d : ev_DecayFactor body = Some d -> is_NaN d = false
}.

Lemma parse_roots_values (P : float64 -> Prop) roots m m' :
  parse_roots m roots = Ok m' -> (forall k w, m !! k = Some w -> P w) ->
  Forall (fun root => P (f64_of_f32 (Weight root))) roots ->
  forall k w, m' !! k = Some w -> P w.
Proof.
  revert m. induction roots as [|root roots IH]; intros m H Hm Hf; cbn in H.
  { injection H as <-. done. }
  apply Forall_cons in Hf as [Hw Hf]. destruct (IdentityKeyFromHex _) as [key|]; [|done].
  eapply IH; [exact H| |done]. intros k w [[_ <-]|[_ Hk]]%lookup_insert_Some; [done|by eapply Hm].
Qed.

Lemma request_numeric roots body :
  json_numbers body -> parse_roots ∅ (ev_TrustRoots body) = Ok roots ->
  evaluator_props.numeric (request_policy roots body).
Proof.
  intros [Hw Hd] Hr.
  assert (evaluator.TrustRoots (request_policy roots body) = roots) as HT
    by (unfold request_policy; destruct (ev_MaxHops body), (ev_DecayFactor body); done).
  split; [rewrite HT; intros k w|].
  - eapply (parse_roots_values (fun w => is_f64 w /\ is_NaN w = false)); [exact Hr|done|].
    eapply Forall_impl; [exact Hw|]. intros root. apply f64_of_f32_valid.
  - unfold request_policy. destruct (ev_MaxHops body), (ev_DecayFactor body) as [d|] eqn:E; cbn;
      try (by apply f64_of_f32_valid, Hd); done.
Qed.

(** The score the interface promises: the noisy-OR, in binary64 and in the order
    of the paths, of direct trust and of the weights of the paths, clamped to
    the unit interval. *)
Definition noisy_or (direct : float64) (weights : list float64) : float64 :=
  let doubt := foldl f64_mul (f64_sub f64_one direct) (map (f64_sub f64_one) weights) in
  math_Max f64_zero (math_Min f64_one (f64_sub f64_one doubt)).

Lemma confidence_noisy_or direct paths :
  evaluator.confidence direct paths = noisy_or direct (map evaluator.PathWeight paths).
Proof.
  unfold evaluator.confidence, evaluator.unconfidence, noisy_or.
  generalize (f64_sub f64_one direct). intros u. do 3 f_equal. revert u.
  induction paths as [|q paths IH]; intros u; cbn; [done|apply IH].
Qed.

(** The contributing paths: each attestation path of the log from a trust root
    other than the subject, once. *)
Definition paths_of (log : list AttestationEdge) (p : evaluator.EvaluationPolicy)
    (target : IdentityKey) (paths : list evaluator.PathTrace) : Prop :=
  NoDup paths /\
  forall q, q ∈ paths <->
    exists k w es, evaluator.TrustRoots p !! k = Some w /\ k <> target /\
      evaluator_spec.attests log p target k w es /\ q = evaluator_spec.trace_of p k w es.

(** The digests of the records on the paths, each once and in byte order. *)
Definition records_of (paths : list evaluator.PathTrace) (records : list Digest) : Prop :=
  increasing bytes_lt arr_list records /\
  forall d, d ∈ records <->
    exists q hop, q ∈ paths /\ hop ∈ evaluator.Hops q /\ d = evaluator.RecordDigest hop.

(** An evaluation's result, all of it. *)
Lemma evaluation h g L policy p target fuel :
  evaluator_spec.sequenced h g L -> evaluator.Validate policy = Ok p ->
  evaluator_props.numeric policy -> (size (g_nodes g) < fuel)%nat ->
  exists paths records sub,
    paths_of (map snd L) p target paths /\ records_of paths records /\
    let score := noisy_or (default f64_zero (evaluator.TrustRoots p !! target))
                   (map evaluator.PathWeight paths) in
    let res := evaluator.MkResult target (evaluator.Topic p) score (evaluator.AlgorithmVersion p)
                 (g_lastSequence g) paths records sub [] in
    evaluator.Evaluate h g fuel policy target
      = Some (Ok (evaluator.set_Explanation res (evaluator.BuildExplanation res))) /\
    unit_float 53 1024 score.
Proof.
  intros SQ HV HN Hf. destruct (evaluator_spec.Evaluate_search SQ policy p target fuel HV Hf) as (st & HE & Hs).
  pose proof (evaluator_props.log_fuel SQ fuel Hf) as Hlf.
  pose proof (evaluator_props.paths_unit SQ policy p target fuel HV Hf HN) as Hu.
  pose proof (evaluator_props.direct_unit policy p HV HN target) as Hd.
  destruct (evaluator_props.DeduplicateDigests_spec (evaluator.contributingDigests st)) as [Hinc Hded].
  unfold evaluator.assemble in HE. rewrite (evaluator_spec.sm_paths _ _ _ _ _ Hs), confidence_noisy_or in HE.
  eexists _, _, _. split_and!; [| |cbn zeta; split; [exact HE|]].
  - split; [by apply (evaluator_spec.all_paths_NoDup SQ)|by apply evaluator_spec.all_paths_spec].
  - split; [done|]. intros d. rewrite Hded, (evaluator_spec.sm_digests _ _ _ _ _ Hs).
    apply evaluator_props.path_digests_elem.
  - rewrite <- confidence_noisy_or.
    destruct (evaluator_props.confidence_unit _ _ Hd Hu) as [Hc ->]. by apply clamped_unit.
Qed.

(** The policy a request asks for: its trust roots, its topic or none, its
    number of hops or 3, its decay factor or 0.6, and a cutoff of 0.001. *)
Definition asked_policy (roots : gmap IdentityKey float64) (body : EvaluateConfidenceRequest) :
    evaluator.EvaluationPolicy := {|
  evaluator.TrustRoots := roots;
  evaluator.Topic := default [] (ev_Topic body);
  evaluator.MaxHops := default 3 (ev_MaxHops body);
  evaluator.DecayFactor :=
    default (S754_finite false 5404319552844595 (-53)) (f64_of_f32 <$> ev_DecayFactor body);
  evaluator.MinConfidence := S754_finite false 4611686018427388 (-62);
  evaluator.AlgorithmVersion := gostr "transitive-path-damping:v1"
|}.

Lemma request_asked roots body : request_policy roots body = asked_policy roots body.
Proof. unfold request_policy, asked_policy. by destruct (ev_MaxHops body), (ev_DecayFactor body). Qed.

(** Validation leaves a policy with a cutoff and an algorithm as it is. *)
Lemma Validate_asked roots body p :
  evaluator.Validate (asked_policy roots body) = Ok p -> p = asked_policy roots body.
Proof. unfold evaluator.Validate. intros H. repeat case_match; try done. by injection H as <-. Qed.

Lemma unit32_json x : unit_float 24 128 x -> json_float x = true.
Proof. by intros (n & f & [(s & -> & _)|(m & -> & _)] & _). Qed.

Lemma Validate_no_panic policy msg : evaluator.Validate policy <> Err (Panic msg).
Proof. unfold evaluator.Validate. repeat case_match; done. Qed.

End Confidence.

(** ** The statuses of each operation *)

Section Statuses.
Context {C : Cbor} {K : Ecdsa} {U : Unicode}.

(** What may be written: one of the statuses, or the handler panics. *)
Definition one_of {R} (codes : list Z) (r : gores (written R)) : Prop :=
  match r with Ok w => w_status w ∈ codes | Err (Panic _) => True | Err (Fail _) => False end.

(** Handlers whose errors are all answered by the handler itself. *)
Definition handled {R} (Q : R -> Prop) (outcome : gores R) : Prop :=
  match outcome with Ok r => Q r | Err (Panic _) => True | Err (Fail _) => False end.

Lemma always_guard {A R} (Q : gores R -> Prop) (r : gores A) resp (k : A -> prog (gores R)) :
  (forall err, Q (Ok (resp err))) -> (forall msg, Q (Err (Panic msg))) ->
  (forall a, r = Ok a -> always Q (k a)) -> always Q (guard r resp k).
Proof. intros He Hp Hk. destruct r as [a|[err|msg]]; cbn; auto. Qed.

Lemma AcceptEndorsement_handled s ledgerId body :
  always (handled (fun r => match r with AcceptEndorsement404JSONResponse _ => False | _ => True end))
    (AcceptEndorsement s ledgerId body).
Proof.
  unfold AcceptEndorsement. destruct (srv_admission s); [|done].
  apply always_guard; [done..|]. intros id _. destruct body; [|done].
  do 6 (apply always_guard; [done..|]; intros ? _).
  eapply always_bind; [apply always_True|]. intros o _. by apply always_guard.
Qed.

Lemma RevokeEndorsement_handled s ledgerId body :
  always (handled (fun r => match r with RevokeEndorsement404JSONResponse _ => False | _ => True end))
    (RevokeEndorsement s ledgerId body).
Proof.
  unfold RevokeEndorsement. destruct (srv_admission s); [|done].
  apply always_guard; [done..|]. intros id _. destruct body; [|done].
  do 4 (apply always_guard; [done..|]; intros ? _).
  eapply always_bind; [apply always_True|]. intros o _. by apply always_guard.
Qed.

Lemma finish_one_of {R} visitor (outcome : gores R) codes :
  500 ∈ codes -> (forall r, outcome = Ok r -> exists code b, code ∈ codes /\ visitor r = visit code b r) ->
  one_of codes (finish visitor outcome).
Proof.
  intros H500 Hv. destruct outcome as [r|[err|msg]]; [|done..].
  destruct (Hv r eq_refl) as (code & [] & Hin & H); cbn; rewrite H; done.
Qed.

Lemma always_finish {R} visitor (p : prog (gores R)) codes :
  500 ∈ codes -> (forall r, exists code b, code ∈ codes /\ visitor r = visit code b r) ->
  always (one_of codes) (outcome <-- p ;; Ret (finish visitor outcome)).
Proof.
  intros H500 Hv. eapply always_bind; [apply always_True|]. intros o _.
  apply finish_one_of; [done|]. intros r _. apply Hv.
Qed.

(** C38: the statuses of the operations, whatever the database, the signer and
    the clock reply and whatever the body. In particular accepting and revoking
    endorsements answer 201 or 400 and nothing else: an unknown ledger or a
    failing database is a 400 there, never the 404 of the interface description
    and never a 500. *)
Theorem http_statuses s fuel ledgerId digest accept revoke evaluate :
  always (one_of [200]) strict_GetHealthz /\
  always (one_of [201; 400; 409; 500]) (strict_InitLedger s ledgerId) /\
  always (one_of [200; 404; 500]) (strict_GetLedgerHead s ledgerId) /\
  always (one_of [200; 404; 500]) (strict_GetRecord s digest) /\
  always (one_of [201; 400]) (strict_AcceptEndorsement s ledgerId accept) /\
  always (one_of [201; 400]) (strict_RevokeEndorsement s ledgerId revoke) /\
  always (fun r => match r with Some r => one_of [200; 400; 404; 500] r | None => True end)
    (strict_EvaluateConfidence s fuel ledgerId evaluate).
Proof.
  split_and!.
  - cbn. set_solver.
  - apply always_finish; [set_solver|]. intros []; eexists _, _; (split; [|done]); set_solver.
  - apply always_finish; [set_solver|]. intros []; eexists _, _; (split; [|done]); set_solver.
  - apply always_finish; [set_solver|]. intros []; eexists _, _; (split; [|done]); set_solver.
  - destruct accept as [body|err]; [|cbn; set_solver].
    eapply always_bind; [apply AcceptEndorsement_handled|].
    intros [[]|[]] H; cbn in *; try done; set_solver.
  - destruct revoke as [body|err]; [|cbn; set_solver].
    eapply always_bind; [apply RevokeEndorsement_handled|].
    intros [[]|[]] H; cbn in *; try done; set_solver.
  - destruct evaluate as [body|err]; [|cbn; set_solver].
    eapply always_bind; [apply always_True|]. intros [o|] _; [|done]. cbn.
    apply finish_one_of; [set_solver|]. intros [] _; eexists _, _; (split; [|done]); set_solver.
Qed.
End Statuses.

(** ** Requests without failures or contention *)

Section Quiet.
Context {C : Cbor} {CO : CborOk C} {K : Ecdsa} {KO : EcdsaOk K}.

Lemma accept_payload_typed body p : accept_payload body = Ok p -> admission.payload_typed p.
Proof using KO.
  unfold accept_payload. intros H. inv_steps.
  apply endorsementv1.NewAcceptedPayload_Ok in H as [-> _].
  split_and!; cbn; [by eapply parsed_key_ok..|apply u64_range|apply u64_range].
Qed.

Lemma run_AcceptEndorsement env s svc ledgerId id body p t :
  srv_admission s = Some svc -> parseHex32 ledgerId = Ok id -> accept_payload body = Ok p ->
  run env (strict_AcceptEndorsement s ledgerId (Ok body)) t =
    let '(res, t') := run env (admission.AdmitEndorsement svc id (Some p)) t in
    (match res with
     | Ok r => json 201 (AcceptEndorsement201JSONResponse (admit_response id r))
     | Err (Fail err) => json 400 (AcceptEndorsement400JSONResponse (MkErrorResponse (ErrorText err)))
     | Err (Panic msg) => Err (Panic msg)
     end, t').
Proof.
  intros Hs Hid Hp. unfold strict_AcceptEndorsement. rewrite run_serve. unfold AcceptEndorsement.
  rewrite Hs, Hid. cbn [guard]. unfold accept_payload in Hp. inv_steps.
  rewrite Hok, Hok0, Hok1, Hok2, Hok3. cbn [guard]. rewrite Hp. cbn [guard]. rewrite run_bind.
  by destruct (run env (admission.AdmitEndorsement svc id (Some p)) t) as [[r|[err|msg]] t'].
Qed.

(** Admission to a ledger without a genesis. *)
Lemma Admit_uninitialized env svc req t :
  ledgerstore.store_ok t -> ledgerstore.ledger_chain t (arr_list (admission.req_LedgerID req)) [] ->
  0 <= admission.svc_maxRetries svc < two63 - 1 -> slen (admission.req_PayloadBytes req) <> 0 ->
  run env (admission.Admit svc req) t
    = (fail (Errorf "ledger is uninitialized; call InitLedger first" []), t).
Proof using CO.
  intros Ht Hc Hm Hpl. unfold admission.Admit. rewrite (proj2 (Z.eqb_neq _ _)) by done.
  destruct (admission.attempts_positive _ Hm) as [n ->]. cbn [admission.admit_loop].
  unfold admission.admit_attempt, pmap_err. rewrite !run_bind.
  by rewrite (ledgerstore.run_Head env t _ [] Ht Hc).
Qed.

(** C28: an endorsement request, end to end. When the body decodes to a payload
    whose two signatures verify and nothing fails or contends: on an initialized
    ledger that is not exhausted the answer is 201 for a record that follows the
    head and carries the payload, and exactly that record is appended (or
    another stored record collides with it); on a ledger with no genesis the
    answer is 400 and nothing is appended. *)
Theorem AcceptEndorsement_answers env s svc ledgerId (id : LedgerID) body p t rs :
  srv_admission s = Some svc -> admission.quiet env svc -> ledgerstore.store_ok t ->
  ledgerstore.ledger_chain t (arr_list id) rs -> len rs < MaxUint64 ->
  parseHex32 ledgerId = Ok id -> accept_payload body = Ok p ->
  endorsementv1.AcceptedPayload_Verify p = Ok tt ->
  match last rs with
  | None => run env (strict_AcceptEndorsement s ledgerId (Ok body)) t =
      (json 400 (AcceptEndorsement400JSONResponse (MkErrorResponse
         (ErrorText (Errorf "ledger is uninitialized; call InitLedger first" [])))), t)
  | Some h => exists r, follows h r /\
      admission.admits (admission.endorsement_request id p) r /\ record_ok r /\
      (run env (strict_AcceptEndorsement s ledgerId (Ok body)) t =
         (json 201 (AcceptEndorsement201JSONResponse (admit_response id r)),
          t ++ [ledgerstore.row_of r]) \/
       exists saved, ledgerstore.stored t saved /\ saved <> r /\ admission.same_or_collide saved r)
  end.
Proof.
  intros Hs Hq Ht Hc Hlen Hid Hp Hv. pose proof (accept_payload_typed _ _ Hp) as Hty.
  rewrite (run_AcceptEndorsement _ _ _ _ _ _ _ _ Hs Hid Hp).
  destruct (admission.AdmitEndorsement_eq svc id p Hty Hv) as [-> [? ? ? Hk]].
  pose proof (endorsementv1.accepted_wire_len p (admission.verified_ok p Hty Hv)) as Hwl.
  destruct (last rs) as [h|] eqn:Hl.
  - assert (Hseq : ev_sequence (rec_event h) = len rs) by (by eapply chain_head_sequence).
    destruct (admission.Admit_run env svc (admission.endorsement_request id p) t rs h Hq Ht Hc Hl)
      as (r & (? & ? & ?) & Ha & Hr & Hrun); [lia|split_and!; cbn; clia|].
    exists r. split_and!; [|done|done|].
    { split_and!; try done. destruct Ha as (_ & -> & _). done. }
    destruct Hrun as [->|Hcol]; [by left|by right].
  - apply last_None in Hl as ->.
    rewrite Admit_uninitialized; [done|done|done|apply Hq|cbn; clia].
Qed.
End Quiet.

(** ** Witnesses *)

Section Witnesses.
#[local] Existing Instance Ref.codec.
#[local] Existing Instance Toy.ecdsa.
#[local] Existing Instance evaluator_props.sample_unicode.

#[local] Instance plain_path : Binder := {| BindPath raw := Ok raw |}.

Definition sample_server : Server := NewServer (Some admission.sample_service) (Some tt).
Definition sample_hex : gostring := EncodeToString (arr_list sample_id).

Lemma sample_hex_ok : parseHex32 sample_hex = Ok sample_id.
Proof. apply parseHex32_Encode. Qed.

Lemma sample_server_ok : server_ok sample_server.
Proof. intros svc [= <-]. apply admission.sample_service_ok. Qed.

Lemma http_reads_witness :
  run signer.toy_env (strict_GetLedgerHead sample_server sample_hex) admission.sample_table =
    (json 200 (GetLedgerHead200JSONResponse {|
       hd_LedgerId := EncodeToString (arr_list sample_id);
       hd_RecordDigest := EncodeToString (arr_list (rec_recordDigest sample_record));
       hd_SequenceNumber := 1 |}), admission.sample_table).
Proof.
  exact (proj1 (http_reads signer.toy_env sample_server admission.sample_table sample_id
    [sample_record] sample_hex [] admission.sample_table_ok eq_refl admission.sample_ledger_chain)
    sample_hex_ok).
Defined.

(** Initializing an empty database over HTTP. *)
Definition sample_init : option (gores (written response)) * table :=
  run signer.toy_env (serve Initialized (wrapper_InitLedger sample_server sample_hex)) [].

Lemma sample_init_reachable : reachable http_call (sample_init.2, [Ret sample_init.1]).
Proof.
  apply (run_reachable http_call signer.toy_env [] []); [cbn; clia|constructor|].
  constructor. apply sample_server_ok.
Qed.

Lemma sample_init_ok : exists r,
  sample_init.1 = Some (json 201 (Initialized (InitLedger201JSONResponse (init_response sample_id r)))).
Proof.
  destruct admission.sample_run_ok as [r Hr]. exists r. unfold admission.sample_run in Hr.
  unfold sample_init, serve, wrapper_InitLedger. cbn [BindPath plain_path]. unfold strict_InitLedger. rewrite !run_bind. unfold InitLedger. cbn [srv_admission sample_server NewServer].
  rewrite sample_hex_ok. cbn [guard]. rewrite run_bind.
  destruct (run signer.toy_env _ []) as [res t]. cbn [fst] in Hr. by rewrite Hr.
Qed.

Lemma http_chain_invariant_witness :
  exists rs, ledger_rows sample_init.2 (arr_list sample_id) = map ledgerstore.row_of rs /\ accepted rs.
Proof.
  destruct (http_chain_invariant sample_init.2 [Ret sample_init.1] sample_id sample_init_reachable)
    as (rs & H1 & H2 & _). exact (ex_intro _ rs (conj H1 H2)).
Defined.

Lemma sample_signer_outside : signer_outside sample_server.
Proof. intros svc [= <-]. apply signer.local_signer_outside. Qed.

Lemma toy_env_outside X (req : request X) t : outside X req (respond signer.toy_env req t).1.
Proof. apply respond_outside. by intros name d e [= <-]. Qed.

Lemma http_answers_truthful_witness : exists w,
  sample_init.1 = Some (Ok w) /\
  answered sample_server (ToInit sample_hex) [] sample_init.2 w.
Proof.
  destruct sample_init_ok as [r Hr]. eexists. split; [exact Hr|].
  refine (proj1 (http_answers_truthful [] [] sample_server (ToInit sample_hex) sample_init.2
    [Ret sample_init.1] _ sample_server_ok sample_signer_outside (rtc_refl _ _) _) _).
  - rewrite Hr. reflexivity.
  - apply (run_beside outside http_call signer.toy_env []
      (ledger_program sample_server (ToInit sample_hex)) []); [|cbn; clia].
    exact toy_env_outside.
Defined.

Lemma http_created_readable_witness : exists dg resp,
  run signer.toy_env (strict_GetRecord sample_server dg) sample_init.2
    = (json 200 (GetRecord200JSONResponse resp), sample_init.2) /\ rc_RecordDigest resp = dg.
Proof.
  destruct sample_init_ok as [r Hr].
  assert (Hi : [Ret sample_init.1] !! 0%nat = Some (Ret (Some
    (json 201 (Initialized (InitLedger201JSONResponse (init_response sample_id r)))))))
    by (rewrite Hr; reflexivity).
  destruct (http_created_readable signer.toy_env sample_server sample_init.2 [Ret sample_init.1] 0 _ _ _
    sample_init.2 [Ret sample_init.1] eq_refl sample_init_reachable Hi eq_refl eq_refl (rtc_refl _ _))
    as (rec & _ & H1 & H2).
  exact (ex_intro _ _ (ex_intro _ _ (conj H2 H1))).
Defined.

Definition one32 : spec_float := S754_finite false 8388608 (-23).

Lemma sample_key_hex : IdentityKeyFromHex (Hex sample_identity) = Ok sample_identity.
Proof. unfold IdentityKeyFromHex, Hex. rewrite DecodeString_Encode. apply sample_identity_valid. Qed.

Definition sample_evaluate : EvaluateConfidenceRequest := {|
  ev_DecayFactor := None;
  ev_MaxHops := Some 2;
  ev_TargetPublicKeyHex := Hex sample_identity;
  ev_Topic := None;
  ev_TrustRoots := [MkTrustRootSpec (Hex sample_identity) one32]
|}.


Definition sample_accept : AcceptEndorsementRequest := {|
  acc_AcceptedAtUnixMs := 6;
  acc_ClaimBodyHex := EncodeToString [x01; x02];
  acc_ProposedAtUnixMs := 5;
  acc_ProposerPublicKeyHex := EncodeToString (x04 :: arr_list endorsementv1.sample_proposer);
  acc_ProposerSignatureHex := EncodeToString (sbytes (endorsementv1.ProposerSignature endorsementv1.sample_payload));
  acc_SubjectPublicKeyHex := EncodeToString (x04 :: arr_list endorsementv1.sample_subject);
  acc_SubjectSignatureHex := EncodeToString (sbytes (endorsementv1.SubjectSignature endorsementv1.sample_payload));
  acc_Topic := gostr "go"
|}.

Lemma parse_toy_key (k : array 64) : parseHexPublicKey (EncodeToString (x04 :: arr_list k)) = Ok k.
Proof.
  unfold parseHexPublicKey. rewrite DecodeString_Encode.
  by rewrite (key_parse (K := Toy.ecdsa) k (x04 :: arr_list k) eq_refl eq_refl).
Qed.

Lemma decode_hex_Encode b : decode_hex (EncodeToString b) = Ok (Some b).
Proof. unfold decode_hex. by rewrite DecodeString_Encode. Qed.

Lemma sample_accept_payload : accept_payload sample_accept = Ok endorsementv1.sample_payload.
Proof.
  unfold accept_payload, sample_accept. cbn [acc_ProposerPublicKeyHex acc_SubjectPublicKeyHex
    acc_ClaimBodyHex acc_ProposerSignatureHex acc_SubjectSignatureHex acc_Topic].
  rewrite !parse_toy_key, !decode_hex_Encode. cbn [rbind].
  exact (endorsementv1.NewAcceptedPayload_eq endorsementv1.sample_payload endorsementv1.sample_payload_ok).
Qed.

Lemma sample_payload_verifies : endorsementv1.AcceptedPayload_Verify endorsementv1.sample_payload = Ok tt.
Proof.
  apply endorsementv1.accepted_verify_iff.
  - apply endorsementv1.key_ok_encodable, endorsementv1.sample_key_ok.
  - apply endorsementv1.key_ok_encodable, endorsementv1.sample_key_ok.
  - apply endorsementv1.proposal_typed, endorsementv1.sample_payload_ok.
  - cbn. clia.
  - split; [split; vm_compute; discriminate|]. split; [split; vm_compute; discriminate|].
    split; apply endorsementv1.sample_signed.
Qed.

Lemma AcceptEndorsement_answers_witness :
  exists r, follows sample_record r /\
    admission.admits (admission.endorsement_request sample_id endorsementv1.sample_payload) r.
Proof.
  destruct (AcceptEndorsement_answers signer.toy_env sample_server admission.sample_service sample_hex
    sample_id sample_accept endorsementv1.sample_payload admission.sample_table [sample_record]
    eq_refl admission.sample_quiet admission.sample_table_ok admission.sample_ledger_chain
    ltac:(reflexivity) sample_hex_ok sample_accept_payload sample_payload_verifies)
    as (r & Hf & Ha & _).
  exact (ex_intro _ r (conj Hf Ha)).
Defined.
End Witnesses.
End httpapi_props.
