(* ===== verification/Router.v ===== *)
(** * Routing

    The rest of [internal/httpapi/openapi.gen.go]: the strict handlers with their
    options and middlewares, the parameter wrappers, the route table; and
    [NewHandler] of [server.go], which puts them together.  The router ([chi]) is
    a parameter, the decoder of bodies an interface that [Bodies] implements.  [HttpApi] has the same handlers with the
    options of [NewHandler] filled in; here it is proved that a request to the
    routed handler is exactly one of those calls. *)

From S2P Require Import Prelude Float Text Cbor CborRef LedgerCodec LedgerEvent LedgerRecord LedgerChain Ecdsa Endorsement Effects Programs Store Signer Admission Identity Graph Evaluator EvaluatorSpec EvaluatorProps Projector HttpApi HttpProps.

(** A request, with the parameters the router found in its path. *)
Record HttpRequest := MkHttpRequest {
  hr_Method : gostring;
  hr_Path : gostring;
  hr_RawPath : gostring;
  hr_Body : gostring;
  hr_params : list (string * gostring)
}.

Definition with_params (r : HttpRequest) (params : list (string * gostring)) : HttpRequest :=
  MkHttpRequest (hr_Method r) (hr_Path r) (hr_RawPath r) (hr_Body r) params.

(** [chi.URLParam]: the empty string when there is none. *)
Definition URLParam (r : HttpRequest) (key : string) : gostring :=
  match List.find (fun p => String.eqb (fst p) key) (hr_params r) with
  | Some (_, value) => value
  | None => []
  end.

(** The router: a handler per method and pattern. *)
Class Chi (Answer : Type) := {
  Router : Type;
  NewRouter : Router;
  Method : gostring -> gostring -> (HttpRequest -> Answer) -> Router -> Router;
  Group : (Router -> Router) -> Router -> Router;
  ServeHTTP : Router -> HttpRequest -> Answer
}.

(** [json.NewDecoder(r.Body).Decode] into the request bodies. *)
Class Json := {
  DecodeAccept : gostring -> result goerror httpapi.AcceptEndorsementRequest;
  DecodeRevoke : gostring -> result goerror httpapi.RevokeEndorsementRequest;
  DecodeEvaluate : gostring -> result goerror httpapi.EvaluateConfidenceRequest
}.

Module router.
Import identity httpapi httpapi_props.

(** A handler as a program over the store; [None] when the fuel of an evaluation
    runs out. *)
Definition Answer : Type := prog (option (gores (written response))).
Definition Handler : Type := HttpRequest -> Answer.
Definition MiddlewareFunc : Type := Handler -> Handler.

Definition answer (w : written response) : Answer := Ret (Some (Ok w)).

Section Generated.
Context {B : bool -> Binder} {J : Json} {X : Chi Answer}.

(** [err.Error()] *)
Context (error_text : goerror -> string).

(** ** The strict handlers *)

(** The request objects, and [any]: the response objects are in [response]. *)
Inductive request_object :=
  | GetHealthzRequestObject
  | EvaluateConfidenceRequestObject (LedgerId : gostring) (Body : option EvaluateConfidenceRequest)
  | AcceptEndorsementRequestObject (LedgerId : gostring) (Body : option AcceptEndorsementRequest)
  | RevokeEndorsementRequestObject (LedgerId : gostring) (Body : option RevokeEndorsementRequest)
  | GetLedgerHeadRequestObject (LedgerId : gostring)
  | InitLedgerRequestObject (LedgerId : gostring)
  | GetRecordRequestObject (RecordDigest : gostring).

Record StrictServerInterface := MkStrictServerInterface {
  ssi_GetHealthz : prog (gores GetHealthzResponseObject);
  ssi_EvaluateConfidence : gostring -> option EvaluateConfidenceRequest ->
    prog (option (gores EvaluateConfidenceResponseObject));
  ssi_AcceptEndorsement : gostring -> option AcceptEndorsementRequest ->
    prog (gores AcceptEndorsementResponseObject);
  ssi_RevokeEndorsement : gostring -> option RevokeEndorsementRequest ->
    prog (gores RevokeEndorsementResponseObject);
  ssi_GetLedgerHead : gostring -> prog (gores GetLedgerHeadResponseObject);
  ssi_InitLedger : gostring -> prog (gores InitLedgerResponseObject);
  ssi_GetRecord : gostring -> prog (gores GetRecordResponseObject)
}.

(** [(any, error)]; a nil response is [Ok None]. *)
Definition outcome : Type := option (gores (option response)).
Definition StrictHandlerFunc : Type := HttpRequest -> request_object -> prog outcome.
Definition StrictMiddlewareFunc : Type := StrictHandlerFunc -> string -> StrictHandlerFunc.

Definition ErrorHandler : Type := HttpRequest -> goerror -> written response.

(** [None] is a nil function. *)
Record StrictHTTPServerOptions := MkStrictHTTPServerOptions {
  so_RequestErrorHandlerFunc : option ErrorHandler;
  so_ResponseErrorHandlerFunc : option ErrorHandler
}.

Record strictHandler := MkStrictHandler {
  sh_ssi : StrictServerInterface;
  sh_middlewares : list StrictMiddlewareFunc;
  sh_requestError : ErrorHandler;
  sh_responseError : ErrorHandler
}.

(** [http.Error(w, err.Error(), code)] *)
Definition error_with (code : Z) : ErrorHandler := fun _ err => http_Error (error_text err) code.

Definition NewStrictHandler (ssi : StrictServerInterface) (middlewares : list StrictMiddlewareFunc) : strictHandler :=
  MkStrictHandler ssi middlewares (error_with 400) (error_with 500).

Definition NewStrictHandlerWithOptions (ssi : StrictServerInterface) (middlewares : list StrictMiddlewareFunc)
    (options : StrictHTTPServerOptions) : strictHandler :=
  MkStrictHandler ssi middlewares
    (default (error_with 400) (so_RequestErrorHandlerFunc options))
    (default (error_with 500) (so_ResponseErrorHandlerFunc options)).
(** An operation of the server, as a function of [any]. *)
Definition lift {R} (inject : R -> response) (p : prog (gores R)) : prog outcome :=
  r <-- p ;;
  Ret (Some (match r with Ok response => Ok (Some (inject response)) | Err e => Err e end)).

Definition conversion_panic : prog outcome := Ret (Some (Err (Panic "interface conversion"))).

(** Middlewares, the call, and the answer: the error, the response if it is of
    the type of the operation, nothing at all for a nil response (which
    [net/http] sends as 200), an error for any other. *)
Definition run_strict {R} (sh : strictHandler) (operationID : string) (handler : StrictHandlerFunc)
    (as_ : response -> option R) (inject : R -> response) (visitor : R -> gores (written R))
    (r : HttpRequest) (request : request_object) : Answer :=
  let handler := foldl (fun handler middleware => middleware handler operationID) handler (sh_middlewares sh) in
  result <-- handler r request ;;
  Ret (match result with
       | None => None
       | Some (Err (Panic msg)) => Some (Err (Panic msg))
       | Some (Err (Fail err)) => Some (Ok (sh_responseError sh r err))
       | Some (Ok None) => Some (Ok (MkWritten 200 "" (inr ""%string)))
       | Some (Ok (Some response)) =>
           match as_ response with
           | None => Some (Ok (sh_responseError sh r (Errorf "unexpected response type: %T" [])))
           | Some validResponse =>
               match visitor validResponse with
               | Ok w => Some (Ok (wmap inject w))
               | Err (Fail err) => Some (Ok (sh_responseError sh r err))
               | Err (Panic msg) => Some (Err (Panic msg))
               end
           end
       end).

Definition sh_GetHealthz (sh : strictHandler) (r : HttpRequest) : Answer :=
  run_strict sh "GetHealthz"
    (fun _ request =>
       match request with
       | GetHealthzRequestObject => lift Healthz (ssi_GetHealthz (sh_ssi sh))
       | _ => conversion_panic
       end)
    (fun response => match response with Healthz x => Some x | _ => None end) Healthz
    VisitGetHealthzResponse r GetHealthzRequestObject.

Definition sh_EvaluateConfidence (sh : strictHandler) (r : HttpRequest) (ledgerId : gostring) : Answer :=
  match DecodeEvaluate (hr_Body r) with
  | Err err => answer (sh_requestError sh r (Wrapped "can't decode JSON body" [] err))
  | Ok body =>
      run_strict sh "EvaluateConfidence"
        (fun _ request =>
           match request with
           | EvaluateConfidenceRequestObject ledgerId body =>
               r <-- ssi_EvaluateConfidence (sh_ssi sh) ledgerId body ;;
               Ret (match r with
                    | None => None
                    | Some (Ok response) => Some (Ok (Some (Confidence response)))
                    | Some (Err e) => Some (Err e)
                    end)
           | _ => conversion_panic
           end)
        (fun response => match response with Confidence x => Some x | _ => None end) Confidence
        VisitEvaluateConfidenceResponse r (EvaluateConfidenceRequestObject ledgerId (Some body))
  end.

Definition sh_AcceptEndorsement (sh : strictHandler) (r : HttpRequest) (ledgerId : gostring) : Answer :=
  match DecodeAccept (hr_Body r) with
  | Err err => answer (sh_requestError sh r (Wrapped "can't decode JSON body" [] err))
  | Ok body =>
      run_strict sh "AcceptEndorsement"
        (fun _ request =>
           match request with
           | AcceptEndorsementRequestObject ledgerId body =>
               lift Accepted (ssi_AcceptEndorsement (sh_ssi sh) ledgerId body)
           | _ => conversion_panic
           end)
        (fun response => match response with Accepted x => Some x | _ => None end) Accepted
        VisitAcceptEndorsementResponse r (AcceptEndorsementRequestObject ledgerId (Some body))
  end.

Definition sh_RevokeEndorsement (sh : strictHandler) (r : HttpRequest) (ledgerId : gostring) : Answer :=
  match DecodeRevoke (hr_Body r) with
  | Err err => answer (sh_requestError sh r (Wrapped "can't decode JSON body" [] err))
  | Ok body =>
      run_strict sh "RevokeEndorsement"
        (fun _ request =>
           match request with
           | RevokeEndorsementRequestObject ledgerId body =>
               lift Revoked (ssi_RevokeEndorsement (sh_ssi sh) ledgerId body)
           | _ => conversion_panic
           end)
        (fun response => match response with Revoked x => Some x | _ => None end) Revoked
        VisitRevokeEndorsementResponse r (RevokeEndorsementRequestObject ledgerId (Some body))
  end.

Definition sh_GetLedgerHead (sh : strictHandler) (r : HttpRequest) (ledgerId : gostring) : Answer :=
  run_strict sh "GetLedgerHead"
    (fun _ request =>
       match request with
       | GetLedgerHeadRequestObject ledgerId => lift LedgerHead (ssi_GetLedgerHead (sh_ssi sh) ledgerId)
       | _ => conversion_panic
       end)
    (fun response => match response with LedgerHead x => Some x | _ => None end) LedgerHead
    VisitGetLedgerHeadResponse r (GetLedgerHeadRequestObject ledgerId).

Definition sh_InitLedger (sh : strictHandler) (r : HttpRequest) (ledgerId : gostring) : Answer :=
  run_strict sh "InitLedger"
    (fun _ request =>
       match request with
       | InitLedgerRequestObject ledgerId => lift Initialized (ssi_InitLedger (sh_ssi sh) ledgerId)
       | _ => conversion_panic
       end)
    (fun response => match response with Initialized x => Some x | _ => None end) Initialized
    VisitInitLedgerResponse r (InitLedgerRequestObject ledgerId).

Definition sh_GetRecord (sh : strictHandler) (r : HttpRequest) (recordDigest : gostring) : Answer :=
  run_strict sh "GetRecord"
    (fun _ request =>
       match request with
       | GetRecordRequestObject recordDigest => lift RecordRead (ssi_GetRecord (sh_ssi sh) recordDigest)
       | _ => conversion_panic
       end)
    (fun response => match response with RecordRead x => Some x | _ => None end) RecordRead
    VisitGetRecordResponse r (GetRecordRequestObject recordDigest).

(** ** The parameter wrappers *)

Record ServerInterface := MkServerInterface {
  si_GetHealthz : HttpRequest -> Answer;
  si_EvaluateConfidence : HttpRequest -> gostring -> Answer;
  si_AcceptEndorsement : HttpRequest -> gostring -> Answer;
  si_RevokeEndorsement : HttpRequest -> gostring -> Answer;
  si_GetLedgerHead : HttpRequest -> gostring -> Answer;
  si_InitLedger : HttpRequest -> gostring -> Answer;
  si_GetRecord : HttpRequest -> gostring -> Answer
}.

(** A strict handler is a server. *)
Definition strict_interface (sh : strictHandler) : ServerInterface :=
  MkServerInterface (sh_GetHealthz sh) (sh_EvaluateConfidence sh) (sh_AcceptEndorsement sh)
    (sh_RevokeEndorsement sh) (sh_GetLedgerHead sh) (sh_InitLedger sh) (sh_GetRecord sh).

Definition not_implemented : Answer := answer (MkWritten 501 "" (inr ""%string)).
Definition Unimplemented : ServerInterface :=
  MkServerInterface (fun _ => not_implemented) (fun _ _ => not_implemented) (fun _ _ => not_implemented)
    (fun _ _ => not_implemented) (fun _ _ => not_implemented) (fun _ _ => not_implemented)
    (fun _ _ => not_implemented).

Record ServerInterfaceWrapper := MkServerInterfaceWrapper {
  siw_Handler : ServerInterface;
  siw_HandlerMiddlewares : list MiddlewareFunc;
  siw_ErrorHandlerFunc : ErrorHandler
}.

Definition with_middlewares (siw : ServerInterfaceWrapper) (handler : Handler) : Handler :=
  foldl (fun handler (middleware : MiddlewareFunc) => middleware handler) handler (siw_HandlerMiddlewares siw).

(** A path parameter, bound from its text, which is already unescaped when the
    path had no encoding of its own. *)
Definition bound (siw : ServerInterfaceWrapper) (ParamName : string)
    (call : HttpRequest -> gostring -> Answer) (r : HttpRequest) : Answer :=
  match @BindPath (B (bool_decide (hr_RawPath r = []))) (URLParam r ParamName) with
  | Err err => answer (siw_ErrorHandlerFunc siw r (InvalidParamFormatError err))
  | Ok value => with_middlewares siw (fun r => call r value) r
  end.

Definition siw_GetHealthz (siw : ServerInterfaceWrapper) : Handler :=
  with_middlewares siw (si_GetHealthz (siw_Handler siw)).
Definition siw_EvaluateConfidence (siw : ServerInterfaceWrapper) : Handler :=
  bound siw "ledger_id" (si_EvaluateConfidence (siw_Handler siw)).
Definition siw_AcceptEndorsement (siw : ServerInterfaceWrapper) : Handler :=
  bound siw "ledger_id" (si_AcceptEndorsement (siw_Handler siw)).
Definition siw_RevokeEndorsement (siw : ServerInterfaceWrapper) : Handler :=
  bound siw "ledger_id" (si_RevokeEndorsement (siw_Handler siw)).
Definition siw_GetLedgerHead (siw : ServerInterfaceWrapper) : Handler :=
  bound siw "ledger_id" (si_GetLedgerHead (siw_Handler siw)).
Definition siw_InitLedger (siw : ServerInterfaceWrapper) : Handler :=
  bound siw "ledger_id" (si_InitLedger (siw_Handler siw)).
Definition siw_GetRecord (siw : ServerInterfaceWrapper) : Handler :=
  bound siw "record_digest" (si_GetRecord (siw_Handler siw)).

(** ** The routes *)

Record ChiServerOptions := MkChiServerOptions {
  co_BaseURL : gostring;
  co_BaseRouter : option Router;
  co_Middlewares : list MiddlewareFunc;
  co_ErrorHandlerFunc : option ErrorHandler
}.

Definition Get : gostring -> Handler -> Router -> Router := Method (gostr "GET").
Definition Post : gostring -> Handler -> Router -> Router := Method (gostr "POST").

Definition HandlerWithOptions (si : ServerInterface) (options : ChiServerOptions) : Router :=
  let r := default NewRouter (co_BaseRouter options) in
  let wrapper := MkServerInterfaceWrapper si (co_Middlewares options)
    (default (error_with 400) (co_ErrorHandlerFunc options)) in
  let BaseURL := co_BaseURL options in
  let r := Group (Get (BaseURL ++ gostr "/healthz") (siw_GetHealthz wrapper)) r in
  let r := Group (Post (BaseURL ++ gostr "/v1/ledgers/{ledger_id}/init") (siw_InitLedger wrapper)) r in
  let r := Group (Get (BaseURL ++ gostr "/v1/ledgers/{ledger_id}/head") (siw_GetLedgerHead wrapper)) r in
  let r := Group (Get (BaseURL ++ gostr "/v1/records/{record_digest}") (siw_GetRecord wrapper)) r in
  let r := Group (Post (BaseURL ++ gostr "/v1/ledgers/{ledger_id}/endorsements/accept")
                    (siw_AcceptEndorsement wrapper)) r in
  let r := Group (Post (BaseURL ++ gostr "/v1/ledgers/{ledger_id}/endorsements/revoke")
                    (siw_RevokeEndorsement wrapper)) r in
  Group (Post (BaseURL ++ gostr "/v1/ledgers/{ledger_id}/confidence") (siw_EvaluateConfidence wrapper)) r.

Definition Handler_ (si : ServerInterface) : Router :=
  HandlerWithOptions si (MkChiServerOptions [] None [] None).
Definition HandlerFromMux (si : ServerInterface) (r : Router) : Router :=
  HandlerWithOptions si (MkChiServerOptions [] (Some r) [] None).
Definition HandlerFromMuxWithBaseURL (si : ServerInterface) (r : Router) (baseURL : gostring) : Router :=
  HandlerWithOptions si (MkChiServerOptions baseURL (Some r) [] None).

(** ** server.go *)

Definition chiServerOptions (router : Router) : ChiServerOptions :=
  MkChiServerOptions [] (Some router) [] (Some (fun _ _ => http_Error invalidRequestMessage 400)).

Definition strictHTTPServerOptions : StrictHTTPServerOptions :=
  MkStrictHTTPServerOptions
    (Some (fun _ _ => http_Error invalidRequestMessage 400))
    (Some (fun _ _ => http_Error internalServerErrorMessage 500)).

(** [wrap] is [None] for nil. *)
Definition NewHandler (server : StrictServerInterface) (wrap : option (Handler -> Handler)) : Handler :=
  let router := NewRouter in
  let strictHandler :=
    ServeHTTP (HandlerWithOptions
      (strict_interface (NewStrictHandlerWithOptions server [] strictHTTPServerOptions))
      (chiServerOptions router)) in
  match wrap with
  | None => strictHandler
  | Some wrap => wrap strictHandler
  end.

(** [*Server] implements the interface. *)
Definition server_interface {C : Cbor} {K : Ecdsa} {U : Unicode} (fuel : nat) (s : Server) : StrictServerInterface :=
  MkStrictServerInterface GetHealthz (EvaluateConfidence fuel s) (AcceptEndorsement s) (RevokeEndorsement s)
    (GetLedgerHead s) (InitLedger s) (GetRecord s).
End Generated.
(** * Properties *)

(** ** Patterns *)

Inductive segment := Literal (s : gostring) | Placeholder (name : string).

(** [strings.Split(s, "/")] *)
Fixpoint segments (s : gostring) : list gostring :=
  match s with
  | [] => [[]]
  | b :: rest =>
      if bool_decide (b = x2f) then [] :: segments rest
      else match segments rest with
           | first :: others => (b :: first) :: others
           | [] => [[b]]
           end
  end.

Definition pattern_segment (s : gostring) : segment :=
  match s with
  | x7b :: rest =>
      match rev rest with
      | x7d :: name => Placeholder (String.string_of_list_byte (rev name))
      | _ => Literal s
      end
  | _ => Literal s
  end.

(** The parameters of a path that matches a pattern.  A placeholder stands for
    the text up to the next slash; [loose] admits the empty one. *)
Fixpoint match_segments (loose : bool) (pattern : list segment) (path : list gostring) :
    option (list (string * gostring)) :=
  match pattern, path with
  | [], [] => Some []
  | Literal s :: pattern, x :: path =>
      if bool_decide (x = s) then match_segments loose pattern path else None
  | Placeholder name :: pattern, x :: path =>
      if negb loose && bool_decide (x = []) then None
      else cons (name, x) <$> match_segments loose pattern path
  | _, _ => None
  end.

Definition match_pattern (loose : bool) (pattern path : gostring) : option (list (string * gostring)) :=
  match_segments loose (map pattern_segment (segments pattern)) (segments path).

(** The path that is routed. *)
Definition route_path (r : HttpRequest) : gostring :=
  match hr_RawPath r, hr_Path r with
  | [], [] => [x2f]
  | [], path => path
  | raw, _ => raw
  end.

Definition standard_methods : list gostring :=
  map gostr ["CONNECT"; "DELETE"; "GET"; "HEAD"; "OPTIONS"; "PATCH"; "POST"; "PUT"; "TRACE"]%string.

(** [http.NotFound], and the answer for a path with other methods only. *)
Definition not_found : Answer := answer (http_Error "404 page not found" 404).
Definition method_not_allowed : Answer := answer (MkWritten 405 "" (inr ""%string)).

(** The documented behaviour of the router, for the routes that were added to it.
    A path with an empty placeholder is left open, and so are patterns that
    overlap. *)
Class ChiOk {X : Chi Answer} := {
  routes : Router -> list (gostring * gostring * Handler);
  routes_new : routes NewRouter = [];
  routes_method method pattern handler r :
    pattern !! 0%nat = Some x2f -> (method, pattern) ∉ map fst (routes r) ->
    routes (Method method pattern handler r) = routes r ++ [(method, pattern, handler)];
  routes_group f r : routes (Group f r) = routes (f r);
  serve_found r req pattern handler params :
    NoDup (map fst (routes r)) -> (hr_Method req, pattern, handler) ∈ routes r ->
    match_pattern false pattern (route_path req) = Some params ->
    (forall m p h, (m, p, h) ∈ routes r -> is_Some (match_pattern true p (route_path req)) -> p = pattern) ->
    ServeHTTP r req = handler (with_params req params);
  serve_wrong_method r req m pattern handler :
    (m, pattern, handler) ∈ routes r -> is_Some (match_pattern false pattern (route_path req)) ->
    (forall m p h, (m, p, h) ∈ routes r -> is_Some (match_pattern true p (route_path req)) -> m <> hr_Method req) ->
    ServeHTTP r req = method_not_allowed;
  serve_not_found r req :
    hr_Method req ∈ standard_methods ->
    (forall m p h, (m, p, h) ∈ routes r -> match_pattern true p (route_path req) = None) ->
    ServeHTTP r req = not_found;
  serve_some r req :
    (exists m p h params, (m, p, h) ∈ routes r /\ ServeHTTP r req = h (with_params req params)) \/
    ServeHTTP r req = method_not_allowed \/ ServeHTTP r req = not_found
}.

(** ** What is routed where *)

Inductive operation :=
  | OpHealthz
  | OpInitLedger (raw : gostring)
  | OpGetLedgerHead (raw : gostring)
  | OpGetRecord (raw : gostring)
  | OpAcceptEndorsement (raw : gostring)
  | OpRevokeEndorsement (raw : gostring)
  | OpEvaluateConfidence (raw : gostring).

(** The method and the operation of a path. *)
Definition operation_of (path : list gostring) : option (string * operation) :=
  match path with
  | [[]; a] => if bool_decide (a = gostr "healthz") then Some ("GET"%string, OpHealthz) else None
  | [[]; v; a; x] =>
      if bool_decide (v = gostr "v1") && bool_decide (a = gostr "records")
      then Some ("GET"%string, OpGetRecord x) else None
  | [[]; v; a; x; o] =>
      if bool_decide (v = gostr "v1") && bool_decide (a = gostr "ledgers") then
        if bool_decide (o = gostr "init") then Some ("POST"%string, OpInitLedger x)
        else if bool_decide (o = gostr "head") then Some ("GET"%string, OpGetLedgerHead x)
        else if bool_decide (o = gostr "confidence") then Some ("POST"%string, OpEvaluateConfidence x)
        else None
      else None
  | [[]; v; a; x; b; o] =>
      if bool_decide (v = gostr "v1") && bool_decide (a = gostr "ledgers") && bool_decide (b = gostr "endorsements")
      then
        if bool_decide (o = gostr "accept") then Some ("POST"%string, OpAcceptEndorsement x)
        else if bool_decide (o = gostr "revoke") then Some ("POST"%string, OpRevokeEndorsement x)
        else None
      else None
  | _ => None
  end.

Definition parameter (op : operation) : option gostring :=
  match op with
  | OpHealthz => None
  | OpInitLedger raw | OpGetLedgerHead raw | OpGetRecord raw | OpAcceptEndorsement raw
  | OpRevokeEndorsement raw | OpEvaluateConfidence raw => Some raw
  end.
(** ** The routed handler *)

Section Routed.
Context {B : bool -> Binder} {J : Json} {X : Chi Answer} (error_text : goerror -> string).
Context {C : Cbor} {K : Ecdsa} {U : Unicode} (s : Server) (fuel : nat).

Definition strict_server : strictHandler :=
  NewStrictHandlerWithOptions error_text (server_interface fuel s) [] strictHTTPServerOptions.

Lemma run_strict_lift {R} operationID (handler : StrictHandlerFunc) as_ (inject : R -> response) visitor r request p :
  handler r request = lift inject p -> (forall x, as_ (inject x) = Some x) ->
  run_strict strict_server operationID handler as_ inject visitor r request ≡
    serve inject (outcome <-- p ;; Ret (finish visitor outcome)).
Proof.
  intros Hh Has. unfold run_strict, serve. cbn [sh_middlewares strict_server NewStrictHandlerWithOptions foldl].
  rewrite Hh. unfold lift. rewrite !pbind_assoc. apply pbind_ext. intros [x|[err|msg]]; cbn [pbind finish]; [|done..].
  rewrite Has. by destruct (visitor x) as [w|[err|msg]].
Qed.

(** One operation, as in [HttpApi]. *)
Definition call (r : HttpRequest) (op : operation) : Answer :=
  let b := B (bool_decide (hr_RawPath r = [])) in
  match op with
  | OpHealthz => serve Healthz wrapper_GetHealthz
  | OpInitLedger raw => serve Initialized (wrapper_InitLedger (B := b) s raw)
  | OpGetLedgerHead raw => serve LedgerHead (wrapper_GetLedgerHead (B := b) s raw)
  | OpGetRecord raw => serve RecordRead (wrapper_GetRecord (B := b) s raw)
  | OpAcceptEndorsement raw =>
      serve Accepted (wrapper_AcceptEndorsement (B := b) s raw (DecodeAccept (hr_Body r)))
  | OpRevokeEndorsement raw =>
      serve Revoked (wrapper_RevokeEndorsement (B := b) s raw (DecodeRevoke (hr_Body r)))
  | OpEvaluateConfidence raw =>
      res <-- wrapper_EvaluateConfidence (B := b) s fuel raw (DecodeEvaluate (hr_Body r)) ;;
      Ret (omap_ok Confidence <$> res)
  end.

Definition wrapper : ServerInterfaceWrapper :=
  MkServerInterfaceWrapper (strict_interface strict_server) [] (fun _ _ => http_Error invalidRequestMessage 400).

Ltac open_wrapper :=
  cbn [with_middlewares foldl siw_HandlerMiddlewares wrapper siw_Handler strict_interface si_GetHealthz
    si_EvaluateConfidence si_AcceptEndorsement si_RevokeEndorsement si_GetLedgerHead si_InitLedger si_GetRecord].

Lemma call_healthz_eq r : siw_GetHealthz wrapper r ≡ call r OpHealthz.
Proof. by apply run_strict_lift. Qed.

Lemma call_init_eq r : siw_InitLedger wrapper r ≡ call r (OpInitLedger (URLParam r "ledger_id")).
Proof.
  unfold siw_InitLedger, bound, call, wrapper_InitLedger. destruct (BindPath _); [|done].
  open_wrapper. unfold sh_InitLedger, strict_InitLedger. by apply run_strict_lift.
Qed.

Lemma call_head_eq r : siw_GetLedgerHead wrapper r ≡ call r (OpGetLedgerHead (URLParam r "ledger_id")).
Proof.
  unfold siw_GetLedgerHead, bound, call, wrapper_GetLedgerHead. destruct (BindPath _); [|done].
  open_wrapper. unfold sh_GetLedgerHead, strict_GetLedgerHead. by apply run_strict_lift.
Qed.

Lemma call_record_eq r : siw_GetRecord wrapper r ≡ call r (OpGetRecord (URLParam r "record_digest")).
Proof.
  unfold siw_GetRecord, bound, call, wrapper_GetRecord. destruct (BindPath _); [|done].
  open_wrapper. unfold sh_GetRecord, strict_GetRecord. by apply run_strict_lift.
Qed.

Lemma call_accept_eq r : siw_AcceptEndorsement wrapper r ≡ call r (OpAcceptEndorsement (URLParam r "ledger_id")).
Proof.
  unfold siw_AcceptEndorsement, bound, call, wrapper_AcceptEndorsement. destruct (BindPath _); [|done].
  open_wrapper. unfold sh_AcceptEndorsement, strict_AcceptEndorsement. destruct (DecodeAccept _); [|done]. by apply run_strict_lift.
Qed.

Lemma call_revoke_eq r : siw_RevokeEndorsement wrapper r ≡ call r (OpRevokeEndorsement (URLParam r "ledger_id")).
Proof.
  unfold siw_RevokeEndorsement, bound, call, wrapper_RevokeEndorsement. destruct (BindPath _); [|done].
  open_wrapper. unfold sh_RevokeEndorsement, strict_RevokeEndorsement. destruct (DecodeRevoke _); [|done]. by apply run_strict_lift.
Qed.

Lemma call_evaluate_eq r : siw_EvaluateConfidence wrapper r ≡ call r (OpEvaluateConfidence (URLParam r "ledger_id")).
Proof.
  unfold siw_EvaluateConfidence, bound, call, wrapper_EvaluateConfidence. destruct (BindPath _); [|done].
  open_wrapper. unfold sh_EvaluateConfidence, strict_EvaluateConfidence. destruct (DecodeEvaluate _); [|done].
  unfold run_strict. cbn [sh_middlewares strict_server NewStrictHandlerWithOptions foldl sh_ssi server_interface ssi_EvaluateConfidence].
  rewrite !pbind_assoc. apply pbind_ext. intros [[x|[err|msg]]|]; cbn; [|done..].
  by destruct (VisitEvaluateConfidenceResponse x) as [w|[err|msg]].
Qed.
End Routed.
(** ** The route table *)

Lemma match_literal loose s pattern l params :
  match_segments loose (Literal s :: pattern) l = Some params <->
    exists l', l = s :: l' /\ match_segments loose pattern l' = Some params.
Proof. destruct l as [|x l]; cbn; [naive_solver|]. case_bool_decide; naive_solver. Qed.

Lemma match_placeholder loose name pattern l params :
  match_segments loose (Placeholder name :: pattern) l = Some params <->
    exists x l' rest, l = x :: l' /\ (loose = false -> x <> []) /\ params = (name, x) :: rest /\
      match_segments loose pattern l' = Some rest.
Proof.
  destruct l as [|x l]; cbn; [naive_solver|]. destruct loose; cbn [negb andb].
  - rewrite fmap_Some. naive_solver.
  - case_bool_decide; [naive_solver|]. rewrite fmap_Some. naive_solver.
Qed.

Lemma match_end loose l params : match_segments loose [] l = Some params <-> l = [] /\ params = [].
Proof. destruct l; cbn; naive_solver. Qed.

(** The method, the pattern and the parameters of an operation. *)
Definition method_of (op : operation) : gostring :=
  match op with
  | OpHealthz | OpGetLedgerHead _ | OpGetRecord _ => gostr "GET"
  | _ => gostr "POST"
  end.

Definition pattern_of (op : operation) : gostring :=
  match op with
  | OpHealthz => gostr "/healthz"
  | OpInitLedger _ => gostr "/v1/ledgers/{ledger_id}/init"
  | OpGetLedgerHead _ => gostr "/v1/ledgers/{ledger_id}/head"
  | OpGetRecord _ => gostr "/v1/records/{record_digest}"
  | OpAcceptEndorsement _ => gostr "/v1/ledgers/{ledger_id}/endorsements/accept"
  | OpRevokeEndorsement _ => gostr "/v1/ledgers/{ledger_id}/endorsements/revoke"
  | OpEvaluateConfidence _ => gostr "/v1/ledgers/{ledger_id}/confidence"
  end.

Definition params_of (op : operation) : list (string * gostring) :=
  match op with
  | OpHealthz => []
  | OpGetRecord raw => [("record_digest"%string, raw)]
  | OpInitLedger raw | OpGetLedgerHead raw | OpAcceptEndorsement raw
  | OpRevokeEndorsement raw | OpEvaluateConfidence raw => [("ledger_id"%string, raw)]
  end.

(** The operations up to their parameter. *)
Definition operations : list operation :=
  [OpHealthz; OpInitLedger []; OpGetLedgerHead []; OpGetRecord []; OpAcceptEndorsement [];
   OpRevokeEndorsement []; OpEvaluateConfidence []].

Ltac match_inv H :=
  unfold match_pattern in H;
  match type of H with
  | match_segments _ ?p _ = _ => let p' := eval vm_compute in p in change p with p' in H
  end;
  repeat first
    [ apply match_literal in H as (? & ? & H)
    | apply match_placeholder in H as (? & ? & ? & ? & ? & ? & H)
    | apply match_end in H as [? ?] ].

(** A path that matches the pattern of an operation is a path of it. *)
Lemma match_operation op path params :
  op ∈ operations -> match_pattern true (pattern_of op) path = Some params ->
  exists op', operation_of (segments path) = Some (if bool_decide (method_of op = gostr "GET") then "GET"%string else "POST"%string, op') /\
    pattern_of op' = pattern_of op /\ method_of op' = method_of op.
Proof.
  intros Hop H. unfold operations in Hop. rewrite !elem_of_cons in Hop.
  destruct Hop as [-> |[-> |[-> |[-> |[-> |[-> |[-> |Hn]]]]]]]; [..|by apply not_elem_of_nil in Hn];
    cbn [pattern_of] in H; match_inv H; subst;
    match goal with E : segments path = _ |- _ => rewrite E end; by eexists.
Qed.

Lemma operation_of_inv l m op :
  operation_of l = Some (m, op) ->
  gostr m = method_of op /\
  match op with
  | OpHealthz => l = [[]; gostr "healthz"]
  | OpInitLedger x => l = [[]; gostr "v1"; gostr "ledgers"; x; gostr "init"]
  | OpGetLedgerHead x => l = [[]; gostr "v1"; gostr "ledgers"; x; gostr "head"]
  | OpGetRecord x => l = [[]; gostr "v1"; gostr "records"; x]
  | OpAcceptEndorsement x => l = [[]; gostr "v1"; gostr "ledgers"; x; gostr "endorsements"; gostr "accept"]
  | OpRevokeEndorsement x => l = [[]; gostr "v1"; gostr "ledgers"; x; gostr "endorsements"; gostr "revoke"]
  | OpEvaluateConfidence x => l = [[]; gostr "v1"; gostr "ledgers"; x; gostr "confidence"]
  end.
Proof.
  intros H. unfold operation_of in H.
  repeat (case_match; try discriminate H; []); prep_bool; subst.
  all: repeat (case_match; try discriminate H); prep_bool; simplify_eq; done.
Qed.
Lemma operation_matches path m op :
  operation_of (segments path) = Some (m, op) -> parameter op <> Some [] ->
  match_pattern false (pattern_of op) path = Some (params_of op).
Proof.
  intros [_ H]%operation_of_inv Hp. unfold match_pattern.
  destruct op as [|x|x|x|x|x|x]; rewrite H; [reflexivity|..];
    (destruct x as [|b x]; [by destruct Hp|reflexivity]).
Qed.

Section Routes.
Context {B : bool -> Binder} {J : Json} {X : Chi Answer} {OK : ChiOk} (error_text : goerror -> string).
Context {C : Cbor} {K : Ecdsa} {U : Unicode} (s : Server) (fuel : nat).

Definition handler_of (op : operation) : Handler :=
  let w := wrapper error_text s fuel in
  match op with
  | OpHealthz => siw_GetHealthz w
  | OpInitLedger _ => siw_InitLedger w
  | OpGetLedgerHead _ => siw_GetLedgerHead w
  | OpGetRecord _ => siw_GetRecord w
  | OpAcceptEndorsement _ => siw_AcceptEndorsement w
  | OpRevokeEndorsement _ => siw_RevokeEndorsement w
  | OpEvaluateConfidence _ => siw_EvaluateConfidence w
  end.

Lemma handler_of_call op r params : exists op',
  handler_of op (with_params r params) ≡ call s fuel r op' /\
  (params = params_of op -> op' = op).
Proof.
  set (r' := with_params r params).
  destruct op; cbn [handler_of];
    [exists OpHealthz|exists (OpInitLedger (URLParam r' "ledger_id"))|exists (OpGetLedgerHead (URLParam r' "ledger_id"))
    |exists (OpGetRecord (URLParam r' "record_digest"))|exists (OpAcceptEndorsement (URLParam r' "ledger_id"))
    |exists (OpRevokeEndorsement (URLParam r' "ledger_id"))|exists (OpEvaluateConfidence (URLParam r' "ledger_id"))];
    (split; [|by unfold r'; intros ->]).
  - apply (call_healthz_eq _ _ _ r').
  - apply (call_init_eq _ _ _ r').
  - apply (call_head_eq _ _ _ r').
  - apply (call_record_eq _ _ _ r').
  - apply (call_accept_eq _ _ _ r').
  - apply (call_revoke_eq _ _ _ r').
  - apply (call_evaluate_eq _ _ _ r').
Qed.

Definition api_router : Router :=
  HandlerWithOptions error_text
    (strict_interface (NewStrictHandlerWithOptions error_text (server_interface fuel s) [] strictHTTPServerOptions))
    (chiServerOptions NewRouter).

Lemma api_routes :
  routes api_router = map (fun op => (method_of op, pattern_of op, handler_of op)) operations.
Proof using OK.
  unfold api_router, HandlerWithOptions, Get, Post. cbn [chiServerOptions co_BaseRouter co_BaseURL co_Middlewares
    co_ErrorHandlerFunc default id app].
  repeat rewrite routes_group, routes_method; rewrite ?routes_new; try reflexivity;
    cbn [map fst app]; apply (bool_decide_unpack _); vm_compute; exact I.
Qed.
Lemma route_listed op : (method_of op, pattern_of op, handler_of op) ∈ routes api_router.
Proof using OK.
  rewrite api_routes. apply list_elem_of_fmap. destruct op;
    [exists OpHealthz|exists (OpInitLedger [])|exists (OpGetLedgerHead [])|exists (OpGetRecord [])
    |exists (OpAcceptEndorsement [])|exists (OpRevokeEndorsement [])|exists (OpEvaluateConfidence [])];
    (split; [done|unfold operations; set_solver]).
Qed.

(** A route that matches a path, even loosely, is that of its operation. *)
Lemma route_matches m p h path :
  (m, p, h) ∈ routes api_router -> is_Some (match_pattern true p path) ->
  exists m' op, operation_of (segments path) = Some (m', op) /\ p = pattern_of op /\ m = method_of op.
Proof using OK.
  rewrite api_routes. intros (op & [= -> -> ->] & Hop)%list_elem_of_fmap [params Hp].
  destruct (match_operation op path params Hop Hp) as (op' & ? & ? & ?). eauto.
Qed.

Lemma routes_distinct : NoDup (map fst (routes api_router)).
Proof using OK. rewrite api_routes. apply (bool_decide_unpack _). vm_compute. exact I. Qed.

(** C35: routing. A request whose path is that of an operation, with its
    parameter not empty, is exactly that operation of the API, with the segment
    of the path as its parameter and the decoded body, if it has the method of
    the operation, and answered with 405 otherwise; a request with any other path
    and one of the nine standard methods is answered with 404. Options, middlewares, wrappers and type assertions of
    the generated code add nothing to it. *)
Theorem NewHandler_routes r :
  let handle := NewHandler error_text (server_interface fuel s) None in
  match operation_of (segments (route_path r)) with
  | Some (m, op) =>
      parameter op <> Some [] ->
      handle r ≡ (if bool_decide (hr_Method r = gostr m) then call s fuel r op else method_not_allowed)
  | None => hr_Method r ∈ standard_methods -> handle r ≡ not_found
  end.
Proof using OK.
  cbn zeta. change (NewHandler error_text (server_interface fuel s) None) with (ServeHTTP api_router).
  destruct (operation_of (segments (route_path r))) as [[m op]|] eqn:E.
  - intros Hp. pose proof (operation_matches _ _ _ E Hp) as Hm.
    destruct (operation_of_inv _ _ _ E) as [Hmeth _]. pose proof (route_listed op) as Hin.
    case_bool_decide as Hr.
    + rewrite (serve_found api_router r (pattern_of op) (handler_of op) (params_of op)).
      * destruct (handler_of_call op r (params_of op)) as (op' & -> & ->); [|done]. done.
      * apply routes_distinct.
      * by rewrite Hr, Hmeth.
      * done.
      * intros m' p h Hl Hs. destruct (route_matches _ _ _ _ Hl Hs) as (? & op' & E' & -> & _).
        rewrite E in E'. by injection E' as _ ->.
    + rewrite (serve_wrong_method api_router r (method_of op) (pattern_of op) (handler_of op)); [done|done|by eexists|].
      intros m' p h Hl Hs. destruct (route_matches _ _ _ _ Hl Hs) as (? & op' & E' & _ & ->).
      rewrite E in E'. injection E' as <- <-. congruence.
  - intros Hm. rewrite serve_not_found; [done|done|]. intros m p h Hl.
    destruct (match_pattern true p (route_path r)) eqn:Es; [|done].
    destruct (route_matches m p h (route_path r) Hl) as (? & ? & E' & _); [by rewrite Es|]. congruence.
Qed.

(** Every request is one call of the API or is refused by the router. *)
Lemma routed_shape r :
  (exists op, ServeHTTP api_router r ≡ call s fuel r op) \/
  ServeHTTP api_router r = method_not_allowed \/ ServeHTTP api_router r = not_found.
Proof using OK.
  destruct (serve_some api_router r) as [(m & p & h & params & Hl & ->)|H]; [left|by right].
  rewrite api_routes in Hl. apply list_elem_of_fmap in Hl as (op & [= _ _ ->] & _).
  destruct (handler_of_call op r params) as (op' & H & _). by exists op'.
Qed.
End Routes.

(** ** The system of all requests *)

Section Requests.
Context {B : bool -> Binder} {J : Json} {X : Chi Answer} {OK : ChiOk} (error_text : goerror -> string).
Context {C : Cbor} {CO : CborOk C} {K : Ecdsa} {KO : EcdsaOk K} {U : Unicode}.

(** The calls of the system: any request to the routed handler. *)
Inductive routed_call : Answer -> Prop :=
  | routed s fuel r : server_ok s -> routed_call (NewHandler error_text (server_interface fuel s) None r).

Lemma call_http s fuel r op : server_ok s ->
  http_call (B := B (bool_decide (hr_RawPath r = []))) (call s fuel r op).
Proof. intros Hs. destruct op; by constructor. Qed.

(** What the router writes by itself. *)
Definition unrouted (w : written response) : Prop := answer w = not_found \/ answer w = method_not_allowed.

Definition routed_ok (t : table) (r : option (gores (written response))) : Prop :=
  match r with Some (Ok w) => written_ok t w \/ unrouted w | _ => True end.

Lemma routed_call_safe p t :
  routed_call p -> ledgerstore.store_ok t -> safe ledgerstore.store_ok routed_ok p t.
Proof using OK CO KO.
  intros [s fuel r Hs] Ht.
  change (NewHandler error_text (server_interface fuel s) None r) with (ServeHTTP (api_router error_text s fuel) r).
  destruct (routed_shape error_text s fuel r) as [[op H]|H].
  - rewrite H. eapply safe_weaken; [|eapply http_call_safe; [by apply call_http|done]].
    intros t1 [[w|]|] _ _ Hw; [by left|done..].
  - destruct H as [-> | ->]; apply safe_ret; intros t1 _ _; right; [by right|by left].
Qed.

(** C2: the API as a whole. In every state reachable by any interleaving of any
    number of HTTP requests, of whatever method, path, encoding and body, with
    lost connections, ambiguous commits and failing signers, each ledger is a
    chain that validation accepts from the empty state; and of every answer that
    is written: it is JSON with the status of its type, where a 201 and the 200s
    of a head and a record report a record that is stored, then and at any later
    time (for a 201 up to a collision of SHA-256), and nothing is said of what
    other JSON answers report; or it is one of the two fixed texts with 400 and
    500; or the router's 404 or 405. *)
Theorem requests_sound t ps (id : LedgerID) :
  reachable routed_call (t, ps) ->
  (exists rs, ledger_rows t (arr_list id) = map ledgerstore.row_of rs /\
     accepted rs /\ advance zeroChainState rs = Some (head_state rs)) /\
  (forall i w t' ps', ps !! i = Some (Ret (Some (Ok w))) ->
     rtc (sys_step routed_call) (t, ps) (t', ps') -> written_ok t' w \/ unrouted w).
Proof.
  intros Hr. split.
  - destruct (reachable_safe ledgerstore.store_ok routed_call _ ledgerstore.store_ok_nil
      routed_call_safe t ps Hr) as [Ht _].
    destruct (ledgerstore.so_chain t Ht (arr_list id)) as (rs & Hrows & Hok & Hv).
    exists rs. split_and!; [done|by apply admission.chain_accepted|by apply advance_iff].
  - intros i w t' ps' Hi Hsteps. pose proof (reachable_append_only ledgerstore.store_ok routed_call _
      ledgerstore.store_ok_nil routed_call_safe _ _ Hr Hsteps) as Hpre.
    destruct (reachable_result ledgerstore.store_ok routed_call _ ledgerstore.store_ok_nil
      routed_call_safe t ps i _ Hr Hi) as [Hw|Hw]; [left|by right]. by eapply written_ok_mono.
Qed.
End Requests.
(** ** A reference router *)

Lemma match_strict_loose pattern path params :
  match_pattern false pattern path = Some params -> match_pattern true pattern path = Some params.
Proof.
  unfold match_pattern. generalize (map pattern_segment (segments pattern)). intros segs.
  generalize (segments path). intros l. revert l params.
  induction segs as [|[lit|name] segs IH]; intros [|x l] params; cbn [match_segments]; try done.
  - case_bool_decide; [apply IH|done].
  - cbn [negb andb]. case_bool_decide; [done|]. rewrite !fmap_Some. intros (ps & Hps & ->). eauto.
Qed.

Definition routes_to (req : HttpRequest) (route : gostring * gostring * Handler) : bool :=
  bool_decide (route.1.1 = hr_Method req) && bool_decide (is_Some (match_pattern false route.1.2 (route_path req))).

(** The first route that matches; 405 if only the method does not. *)
#[global] Instance ref_chi : Chi Answer := {|
  Router := list (gostring * gostring * Handler);
  NewRouter := [];
  Method method pattern handler r := r ++ [(method, pattern, handler)];
  Group f r := f r;
  ServeHTTP r req :=
    match List.find (routes_to req) r with
    | Some (_, pattern, handler) =>
        handler (with_params req (default [] (match_pattern false pattern (route_path req))))
    | None =>
        if existsb (fun route => bool_decide (is_Some (match_pattern false route.1.2 (route_path req)))) r
        then method_not_allowed else not_found
    end
|}.

#[global] Instance ref_chi_ok : ChiOk (X := ref_chi).
Proof.
  refine (Build_ChiOk ref_chi (fun r => r) _ _ _ _ _ _ _); [done..| | | |].
  - intros r req pattern handler params Hnd Hin Hm Huniq. cbn.
    destruct (List.find (routes_to req) r) as [[[m p] h]|] eqn:E.
    + apply find_some in E as [Hin' Ht]. apply list_elem_of_In in Hin'. unfold routes_to in Ht. cbn in Ht.
      prep_bool. subst m. destruct H0 as [ps Hps].
      assert (p = pattern) as -> by (eapply Huniq; [exact Hin'|]; eexists; by apply match_strict_loose).
      assert (He : (hr_Method req, pattern, h) = (hr_Method req, pattern, handler))
        by (by eapply (NoDup_map_inj fst)).
      injection He as ->. by rewrite Hm.
    + eapply find_none in E; [|by apply list_elem_of_In]. unfold routes_to in E. cbn in E.
      rewrite !bool_decide_eq_true_2 in E by (done || by eexists). done.
  - intros r req m pattern handler Hin Hs Hother. cbn.
    destruct (List.find (routes_to req) r) as [[[m' p] h]|] eqn:E.
    + apply find_some in E as [Hin' Ht]. apply list_elem_of_In in Hin'. unfold routes_to in Ht. cbn in Ht.
      prep_bool. subst m'. destruct H0 as [ps Hps]. exfalso.
      eapply (Hother _ p h Hin'); [|done]. eexists. by apply match_strict_loose.
    + assert (existsb (fun route => bool_decide (is_Some (match_pattern false route.1.2 (route_path req)))) r = true) as ->;
        [|done]. apply existsb_exists. exists (m, pattern, handler). split; [by apply list_elem_of_In|].
      by apply bool_decide_eq_true.
  - intros r req _ Hnone. cbn.
    assert (Hn : forall route, route ∈ r -> ~ is_Some (match_pattern false route.1.2 (route_path req))).
    { intros [[m p] h] Hin [ps Hps%match_strict_loose]. pose proof (Hnone m p h Hin) as Hno. cbn [fst snd] in Hps. congruence. }
    destruct (List.find (routes_to req) r) as [[[m' p] h]|] eqn:E.
    + apply find_some in E as [Hin' Ht]. apply list_elem_of_In in Hin'. unfold routes_to in Ht. cbn in Ht.
      prep_bool. by destruct (Hn _ Hin').
    + destruct (existsb _ r) eqn:Ex; [|done]. apply existsb_exists in Ex as (route & Hin & Hb).
      apply list_elem_of_In in Hin. prep_bool. by destruct (Hn _ Hin).
  - intros r req. cbn. destruct (List.find (routes_to req) r) as [[[m p] h]|] eqn:E.
    + left. apply find_some in E as [Hin _]. apply list_elem_of_In in Hin. by eexists _, _, _, _.
    + right. destruct (existsb _ r); auto.
Qed.

(** ** Witnesses *)

Section Witnesses.
#[local] Existing Instance Ref.codec.
#[local] Existing Instance Toy.ecdsa.
#[local] Existing Instance evaluator_props.sample_unicode.

#[local] Instance plain_paths (unescaped : bool) : Binder := {| BindPath raw := Ok raw |}.
#[local] Instance no_json : Json := {|
  DecodeAccept _ := Err (Foreign "json" []);
  DecodeRevoke _ := Err (Foreign "json" []);
  DecodeEvaluate _ := Err (Foreign "json" [])
|}.

Definition plain_text (err : goerror) : string := "error".
Definition a_get (path : string) : HttpRequest := MkHttpRequest (gostr "GET") (gostr path) [] [] [].

Lemma NewHandler_routes_witness :
  NewHandler plain_text (server_interface 0 sample_server) None (a_get "/v1/records/ab")
    ≡ serve RecordRead (wrapper_GetRecord (B := plain_paths true) sample_server (gostr "ab")).
Proof.
  exact (NewHandler_routes plain_text sample_server 0 (a_get "/v1/records/ab") ltac:(discriminate)).
Defined.

Definition init_request : HttpRequest :=
  MkHttpRequest (gostr "POST") (gostr "/v1/ledgers/" ++ sample_hex ++ gostr "/init") [] [] [].

Definition after_init : option (gores (written response)) * table :=
  run signer.toy_env (NewHandler plain_text (server_interface 0 sample_server) None init_request) [].

Lemma after_init_reachable : reachable (routed_call plain_text) (after_init.2, [Ret after_init.1]).
Proof.
  apply (run_reachable (routed_call plain_text) signer.toy_env [] []); [cbn; clia|constructor|].
  constructor. apply sample_server_ok.
Qed.

Lemma requests_sound_witness :
  exists rs, ledger_rows after_init.2 (arr_list sample_id) = map ledgerstore.row_of rs /\ accepted rs.
Proof.
  destruct (requests_sound plain_text after_init.2 [Ret after_init.1] sample_id after_init_reachable)
    as [(rs & H1 & H2 & _) _]. exact (ex_intro _ rs (conj H1 H2)).
Defined.
End Witnesses.
End router.
