(* ===== verification/Bodies.v ===== *)
(** * Request bodies

    The JSON names of the fields of the request types of
    [internal/httpapi/openapi.gen.go], and the decoding of request bodies into
    them: the decoder the router is given. *)

From S2P Require Import Prelude Float Text Strconv Net Utf8 Json Effects Identity HttpApi HttpProps Router.

Module bodies.
Import httpapi.

(** A field of a struct, by its accessor and its update. *)
Definition on {A B} (get : A -> B) (set : B -> A -> A) (store : decoder B) : decoder A := fun v a =>
  option_map (fun b => set b a) (store v (get a)).

(** ** The request types *)

Definition accept_zero : AcceptEndorsementRequest := MkAcceptRequest 0 [] 0 [] [] [] [] [].

Definition accept_fields : fields AcceptEndorsementRequest :=
  [ ("accepted_at_unix_ms", on acc_AcceptedAtUnixMs
       (fun x r => MkAcceptRequest x (acc_ClaimBodyHex r) (acc_ProposedAtUnixMs r) (acc_ProposerPublicKeyHex r)
          (acc_ProposerSignatureHex r) (acc_SubjectPublicKeyHex r) (acc_SubjectSignatureHex r) (acc_Topic r)) store_int);
    ("claim_body_hex", on acc_ClaimBodyHex
       (fun x r => MkAcceptRequest (acc_AcceptedAtUnixMs r) x (acc_ProposedAtUnixMs r) (acc_ProposerPublicKeyHex r)
          (acc_ProposerSignatureHex r) (acc_SubjectPublicKeyHex r) (acc_SubjectSignatureHex r) (acc_Topic r)) store_string);
    ("proposed_at_unix_ms", on acc_ProposedAtUnixMs
       (fun x r => MkAcceptRequest (acc_AcceptedAtUnixMs r) (acc_ClaimBodyHex r) x (acc_ProposerPublicKeyHex r)
          (acc_ProposerSignatureHex r) (acc_SubjectPublicKeyHex r) (acc_SubjectSignatureHex r) (acc_Topic r)) store_int);
    ("proposer_public_key_hex", on acc_ProposerPublicKeyHex
       (fun x r => MkAcceptRequest (acc_AcceptedAtUnixMs r) (acc_ClaimBodyHex r) (acc_ProposedAtUnixMs r) x
          (acc_ProposerSignatureHex r) (acc_SubjectPublicKeyHex r) (acc_SubjectSignatureHex r) (acc_Topic r)) store_string);
    ("proposer_signature_hex", on acc_ProposerSignatureHex
       (fun x r => MkAcceptRequest (acc_AcceptedAtUnixMs r) (acc_ClaimBodyHex r) (acc_ProposedAtUnixMs r)
          (acc_ProposerPublicKeyHex r) x (acc_SubjectPublicKeyHex r) (acc_SubjectSignatureHex r) (acc_Topic r)) store_string);
    ("subject_public_key_hex", on acc_SubjectPublicKeyHex
       (fun x r => MkAcceptRequest (acc_AcceptedAtUnixMs r) (acc_ClaimBodyHex r) (acc_ProposedAtUnixMs r)
          (acc_ProposerPublicKeyHex r) (acc_ProposerSignatureHex r) x (acc_SubjectSignatureHex r) (acc_Topic r)) store_string);
    ("subject_signature_hex", on acc_SubjectSignatureHex
       (fun x r => MkAcceptRequest (acc_AcceptedAtUnixMs r) (acc_ClaimBodyHex r) (acc_ProposedAtUnixMs r)
          (acc_ProposerPublicKeyHex r) (acc_ProposerSignatureHex r) (acc_SubjectPublicKeyHex r) x (acc_Topic r)) store_string);
    ("topic", on acc_Topic
       (fun x r => MkAcceptRequest (acc_AcceptedAtUnixMs r) (acc_ClaimBodyHex r) (acc_ProposedAtUnixMs r)
          (acc_ProposerPublicKeyHex r) (acc_ProposerSignatureHex r) (acc_SubjectPublicKeyHex r)
          (acc_SubjectSignatureHex r) x) store_string) ]%string.

Definition revoke_zero : RevokeEndorsementRequest := MkRevokeRequest None 0 [] [] 0 [].

Definition revoke_fields : fields RevokeEndorsementRequest :=
  [ ("reason", on rev_Reason
       (fun x r => MkRevokeRequest x (rev_RevokedAtUnixMs r) (rev_RevokerPublicKeyHex r) (rev_RevokerSignatureHex r)
          (rev_Role r) (rev_TargetRecordDigest r)) (store_pointer [] store_string));
    ("revoked_at_unix_ms", on rev_RevokedAtUnixMs
       (fun x r => MkRevokeRequest (rev_Reason r) x (rev_RevokerPublicKeyHex r) (rev_RevokerSignatureHex r)
          (rev_Role r) (rev_TargetRecordDigest r)) store_int);
    ("revoker_public_key_hex", on rev_RevokerPublicKeyHex
       (fun x r => MkRevokeRequest (rev_Reason r) (rev_RevokedAtUnixMs r) x (rev_RevokerSignatureHex r)
          (rev_Role r) (rev_TargetRecordDigest r)) store_string);
    ("revoker_signature_hex", on rev_RevokerSignatureHex
       (fun x r => MkRevokeRequest (rev_Reason r) (rev_RevokedAtUnixMs r) (rev_RevokerPublicKeyHex r) x
          (rev_Role r) (rev_TargetRecordDigest r)) store_string);
    ("role", on rev_Role
       (fun x r => MkRevokeRequest (rev_Reason r) (rev_RevokedAtUnixMs r) (rev_RevokerPublicKeyHex r)
          (rev_RevokerSignatureHex r) x (rev_TargetRecordDigest r)) store_int);
    ("target_record_digest", on rev_TargetRecordDigest
       (fun x r => MkRevokeRequest (rev_Reason r) (rev_RevokedAtUnixMs r) (rev_RevokerPublicKeyHex r)
          (rev_RevokerSignatureHex r) (rev_Role r) x) store_string) ]%string.

Definition f32_zero : spec_float := S754_zero false.
Definition root_zero : TrustRootSpec := MkTrustRootSpec [] f32_zero.

Definition root_fields : fields TrustRootSpec :=
  [ ("public_key_hex", on PublicKeyHex (fun x r => MkTrustRootSpec x (Weight r)) store_string);
    ("weight", on Weight (fun x r => MkTrustRootSpec (PublicKeyHex r) x) store_float32) ]%string.

(** The confidence request while it is decoded: its trust roots are a slice. *)
Record evaluate_body := MkEvaluateBody {
  eb_DecayFactor : option spec_float;
  eb_MaxHops : option Z;
  eb_TargetPublicKeyHex : gostring;
  eb_Topic : option gostring;
  eb_TrustRoots : go_slice TrustRootSpec
}.

Definition evaluate_zero : evaluate_body := MkEvaluateBody None None [] None gs_nil.

Definition evaluate_fields : fields evaluate_body :=
  [ ("decay_factor", on eb_DecayFactor
       (fun x r => MkEvaluateBody x (eb_MaxHops r) (eb_TargetPublicKeyHex r) (eb_Topic r) (eb_TrustRoots r))
       (store_pointer f32_zero store_float32));
    ("max_hops", on eb_MaxHops
       (fun x r => MkEvaluateBody (eb_DecayFactor r) x (eb_TargetPublicKeyHex r) (eb_Topic r) (eb_TrustRoots r))
       (store_pointer 0 store_int));
    ("target_public_key_hex", on eb_TargetPublicKeyHex
       (fun x r => MkEvaluateBody (eb_DecayFactor r) (eb_MaxHops r) x (eb_Topic r) (eb_TrustRoots r)) store_string);
    ("topic", on eb_Topic
       (fun x r => MkEvaluateBody (eb_DecayFactor r) (eb_MaxHops r) (eb_TargetPublicKeyHex r) x (eb_TrustRoots r))
       (store_pointer [] store_string));
    ("trust_roots", on eb_TrustRoots
       (fun x r => MkEvaluateBody (eb_DecayFactor r) (eb_MaxHops r) (eb_TargetPublicKeyHex r) (eb_Topic r) x)
       (store_slice root_zero (store_struct root_fields))) ]%string.

Definition evaluate_request (b : evaluate_body) : EvaluateConfidenceRequest :=
  MkEvaluateRequest (eb_DecayFactor b) (eb_MaxHops b) (eb_TargetPublicKeyHex b) (eb_Topic b)
    (gs_elements (eb_TrustRoots b)).

(** Which of its errors the decoder reports is not told. *)
Definition decoded {A} (r : option A) : result goerror A :=
  match r with Some a => Ok a | None => Err (Foreign "encoding/json" []) end.

#[global] Instance encoding_json : Router.Json := {|
  DecodeAccept body := decoded (Decode accept_fields accept_zero body);
  DecodeRevoke body := decoded (Decode revoke_fields revoke_zero body);
  DecodeEvaluate body := decoded (option_map evaluate_request (Decode evaluate_fields evaluate_zero body))
|}.
(** * Properties *)

(** ** What is decoded *)

Lemma on_keeps {A B} (P : A -> Prop) (Q : B -> Prop) get set store :
  keeps Q store -> (forall a, P a -> Q (get a)) -> (forall a b, P a -> Q b -> P (set b a)) ->
  keeps P (on get set store).
Proof.
  intros Hs Hg Hset v a a' Hv Ha H. unfold on in H. destruct (store v (get a)) as [b|] eqn:E; [|done].
  injection H as <-. apply Hset; [done|]. eapply Hs; [exact Hv| |exact E]. by apply Hg.
Qed.

Definition text (s : gostring) : Prop := utf8_valid s = true.

Record accept_ok (r : AcceptEndorsementRequest) : Prop := {
  ao_accepted : is_int64 (acc_AcceptedAtUnixMs r);
  ao_claim : text (acc_ClaimBodyHex r);
  ao_proposed : is_int64 (acc_ProposedAtUnixMs r);
  ao_proposer : text (acc_ProposerPublicKeyHex r);
  ao_proposer_signature : text (acc_ProposerSignatureHex r);
  ao_subject : text (acc_SubjectPublicKeyHex r);
  ao_subject_signature : text (acc_SubjectSignatureHex r);
  ao_topic : text (acc_Topic r)
}.

Record revoke_ok (r : RevokeEndorsementRequest) : Prop := {
  ro_reason s : rev_Reason r = Some s -> text s;
  ro_revoked : is_int64 (rev_RevokedAtUnixMs r);
  ro_revoker : text (rev_RevokerPublicKeyHex r);
  ro_signature : text (rev_RevokerSignatureHex r);
  ro_role : is_int64 (rev_Role r);
  ro_target : text (rev_TargetRecordDigest r)
}.

(** A finite number of binary32. *)
Definition root_ok (r : TrustRootSpec) : Prop := text (PublicKeyHex r) /\ f32_number (Weight r).

Record evaluate_ok (b : evaluate_body) : Prop := {
  eo_decay d : eb_DecayFactor b = Some d -> f32_number d;
  eo_hops n : eb_MaxHops b = Some n -> is_int64 n;
  eo_target : text (eb_TargetPublicKeyHex b);
  eo_topic s : eb_Topic b = Some s -> text s;
  eo_roots : Forall root_ok (gs_array (eb_TrustRoots b))
}.

(** The same of the request. *)
Record evaluate_request_ok (r : EvaluateConfidenceRequest) : Prop := {
  er_decay d : ev_DecayFactor r = Some d -> f32_number d;
  er_hops n : ev_MaxHops r = Some n -> is_int64 n;
  er_target : text (ev_TargetPublicKeyHex r);
  er_topic s : ev_Topic r = Some s -> text s;
  er_roots : Forall root_ok (ev_TrustRoots r)
}.

Lemma int64_zero : is_int64 0.
Proof. unfold is_int64. clia. Qed.

(** Each field keeps the invariant of its struct. *)
Ltac keeps_scalar := first [apply store_int_keeps | apply store_string_keeps | apply store_float32_keeps].
Ltac keeps_field :=
  eapply on_keeps;
  [ first [keeps_scalar | (eapply store_pointer_keeps; [|keeps_scalar]); first [exact int64_zero | done]]
  | by intros ? []
  | by intros ? ? [] ?; split ].
Ltac keeps_fields := repeat (apply Forall_cons; split; [keeps_field|]); try by apply Forall_nil.

Lemma accept_keeps : Forall (fun f => keeps accept_ok (snd f)) accept_fields.
Proof. unfold accept_fields. keeps_fields. Qed.

Lemma revoke_keeps : Forall (fun f => keeps revoke_ok (snd f)) revoke_fields.
Proof. unfold revoke_fields. keeps_fields. Qed.

Lemma root_keeps : Forall (fun f => keeps root_ok (snd f)) root_fields.
Proof. unfold root_fields. keeps_fields. Qed.

Lemma evaluate_keeps : Forall (fun f => keeps evaluate_ok (snd f)) evaluate_fields.
Proof.
  unfold evaluate_fields. keeps_fields. apply Forall_cons. split; [|by apply Forall_nil].
  eapply on_keeps; [apply store_slice_keeps; [|apply store_struct_keeps, root_keeps]| |]; [done| |].
  - by intros a [].
  - by intros a b [] ?; split.
Qed.

(** Strings are valid UTF-8, numbers are in range and not NaN. *)
Lemma DecodeAccept_ok body r : DecodeAccept body = Ok r -> accept_ok r.
Proof.
  cbn. unfold decoded. destruct (Decode accept_fields accept_zero body) as [r'|] eqn:E; [|done]. intros [= <-].
  eapply Decode_keeps; [apply accept_keeps| |exact E]. split; done || exact int64_zero.
Qed.

Lemma DecodeRevoke_ok body r : DecodeRevoke body = Ok r -> revoke_ok r.
Proof.
  cbn. unfold decoded. destruct (Decode revoke_fields revoke_zero body) as [r'|] eqn:E; [|done]. intros [= <-].
  eapply Decode_keeps; [apply revoke_keeps| |exact E]. split; done || exact int64_zero.
Qed.

Lemma DecodeEvaluate_ok body r :
  DecodeEvaluate body = Ok r -> exists b, evaluate_ok b /\ r = evaluate_request b.
Proof.
  cbn. unfold decoded. destruct (Decode evaluate_fields evaluate_zero body) as [b|] eqn:E; [|done].
  intros [= <-]. exists b. split; [|done]. eapply Decode_keeps; [apply evaluate_keeps| |exact E].
  split; done || constructor.
Qed.

Lemma DecodeEvaluate_request_ok body r : DecodeEvaluate body = Ok r -> evaluate_request_ok r.
Proof.
  intros (b & [] & ->)%DecodeEvaluate_ok. split; cbn; try done. by apply Forall_take.
Qed.

Lemma DecodeEvaluate_numbers body r : DecodeEvaluate body = Ok r -> httpapi_props.json_numbers r.
Proof.
  intros [Hd _ _ _ Hr]%DecodeEvaluate_request_ok. split.
  - eapply Forall_impl; [exact Hr|]. intros root [_ ?]. by apply f32_number_not_nan.
  - intros d Hs. by apply f32_number_not_nan, Hd.
Qed.

(** ** What a client sends *)

Definition accept_members (r : AcceptEndorsementRequest) : list (gostring * json) :=
    [ (gostr "accepted_at_unix_ms", JNumber (fmt_d (acc_AcceptedAtUnixMs r)));
      (gostr "claim_body_hex", JString (acc_ClaimBodyHex r));
      (gostr "proposed_at_unix_ms", JNumber (fmt_d (acc_ProposedAtUnixMs r)));
      (gostr "proposer_public_key_hex", JString (acc_ProposerPublicKeyHex r));
      (gostr "proposer_signature_hex", JString (acc_ProposerSignatureHex r));
      (gostr "subject_public_key_hex", JString (acc_SubjectPublicKeyHex r));
      (gostr "subject_signature_hex", JString (acc_SubjectSignatureHex r));
      (gostr "topic", JString (acc_Topic r)) ].

(** The field [omitempty] leaves out when the pointer is nil. *)
Definition revoke_members (r : RevokeEndorsementRequest) : list (gostring * json) :=
    (match rev_Reason r with Some reason => [(gostr "reason", JString reason)] | None => [] end ++
     [ (gostr "revoked_at_unix_ms", JNumber (fmt_d (rev_RevokedAtUnixMs r)));
       (gostr "revoker_public_key_hex", JString (rev_RevokerPublicKeyHex r));
       (gostr "revoker_signature_hex", JString (rev_RevokerSignatureHex r));
       (gostr "role", JNumber (fmt_d (rev_Role r)));
       (gostr "target_record_digest", JString (rev_TargetRecordDigest r)) ]).

Definition root_json (r : TrustRootSpec) : json :=
  JObject [ (gostr "public_key_hex", JString (PublicKeyHex r));
            (gostr "weight", JNumber (float_literal (Weight r))) ].

(** The three optional fields are left out when they are nil; numbers are written
    exactly. *)
Definition evaluate_members (r : EvaluateConfidenceRequest) : list (gostring * json) :=
    match ev_DecayFactor r with Some d => [(gostr "decay_factor", JNumber (float_literal d))] | None => [] end ++
    match ev_MaxHops r with Some n => [(gostr "max_hops", JNumber (fmt_d n))] | None => [] end ++
    [(gostr "target_public_key_hex", JString (ev_TargetPublicKeyHex r))] ++
    match ev_Topic r with Some topic => [(gostr "topic", JString topic)] | None => [] end ++
    [(gostr "trust_roots", JArray (map root_json (ev_TrustRoots r)))].

Definition evaluate_json (r : EvaluateConfidenceRequest) : json := JObject (evaluate_members r).

Definition accept_json (r : AcceptEndorsementRequest) : json := JObject (accept_members r).
Definition revoke_json (r : RevokeEndorsementRequest) : json := JObject (revoke_members r).

Lemma accept_names : NoDup (map fst accept_fields).
Proof. apply (bool_decide_unpack _). by vm_compute. Qed.
Lemma revoke_names : NoDup (map fst revoke_fields).
Proof. apply (bool_decide_unpack _). by vm_compute. Qed.

Lemma root_names : NoDup (map fst root_fields).
Proof. apply (bool_decide_unpack _). by vm_compute. Qed.
Lemma evaluate_names : NoDup (map fst evaluate_fields).
Proof. apply (bool_decide_unpack _). by vm_compute. Qed.

Lemma shallow v : (nesting v <= 3)%nat -> (nesting v <= Z.to_nat maxNestingDepth)%nat.
Proof. intros H. etrans; [exact H|]. unfold maxNestingDepth. lia. Qed.

(** Storing what a field was written as. *)
Lemma on_int {A} (get : A -> Z) set n a : is_int64 n -> on get set store_int (JNumber (fmt_d n)) a = Some (set n a).
Proof. intros Hn. unfold on. by rewrite store_int_reads. Qed.

Ltac store_next names i :=
  etrans; [eapply (store_members_next _ i); [reflexivity|exact names|first [by apply on_int | reflexivity]]|];
  cbv beta iota delta [accept_zero acc_AcceptedAtUnixMs acc_ClaimBodyHex acc_ProposedAtUnixMs acc_ProposerPublicKeyHex
    acc_ProposerSignatureHex acc_SubjectPublicKeyHex acc_SubjectSignatureHex acc_Topic
    revoke_zero rev_Reason rev_RevokedAtUnixMs rev_RevokerPublicKeyHex rev_RevokerSignatureHex rev_Role
    rev_TargetRecordDigest].

Lemma accept_stored r :
  accept_ok r -> foldl (store_member accept_fields) (Some accept_zero) (accept_members r) = Some r.
Proof.
  intros [H1 H2 H3 H4 H5 H6 H7 H8]. unfold accept_members. destruct r.
  store_next accept_names 0%nat. store_next accept_names 1%nat. store_next accept_names 2%nat.
  store_next accept_names 3%nat. store_next accept_names 4%nat. store_next accept_names 5%nat.
  store_next accept_names 6%nat. store_next accept_names 7%nat. done.
Qed.

Lemma revoke_stored r :
  revoke_ok r -> foldl (store_member revoke_fields) (Some revoke_zero) (revoke_members r) = Some r.
Proof.
  intros [H1 H2 H3 H4 H5 H6]. unfold revoke_members. destruct r as [[reason|] at_ key sig role target];
    cbn [rev_Reason rev_RevokedAtUnixMs rev_RevokerPublicKeyHex rev_RevokerSignatureHex rev_Role rev_TargetRecordDigest app] in *;
    [store_next revoke_names 0%nat|]; store_next revoke_names 1%nat; store_next revoke_names 2%nat;
    store_next revoke_names 3%nat; store_next revoke_names 4%nat; store_next revoke_names 5%nat; done.
Qed.

Lemma DecodeAccept_reads r : accept_ok r -> DecodeAccept (Encode (accept_json r)) = Ok r.
Proof.
  intros H. change (decoded (Decode accept_fields accept_zero (Encode (accept_json r))) = Ok r).
  unfold Decode. rewrite Encode_first.
  - unfold accept_json, store_struct. by rewrite accept_stored.
  - destruct H as [H1 H2 H3 H4 H5 H6 H7 H8]. unfold accept_json, accept_members. cbn [json_ok forallb].
    unfold text in *. by rewrite !fmt_d_number, H2, H4, H5, H6, H7, H8.
  - apply shallow. cbn. lia.
Qed.

Lemma DecodeRevoke_reads r : revoke_ok r -> DecodeRevoke (Encode (revoke_json r)) = Ok r.
Proof.
  intros H. change (decoded (Decode revoke_fields revoke_zero (Encode (revoke_json r))) = Ok r).
  unfold Decode. rewrite Encode_first.
  - unfold revoke_json, store_struct. by rewrite revoke_stored.
  - destruct H as [H1 H2 H3 H4 H5 H6]. unfold revoke_json, revoke_members. cbn [json_ok]. rewrite forallb_app.
    cbn [json_ok forallb]. unfold text in *. rewrite !fmt_d_number, H3, H4, H6.
    destruct (rev_Reason r) as [reason|]; [|done]. cbn [forallb json_ok]. by rewrite (H1 _ eq_refl).
  - apply shallow. unfold revoke_json, revoke_members. destruct (rev_Reason r); cbn; lia.
Qed.

(** *** Confidence requests *)

Lemma on_stored {A B} (get : A -> B) set store v a b : store v (get a) = Some b -> on get set store v a = Some (set b a).
Proof. intros H. unfold on. by rewrite H. Qed.

Lemma pointer_stored {A} zero (store : decoder A) v a :
  v <> JNull -> store v zero = Some a -> store_pointer zero store v None = Some (Some a).
Proof. intros Hv H. destruct v; try done; unfold store_pointer; cbn [default]; by rewrite H. Qed.

Lemma root_stored r : root_ok r -> store_struct root_fields (root_json r) root_zero = Some r.
Proof.
  intros [Hk Hw]. destruct r as [key w]. unfold root_json, store_struct. cbn [PublicKeyHex Weight] in *.
  etrans; [eapply (store_members_next _ 0); [reflexivity|exact root_names|by apply on_stored]|].
  etrans; [eapply (store_members_next _ 1); [reflexivity|exact root_names|
    apply on_stored; by apply store_float32_reads]|]. done.
Qed.

(** The member of an optional field is stored, or there is none. *)
Lemma optional_stored {A B} (fs : fields A) i name (get : A -> option B) set zero store
    (write : B -> json) (o : option B) a members :
  fs !! i = Some (name, on get set (store_pointer zero store)) -> NoDup (map fst fs) ->
  get a = None -> set None a = a ->
  (forall b, o = Some b -> write b <> JNull /\ store (write b) zero = Some b) ->
  foldl (store_member fs) (Some a)
    (match o with Some b => [(gostr name, write b)] | None => [] end ++ members)
    = foldl (store_member fs) (Some (set o a)) members.
Proof.
  intros Hi Hnd Hget Hset Hw. destruct o as [b|]; [|by rewrite Hset]. destruct (Hw b eq_refl) as [Hn Hs].
  cbn [app]. eapply (store_members_next _ i); [exact Hi|done|]. apply on_stored. rewrite Hget.
  by apply pointer_stored.
Qed.

Lemma evaluate_stored r :
  evaluate_request_ok r ->
  exists b, foldl (store_member evaluate_fields) (Some evaluate_zero) (evaluate_members r) = Some b /\
    evaluate_request b = r.
Proof.
  intros [Hd Hh Ht Htop Hr]. unfold evaluate_members. destruct r as [decay hops target topic roots].
  cbn [ev_DecayFactor ev_MaxHops ev_TargetPublicKeyHex ev_Topic ev_TrustRoots] in *.
  destruct (store_slice_reads root_zero (store_struct root_fields) root_json roots) as (sl & Hsl & Hel).
  { eapply Forall_impl; [exact Hr|]. apply root_stored. }
  exists (MkEvaluateBody decay hops target topic sl).
  split; [|unfold evaluate_request; cbn; by rewrite Hel].
  rewrite (optional_stored evaluate_fields 0 "decay_factor" _ _ _ _ (fun d => JNumber (float_literal d)) decay evaluate_zero)
    by first [reflexivity | exact evaluate_names | intros d ->; split; [done|by apply store_float32_reads, Hd]].
  rewrite (optional_stored evaluate_fields 1 "max_hops" _ _ _ _ (fun n => JNumber (fmt_d n)) hops)
    by first [reflexivity | exact evaluate_names | intros n ->; split; [done|by apply store_int_reads, Hh]].
  etrans; [eapply (store_members_next _ 2); [reflexivity|exact evaluate_names|by apply on_stored]|]. cbn [app].
  rewrite (optional_stored evaluate_fields 3 "topic" _ _ _ _ JString topic)
    by first [reflexivity | exact evaluate_names | intros t ->; split; done].
  etrans; [eapply (store_members_next _ 4); [reflexivity|exact evaluate_names|apply on_stored; exact Hsl]|].
  reflexivity.
Qed.

Lemma root_json_ok r : root_ok r -> json_ok (root_json r) = true.
Proof.
  intros [Hk [_ Hw]]. unfold root_json, text in *. cbn [json_ok forallb].
  by rewrite Hk, (float_literal_number _ Hw).
Qed.

Lemma evaluate_json_ok r : evaluate_request_ok r -> json_ok (evaluate_json r) = true.
Proof.
  intros [Hd Hh Ht Htop Hr]. unfold evaluate_json, evaluate_members. cbn [json_ok].
  rewrite !forallb_app, !andb_true_iff. split_and!.
  - destruct (ev_DecayFactor r) as [d|]; [|done]. destruct (Hd d eq_refl) as [_ Hf].
    cbn [forallb json_ok]. by rewrite (float_literal_number _ Hf).
  - destruct (ev_MaxHops r); [|done]. cbn [forallb json_ok]. by rewrite fmt_d_number.
  - cbn [forallb json_ok]. unfold text in Ht. by rewrite Ht.
  - destruct (ev_Topic r) as [t|]; [|done]. cbn [forallb json_ok]. by rewrite (Htop t eq_refl).
  - cbn [forallb json_ok]. rewrite andb_true_r. apply andb_true_iff. split; [done|].
    apply forallb_forall. intros v (root & <- & Hin)%in_map_iff. apply list_elem_of_In in Hin.
    rewrite Forall_forall in Hr. by apply root_json_ok, Hr.
Qed.

Lemma evaluate_nesting r : (nesting (evaluate_json r) <= 3)%nat.
Proof.
  unfold evaluate_json. cbn [nesting]. apply le_n_S, foldr_max_le.
  unfold evaluate_members. rewrite !Forall_app.
  split_and!; try (case_match; repeat constructor; cbn; lia); try (repeat constructor; cbn; lia).
  constructor; [|constructor]. cbn [snd nesting]. apply le_n_S. rewrite map_map. apply foldr_max_le.
  apply Forall_forall. intros root _. cbn. lia.
Qed.

Lemma DecodeEvaluate_reads r :
  evaluate_request_ok r -> DecodeEvaluate (Encode (evaluate_json r)) = Ok r.
Proof.
  intros H.
  change (decoded (option_map evaluate_request (Decode evaluate_fields evaluate_zero (Encode (evaluate_json r)))) = Ok r).
  unfold Decode. rewrite Encode_first; [|by apply evaluate_json_ok|by apply shallow, evaluate_nesting].
  unfold evaluate_json, store_struct. destruct (evaluate_stored r H) as (b & -> & Hb). cbn. by rewrite Hb.
Qed.

(** C11: request bodies. The requests a body can be decoded to are exactly those
    with valid UTF-8 in every string, 64-bit integers and, for the weights and the
    decay factor of a confidence request, finite numbers of binary32 (with zeros
    of both signs and subnormal ones, no infinity and no NaN): every body that is
    accepted gives one, invalid encodings and surrogates replaced and numbers
    rounded, and every one of them is what its JSON text is decoded to, under the
    field names of the interface, with optional fields left out when they are
    nil and floating point numbers written with all their decimal digits. *)
Theorem request_bodies_exact :
  (forall r, (exists body, DecodeAccept body = Ok r) <-> accept_ok r) /\
  (forall r, (exists body, DecodeRevoke body = Ok r) <-> revoke_ok r) /\
  (forall r, (exists body, DecodeEvaluate body = Ok r) <-> evaluate_request_ok r) /\
  (forall r, accept_ok r -> DecodeAccept (Encode (accept_json r)) = Ok r) /\
  (forall r, revoke_ok r -> DecodeRevoke (Encode (revoke_json r)) = Ok r) /\
  (forall r, evaluate_request_ok r -> DecodeEvaluate (Encode (evaluate_json r)) = Ok r) /\
  (forall body r, DecodeEvaluate body = Ok r -> httpapi_props.json_numbers r).
Proof.
  split_and!.
  - intros r. split; [intros [body Hb]; by eapply DecodeAccept_ok|].
    intros Hr. eexists. by apply DecodeAccept_reads.
  - intros r. split; [intros [body Hb]; by eapply DecodeRevoke_ok|].
    intros Hr. eexists. by apply DecodeRevoke_reads.
  - intros r. split; [intros [body Hb]; by eapply DecodeEvaluate_request_ok|].
    intros Hr. eexists. by apply DecodeEvaluate_reads.
  - apply DecodeAccept_reads.
  - apply DecodeRevoke_reads.
  - apply DecodeEvaluate_reads.
  - apply DecodeEvaluate_numbers.
Qed.

(** Text with the quotes of JSON written as apostrophes. *)
Definition quoted (s : string) : gostring := map (fun b => if bool_decide (b = x27) then x22 else b) (gostr s).

(** Case, unknown members, what follows the value, null, pairs and lone
    surrogates, a number that is no integer, duplicate keys. *)
Example revoke_decoded :
  DecodeRevoke (quoted " {'Reason' : 'a\ud83d\ude00\ud83dz', 'x':[{},-0.5e+3], 'ROLE':2, 'role':null} rest")
  = Ok (MkRevokeRequest (Some (gostr "a" ++ [xf0; x9f; x98; x80] ++ [xef; xbf; xbd] ++ gostr "z")) 0 [] [] 2 []).
Proof. vm_compute. reflexivity. Qed.

Example revoke_refused :
  Forall (fun body => DecodeRevoke (quoted body) = Err (Foreign "encoding/json" []))
    [""; "[]"; "{'role':1.0}"; "{'role':'1'}"; "{'role':1,}"; "{'role':9223372036854775808}"; "{'reason':'"]%string.
Proof. repeat constructor. Qed.

(** A second list of trust roots is stored over the first, also where it is
    shorter and a third one longer again. *)
Example roots_merged :
  DecodeEvaluate (quoted "{'trust_roots':[{'public_key_hex':'a','weight':1},{'public_key_hex':'b','weight':1}],'trust_roots':[{'weight':0}],'trust_roots':[{},{}]}")
  = Ok (MkEvaluateRequest None None [] None
      [MkTrustRootSpec (gostr "a") f32_zero; MkTrustRootSpec (gostr "b") (S754_finite false 8388608 (-23))]).
Proof. vm_compute. reflexivity. Qed.

End bodies.
