(* ===== verification/Payloads.v ===== *)
(** * What the API stores

    The request handlers together with the decoder of request bodies: every
    record that requests have put into the table is a genesis record, or an
    endorsement or revocation whose payload decodes again and verifies.  So the
    projection of a ledger that is written over HTTP stops at nothing but a
    revocation the graph refuses. *)

From S2P Require Import Prelude Float Text Utf8 Json Cbor CborRef LedgerCodec LedgerEvent LedgerRecord LedgerChain Ecdsa Endorsement Effects Programs Store Signer Admission Identity Graph Evaluator EvaluatorProps Projector HttpApi HttpProps Router Bodies.

Module payloads.
Import identity httpapi httpapi_props router bodies.

Section Stored.
Context {C : Cbor} {CO : CborOk C} {K : Ecdsa} {KO : EcdsaOk K}.

Definition holds_endorsement (r : StructuralRecord) : Prop :=
  ev_kind (rec_event r) = EventKindEndorsementAccepted /\
  ev_payloadVersion (rec_event r) = endorsementv1.PayloadVersionV1 /\
  exists p, endorsementv1.DecodeAcceptedPayload (ev_payloadBytes (rec_event r)) = Ok p /\
    endorsementv1.AcceptedPayload_Verify p = Ok tt.

Definition holds_revocation (r : StructuralRecord) : Prop :=
  ev_kind (rec_event r) = EventKindEndorsementRevoked /\
  ev_payloadVersion (rec_event r) = endorsementv1.PayloadVersionV1 /\
  exists p, endorsementv1.DecodeRevokedPayload (ev_payloadBytes (rec_event r)) = Ok p /\
    endorsementv1.RevokedPayload_Verify p = Ok tt.

Definition verified (r : StructuralRecord) : Prop :=
  is_genesis r \/ holds_endorsement r \/ holds_revocation r.

Definition verified_row (rw : row) : Prop :=
  exists r, rw = ledgerstore.row_of r /\ record_ok r /\ verified r.

Abbreviation all_verified := (Forall verified_row).

(** Programs that store verified records only. *)
Definition stores_verified {A} (p : prog A) : Prop :=
  forall t, all_verified t -> safe all_verified (fun _ _ => True) p t.

Lemma stores_bind {A D} (p : prog A) (f : A -> prog D) :
  stores_verified p -> (forall a, stores_verified (f a)) -> stores_verified (pbind p f).
Proof.
  intros Hp Hf t Ht. eapply safe_pbind; [done|by apply Hp|]. intros t1 a _ Ht1 _. by apply Hf.
Qed.

Lemma stores_ret {A} (a : A) : stores_verified (Ret a).
Proof. by intros t _. Qed.

Lemma stores_reads {A} (p : prog A) : inserts_at_most 0 p -> stores_verified p.
Proof. intros H t Ht. by apply read_only_safe. Qed.

Lemma exec_insert_table t r : (exec_insert t r).2 = t \/ (exec_insert t r).2 = t ++ [r].
Proof. unfold exec_insert. repeat case_match; cbn; auto. Qed.

Lemma Append_verified r : record_ok r -> verified r -> stores_verified (ledgerstore.Append r).
Proof.
  intros Hr Hv t Ht. eapply (safe_pbind _ (fun _ _ => True)); [done| |].
  - intros t1 reply t2 _ Ht1 Ha.
    assert (t2 = t1 \/ t2 = t1 ++ [ledgerstore.row_of r]) as H2.
    { pose proof (exec_insert_table t1 (ledgerstore.row_of r)) as He.
      destruct Ha as [Ha|[(e & _ & _ & [->| ->])|(_ & _ & _ & _ & ->)]]; [|by auto..]. by rewrite Ha in He. }
    destruct H2 as [->| ->]; (split_and!; [|by apply prefix_app_r || done|done]); [done|].
    apply Forall_app. split; [done|]. constructor; [by exists r|constructor].
  - intros t1 [n|e] _ Ht1 _; cbv zeta; [by destruct (n =? 0)|by destruct (negb _)].
Qed.

(** ** The admission service *)

Section Service.
Context (s : admission.Service) {SO : admission.ServiceOk s}.

Lemma attempt_verified req :
  is_u64 (admission.req_EventKind req) -> is_u64 (admission.req_PayloadVersion req) ->
  slen (admission.req_PayloadBytes req) < two63 ->
  (forall r, record_ok r -> admission.admits req r -> verified r) ->
  stores_verified (admission.admit_attempt s req).
Proof using CO KO SO.
  intros Hk Hpv Hlen Hall. unfold admission.admit_attempt.
  apply stores_bind; [apply stores_reads, inserts_pmap_err, admission.Head_inserts|].
  intros [st|f]; [|apply stores_ret]. destruct (negb _); [apply stores_ret|].
  destruct (ChainState_LastRecordDigest st) as [d ok]. intros t Ht.
  eapply safe_pbind; [done|by apply admission.now_ms_safe|]. intros t1 now _ Ht1 Hnow.
  unfold admission.ledger_wrap. destruct (NewEvent _ _ _ _ _ _ _) as [e|] eqn:He; [|done]. cbn [rmap_err].
  apply admission.NewEvent_Ok in He as [-> He]; [|apply u64_range|done..].
  eapply safe_pbind; [done|by apply admission.sign_record_safe|].
  intros t2 [r|f] _ Ht2 Hr; [|done]. destruct Hr as [Hr Hev].
  revert Ht2. generalize t2. apply stores_bind.
  - apply Append_verified; [done|]. apply Hall; [done|]. unfold admission.admits. rewrite Hev. done.
  - intros [u|f]; [apply stores_ret|].
    destruct (admission.is_sentinel f ledgerstore.ErrDuplicateRecord).
    + apply stores_bind; [apply stores_reads, admission.Record_inserts|]. by intros [|[]].
    + destruct (admission.is_sentinel f ledgerstore.ErrChainHeadMoved); [|done].
      apply stores_bind; [by apply stores_reads|]. by intros [].
Qed.

Lemma Admit_verified req :
  is_u64 (admission.req_EventKind req) -> is_u64 (admission.req_PayloadVersion req) ->
  slen (admission.req_PayloadBytes req) < two63 ->
  (forall r, record_ok r -> admission.admits req r -> verified r) ->
  stores_verified (admission.Admit s req).
Proof using CO KO SO.
  intros Hk Hpv Hlen Hall. unfold admission.Admit. destruct (_ =? 0); [apply stores_ret|].
  generalize (Z.to_nat (admission.int_add (admission.svc_maxRetries s) 1)). intros n.
  induction n as [|n IH]; [apply stores_ret|]. cbn [admission.admit_loop].
  apply stores_bind; [by apply attempt_verified|]. by intros [r|].
Qed.

Lemma AdmitEndorsement_verified id p :
  admission.payload_typed p -> utf8_valid (endorsementv1.Topic p) = true ->
  stores_verified (admission.AdmitEndorsement s id (Some p)).
Proof using CO KO SO.
  intros Hp Hu. destruct (endorsementv1.AcceptedPayload_Verify p) as [[]|e] eqn:Hv.
  - pose proof (admission.verified_ok p Hp Hv) as Hok.
    destruct (admission.AdmitEndorsement_eq s id p Hp Hv) as [-> [? ? ? ?]]. apply Admit_verified; [done..|].
    intros r Hr (_ & Hk & Hpv & Hpl). right. left. split_and!; [done|done|]. exists p. split; [|done].
    rewrite Hpl. by apply endorsementv1.DecodeAcceptedPayload_complete.
  - unfold admission.AdmitEndorsement. rewrite Hv. apply stores_ret.
Qed.

Lemma AdmitRevocation_verified id p :
  admission.revocation_typed p -> utf8_valid (endorsementv1.Reason p) = true ->
  stores_verified (admission.AdmitRevocation s id (Some p)).
Proof using CO KO SO.
  intros Hp Hu. destruct (endorsementv1.RevokedPayload_Verify p) as [[]|e] eqn:Hv.
  - pose proof (admission.revoked_verified_ok p Hp Hv) as Hok.
    destruct (admission.AdmitRevocation_eq s id p Hp Hv) as [-> [? ? ? ?]]. apply Admit_verified; [done..|].
    intros r Hr (_ & Hk & Hpv & Hpl). right. right. split_and!; [done|done|]. exists p. split; [|done].
    rewrite Hpl. by apply endorsementv1.DecodeRevokedPayload_complete.
  - unfold admission.AdmitRevocation. rewrite Hv. apply stores_ret.
Qed.

Lemma InitLedger_verified id : stores_verified (admission.InitLedger s id).
Proof using CO KO SO.
  unfold admission.InitLedger.
  apply stores_bind; [apply stores_reads, inserts_pmap_err, admission.Head_inserts|].
  intros [st|f]; [|apply stores_ret]. destruct (cs_initialized st); [apply stores_ret|]. intros t Ht.
  eapply safe_pbind; [done|by apply admission.now_ms_safe|]. intros t1 now _ Ht1 Hnow.
  unfold pbind_ok at 1. cbn [pbind]. unfold admission.ledger_wrap.
  destruct (NewGenesisEvent id now) as [e|] eqn:He; [|done]. cbn [rmap_err].
  apply admission.NewGenesisEvent_Ok in He as [-> He]; [|done].
  eapply safe_pbind_ok; [done|by apply admission.sign_record_safe|done|]. intros t2 r _ Ht2 [Hr Hev].
  revert Ht2. generalize t2. apply stores_bind.
  - apply Append_verified; [done|]. left. unfold is_genesis. by rewrite Hev.
  - intros [u|f]; [done|]. by destruct (_ || _).
Qed.
End Service.

(** ** The handlers *)

Lemma stores_guard {A R} (r : gores A) (resp : goerror -> R) (k : A -> prog (gores R)) :
  (forall a, r = Ok a -> stores_verified (k a)) -> stores_verified (guard r resp k).
Proof. intros Hk. destruct r as [a|[err|msg]]; [by apply Hk|apply stores_ret..]. Qed.

Lemma stores_finish {A D} (p : prog A) (f : A -> D) : stores_verified p -> stores_verified (a <-- p ;; Ret (f a)).
Proof. intros Hp. apply stores_bind; [done|]. intros a. apply stores_ret. Qed.

Lemma AcceptEndorsement_verified s ledgerId body :
  server_ok s -> accept_ok body -> stores_verified (AcceptEndorsement s ledgerId (Some body)).
Proof using CO KO.
  intros Hs Hb. unfold AcceptEndorsement. destruct (srv_admission s) as [svc|] eqn:Es; [|apply stores_ret].
  apply stores_guard. intros id _. apply stores_guard. intros kp Hkp. apply stores_guard. intros ks Hks.
  do 4 (apply stores_guard; intros ? ?).
  match goal with H : endorsementv1.NewAcceptedPayload _ _ _ _ _ _ _ _ = Ok ?p |- _ =>
    apply endorsementv1.NewAcceptedPayload_Ok in H as [-> _] end.
  apply stores_bind.
  - apply AdmitEndorsement_verified; [by apply Hs| |apply (ao_topic _ Hb)].
    split_and!; cbn; [by eapply parsed_key_ok..|apply u64_range|apply u64_range].
  - intros res. apply stores_guard. intros r _. apply stores_ret.
Qed.

Lemma RevokeEndorsement_verified s ledgerId body :
  server_ok s -> revoke_ok body -> stores_verified (RevokeEndorsement s ledgerId (Some body)).
Proof using CO KO.
  intros Hs Hb. unfold RevokeEndorsement. destruct (srv_admission s) as [svc|] eqn:Es; [|apply stores_ret].
  apply stores_guard. intros id _. apply stores_guard. intros d _. apply stores_guard. intros k Hk.
  do 2 (apply stores_guard; intros ? ?).
  match goal with H : endorsementv1.NewRevokedPayload _ _ _ _ _ _ = Ok ?p |- _ =>
    apply endorsementv1.NewRevokedPayload_Ok in H as [-> _] end.
  apply stores_bind.
  - apply AdmitRevocation_verified; [by apply Hs| |].
    + split; cbn; [by eapply parsed_key_ok|apply u64_range].
    + cbn. destruct (rev_Reason body) as [reason|] eqn:Er; [by apply (ro_reason _ Hb)|done].
  - intros res. apply stores_guard. intros r _. apply stores_ret.
Qed.

Lemma init_handler_verified s ledgerId : server_ok s -> stores_verified (InitLedger s ledgerId).
Proof using CO KO.
  intros Hs. unfold InitLedger. destruct (srv_admission s) as [svc|] eqn:Es; [|apply stores_ret].
  apply stores_guard. intros id _. apply stores_bind; [apply InitLedger_verified; by apply Hs|].
  intros [r|[err|msg]]; [apply stores_ret| |apply stores_ret]. case_match; apply stores_ret.
Qed.

(** The others only read. *)
Lemma GetLedgerHead_inserts s ledgerId : inserts_at_most 0 (GetLedgerHead s ledgerId).
Proof.
  unfold GetLedgerHead. destruct (srv_store s); [|done]. destruct (parseHex32 ledgerId) as [id|[]]; [|done..].
  apply (inserts_bind 0 0); [apply admission.Head_inserts|]. intros [st|f]; [|done]. by destruct (negb _).
Qed.

Lemma GetRecord_inserts s digest : inserts_at_most 0 (GetRecord s digest).
Proof.
  unfold GetRecord. destruct (srv_store s); [|done]. destruct (parseHex32 digest) as [d|[]]; [|done..].
  apply (inserts_bind 0 0); [apply admission.Record_inserts|]. intros [r|[err|msg]]; [done| |done]. by case_match.
Qed.

Lemma replay_loop_inserts fuel p total batch : inserts_at_most 0 (projector.replay_loop fuel p total batch).
Proof.
  revert p total. induction fuel as [|fuel IH]; intros p total; [done|]. cbn [projector.replay_loop].
  apply (inserts_bind 0 0).
  - unfold ledgerstore.ScanRecords. case_match; [done|]. by intros [[]|].
  - intros [records|[err|msg]]; [|done..]. case_match; [done|].
    destruct (projector.apply_batch p total records) as [[p' total'] [u|f]]; [|done]. by case_match.
Qed.

Context {U : Unicode}.

Lemma EvaluateConfidence_inserts s fuel ledgerId body :
  inserts_at_most 0 (EvaluateConfidence fuel s ledgerId body).
Proof.
  unfold EvaluateConfidence. destruct (srv_store s); [|done].
  destruct (parseHex32 ledgerId) as [id|[]]; [|done..]. destruct body as [body|]; [|done].
  destruct (IdentityKeyFromHex _) as [k|[]]; [|done..].
  destruct (parse_roots _ _) as [roots|[h []]]; [|done..].
  apply (inserts_bind 0 0); [apply replay_loop_inserts|]. by intros [[[p n] [[]|f]]|].
Qed.
End Stored.

(** ** Projecting verified records *)

Section Projecting.
Context {C : Cbor} {CO : CborOk C} {K : Ecdsa} {KO : EcdsaOk K}.
Import graphv1 projector.

Definition log_digests (log : list AttestationEdge) : list Digest := map e_recordDigest log.

(** A signed revocation the graph refuses: it names no endorsement of the ledger,
    or one that is revoked already, or one its signer has no part in. *)
Definition refused (log : list AttestationEdge) (r : StructuralRecord) (f : failure) : Prop :=
  exists p k err, record_revocation r = Ok (p, k) /\ endorsementv1.RevokedPayload_Verify p = Ok tt /\
    log_revoke log (endorsementv1.TargetRecordDigest p) k (endorsementv1.Role p)
      (endorsementv1.RevokedAtUnixMS p) (rec_recordDigest r) (endorsementv1.Reason p) = fail err /\
    f = Fail err /\
    (errors_Is err ErrEdgeNotFound = true \/ errors_Is err ErrEdgeAlreadyRevoked = true \/
     errors_Is err ErrUnauthorizedRevoker = true).

Lemma key_identity pub : endorsementv1.key_ok pub -> exists k, IdentityKeyFromPublicKey pub = Ok k.
Proof using KO.
  intros (k & b & -> & Hk & Hb). destruct (IdentityKeyFromPublicKey_key k b Hk Hb) as (id & H & _). by exists id.
Qed.

Lemma endorsement_edge r :
  holds_endorsement r -> exists e, record_edge r = Ok e /\ e_recordDigest e = rec_recordDigest r.
Proof using CO KO.
  intros (_ & _ & p & Hd & _). apply endorsementv1.DecodeAcceptedPayload_sound in Hd as Hok. destruct Hok as [Hok _].
  destruct (key_identity _ (endorsementv1.apo_proposer _ Hok)) as [k1 H1].
  destruct (key_identity _ (endorsementv1.apo_subject _ Hok)) as [k2 H2].
  unfold record_edge. rewrite Hd. cbn [rmap_err rbind]. rewrite H1. cbn [rmap_err rbind]. rewrite H2.
  cbn [rmap_err rbind]. by eexists.
Qed.

Lemma revocation_read r :
  holds_revocation r -> exists p k, record_revocation r = Ok (p, k) /\ endorsementv1.RevokedPayload_Verify p = Ok tt /\
    (endorsementv1.Role p = endorsementv1.RevokerRoleProposer \/ endorsementv1.Role p = endorsementv1.RevokerRoleSubject).
Proof using CO KO.
  intros (_ & _ & p & Hd & Hv). apply endorsementv1.DecodeRevokedPayload_sound in Hd as Hok. destruct Hok as [Hok _].
  destruct (key_identity _ (endorsementv1.rpo_revoker _ Hok)) as [k H1].
  exists p, k. unfold record_revocation. rewrite Hd. cbn [rmap_err rbind]. rewrite H1.
  split_and!; [done|done|]. apply (endorsementv1.rpo_role _ Hok).
Qed.

Lemma authorize_result e k role :
  role = endorsementv1.RevokerRoleProposer \/ role = endorsementv1.RevokerRoleSubject ->
  authorize e k role = Ok tt \/
  exists err, authorize e k role = fail err /\ errors_Is err ErrUnauthorizedRevoker = true.
Proof.
  intros [->| ->]; unfold authorize; cbn [Z.eqb Pos.eqb endorsementv1.RevokerRoleProposer
    endorsementv1.RevokerRoleSubject]; destruct (negb _); (by left) || (right; by eexists).
Qed.

Lemma log_revoke_result log d k role at_ rd reason :
  role = endorsementv1.RevokerRoleProposer \/ role = endorsementv1.RevokerRoleSubject ->
  match log_revoke log d k role at_ rd reason with
  | Ok log' => log_digests log' = log_digests log
  | Err f => exists err, f = Fail err /\
      (errors_Is err ErrEdgeNotFound = true \/ errors_Is err ErrEdgeAlreadyRevoked = true \/
       errors_Is err ErrUnauthorizedRevoker = true)
  end.
Proof.
  intros Hrole. unfold log_revoke. destruct (List.find _ log) as [e|]; [|eexists; split; [done|by left]].
  destruct (negb (e_isActive e)); [eexists; split; [done|by right; left]|].
  rewrite <- authorize_spec. destruct (authorize_result e k role Hrole) as [->|(err & -> & Herr)]; cbn [rbind]; [|exists err; auto].
  unfold log_digests. rewrite map_map. apply map_ext. intros e'. by destruct (has_digest d e').
Qed.

(** One verified record, next in its ledger. *)
Lemma project_verified id last log r :
  ev_ledgerID (rec_event r) = id -> ev_sequence (rec_event r) = last + 1 -> is_u64 last ->
  1 <= ev_sequence (rec_event r) < two64 -> verified r -> rec_recordDigest r ∉ log_digests log ->
  match project_record id last log r with
  | Ok (last', log') => last' = last + 1 /\ log_digests log' ⊆ rec_recordDigest r :: log_digests log
  | Err f => refused log r f
  end.
Proof using CO KO.
  intros <- Hseq Hlast Hrange Hv Hnew. unfold project_record.
  rewrite <- record_edge_spec, <- record_revocation_spec, bool_decide_eq_true_2 by done. cbn [negb].
  rewrite (proj2 (check_sequence_iff last _ Hlast Hrange) Hseq). cbn [rbind].
  destruct Hv as [(Hk & _)|[He|Hr]].
  - rewrite Hk. cbn. split; [done|set_solver].
  - destruct (endorsement_edge r He) as (e & -> & Hd). destruct He as (-> & _). cbn [rbind Z.eqb Pos.eqb].
    change (EventKindEndorsementAccepted =? EventKindEndorsementAccepted) with true. cbn iota.
    destruct (List.find _ log) as [e'|] eqn:Hf.
    + exfalso. apply find_some in Hf as [Hin He']. apply Hnew. unfold has_digest in He'.
      apply bool_decide_eq_true in He'. rewrite <- He'. apply list_elem_of_fmap. exists e'.
      split; [done|by apply list_elem_of_In].
    + split; [done|]. unfold log_digests. rewrite map_app. cbn. rewrite Hd. set_solver.
  - destruct (revocation_read r Hr) as (p & k & Hp & Hver & Hrole). destruct Hr as (-> & _).
    change (EventKindEndorsementRevoked =? EventKindEndorsementAccepted) with false.
    change (EventKindEndorsementRevoked =? EventKindEndorsementRevoked) with true. cbn iota. rewrite Hp. cbn [rbind].
    pose proof (log_revoke_result log (endorsementv1.TargetRecordDigest p) k (endorsementv1.Role p)
      (endorsementv1.RevokedAtUnixMS p) (rec_recordDigest r) (endorsementv1.Reason p) Hrole) as Hl.
    destruct (log_revoke _ _ _ _ _ _ _) as [log'|f] eqn:El; cbn [rbind].
    + split; [done|]. rewrite Hl. set_solver.
    + destruct Hl as (err & -> & Herr). by exists p, k, err.
Qed.

Definition apply_context (r : StructuralRecord) : failure -> failure :=
  wrapf "apply record %x at sequence %d" [hex_arg (rec_recordDigest r); ev_sequence (rec_event r)].

(** Records that are next in a ledger, one after the other. *)
Lemma project_all_verified id rs last log total :
  (forall i r, rs !! i = Some r -> ev_ledgerID (rec_event r) = id /\
     ev_sequence (rec_event r) = last + Z.of_nat i + 1 /\ 1 <= ev_sequence (rec_event r) < two64 /\ verified r) ->
  0 <= last -> NoDup (map rec_recordDigest rs) ->
  (forall d, d ∈ log_digests log -> d ∉ map rec_recordDigest rs) ->
  let '(last', log', n, res) := project_all id last log total rs in
  match res with
  | Ok _ => n = total + len rs
  | Err f => exists i r f', rs !! i = Some r /\ n = total + Z.of_nat i /\ refused log' r f' /\ f = apply_context r f'
  end.
Proof using CO KO.
  revert last log total. induction rs as [|r rs IH]; intros last log total Hrs Hlast Hnd Hlog; cbn [project_all].
  { unfold len. cbn. lia. }
  destruct (Hrs 0%nat r eq_refl) as (Hid & Hseq & Hrange & Hv). apply NoDup_cons in Hnd as [Hr Hnd].
  assert (Hnew : rec_recordDigest r ∉ log_digests log) by (intros Hin; apply (Hlog _ Hin); left).
  pose proof (project_verified id last log r Hid ltac:(lia) ltac:(clia) Hrange Hv Hnew) as Hp.
  destruct (project_record id last log r) as [[last' log']|f]; [|exists 0%nat, r, f; split_and!; [done|lia|done|done]].
  destruct Hp as [-> Hsub]. specialize (IH (last + 1) log' (total + 1)).
  destruct (project_all id (last + 1) log' (total + 1) rs) as [[[last' log''] n] res].
  assert (H : match res with
    | Ok _ => n = total + 1 + len rs
    | Err f => exists i r f', rs !! i = Some r /\ n = total + 1 + Z.of_nat i /\ refused log'' r f' /\ f = apply_context r f'
    end).
  { apply IH; [|lia|done|].
    - intros i r' Hi. destruct (Hrs (S i) r' Hi) as (? & ? & ?). split_and!; [done|lia|tauto..].
    - intros d Hd Hin. apply Hsub in Hd. apply elem_of_cons in Hd as [->|Hd]; [done|].
      apply (Hlog d Hd). by right. }
  destruct res as [u|f]; [rewrite len_cons; lia|]. destruct H as (i & r' & f' & Hi & -> & Hf).
  exists (S i), r', f'. split_and!; [done|lia|tauto..].
Qed.

(** The records of a ledger in a table of verified rows. *)
Lemma chain_row t ledger rs r :
  ledgerstore.ledger_chain t ledger rs -> r ∈ rs ->
  ledgerstore.row_of r ∈ t /\ arr_list (ev_ledgerID (rec_event r)) = ledger /\ record_ok r.
Proof.
  intros (Hrows & Hok & _) Hr. rewrite Forall_forall in Hok.
  assert (Hin : ledgerstore.row_of r ∈ ledger_rows t ledger) by (rewrite Hrows; by apply list_elem_of_fmap_2).
  apply list_elem_of_filter in Hin as [Hl Hin]. split_and!; [done|done|by apply Hok].
Qed.

Lemma chain_verified t ledger rs :
  Forall verified_row t -> ledgerstore.ledger_chain t ledger rs -> Forall verified rs.
Proof.
  intros Ht Hc. apply Forall_forall. intros r Hr. destruct (chain_row t ledger rs r Hc Hr) as (Hin & _ & Hok).
  rewrite Forall_forall in Ht. destruct (Ht _ Hin) as (r' & He & Hr' & Hv).
  by rewrite (ledgerstore.row_of_inj r r' Hok Hr' He).
Qed.

Lemma chain_digests t ledger rs :
  NoDup (map record_digest t) -> ledgerstore.ledger_chain t ledger rs -> NoDup (map rec_recordDigest rs).
Proof.
  intros Hnd (Hrows & _). apply (NoDup_fmap_1 arr_list).
  assert (He : map arr_list (map rec_recordDigest rs) = map record_digest (ledger_rows t ledger))
    by (rewrite Hrows, !map_map; done).
  change (NoDup (map arr_list (map rec_recordDigest rs))). rewrite He. eapply sublist_NoDup; [exact Hnd|]. apply fmap_sublist, sublist_filter.
Qed.

Lemma chain_projects t (id : LedgerID) rs :
  Forall verified_row t -> NoDup (map record_digest t) -> ledgerstore.ledger_chain t (arr_list id) rs ->
  let '(last, log, n, res) := project_all id 0 [] 0 rs in
  match res with
  | Ok _ => n = len rs
  | Err f => exists r f', rs !! Z.to_nat n = Some r /\ refused log r f' /\ f = apply_context r f'
  end.
Proof using CO KO.
  intros Hv Hnd Hc. pose proof (project_all_verified id rs 0 [] 0) as Hp.
  pose proof (chain_verified t _ rs Hv Hc) as Hrs. rewrite Forall_forall in Hrs.
  destruct (project_all id 0 [] 0 rs) as [[[last log] n] res].
  assert (H : match res with
    | Ok _ => n = 0 + len rs
    | Err f => exists i r f', rs !! i = Some r /\ n = 0 + Z.of_nat i /\ refused log r f' /\ f = apply_context r f'
    end).
  { apply Hp; [|lia|by eapply chain_digests|intros d Hd; by apply not_elem_of_nil in Hd].
    intros i r Hi. apply list_elem_of_lookup_2 in Hi as Hin.
    destruct (chain_row t _ rs r Hc Hin) as (_ & Hl & [[(Hq & _) _] _]). destruct Hc as (_ & _ & Hchain).
    split_and!; [by apply array_eq|by rewrite (valid_chain_sequence _ _ _ Hchain Hi)|apply Hq..|by apply Hrs]. }
  destruct res as [u|f]; [done|]. destruct H as (i & r & f' & Hi & -> & Hf). exists r, f'.
  by rewrite Z.add_0_l, Nat2Z.id.
Qed.
End Projecting.

(** ** Routed requests *)

Section Requests.
Context {B : bool -> Binder} {X : Chi Answer} {OK : ChiOk} (error_text : goerror -> string).
Context {C : Cbor} {CO : CborOk C} {K : Ecdsa} {KO : EcdsaOk K} {U : Unicode}.

Lemma call_verified s fuel r op : server_ok s -> stores_verified (call (J := encoding_json) s fuel r op).
Proof using CO KO.
  intros Hs. destruct op as [|raw|raw|raw|raw|raw|raw]; unfold call, serve; cbv zeta.
  all: apply stores_finish; cbv [wrapper_GetHealthz wrapper_InitLedger wrapper_GetLedgerHead wrapper_GetRecord
    wrapper_AcceptEndorsement wrapper_RevokeEndorsement wrapper_EvaluateConfidence].
  all: try (destruct (BindPath raw) as [param|err]; [|apply stores_ret]).
  - apply stores_finish, stores_ret.
  - apply stores_finish. by apply init_handler_verified.
  - apply stores_finish, stores_reads, GetLedgerHead_inserts.
  - apply stores_finish, stores_reads, GetRecord_inserts.
  - destruct (DecodeAccept _) as [body|] eqn:Hd; [|apply stores_ret]. apply DecodeAccept_ok in Hd.
    apply stores_finish. by apply AcceptEndorsement_verified.
  - destruct (DecodeRevoke _) as [body|] eqn:Hd; [|apply stores_ret]. apply DecodeRevoke_ok in Hd.
    apply stores_finish. by apply RevokeEndorsement_verified.
  - destruct (DecodeEvaluate _) as [body|]; [|apply stores_ret].
    apply stores_finish, stores_reads, EvaluateConfidence_inserts.
Qed.

Lemma routed_verified p : routed_call (J := encoding_json) error_text p -> stores_verified p.
Proof using OK CO KO.
  intros [s fuel r Hs] t Ht.
  change (NewHandler error_text (server_interface fuel s) None r) with (ServeHTTP (api_router error_text s fuel) r).
  destruct (routed_shape error_text s fuel r) as [[op H]|[-> | ->]]; [|by apply stores_ret..].
  rewrite H. by apply call_verified.
Qed.

(** C3: what requests store. In every state reachable by any interleaving of
    HTTP requests, with whatever bodies, each ledger consists of genesis records
    and of endorsements and revocations whose payloads decode again and carry
    valid signatures; and projecting it into the graph either applies every
    record, or stops at a signed revocation that names no endorsement of the
    ledger, one that is revoked already, or one its signer has no part in. *)
Theorem http_ledgers_verified t ps (id : LedgerID) :
  reachable (routed_call (J := encoding_json) error_text) (t, ps) ->
  exists rs, ledger_rows t (arr_list id) = map ledgerstore.row_of rs /\ Forall verified rs /\
    let '(last, log, n, res) := projector.project_all id 0 [] 0 rs in
    match res with
    | Ok _ => n = len rs
    | Err f => exists r f', rs !! Z.to_nat n = Some r /\ refused log r f' /\ f = apply_context r f'
    end.
Proof.
  intros Hr.
  destruct (reachable_safe ledgerstore.store_ok (routed_call error_text) _ ledgerstore.store_ok_nil
    (routed_call_safe error_text) t ps Hr) as [Ht _].
  destruct (reachable_safe (Forall verified_row) (routed_call error_text) (fun _ _ => True) (Forall_nil_2 _)
    (fun p t' Hp => routed_verified p Hp t') t ps Hr) as [Hv _].
  destruct (ledgerstore.so_chain t Ht (arr_list id)) as [rs Hc].
  exists rs. split_and!; [apply Hc|by eapply chain_verified|].
  by apply (chain_projects t); [|apply (ledgerstore.so_digests t Ht)|].
Qed.
End Requests.

(** ** Witnesses *)

Section Witnesses.
#[local] Existing Instance Ref.codec.
#[local] Existing Instance Toy.ecdsa.
#[local] Existing Instance evaluator_props.sample_unicode.
#[local] Existing Instance ref_chi.
#[local] Existing Instance plain_paths.

Definition accept_request : HttpRequest :=
  MkHttpRequest (gostr "POST") (gostr "/v1/ledgers/" ++ sample_hex ++ gostr "/endorsements/accept") []
    (Encode (accept_json sample_accept)) [].

Definition routed_run (r : HttpRequest) (t : table) : option (gores (written response)) * table :=
  run signer.toy_env (NewHandler plain_text (server_interface 0 sample_server) None r) t.

(** A ledger is initialized, then an endorsement is posted to it. *)
Definition initialized : option (gores (written response)) * table := routed_run init_request [].
Definition endorsed : option (gores (written response)) * table := routed_run accept_request initialized.2.

Lemma endorsed_reachable : reachable (routed_call plain_text) (endorsed.2, [Ret initialized.1; Ret endorsed.1]).
Proof.
  assert (H0 : reachable (routed_call plain_text) (initialized.2, [Ret initialized.1])).
  { apply (run_reachable (routed_call plain_text) signer.toy_env [] []); [cbn; clia|constructor|].
    constructor. apply sample_server_ok. }
  apply (run_reachable (routed_call plain_text) signer.toy_env initialized.2 [Ret initialized.1]); [cbn; clia|done|].
  constructor. apply sample_server_ok.
Qed.

Lemma http_ledgers_verified_witness :
  exists rs, ledger_rows endorsed.2 (arr_list sample_id) = map ledgerstore.row_of rs /\ Forall verified rs.
Proof.
  destruct (http_ledgers_verified plain_text endorsed.2 [Ret initialized.1; Ret endorsed.1] sample_id endorsed_reachable)
    as (rs & H1 & H2 & _). exact (ex_intro _ rs (conj H1 H2)).
Defined.

Example endorsed_stored : map event_kind endorsed.2 = [EventKindLedgerInitialized; EventKindEndorsementAccepted].
Proof. vm_compute. reflexivity. Qed.
End Witnesses.
End payloads.
