(* ===== verification/Config.v ===== *)
(** * Configuration

    [internal/config/config.go]: the startup configuration, read from
    environment variables through a lookup function, parsed and validated. *)

From S2P Require Import Prelude Float Text Strconv Regexp.

Module config.

Definition environmentPort : string := "PORT".
Definition environmentLogLevel : string := "CHAIN_LOG_LEVEL".
Definition environmentShutdownTimeout : string := "CHAIN_SHUTDOWN_TIMEOUT".
Definition environmentDatabaseURL : string := "DATABASE_URL".
Definition environmentSignerKeyReference : string := "CHAIN_SIGNER_KEY_REFERENCE".
Definition environmentTelemetryEnabled : string := "CHAIN_OTEL_ENABLED".
Definition environmentTraceSampleRatio : string := "CHAIN_OTEL_TRACE_SAMPLE_RATIO".
Definition environmentOTELTracesSampler : string := "OTEL_TRACES_SAMPLER".
Definition environmentOTELTracesSamplerArg : string := "OTEL_TRACES_SAMPLER_ARG".
Definition environmentTelemetryEndpoint : string := "OTEL_EXPORTER_OTLP_ENDPOINT".
Definition environmentProjectID : string := "CHAIN_GCP_PROJECT_ID".
Definition environmentDeploymentEnvironment : string := "CHAIN_DEPLOYMENT_ENVIRONMENT".

Definition defaultPort : string := "8080".
Definition defaultLogLevel : string := "info".
Definition defaultShutdownTimeout : string := "8s".
Definition defaultSignerKeyReference : string := "local:p256:v1".
Definition defaultTelemetryEnabled : string := "false".
Definition defaultTraceSampleRatio : string := "1.0".
Definition defaultDeploymentEnvironment : string := "local".
Definition defaultServiceName : string := "attribution-chain-api".

Definition minimumPort : Z := 1.
Definition maximumPort : Z := 65535.
Definition minimumShutdownTimeout : Z := Second.
Definition maximumShutdownTimeout : Z := 9 * Second.

Definition invalidPortReason : string := "invalid port".
Definition invalidBooleanReason : string := "invalid boolean".
Definition invalidDurationReason : string := "invalid duration".
Definition invalidRatioReason : string := "invalid trace sample ratio".
Definition invalidProjectIDReason : string := "invalid project id".

(** [LookupEnv]: [None] when the variable is not present. *)
Definition LookupEnv : Type := string -> option gostring.

Definition LogLevelDebug : gostring := gostr "debug".
Definition LogLevelInfo : gostring := gostr "info".
Definition LogLevelWarn : gostring := gostr "warn".
Definition LogLevelError : gostring := gostr "error".

Definition EnvironmentLocal : gostring := gostr "local".
Definition EnvironmentDevelopment : gostring := gostr "development".
Definition EnvironmentProduction : gostring := gostr "production".

Definition minimumTraceSampleRatio : float64 := f64_zero.
Definition maximumTraceSampleRatio : float64 := f64_one.

Record Telemetry := MkTelemetry {
  Enabled : bool;
  TraceSampleRatio : float64;
  Endpoint : gostring;
  ProjectID : gostring;
  Environment : gostring;
  ServiceName : gostring;
  Version : gostring
}.

Record Config := MkConfig {
  Port : Z;
  LogLevel : gostring;
  ShutdownTimeout : Z;
  DatabaseURL : gostring;
  SignerKeyReference : gostring;
  cfg_Telemetry : Telemetry
}.

(** [net.JoinHostPort] with no host. *)
Definition Address (config : Config) : gostring := gostr ":" ++ fmt_d (Port config).

(** [^[a-z][a-z0-9-]{4,28}[a-z0-9]$] *)
Definition projectIDPattern : regexp :=
  RCat (RClass is_lower)
    (RCat (RRepeat 4 24 (RClass (fun b => is_lower b || is_digit b || is_dash b)))
       (RClass (fun b => is_lower b || is_digit b))).

(** An error whose text is known. *)
Definition errorf (text : string) : goerror := Errorf text [].

Definition about (variable reason : string) : goerror := errorf (variable +:+ ": " +:+ reason).

Section Loading.
Context (lookup : LookupEnv).

Definition lookupOrDefault (key defaultValue : string) : gostring :=
  match lookup key with
  | None => gostr defaultValue
  | Some value => if bool_decide (TrimSpace value = []) then gostr defaultValue else TrimSpace value
  end.

Definition loadPort : result goerror Z :=
  let value := lookupOrDefault environmentPort defaultPort in
  match ParseUint value 16 with
  | None => Err (about environmentPort invalidPortReason)
  | Some port =>
      if (port <? minimumPort) || (maximumPort <? port)
      then Err (errorf (environmentPort +:+ " must be between 1 and 65535"))
      else Ok (port mod 65536)
  end.

Definition loadLogLevel : result goerror gostring :=
  let logLevel := lookupOrDefault environmentLogLevel defaultLogLevel in
  if existsb (fun l => bool_decide (logLevel = l))
       [LogLevelDebug; LogLevelInfo; LogLevelWarn; LogLevelError]
  then Ok logLevel
  else Err (about environmentLogLevel "unsupported log level").

Definition loadShutdownTimeout : result goerror Z :=
  let value := lookupOrDefault environmentShutdownTimeout defaultShutdownTimeout in
  match ParseDuration value with
  | None => Err (about environmentShutdownTimeout invalidDurationReason)
  | Some timeout =>
      if (timeout <=? minimumShutdownTimeout) || (maximumShutdownTimeout <? timeout)
      then Err (errorf (environmentShutdownTimeout +:+ " must be greater than 1s and at most 9s"))
      else Ok timeout
  end.

Definition rejectAmbientOTELSamplerConfiguration : result goerror unit :=
  match List.find (fun variable => bool_decide (is_Some (lookup variable)))
          [environmentOTELTracesSampler; environmentOTELTracesSamplerArg] with
  | Some variable =>
      Err (errorf (variable +:+ " is unsupported; use " +:+ environmentTraceSampleRatio))
  | None => Ok tt
  end.

Definition loadTraceSampleRatio : result goerror float64 :=
  let value := lookupOrDefault environmentTraceSampleRatio defaultTraceSampleRatio in
  match ParseFloat value with
  | None => Err (about environmentTraceSampleRatio invalidRatioReason)
  | Some ratio =>
      if is_NaN ratio || is_Inf ratio false || is_Inf ratio true
      then Err (about environmentTraceSampleRatio invalidRatioReason)
      else if f64_lt ratio minimumTraceSampleRatio || f64_lt maximumTraceSampleRatio ratio
      then Err (errorf (environmentTraceSampleRatio +:+ " must be between 0 and 1"))
      else Ok ratio
  end.

Definition loadDeploymentEnvironment : result goerror gostring :=
  let environment := lookupOrDefault environmentDeploymentEnvironment defaultDeploymentEnvironment in
  if existsb (fun e => bool_decide (environment = e))
       [EnvironmentLocal; EnvironmentDevelopment; EnvironmentProduction]
  then Ok environment
  else Err (about environmentDeploymentEnvironment "unsupported deployment environment").

Definition loadTelemetry (buildVersion : gostring) : result goerror Telemetry :=
  match ParseBool (lookupOrDefault environmentTelemetryEnabled defaultTelemetryEnabled) with
  | None => Err (about environmentTelemetryEnabled invalidBooleanReason)
  | Some enabled =>
      _ <~ (if enabled then rejectAmbientOTELSamplerConfiguration else Ok tt) ;;
      traceSampleRatio <~ loadTraceSampleRatio ;;
      environment <~ loadDeploymentEnvironment ;;
      let endpoint := lookupOrDefault environmentTelemetryEndpoint "" in
      if enabled && bool_decide (endpoint = [])
      then Err (errorf (environmentTelemetryEndpoint +:+ " is required when " +:+
                        environmentTelemetryEnabled +:+ " is enabled"))
      else
        let projectID := lookupOrDefault environmentProjectID "" in
        if bool_decide (environment = EnvironmentProduction) && bool_decide (projectID = [])
        then Err (errorf (environmentProjectID +:+ " is required in production"))
        else if negb (bool_decide (projectID = [])) && negb (MatchString projectIDPattern projectID)
        then Err (about environmentProjectID invalidProjectIDReason)
        else Ok {|
          Enabled := enabled;
          TraceSampleRatio := traceSampleRatio;
          Endpoint := endpoint;
          ProjectID := projectID;
          Environment := environment;
          ServiceName := gostr defaultServiceName;
          Version := buildVersion
        |}
  end.

Definition Load (buildVersion : gostring) : result goerror Config :=
  port <~ loadPort ;;
  logLevel <~ loadLogLevel ;;
  shutdownTimeout <~ loadShutdownTimeout ;;
  telemetry <~ loadTelemetry buildVersion ;;
  let databaseURL := default [] (lookup environmentDatabaseURL) in
  let signerKeyRef := lookupOrDefault environmentSignerKeyReference defaultSignerKeyReference in
  Ok {|
    Port := port;
    LogLevel := logLevel;
    ShutdownTimeout := shutdownTimeout;
    DatabaseURL := databaseURL;
    SignerKeyReference := signerKeyRef;
    cfg_Telemetry := telemetry
  |}.
End Loading.

(** ** Project identifiers *)

Lemma projectIDPattern_spec s :
  MatchString projectIDPattern s = true <->
    exists a mid z, s = a :: mid ++ [z] /\ is_lower a = true /\
      forallb (fun b => is_lower b || is_digit b || is_dash b) mid = true /\
      is_lower z || is_digit z = true /\ 6 <= len s <= 30.
Proof.
  rewrite MatchString_matches. unfold projectIDPattern. rewrite cat_matches. setoid_rewrite cat_matches.
  setoid_rewrite class_matches. setoid_rewrite repeat_class. split.
  - intros (x & y & -> & (a & -> & Ha) & (mid & w & -> & [Hl Hm] & (z & -> & Hz))).
    exists a, mid, z. split_and!; [done..| |]; rewrite len_app, len_cons, len_app; unfold len; cbn; lia.
  - intros (a & mid & z & -> & Ha & Hm & Hz & Hl).
    rewrite len_cons, len_app in Hl. unfold len in Hl. cbn in Hl.
    exists [a], (mid ++ [z]). split_and!; [done|by exists a|]. exists mid, [z].
    split_and!; [done|lia|lia|done|by exists z].
Qed.
(** ** Loading *)

(** What the rest of the program may rely on. *)
Record config_ok (lookup : LookupEnv) (cfg : Config) : Prop := {
  co_port : minimumPort <= Port cfg <= maximumPort;
  co_port_value : forallb is_digit (lookupOrDefault lookup environmentPort defaultPort) = true /\
    Port cfg = dec_value (lookupOrDefault lookup environmentPort defaultPort);
  co_level : LogLevel cfg ∈ [LogLevelDebug; LogLevelInfo; LogLevelWarn; LogLevelError];
  co_timeout : minimumShutdownTimeout < ShutdownTimeout cfg <= maximumShutdownTimeout;
  co_timeout_value : ParseDuration (lookupOrDefault lookup environmentShutdownTimeout
    defaultShutdownTimeout) = Some (ShutdownTimeout cfg);
  co_ratio : in_unit (TraceSampleRatio (cfg_Telemetry cfg));
  co_environment : Environment (cfg_Telemetry cfg) ∈
    [EnvironmentLocal; EnvironmentDevelopment; EnvironmentProduction];
  co_enabled : Enabled (cfg_Telemetry cfg) = true -> Endpoint (cfg_Telemetry cfg) <> [] /\
    lookup environmentOTELTracesSampler = None /\ lookup environmentOTELTracesSamplerArg = None;
  co_production : Environment (cfg_Telemetry cfg) = EnvironmentProduction ->
    ProjectID (cfg_Telemetry cfg) <> [];
  co_project : ProjectID (cfg_Telemetry cfg) <> [] ->
    MatchString projectIDPattern (ProjectID (cfg_Telemetry cfg)) = true;
  co_signer : SignerKeyReference cfg <> []
}.

(** The texts of all errors. *)
Definition load_errors : list goerror := [
  about environmentPort invalidPortReason;
  errorf (environmentPort +:+ " must be between 1 and 65535");
  about environmentLogLevel "unsupported log level";
  about environmentShutdownTimeout invalidDurationReason;
  errorf (environmentShutdownTimeout +:+ " must be greater than 1s and at most 9s");
  about environmentTelemetryEnabled invalidBooleanReason;
  errorf (environmentOTELTracesSampler +:+ " is unsupported; use " +:+ environmentTraceSampleRatio);
  errorf (environmentOTELTracesSamplerArg +:+ " is unsupported; use " +:+ environmentTraceSampleRatio);
  about environmentTraceSampleRatio invalidRatioReason;
  errorf (environmentTraceSampleRatio +:+ " must be between 0 and 1");
  about environmentDeploymentEnvironment "unsupported deployment environment";
  errorf (environmentTelemetryEndpoint +:+ " is required when " +:+
          environmentTelemetryEnabled +:+ " is enabled");
  errorf (environmentProjectID +:+ " is required in production");
  about environmentProjectID invalidProjectIDReason
].

Section Facts.
Context (lookup : LookupEnv).

Lemma existsb_elem {A} `{EqDecision A} (x : A) l :
  existsb (fun y => bool_decide (x = y)) l = true <-> x ∈ l.
Proof.
  rewrite existsb_exists. setoid_rewrite bool_decide_eq_true. rewrite list_elem_of_In. naive_solver.
Qed.

Lemma lookupOrDefault_nonempty key d : d <> ""%string -> lookupOrDefault lookup key d <> [].
Proof.
  intros Hd. assert (gostr d <> []) by (by destruct d). unfold lookupOrDefault.
  destruct (lookup key); [|done]. by case_bool_decide.
Qed.

Lemma loadPort_spec p :
  loadPort lookup = Ok p <->
    let value := lookupOrDefault lookup environmentPort defaultPort in
    forallb is_digit value = true /\ p = dec_value value /\ minimumPort <= p <= maximumPort.
Proof.
  unfold loadPort. cbv zeta. set (value := lookupOrDefault _ _ _).
  assert (Hne : value <> []) by by apply lookupOrDefault_nonempty.
  assert (Hsmall : forall n, minimumPort <= n <= maximumPort -> n mod 65536 = n)
    by (intros n Hn; apply Z.mod_small; unfold minimumPort, maximumPort in Hn; lia).
  destruct (ParseUint value 16) as [n|] eqn:Hp.
  - apply ParseUint_spec in Hp as (_ & Hd & -> & Hle); [|lia].
    destruct (_ || _) eqn:E; unfold minimumPort, maximumPort in *.
    + split; [done|]. intros (_ & -> & ?). lia.
    + rewrite Hsmall by lia. split; [intros [= <-]; split_and!; [done|done|lia|lia]|]. by intros (_ & -> & _).
  - split; [done|]. intros (Hd & -> & Hr). unfold minimumPort, maximumPort in Hr.
    assert (ParseUint value 16 = Some (dec_value value)) as Hp'
      by (apply ParseUint_spec; [lia|]; split_and!; [done|done|done|lia]). congruence.
Qed.

Lemma loadTraceSampleRatio_unit x : loadTraceSampleRatio lookup = Ok x -> in_unit x.
Proof.
  unfold loadTraceSampleRatio. destruct (ParseFloat _) as [r|]; [|done].
  destruct (is_NaN r || _ || _) eqn:E1; [done|]. destruct (f64_lt r _ || _) eqn:E2; [done|]. intros [= <-].
  apply orb_false_iff in E1 as [[En _]%orb_false_iff _], E2 as [E0 E2].
  split; apply not_false_is_true; intros Hle; apply f64_not_le in Hle; try done;
    unfold minimumTraceSampleRatio, maximumTraceSampleRatio in *; congruence.
Qed.

Lemma reject_sampler_Ok :
  rejectAmbientOTELSamplerConfiguration lookup = Ok tt ->
  lookup environmentOTELTracesSampler = None /\ lookup environmentOTELTracesSamplerArg = None.
Proof.
  unfold rejectAmbientOTELSamplerConfiguration. cbn [List.find].
  destruct (lookup environmentOTELTracesSampler); [done|].
  by destruct (lookup environmentOTELTracesSamplerArg).
Qed.

(** Every failure is one of the known errors. *)
Definition known {A} (r : result goerror A) : Prop :=
  match r with Ok _ => True | Err err => err ∈ load_errors end.

Ltac known_error := first [exact I | unfold known; apply (bool_decide_unpack _); vm_compute; exact I].

Lemma known_bind {A B} (r : result goerror A) (f : A -> result goerror B) :
  known r -> (forall a, known (f a)) -> known (rbind r f).
Proof. intros Hr Hf. destruct r; [apply Hf|exact Hr]. Qed.

Lemma loadPort_known : known (loadPort lookup).
Proof. unfold loadPort. destruct (ParseUint _ _); [case_match|]; known_error. Qed.

Lemma loadLogLevel_known : known (loadLogLevel lookup).
Proof. unfold loadLogLevel. case_match; known_error. Qed.

Lemma loadShutdownTimeout_known : known (loadShutdownTimeout lookup).
Proof. unfold loadShutdownTimeout. destruct (ParseDuration _); [case_match|]; known_error. Qed.

Lemma loadTraceSampleRatio_known : known (loadTraceSampleRatio lookup).
Proof. unfold loadTraceSampleRatio. destruct (ParseFloat _); repeat case_match; known_error. Qed.

Lemma loadDeploymentEnvironment_known : known (loadDeploymentEnvironment lookup).
Proof. unfold loadDeploymentEnvironment. case_match; known_error. Qed.

Lemma loadTelemetry_known v : known (loadTelemetry lookup v).
Proof.
  unfold loadTelemetry. destruct (ParseBool _) as [enabled|]; [|known_error].
  apply known_bind; [|intros _; apply known_bind; [apply loadTraceSampleRatio_known|intros ratio;
    apply known_bind; [apply loadDeploymentEnvironment_known|intros e; repeat case_match; known_error]]].
  destruct enabled; [|done]. unfold rejectAmbientOTELSamplerConfiguration. cbn [List.find].
  repeat case_match; simplify_eq; known_error.
Qed.

Lemma Load_known v : known (Load lookup v).
Proof.
  unfold Load. repeat (apply known_bind; [|intros]); [apply loadPort_known|apply loadLogLevel_known|
    apply loadShutdownTimeout_known|apply loadTelemetry_known|done].
Qed.

Lemma loadTelemetry_ok v tel :
  loadTelemetry lookup v = Ok tel ->
  in_unit (TraceSampleRatio tel) /\
  Environment tel ∈ [EnvironmentLocal; EnvironmentDevelopment; EnvironmentProduction] /\
  (Enabled tel = true -> Endpoint tel <> [] /\
     lookup environmentOTELTracesSampler = None /\ lookup environmentOTELTracesSamplerArg = None) /\
  (Environment tel = EnvironmentProduction -> ProjectID tel <> []) /\
  (ProjectID tel <> [] -> MatchString projectIDPattern (ProjectID tel) = true).
Proof.
  unfold loadTelemetry. destruct (ParseBool _) as [enabled|]; [|done]. intros H. inv_steps.
  destruct (enabled && _) eqn:E1; [done|]. destruct (bool_decide (_ = EnvironmentProduction) && _) eqn:E2; [done|].
  destruct (negb _ && _) eqn:E3; [done|]. injection H as <-. cbn.
  split_and!.
  - by eapply loadTraceSampleRatio_unit.
  - unfold loadDeploymentEnvironment in *. case_match; [|done]. simplify_eq. by apply existsb_elem.
  - intros ->. split.
    + apply andb_false_iff in E1 as [|E1%bool_decide_eq_false]; done.
    + apply reject_sampler_Ok. by destruct a.
  - intros He. apply andb_false_iff in E2 as [E2%bool_decide_eq_false|E2%bool_decide_eq_false]; done.
  - intros Hne. apply andb_false_iff in E3 as [E3|E3%negb_false_iff]; [|done].
    apply negb_false_iff, bool_decide_eq_true in E3. done.
Qed.

Lemma Load_ok v cfg : Load lookup v = Ok cfg -> config_ok lookup cfg.
Proof.
  intros H. unfold Load in H. inv_steps. injection H as <-.
  apply loadPort_spec in Hok as (Hd & Hv & Hr). apply loadTelemetry_ok in Hok2 as (? & ? & ? & ? & ?).
  assert (a0 ∈ [LogLevelDebug; LogLevelInfo; LogLevelWarn; LogLevelError]) as Hl.
  { unfold loadLogLevel in Hok0. case_match eqn:E; [|done]. apply existsb_elem in E. by injection Hok0 as <-. }
  unfold loadShutdownTimeout in Hok1. destruct (ParseDuration _) as [d|] eqn:Ed; [|done].
  destruct (_ || _) eqn:E; [done|]. injection Hok1 as <-.
  split; try done; cbn; [lia|by apply lookupOrDefault_nonempty].
Qed.

(** C37: what loading the configuration gives. Whatever the environment, either
    a configuration with everything the program relies on: a port from 1 to
    65535 that is the decimal value of the variable, a known level and
    environment, a shutdown timeout above one second and at most nine, a sample
    ratio of the unit interval, an endpoint and no ambient sampler settings when
    telemetry is enabled, a project identifier of the right form in production;
    or one of fourteen fixed errors, each naming its variable and none holding
    any part of a value. *)
Theorem Load_spec v :
  match Load lookup v with
  | Ok cfg => config_ok lookup cfg
  | Err err => err ∈ load_errors
  end.
Proof.
  pose proof (Load_known v) as Hk. destruct (Load lookup v) as [cfg|] eqn:H; [by eapply Load_ok|done].
Qed.

(** The defaults. When every variable is absent or blank, loading succeeds
    with the documented defaults: port 8080, level info, 8 seconds to shut down,
    telemetry disabled with ratio 1, local environment; only the database URL is
    taken as it is, blank included. *)
Theorem Load_defaults v :
  (forall key value, lookup key = Some value -> TrimSpace value = []) ->
  Load lookup v = Ok {|
    Port := 8080;
    LogLevel := LogLevelInfo;
    ShutdownTimeout := 8 * Second;
    DatabaseURL := default [] (lookup environmentDatabaseURL);
    SignerKeyReference := gostr defaultSignerKeyReference;
    cfg_Telemetry := {|
      Enabled := false;
      TraceSampleRatio := f64_one;
      Endpoint := [];
      ProjectID := [];
      Environment := EnvironmentLocal;
      ServiceName := gostr defaultServiceName;
      Version := v
    |}
  |}.
Proof.
  intros Hblank.
  assert (Hd : forall key d, lookupOrDefault lookup key d = gostr d).
  { intros key d. unfold lookupOrDefault. destruct (lookup key) as [value|] eqn:E; [|done].
    by rewrite (Hblank _ _ E). }
  unfold Load, loadPort, loadLogLevel, loadShutdownTimeout, loadTelemetry, loadTraceSampleRatio,
    loadDeploymentEnvironment. rewrite !Hd. reflexivity.
Qed.
End Facts.

(** ** Witnesses *)

Lemma Load_defaults_witness :
  is_ok (Load (fun key => if String.eqb key "PORT" then Some [x20] else None) (gostr "v1")) = true.
Proof.
  rewrite (Load_defaults (fun key => if String.eqb key "PORT" then Some [x20] else None) (gostr "v1")).
  - reflexivity.
  - intros key value. destruct (String.eqb key "PORT"); [|discriminate]. intros [= <-]. reflexivity.
Defined.
End config.
