(* ===== verification/Proc.v ===== *)
(** * Programs over effects

    A function of the process that performs effects is a tree of effects with a
    continuation per reply.  Its executions are traces: what was performed, in
    order, with what was answered. *)

From S2P Require Import Prelude.

Inductive proc (E : Type -> Type) (A : Type) : Type :=
  | Return (a : A)
  | Perform {X : Type} (e : E X) (k : X -> proc E A).
Arguments Return {E A} _.
Arguments Perform {E A X} _ _.

Fixpoint proc_bind {E A B} (p : proc E A) (f : A -> proc E B) : proc E B :=
  match p with
  | Return a => f a
  | Perform e k => Perform e (fun x => proc_bind (k x) f)
  end.

Definition perform {E X} (e : E X) : proc E X := Perform e Return.

Notation "x <== p ;; k" := (proc_bind p (fun x => k))
  (at level 100, p at next level, right associativity) : go_scope.

(** An effect together with what was answered. *)
Record observed (E : Type -> Type) := Observed {
  obs_type : Type;
  obs_effect : E obs_type;
  obs_reply : obs_type
}.
Arguments Observed {E} _ _ _.

(** [executes p tr a]: [p] may perform the effects of [tr], in order and with
    those answers, and return [a]. *)
Fixpoint executes {E A} (p : proc E A) (tr : list (observed E)) (a : A) : Prop :=
  match p with
  | Return b => tr = [] /\ a = b
  | @Perform _ _ X e k => exists x tr', tr = Observed X e x :: tr' /\ executes (k x) tr' a
  end.

Lemma executes_bind {E A B} (p : proc E A) (f : A -> proc E B) tr b :
  executes (proc_bind p f) tr b <->
    exists tr1 tr2 a, tr = tr1 ++ tr2 /\ executes p tr1 a /\ executes (f a) tr2 b.
Proof.
  revert tr. induction p as [a|X e k IH]; intros tr; cbn.
  - split.
    + intros H. by exists [], tr, a.
    + by intros (tr1 & tr2 & a' & -> & [-> ->] & H).
  - split.
    + intros (x & tr' & -> & H). apply IH in H as (tr1 & tr2 & a & -> & H1 & H2).
      exists (Observed X e x :: tr1), tr2, a. split_and!; [done| |done]. by exists x, tr1.
    + intros (tr1 & tr2 & a & -> & (x & tr' & -> & H1) & H2). exists x, (tr' ++ tr2).
      split; [done|]. apply IH. by exists tr', tr2, a.
Qed.

Lemma executes_perform {E X} (e : E X) tr x :
  executes (perform e) tr x <-> tr = [Observed X e x].
Proof.
  cbn. split.
  - by intros (y & tr' & -> & -> & ->).
  - intros ->. by exists x, [].
Qed.

(** Each effect of [p] replaced by a program over other effects. *)
Fixpoint interp {E F A} (h : forall X, E X -> proc F X) (p : proc E A) : proc F A :=
  match p with
  | Return a => Return a
  | @Perform _ _ X e k => proc_bind (h X e) (fun x => interp h (k x))
  end.

(** The trace of an interpreted program: what each effect was replaced by. *)
Inductive interp_trace {E F} (h : forall X, E X -> proc F X) : list (observed E) -> list (observed F) -> Prop :=
  | it_nil : interp_trace h [] []
  | it_cons X (e : E X) x etr tr1 tr2 :
      executes (h X e) tr1 x -> interp_trace h etr tr2 ->
      interp_trace h (Observed X e x :: etr) (tr1 ++ tr2).

Lemma interp_executes {E F A} (h : forall X, E X -> proc F X) (p : proc E A) tr a :
  executes (interp h p) tr a -> exists etr, executes p etr a /\ interp_trace h etr tr.
Proof.
  revert tr. induction p as [b|X e k IH]; intros tr H; cbn in H.
  - destruct H as [-> ->]. exists []. by repeat constructor.
  - apply executes_bind in H as (tr1 & tr2 & x & -> & H1 & (etr & H2 & H3)%IH).
    exists (Observed X e x :: etr). split; [by exists x, etr|]. by constructor.
Qed.

(** Properties of all effects of a program. *)
Lemma interp_trace_Forall {E F} (h : forall X, E X -> proc F X) (P : observed F -> Prop) etr tr :
  (forall X (e : E X) tr x, executes (h X e) tr x -> Forall P tr) ->
  interp_trace h etr tr -> Forall P tr.
Proof.
  intros Hh. induction 1 as [|X e x etr tr1 tr2 H1 _ IH]; [constructor|].
  apply Forall_app. split; [by eapply Hh|done].
Qed.
