(* ===== verification/Observability.v ===== *)
(** * Observability

    [internal/observability/runtime.go] and [trace.go]: the request copy given to
    the instrumentation, which trace contexts and endpoints are accepted, and the
    construction of the providers as a program over its effects.
    OpenTelemetry, its exporters and its Cloud Trace propagator are parameters. *)

From S2P Require Import Prelude Float Text Strconv Utf8 Regexp Net Config Proc.

(** ** OpenTelemetry *)

Record SpanContext := MkSpanContext {
  sc_TraceID : array 16;
  sc_SpanID : array 8;
  sc_Sampled : bool
}.

Class Otel := {
  TraceIDFromHex : gostring -> option (array 16);
  TraceID_IsValid : array 16 -> bool;
  TraceID_String : array 16 -> gostring;
  SpanID_String : array 8 -> gostring;
  SpanContext_IsValid : SpanContext -> bool;
  (** [cloudpropagator.TraceContextHeaderName] *)
  TraceContextHeaderName : gostring
}.

Definition is_lower_hex (b : byte) : bool := is_digit b || in_range 97 102 b.

(** The documented behaviour: identifiers are written as lower case hexadecimal,
    and those of only zeros are invalid. *)
Class OtelOk {O : Otel} : Prop := {
  trace_id_zero : TraceIDFromHex (replicate 32 x30) = None;
  trace_id_hex s : length s = 32%nat -> forallb is_lower_hex s = true -> s <> replicate 32 x30 ->
    exists id, TraceIDFromHex s = Some id /\ TraceID_String id = s /\ TraceID_IsValid id = true;
  trace_id_string id : TraceID_String id = EncodeToString (arr_list id);
  span_id_string id : SpanID_String id = EncodeToString (arr_list id);
  span_context_valid sc : SpanContext_IsValid sc = true <->
    arr_list (sc_TraceID sc) <> replicate 16 x00 /\ arr_list (sc_SpanID sc) <> replicate 8 x00;
  header_name_canonical : CanonicalHeaderKey TraceContextHeaderName = TraceContextHeaderName;
  header_name_ascii : is_ascii TraceContextHeaderName = true
}.

(** ** Requests

    All fields of [http.Request], the router's unexported ones included.  A body
    is what can be read from it; a function, a channel or a pointer that is only
    copied is a reference. *)

Definition ref : Type := nat.

(** [multipart.FileHeader] and [multipart.Form]. *)
Record FileHeader := MkFileHeader {
  fh_Filename : gostring;
  fh_Header : Header;
  fh_Size : Z;
  fh_content : gostring
}.

Record MultipartForm_ := MkMultipartForm {
  mf_Value : Header;
  mf_File : gmap gostring (list FileHeader)
}.

Record Request (C : Type) := MkRequest {
  req_Method : gostring;
  req_URL : URL;
  req_Proto : gostring;
  req_ProtoMajor : Z;
  req_ProtoMinor : Z;
  req_Header : Header;
  req_Body : gostring;
  req_GetBody : option ref;
  req_ContentLength : Z;
  req_TransferEncoding : list gostring;
  req_Close : bool;
  req_Host : gostring;
  req_Form : option Header;
  req_PostForm : option Header;
  req_MultipartForm : option MultipartForm_;
  req_Trailer : option Header;
  req_RemoteAddr : gostring;
  req_RequestURI : gostring;
  req_TLS : option ref;
  req_Cancel : option ref;
  req_Response : option ref;
  req_Pattern : gostring;
  req_ctx : C;
  req_pat : option ref;
  req_matches : list gostring;
  req_otherValues : option (gmap gostring gostring)
}.
Arguments MkRequest {C} _ _ _ _ _ _ _ _ _ _ _ _ _ _ _ _ _ _ _ _ _ _ _ _ _ _.
Arguments req_Method {C} _.
Arguments req_URL {C} _.
Arguments req_Proto {C} _.
Arguments req_ProtoMajor {C} _.
Arguments req_ProtoMinor {C} _.
Arguments req_Header {C} _.
Arguments req_Body {C} _.
Arguments req_GetBody {C} _.
Arguments req_ContentLength {C} _.
Arguments req_TransferEncoding {C} _.
Arguments req_Close {C} _.
Arguments req_Host {C} _.
Arguments req_Form {C} _.
Arguments req_PostForm {C} _.
Arguments req_MultipartForm {C} _.
Arguments req_Trailer {C} _.
Arguments req_RemoteAddr {C} _.
Arguments req_RequestURI {C} _.
Arguments req_TLS {C} _.
Arguments req_Cancel {C} _.
Arguments req_Response {C} _.
Arguments req_Pattern {C} _.
Arguments req_ctx {C} _.
Arguments req_pat {C} _.
Arguments req_matches {C} _.
Arguments req_otherValues {C} _.

(** A context holds the current span and, under the key of this package, the
    request as it came in. *)
Inductive Context_ :=
  | MkContext (span : SpanContext) (original : option (Request Context_)).

Definition ctx_span (ctx : Context_) : SpanContext := let '(MkContext span _) := ctx in span.
Definition ctx_original (ctx : Context_) : option (Request Context_) :=
  let '(MkContext _ original) := ctx in original.

(** [Request.WithContext], and [Request.Clone], which copies what the fields
    refer to: every field but the context is the same. *)
Definition WithContext (r : Request Context_) (ctx : Context_) : Request Context_ :=
  MkRequest (req_Method r) (req_URL r) (req_Proto r) (req_ProtoMajor r) (req_ProtoMinor r)
    (req_Header r) (req_Body r) (req_GetBody r) (req_ContentLength r) (req_TransferEncoding r)
    (req_Close r) (req_Host r) (req_Form r) (req_PostForm r) (req_MultipartForm r) (req_Trailer r)
    (req_RemoteAddr r) (req_RequestURI r) (req_TLS r) (req_Cancel r) (req_Response r)
    (req_Pattern r) ctx (req_pat r) (req_matches r) (req_otherValues r).

(** [zap.Field]. *)
Inductive field :=
  | zap_String (key value : gostring)
  | zap_Bool (key : gostring) (value : bool)
  | zap_Int (key : gostring) (value : Z)
  | zap_Dict (key : gostring) (fields : list field)
  | zap_Any (key value : gostring)
  | zap_Stack (key : gostring)
  | zap_Error (err : goerror).

Module observability.

Definition serviceNamespace : string := "attribution-chain".
Definition httpServerSpanName : string := "http.server.request".
Definition unknownHTTPMethod : gostring := gostr "OTHER".
Definition endpointSchemeHTTP : gostring := gostr "http".
Definition endpointSchemeHTTPS : gostring := gostr "https".
Definition invalidEndpointReason : string := "invalid OTLP endpoint".
Definition insecureEndpointReason : string := "insecure OTLP endpoint requires a loopback host".

(** [^[0-9a-f]{32}/[0-9]{1,20}(;o=[0-9])?$] *)
Definition cloudTraceContextPattern : regexp :=
  RCat (RRepeat 32 0 (RClass is_lower_hex))
    (RCat (RLit "/")
       (RCat (RRepeat 1 19 (RClass is_digit))
          (ROr REmpty (RCat (RLit ";o=") (RClass is_digit))))).

Definition httpMethods : list gostring :=
  map gostr ["CONNECT"; "DELETE"; "GET"; "HEAD"; "OPTIONS"; "PATCH"; "POST"; "PUT"; "TRACE"]%string.

Definition boundedHTTPMethod (method : gostring) : gostring :=
  if bool_decide (method ∈ httpMethods) then method else unknownHTTPMethod.

Definition isLoopbackHost (host : gostring) : bool :=
  if EqualFold host (gostr "localhost") then true
  else match ParseIP host with Some ip => IsLoopback ip | None => false end.

Definition parseEndpoint (rawEndpoint : gostring) : result goerror URL :=
  match ParseRequestURI rawEndpoint with
  | None => Err (Errorf invalidEndpointReason [])
  | Some endpoint =>
      if bool_decide (Hostname endpoint = []) then Err (Errorf invalidEndpointReason [])
      else if negb (bool_decide (Scheme endpoint = endpointSchemeHTTP)) &&
              negb (bool_decide (Scheme endpoint = endpointSchemeHTTPS))
      then Err (Errorf invalidEndpointReason [])
      else if bool_decide (Scheme endpoint = endpointSchemeHTTP) && negb (isLoopbackHost (Hostname endpoint))
      then Err (Errorf insecureEndpointReason [])
      else Ok endpoint
  end.

Section Requests.
Context {O : Otel}.

Definition cloudTraceContextHeader : gostring := TraceContextHeaderName.

(** After the pattern matched there is a separator. *)
Definition validCloudTraceContext (header : gostring) : bool :=
  if negb (MatchString cloudTraceContextPattern header) then false
  else
    match cut x2f header with
    | None => false
    | Some (trace, spanID) =>
        match TraceIDFromHex trace with
        | None => false
        | Some traceID =>
            if negb (TraceID_IsValid traceID) then false
            else
              let spanID := match cut x3b spanID with Some (id, _) => id | None => spanID end in
              match ParseUint spanID 64 with
              | None => false
              | Some parsedSpanID => negb (parsedSpanID =? 0)
              end
        end
    end.

(** The loop over the values of one field, and over the fields. *)
Definition add_values (field : gostring) (h : Header) (values : list gostring) : Header :=
  foldl (fun h value => Header_Add h field value) h values.

Definition add_field (request : Header) (h : Header) (field : gostring) : Header :=
  if EqualFold field cloudTraceContextHeader then h
  else add_values field h (Header_Values request field).

Definition telemetryRequest (ctx : Context_) (request : Request Context_)
    (propagationFields : list gostring) : Request Context_ :=
  let header := foldl (add_field (req_Header request)) ∅ propagationFields in
  let cloudTraceContext := Header_Get (req_Header request) cloudTraceContextHeader in
  let header :=
    if validCloudTraceContext cloudTraceContext
    then Header_Set header cloudTraceContextHeader cloudTraceContext
    else header in
  {|
    req_Method := boundedHTTPMethod (req_Method request);
    req_URL := MkURL [] [] None [] [] false [];
    req_Proto := req_Proto request;
    req_ProtoMajor := req_ProtoMajor request;
    req_ProtoMinor := req_ProtoMinor request;
    req_Header := header;
    req_Body := [];
    req_GetBody := req_GetBody request;
    req_ContentLength := 0;
    req_TransferEncoding := req_TransferEncoding request;
    req_Close := req_Close request;
    req_Host := [];
    req_Form := req_Form request;
    req_PostForm := req_PostForm request;
    req_MultipartForm := req_MultipartForm request;
    req_Trailer := None;
    req_RemoteAddr := [];
    req_RequestURI := [];
    req_TLS := req_TLS request;
    req_Cancel := req_Cancel request;
    req_Response := req_Response request;
    req_Pattern := req_Pattern request;
    req_ctx := ctx;
    req_pat := req_pat request;
    req_matches := req_matches request;
    req_otherValues := req_otherValues request
  |}.

(** ** trace.go *)

Definition cloudLoggingTraceKey : gostring := gostr "logging.googleapis.com/trace".
Definition cloudLoggingSpanIDKey : gostring := gostr "logging.googleapis.com/spanId".
Definition cloudLoggingTraceSampledKey : gostring := gostr "logging.googleapis.com/trace_sampled".

(** [^[a-z][a-z0-9-]{4,28}[a-z0-9]$] *)
Definition projectIDPattern : regexp :=
  RCat (RClass is_lower)
    (RCat (RRepeat 4 24 (RClass (fun b => is_lower b || is_digit b || is_dash b)))
       (RClass (fun b => is_lower b || is_digit b))).

Definition TraceFields (ctx : Context_) (projectID : gostring) : list field :=
  let spanContext := ctx_span ctx in
  if negb (SpanContext_IsValid spanContext) || negb (MatchString projectIDPattern projectID) then []
  else [
    zap_String cloudLoggingTraceKey
      (gostr "projects/" ++ projectID ++ gostr "/traces/" ++ TraceID_String (sc_TraceID spanContext));
    zap_String cloudLoggingSpanIDKey (SpanID_String (sc_SpanID spanContext));
    zap_Bool cloudLoggingTraceSampledKey (sc_Sampled spanContext)
  ].
End Requests.

(** ** Providers

    Exporters are known by a handle.  The resource that is merged is the
    attributes of the application; merging it with the detected one may fail. *)

Record Resource := MkResource {
  res_ServiceNamespace : string;
  res_ServiceName : gostring;
  res_ServiceVersion : gostring;
  res_DeploymentEnvironment : gostring
}.

(** The options of both exporters; [WithEndpointURL] gets the text of the URL. *)
Inductive exporterOption :=
  | WithEndpointURL (endpoint : URL)
  | WithInsecure.

Inductive effect : Type -> Type :=
  | MergeResource (applicationResource : Resource) : effect (result goerror Resource)
  | NewTraceExporter (options : list exporterOption) : effect (result goerror nat)
  | NewMetricExporter (options : list exporterOption) : effect (result goerror nat)
  | ShutdownTraceExporter (exporter : nat) : effect (option goerror).

(** No-op providers, or those of the SDK: the sampler follows the parent and
    otherwise the ratio. *)
Inductive TracerProvider :=
  | NoopTracerProvider
  | SdkTracerProvider (resource : Resource) (exporter : nat) (ratio : float64).

Inductive MeterProvider :=
  | NoopMeterProvider
  | SdkMeterProvider (resource : Resource) (exporter : nat).

(** What the shutdown function does: nothing, or shut down both providers. *)
Inductive Shutdown_ :=
  | noOpShutdown
  | ShutdownBoth (meter : MeterProvider) (tracer : TracerProvider).

Record Telemetry_ := MkTelemetry_ {
  tel_tracerProvider : TracerProvider;
  tel_meterProvider : MeterProvider;
  tel_shutdown : Shutdown_
}.

Record options := MkOptions {
  opt_logSink : option nat;
  opt_traceExporterFactory : list exporterOption -> proc effect (result goerror nat);
  opt_metricExporterFactory : list exporterOption -> proc effect (result goerror nat)
}.

Definition defaultOptions : options :=
  MkOptions None (fun exporterOptions => perform (NewTraceExporter exporterOptions))
    (fun exporterOptions => perform (NewMetricExporter exporterOptions)).

Definition WithLogSink (sink : nat) (o : options) : options :=
  MkOptions (Some sink) (opt_traceExporterFactory o) (opt_metricExporterFactory o).

Definition newResource (cfg : config.Telemetry) : proc effect (result goerror Resource) :=
  let applicationResource := {|
    res_ServiceNamespace := serviceNamespace;
    res_ServiceName := config.ServiceName cfg;
    res_ServiceVersion := config.Version cfg;
    res_DeploymentEnvironment := config.Environment cfg
  |} in
  merged <== perform (MergeResource applicationResource) ;;
  Return (rmap_err (Wrapped "merge telemetry resource" []) merged).

(** The errors are those joined. *)
Definition newTelemetry (cfg : config.Telemetry) (configuredOptions : options) :
    proc effect (result (list goerror) Telemetry_) :=
  if negb (config.Enabled cfg)
  then Return (Ok (MkTelemetry_ NoopTracerProvider NoopMeterProvider noOpShutdown))
  else
    match parseEndpoint (config.Endpoint cfg) with
    | Err err => Return (Err [err])
    | Ok endpoint =>
        telemetryResource <== newResource cfg ;;
        match telemetryResource with
        | Err err => Return (Err [err])
        | Ok telemetryResource =>
            let exporterOptions :=
              WithEndpointURL endpoint ::
              (if bool_decide (Scheme endpoint = endpointSchemeHTTP) then [WithInsecure] else []) in
            traceExporter <== opt_traceExporterFactory configuredOptions exporterOptions ;;
            match traceExporter with
            | Err err => Return (Err [Wrapped "create trace exporter" [] err])
            | Ok traceExporter =>
                metricExporter <== opt_metricExporterFactory configuredOptions exporterOptions ;;
                match metricExporter with
                | Err err =>
                    shutdownErr <== perform (ShutdownTraceExporter traceExporter) ;;
                    Return (Err (Wrapped "create metric exporter" [] err :: option_list shutdownErr))
                | Ok metricExporter =>
                    let tracerProvider :=
                      SdkTracerProvider telemetryResource traceExporter (config.TraceSampleRatio cfg) in
                    let meterProvider := SdkMeterProvider telemetryResource metricExporter in
                    Return (Ok (MkTelemetry_ tracerProvider meterProvider
                      (ShutdownBoth meterProvider tracerProvider)))
                end
            end
        end
    end.
(** * Properties *)

(** ** Trace contexts *)

Section TraceContext.
Context {O : Otel} {OK : OtelOk}.

(** The optional flag of a trace context. *)
Definition trace_flag (opt : gostring) : Prop :=
  opt = [] \/ exists d, is_digit d = true /\ opt = gostr ";o=" ++ [d].

Lemma pattern_spec header :
  MatchString cloudTraceContextPattern header = true <->
    exists tid span opt, header = tid ++ x2f :: span ++ opt /\
      length tid = 32%nat /\ forallb is_lower_hex tid = true /\
      (1 <= length span <= 20)%nat /\ forallb is_digit span = true /\ trace_flag opt.
Proof.
  rewrite MatchString_matches. unfold cloudTraceContextPattern, trace_flag. split.
  - intros (tid & l & -> & [Ht Hx]%repeat_class & Hl)%cat_matches.
    apply cat_matches in Hl as (slash & l1 & -> & ->%lit_matches & Hl).
    apply cat_matches in Hl as (span & opt & -> & [Hs Hd]%repeat_class & Ho).
    exists tid, span, opt. split_and!; [done|lia|done|lia|lia|done|].
    apply or_matches in Ho as [->%empty_matches|(o & d & -> & ->%lit_matches & Hc)%cat_matches]; [by left|].
    right. apply class_matches in Hc as (c & -> & Hc). by exists c.
  - intros (tid & span & opt & -> & Ht & Hx & Hs & Hd & Ho).
    apply m_cat; [apply repeat_class; split; [lia|done]|].
    apply (m_cat _ _ (gostr "/") (span ++ opt)); [by apply lit_matches|].
    apply m_cat; [apply repeat_class; split; [lia|done]|].
    destruct Ho as [->|(d & Hc & ->)]; [apply m_left; constructor|]. apply m_right.
    apply m_cat; [by apply lit_matches|by constructor].
Qed.

(** The identifier before the flag. *)
Lemma cut_flag span opt :
  forallb is_digit span = true -> trace_flag opt ->
  (match cut x3b (span ++ opt) with Some (id, _) => id | None => span ++ opt end) = span.
Proof.
  intros Hd Ho. assert (Hn : x3b ∉ span) by by apply (forallb_not_elem is_digit).
  destruct Ho as [->|(d & _ & ->)].
  - rewrite app_nil_r. by rewrite cut_None.
  - change (gostr ";o=" ++ [d]) with (x3b :: gostr "o=" ++ [d]). by rewrite cut_app.
Qed.

(** Trace contexts. A Cloud Trace header is accepted exactly when it is a
    trace identifier of 32 lower case hexadecimal digits that are not all zero, a
    slash, a span identifier of 1 to 20 decimal digits that is a nonzero 64-bit
    number, and an optional flag; a longer number, whose value would wrap, is
    refused. *)
Theorem validCloudTraceContext_spec header :
  validCloudTraceContext header = true <->
    exists tid span opt, header = tid ++ x2f :: span ++ opt /\
      length tid = 32%nat /\ forallb is_lower_hex tid = true /\ tid <> replicate 32 x30 /\
      (1 <= length span <= 20)%nat /\ forallb is_digit span = true /\
      0 < dec_value span < two64 /\ trace_flag opt.
Proof using OK.
  unfold validCloudTraceContext. destruct (MatchString _ header) eqn:Hm; cbn [negb].
  - apply pattern_spec in Hm as (tid & span & opt & -> & Ht & Hx & Hs & Hd & Ho).
    assert (Hno : x2f ∉ tid) by by apply (forallb_not_elem is_lower_hex).
    rewrite cut_app by done. rewrite cut_flag by done.
    assert (Hnn : 0 <= dec_value span) by (apply dec_fold_mono; [lia|done]).
    assert (Huniq : forall t' s' o', tid ++ x2f :: span ++ opt = t' ++ x2f :: s' ++ o' ->
      x2f ∉ t' -> forallb is_digit s' = true -> trace_flag o' -> t' = tid /\ s' = span).
    { intros t' s' o' He Hn' Hd' Ho'. pose proof (cut_app x2f tid (span ++ opt) Hno) as H1.
      rewrite He, cut_app in H1 by done. injection H1 as -> Heq. split; [done|].
      rewrite <- (cut_flag span opt), <- (cut_flag s' o') by done. by rewrite Heq. }
    assert (Hfront : forall b, b = true <-> (tid <> replicate 32 x30 /\ 0 < dec_value span < two64) ->
      b = true <-> exists t' s' o', tid ++ x2f :: span ++ opt = t' ++ x2f :: s' ++ o' /\
        length t' = 32%nat /\ forallb is_lower_hex t' = true /\ t' <> replicate 32 x30 /\
        (1 <= length s' <= 20)%nat /\ forallb is_digit s' = true /\ 0 < dec_value s' < two64 /\ trace_flag o').
    { intros b ->. split; [intros [? ?]; by exists tid, span, opt|].
      intros (t' & s' & o' & He & ? & Hx' & ? & ? & ? & ? & ?).
      destruct (Huniq t' s' o' He) as [-> ->]; [by apply (forallb_not_elem is_lower_hex)|done..]. }
    apply Hfront. destruct (decide (tid = replicate 32 x30)) as [->|Hz].
    { rewrite trace_id_zero. naive_solver. }
    destruct (trace_id_hex tid Ht Hx Hz) as (id & -> & _ & ->). cbn [negb].
    assert (Hne : span <> []) by (intros ->; cbn in Hs; lia).
    destruct (ParseUint span 64) as [n|] eqn:Hp.
    + apply ParseUint_spec in Hp as (_ & _ & -> & Hle); [|lia]. change (2 ^ 64) with two64 in Hle.
      rewrite negb_true_iff, Z.eqb_neq. split; [intros; split; [done|lia]|lia].
    + split; [done|]. intros [_ Hr].
      assert (ParseUint span 64 = Some (dec_value span)) as Hp'; [|congruence].
      apply ParseUint_spec; [lia|]. change (2 ^ 64) with two64. split_and!; [done|done|done|lia].
  - split; [done|]. intros (tid & span & opt & -> & ? & ? & _ & ? & ? & _ & ?).
    assert (MatchString cloudTraceContextPattern (tid ++ x2f :: span ++ opt) = true); [|congruence].
    apply pattern_spec. by exists tid, span, opt.
Qed.
End TraceContext.
(** ** Endpoints *)

(** A host that names the machine itself. *)
Definition local_name (host : gostring) : Prop :=
  map to_lower host = gostr "localhost" \/
  exists b c d, is_octet b /\ is_octet c /\ is_octet d /\ host = dotted 127 b c d.

Lemma host_ascii host : forallb host_byte host = true -> is_ascii host = true.
Proof.
  intros H. apply forallb_forall. intros b Hb. apply forallb_forall with (x := b) in H; [|done].
  assert (Hall : forall b, negb (host_byte b) || in_range 0 127 b = true)
    by (apply byte_cases; vm_compute; reflexivity).
  specialize (Hall b). by rewrite H in Hall.
Qed.

Lemma find_dot host :
  forallb host_byte host = true ->
  List.find (one_of ".:%") host = Some x2e \/ List.find (one_of ".:%") host = None.
Proof.
  intros H. destruct (List.find _ host) as [b|] eqn:E; [|by right].
  apply find_some in E as [Hin Hb]. apply forallb_forall with (x := b) in H; [|done].
  assert (Hall : forall b, negb (host_byte b) || (negb (one_of ".:%" b) || bool_decide (b = x2e)) = true)
    by (apply byte_cases; vm_compute; reflexivity).
  specialize (Hall b). rewrite H, Hb in Hall. cbn in Hall. prep_bool. left. by subst.
Qed.

Lemma dotted_has_dot a b c d : x2e ∈ dotted a b c d.
Proof. unfold dotted. rewrite elem_of_app. right. left. Qed.

Lemma isLoopbackHost_spec host :
  forallb host_byte host = true -> isLoopbackHost host = true <-> local_name host.
Proof.
  intros Hh. unfold isLoopbackHost, local_name.
  pose proof (EqualFold_ascii host (gostr "localhost") (host_ascii host Hh) eq_refl) as Hf.
  change (map to_lower (gostr "localhost")) with (gostr "localhost") in Hf.
  destruct (EqualFold _ _); [naive_solver|].
  assert (Hdot : (match ParseIP host with Some ip => IsLoopback ip | None => false end) = true <->
    exists b c d, is_octet b /\ is_octet c /\ is_octet d /\ host = dotted 127 b c d).
  2: { rewrite Hdot. split; [by right|]. intros [Hl|Hl]; [|done]. by apply Hf in Hl. }
  clear Hf. unfold ParseIP, ParseAddr. destruct (find_dot host Hh) as [Hd|Hd].
  - rewrite Hd. destruct (parseIPv4Fields [] 0 0 host) as [l|] eqn:Hp.
    + apply parseIPv4_spec in Hp as (a & b & c & d & -> & Ho & ->).
      rewrite !Forall_cons in Ho. destruct Ho as (Ha & Hb & Hc & Hd' & _).
      assert (Hl : IsLoopback (v4InV6Prefix ++ [a; b; c; d]) = bool_decide (a = 127)).
      { unfold IsLoopback, To4. rewrite bool_decide_eq_true_2 by done. cbn.
        apply bool_decide_ext. naive_solver. }
      rewrite Hl, bool_decide_eq_true. split; [intros ->; by exists b, c, d|].
      intros (b' & c' & d' & ? & ? & ? & He).
      assert (Hp : parseIPv4Fields [] 0 0 (dotted a b c d) = Some [a; b; c; d])
        by (apply parseIPv4_spec; exists a, b, c, d; by rewrite !Forall_cons).
      assert (Hp' : parseIPv4Fields [] 0 0 (dotted a b c d) = Some [127; b'; c'; d']).
      { apply parseIPv4_spec. exists 127, b', c', d'. rewrite !Forall_cons. split_and!; try done; unfold is_octet; lia. }
      congruence.
    + split; [done|]. intros (b & c & d & Hb & Hc & Hd' & ->).
      assert (parseIPv4Fields [] 0 0 (dotted 127 b c d) = Some [127; b; c; d]); [|congruence].
      apply parseIPv4_spec. exists 127, b, c, d. rewrite !Forall_cons. split_and!; try done; unfold is_octet; lia.
  - rewrite Hd. split; [done|]. intros (b & c & d & _ & _ & _ & ->).
    apply (find_none _ _) with (x := x2e) in Hd; [done|]. apply list_elem_of_In, dotted_has_dot.
Qed.

(** C36: telemetry endpoints. Of the endpoints with a host name or IPv4 address
    and a port, all those with TLS are accepted, and those in plain text exactly
    when the host is localhost in any case or an address 127.b.c.d; the others
    are refused as insecure. *)
Theorem parseEndpoint_transport host port :
  host <> [] -> forallb host_byte host = true -> forallb is_digit port = true ->
  let endpoint scheme := MkURL scheme [] None (host ++ x3a :: port) [] false [] in
  parseEndpoint (gostr "https://" ++ host ++ x3a :: port) = Ok (endpoint endpointSchemeHTTPS) /\
  (local_name host ->
     parseEndpoint (gostr "http://" ++ host ++ x3a :: port) = Ok (endpoint endpointSchemeHTTP)) /\
  (~ local_name host ->
     parseEndpoint (gostr "http://" ++ host ++ x3a :: port) = Err (Errorf insecureEndpointReason [])).
Proof.
  intros Hne Hh Hp endpoint. rewrite <- isLoopbackHost_spec by done. unfold parseEndpoint.
  assert (Hu : forall scheme, scheme = endpointSchemeHTTP \/ scheme = endpointSchemeHTTPS ->
    ParseRequestURI (scheme ++ gostr "://" ++ host ++ x3a :: port) = Some (endpoint scheme))
    by (intros; by apply ParseRequestURI_plain).
  pose proof (Hu endpointSchemeHTTP ltac:(by left)) as H1.
  pose proof (Hu endpointSchemeHTTPS ltac:(by right)) as H2.
  change (endpointSchemeHTTP ++ gostr "://" ++ host ++ x3a :: port) with (gostr "http://" ++ host ++ x3a :: port) in H1.
  change (endpointSchemeHTTPS ++ gostr "://" ++ host ++ x3a :: port) with (gostr "https://" ++ host ++ x3a :: port) in H2.
  rewrite H1, H2. unfold endpoint. rewrite !Hostname_plain by done. rewrite bool_decide_eq_false_2 by done.
  cbn [Scheme]. split; [done|]. destruct (isLoopbackHost host); split; done.
Qed.

Lemma parseEndpoint_transport_witness :
  parseEndpoint (gostr "http://127.0.0.1:4317") =
    Ok (MkURL (gostr "http") [] None (gostr "127.0.0.1:4317") [] false []).
Proof.
  apply (proj1 (proj2 (parseEndpoint_transport (gostr "127.0.0.1") (gostr "4317") ltac:(done) eq_refl eq_refl))).
  right. exists 0, 0, 1. unfold is_octet. repeat split; try lia. 
Defined.

(** Other endpoints: IPv6 literals, userinfo, missing ports, hosts and schemes. *)
Example parseEndpoint_examples :
  let ok raw := is_ok (parseEndpoint (gostr raw)) in
  ok "http://[::1]:4317" = true /\ ok "http://[0:0:0:0:0:0:0:1]/" = true /\
  ok "http://[::ffff:127.0.0.1]:1" = true /\ ok "http://LOCALHOST" = true /\ ok "HTTP://localhost:80/x?y" = true /\
  ok "https://user:pw@collector.example/path" = true /\
  ok "http://[::2]:4317" = false /\ ok "http://collector:4317" = false /\ ok "http://0127.0.0.1" = false /\
  ok "http://localhost@evil.example" = false /\ ok "grpc://localhost:1" = false /\ ok "https://" = false /\
  ok "localhost:4317" = false /\ ok "/path" = false /\ ok "http://a:b:1" = false /\ ok "https://[1.2.3.4]" = false /\
  ok "http:localhost" = false /\ ok "https://%6c" = false.
Proof. vm_compute. repeat split. Qed.

(** The host is folded, not compared: the letter U+017F passes for an s. *)
Example long_s_loopback : isLoopbackHost (gostr "localho" ++ [xc5; xbf] ++ gostr "t") = true.
Proof. vm_compute. reflexivity. Qed.
(** ** Sanitized requests *)

Section Sanitizing.
Context {O : Otel} {OK : OtelOk}.

Lemma add_values_spec field h values :
  add_values field h values =
    if bool_decide (values = []) then h
    else <[CanonicalHeaderKey field := Header_Values h field ++ values]> h.
Proof.
  revert h. induction values as [|v values IH]; intros h; [done|].
  rewrite bool_decide_eq_false_2 by done. cbn. fold (add_values field (Header_Add h field v) values).
  rewrite IH. unfold Header_Add, Header_Values. case_bool_decide as Hv; [by subst|].
  rewrite lookup_insert_eq, insert_insert_eq. cbn. by rewrite <- app_assoc.
Qed.

Lemma canonical_key_lower upper s : map to_lower (canonical_key upper s) = map to_lower s.
Proof.
  assert (Hb : forall b, bool_decide (to_lower (to_upper b) = to_lower b)
    && bool_decide (to_lower (to_lower b) = to_lower b) = true) by (apply byte_cases; vm_compute; reflexivity).
  revert upper. induction s as [|b s IH]; intros upper; [done|]. cbn [canonical_key map]. rewrite IH.
  specialize (Hb b). prep_bool. by destruct upper; f_equal.
Qed.

Lemma token_ascii s : forallb validHeaderFieldByte s = true -> is_ascii s = true.
Proof.
  assert (Hall : forall b, negb (validHeaderFieldByte b) || in_range 0 127 b = true)
    by (apply byte_cases; vm_compute; reflexivity).
  intros H. apply forallb_forall. intros b Hb. apply forallb_forall with (x := b) in H; [|done].
  specialize (Hall b). by rewrite H in Hall.
Qed.

(** Fields stored under the key of the trace header are recognized. *)
Lemma cloud_field_recognized field :
  CanonicalHeaderKey field = cloudTraceContextHeader -> EqualFold field cloudTraceContextHeader = true.
Proof using OK.
  intros H. unfold CanonicalHeaderKey in H. destruct (forallb validHeaderFieldByte field) eqn:E.
  - apply EqualFold_ascii; [by apply token_ascii|apply header_name_ascii|].
    by rewrite <- H, canonical_key_lower.
  - rewrite H. unfold EqualFold. by apply bool_decide_eq_true.
Qed.

(** The fields that are copied. *)
Definition copied (field : gostring) : bool := negb (EqualFold field cloudTraceContextHeader).

Lemma copied_key field : copied field = true -> CanonicalHeaderKey field <> cloudTraceContextHeader.
Proof using OK. intros H He%cloud_field_recognized. unfold copied in H. by rewrite He in H. Qed.

Lemma fields_lookup (request : Header) fields h k :
  NoDup (map CanonicalHeaderKey fields) ->
  (forall f, f ∈ fields -> h !! CanonicalHeaderKey f = None) ->
  foldl (add_field request) h fields !! k =
    match List.find (fun f => copied f && bool_decide (CanonicalHeaderKey f = k)
                              && negb (bool_decide (Header_Values request f = []))) fields with
    | Some f => Some (Header_Values request f)
    | None => h !! k
    end.
Proof.
  revert h. induction fields as [|f fields IH]; intros h Hnd Hh; [done|]. cbn [foldl List.find map] in *.
  apply NoDup_cons in Hnd as [Hf Hnd].
  assert (Hadd : add_field request h f = if copied f && negb (bool_decide (Header_Values request f = []))
    then <[CanonicalHeaderKey f := Header_Values request f]> h else h).
  { unfold add_field, copied. destruct (EqualFold f _); [done|]. rewrite add_values_spec.
    case_bool_decide; [done|]. cbn. unfold Header_Values at 1. by rewrite (Hh f) by (by left). }
  rewrite IH; [|done|].
  2: { intros g Hg. rewrite Hadd.
    assert (CanonicalHeaderKey g <> CanonicalHeaderKey f) by (intros He; apply Hf; rewrite <- He; by apply list_elem_of_fmap_2).
    destruct (_ && _); [rewrite lookup_insert_ne by done|]; apply Hh; by right. }
  rewrite Hadd. destruct (copied f); cbn [andb]; [|done].
  destruct (bool_decide (CanonicalHeaderKey f = k)) eqn:Ek; cbn [andb].
  - prep_bool. subst k. destruct (bool_decide (_ = [])) eqn:Ev; cbn [negb]; [done|].
    rewrite lookup_insert_eq. destruct (List.find _ fields) as [g|] eqn:Eg; [|done].
    apply find_some in Eg as [Hin Hg]. prep_bool. destruct Hf.
    rewrite <- H1. by apply list_elem_of_fmap_2, list_elem_of_In.
  - prep_bool. by destruct (negb _); [rewrite lookup_insert_ne by done|].
Qed.

(** What [Clone] copies and nothing clears. *)
Record passed_on := MkPassed {
  p_Proto : gostring * Z * Z;
  p_TransferEncoding : list gostring;
  p_Close : bool;
  p_TLS : option ref;
  p_GetBody : option ref;
  p_Form : option Header;
  p_PostForm : option Header;
  p_MultipartForm : option MultipartForm_;
  p_Cancel : option ref;
  p_Response : option ref;
  p_Pattern : gostring;
  p_route : option ref * list gostring * option (gmap gostring gostring)
}.

Definition passed (r : Request Context_) : passed_on := {|
  p_Proto := (req_Proto r, req_ProtoMajor r, req_ProtoMinor r);
  p_TransferEncoding := req_TransferEncoding r;
  p_Close := req_Close r;
  p_TLS := req_TLS r;
  p_GetBody := req_GetBody r;
  p_Form := req_Form r;
  p_PostForm := req_PostForm r;
  p_MultipartForm := req_MultipartForm r;
  p_Cancel := req_Cancel r;
  p_Response := req_Response r;
  p_Pattern := req_Pattern r;
  p_route := (req_pat r, req_matches r, req_otherValues r)
|}.

(** A request as the server hands it to its handler: no form was parsed, no
    router matched it, and what only clients set is not set. *)
Record from_server (r : Request Context_) : Prop := {
  fs_forms : req_Form r = None /\ req_PostForm r = None /\ req_MultipartForm r = None;
  fs_client : req_GetBody r = None /\ req_Cancel r = None /\ req_Response r = None;
  fs_router : req_Pattern r = [] /\ req_pat r = None /\ req_matches r = [] /\ req_otherValues r = None
}.

(** All that telemetry gets to see of a request, its context apart. *)
Record view := MkView {
  v_method : gostring;
  v_propagated : list (list gostring);
  v_trace : option gostring;
  v_passed : passed_on
}.

Definition telemetry_view (fields : list gostring) (r : Request Context_) : view := {|
  v_method := boundedHTTPMethod (req_Method r);
  v_propagated := map (Header_Values (req_Header r)) fields;
  v_trace :=
    let value := Header_Get (req_Header r) cloudTraceContextHeader in
    if validCloudTraceContext value then Some value else None;
  v_passed := passed r
|}.

Lemma fields_same (h1 h2 : Header) fields :
  map (Header_Values h1) fields = map (Header_Values h2) fields -> forall h,
  foldl (add_field h1) h fields = foldl (add_field h2) h fields.
Proof.
  induction fields as [|f fields IH]; intros H h; [done|]. cbn in H. injection H as Hf H. cbn.
  rewrite <- (IH H). f_equal. unfold add_field. by rewrite Hf.
Qed.

Lemma bounded_method method : boundedHTTPMethod method ∈ unknownHTTPMethod :: httpMethods.
Proof. unfold boundedHTTPMethod. case_bool_decide; [by right|left]. Qed.

Lemma standard_method method : method ∈ httpMethods -> boundedHTTPMethod method = method.
Proof. intros H. unfold boundedHTTPMethod. by rewrite bool_decide_eq_true_2. Qed.

(** C19: sanitized requests. The copy of a request that the instrumentation is
    given has one of ten methods, the request's own if it is one of the nine
    standard ones; no URL, host, remote address, request URI, body, length or
    trailer; as headers exactly those of the propagation fields, with the values
    they came with, and the Cloud Trace header if its value is valid. What [Clone]
    copies and the code does not clear is passed on as it is: protocol version,
    transfer encodings, close, TLS state, parsed forms, [GetBody], [Cancel],
    [Response] and the route; of a request as the server hands it over, that is
    the protocol version, transfer encodings, close and TLS state only. The copy
    depends on nothing else of the request: two requests that agree on these have
    the same copy. The context is the one given; the one that [WrapHTTP] gives
    holds the original request under a key private to the package, which this
    property does not cover. *)
Theorem telemetryRequest_sanitizes ctx fields r :
  NoDup (map CanonicalHeaderKey fields) ->
  let t := telemetryRequest ctx r fields in
  (req_Method t ∈ unknownHTTPMethod :: httpMethods /\
   (req_Method r ∈ httpMethods -> req_Method t = req_Method r)) /\
  (req_URL t = MkURL [] [] None [] [] false [] /\ req_Host t = [] /\ req_RemoteAddr t = [] /\
   req_RequestURI t = [] /\ req_Body t = [] /\ req_ContentLength t = 0 /\ req_Trailer t = None) /\
  (forall k vs, req_Header t !! k = Some vs <->
     (k = cloudTraceContextHeader /\ exists value, v_trace (telemetry_view fields r) = Some value /\ vs = [value]) \/
     (exists f, f ∈ fields /\ copied f = true /\ k = CanonicalHeaderKey f /\
        vs = Header_Values (req_Header r) f /\ vs <> [])) /\
  (passed t = passed r /\ req_ctx t = ctx) /\
  (from_server r -> passed t =
     MkPassed (req_Proto r, req_ProtoMajor r, req_ProtoMinor r) (req_TransferEncoding r) (req_Close r)
       (req_TLS r) None None None None None None [] (None, [], None)) /\
  (forall r', telemetry_view fields r' = telemetry_view fields r -> telemetryRequest ctx r' fields = t).
Proof using OK.
  intros Hnd t. split; [split; [apply bounded_method|apply standard_method]|]. split; [done|]. split; [|split; [done|split]].
  - intros k vs. unfold t, telemetryRequest, telemetry_view. cbn [req_Header v_trace].
    set (value := Header_Get _ _).
    pose proof (fields_lookup (req_Header r) fields ∅ k Hnd ltac:(done)) as Hl. rewrite lookup_empty in Hl.
    assert (Hfind : foldl (add_field (req_Header r)) ∅ fields !! k = Some vs <->
      exists f, f ∈ fields /\ copied f = true /\ k = CanonicalHeaderKey f /\
        vs = Header_Values (req_Header r) f /\ vs <> []).
    { rewrite Hl. destruct (List.find _ fields) as [g|] eqn:Eg.
      - apply find_some in Eg as [Hin Hg]. prep_bool. apply list_elem_of_In in Hin. split.
        + intros [= <-]. by exists g.
        + intros (f & Hf & _ & Hk & -> & _).
          assert (Hfg : CanonicalHeaderKey g = CanonicalHeaderKey f) by congruence.
          unfold Header_Values. by rewrite Hfg.
      - split; [done|]. intros (f & Hf & Hc & -> & -> & Hv).
        apply (find_none _ _) with (x := f) in Eg; [|by apply list_elem_of_In].
        rewrite Hc, bool_decide_eq_true_2, bool_decide_eq_false_2 in Eg by done. done. }
    destruct (validCloudTraceContext value).
    + unfold Header_Set, cloudTraceContextHeader. rewrite header_name_canonical.
      destruct (decide (k = TraceContextHeaderName)) as [->|Hk].
      * rewrite lookup_insert_eq. split; [intros [= <-]; left; eauto|].
        intros [(_ & v & [= <-] & ->)|(f & _ & Hc%copied_key & Hk & _)]; [done|]. by destruct Hc.
      * rewrite lookup_insert_ne, Hfind by done. naive_solver.
    + rewrite Hfind. naive_solver.
  - intros [(? & ? & ?) (? & ? & ?) (? & ? & ? & ?)]. change (passed t) with (passed r).
    unfold passed. congruence.
  - intros r' Hv. unfold t, telemetryRequest.
    injection Hv as Hm Hp Ht -> -> -> -> -> -> -> -> -> -> -> -> -> -> -> ->.
    rewrite Hm. cbv zeta in Ht. rewrite (fields_same _ _ _ Hp). f_equal.
    destruct (validCloudTraceContext _), (validCloudTraceContext (Header_Get (req_Header r) _)); congruence.
Qed.
End Sanitizing.
(** ** Ownership of the exporters *)

Inductive exporter := TraceExporter (handle : nat) | MetricExporter (handle : nat).

#[global] Instance exporter_eq_dec : EqDecision exporter.
Proof. solve_decision. Defined.

(** The exporters that are open after an effect. *)
Definition opened (live : list exporter) (o : observed effect) : list exporter :=
  match obs_effect _ o in effect Y return Y -> list exporter with
  | MergeResource _ => fun _ => live
  | NewTraceExporter _ => fun r => match r with Ok h => live ++ [TraceExporter h] | Err _ => live end
  | NewMetricExporter _ => fun r => match r with Ok h => live ++ [MetricExporter h] | Err _ => live end
  | ShutdownTraceExporter h => fun _ => filter (fun e => e <> TraceExporter h) live
  end (obs_reply _ o).

Definition live_exporters (tr : list (observed effect)) : list exporter := foldl opened [] tr.

(** The exporters behind a pair of providers. *)
Definition owned (t : Telemetry_) : list exporter :=
  match tel_tracerProvider t with SdkTracerProvider _ h _ => [TraceExporter h] | NoopTracerProvider => [] end ++
  match tel_meterProvider t with SdkMeterProvider _ h => [MetricExporter h] | NoopMeterProvider => [] end.

(** The options an exporter was created with. *)
Definition created_with (o : observed effect) : option (list exporterOption) :=
  match obs_effect _ o with
  | NewTraceExporter options | NewMetricExporter options => Some options
  | _ => None
  end.

(** A text that is the letter [b] up to simple case folding: the letter in either
    case, U+017F for an s, U+212A for a k. *)
Definition spells (b : byte) (part : gostring) : Prop :=
  part = [b] \/ part = [to_upper b] \/
  (b = x73 /\ part = [xc5; xbf]) \/ (b = x6b /\ part = [xe2; x84; xaa]).

(** A host that stays on this machine: a spelling of localhost, or an IP
    address that is ::1 or, as such or mapped into IPv6, 127.b.c.d. *)
Definition loopback_host (host : gostring) : Prop :=
  (exists parts, host = concat parts /\ Forall2 spells (gostr "localhost") parts) \/
  (exists ip, ParseIP host = Some ip /\
     (ip = replicate 15 0 ++ [1] \/ exists rest, ip = replicate 10 0 ++ [255; 255; 127] ++ rest)).

Lemma fold_rune_spells b r :
  is_lower b = true -> fold_rune r = byte_Z b -> spells b (encode_rune r).
Proof.
  unfold is_lower, in_range, fold_rune, spells. intros Hb H.
  assert (Hu : to_upper b = Z_byte (byte_Z b - 32)) by (unfold to_upper, is_lower, in_range; by rewrite Hb).
  destruct ((65 <=? r) && (r <=? 90)) eqn:E1.
  { right. left. rewrite Hu. unfold encode_rune. decide_conditions. do 2 f_equal. lia. }
  destruct (Z.eqb_spec r 383) as [->|H1].
  { right. right. left. split; [by apply byte_Z_inj|done]. }
  destruct (Z.eqb_spec r 8490) as [->|H2].
  { right. right. right. split; [by apply byte_Z_inj|done]. }
  left. unfold encode_rune. decide_conditions. by rewrite H, Z_byte_Z.
Qed.

Lemma runes_spell l : forall fuel s,
  forallb is_lower l = true -> map fold_rune (runes fuel s) = map byte_Z l -> (length s <= fuel)%nat ->
  exists parts, s = concat parts /\ Forall2 spells l parts.
Proof.
  induction l as [|b l IH]; intros fuel s Hl H Hf.
  - destruct s as [|x s]; [by exists []|]. destruct fuel; [cbn in Hf; lia|]. cbn [runes] in H.
    by destruct (decode_rune (x :: s)).
  - destruct fuel as [|fuel]; [done|]. destruct s as [|x s]; [done|]. cbn [runes] in H.
    destruct (decode_rune (x :: s)) as [r w] eqn:Hd. cbn [map] in H. injection H as Hr H.
    cbn [forallb] in Hl. apply andb_prop in Hl as [Hb Hl].
    assert (Hv : Nat.eqb w 1 && (r =? RuneError) = false).
    { apply andb_false_iff. right. apply Z.eqb_neq. intros ->. unfold is_lower, in_range in Hb.
      change (fold_rune RuneError) with 65533 in Hr. lia. }
    destruct (encode_decoded _ _ _ Hd ltac:(done) Hv) as [_ Hw].
    assert (Hw0 : (0 < w)%nat).
    { destruct w; [|lia]. cbn in Hw. unfold encode_rune in Hw. by repeat case_match. }
    destruct (IH fuel (drop w (x :: s)) Hl H) as (parts & Hp & Hs).
    { rewrite length_drop. cbn in Hf |- *. lia. }
    exists (encode_rune r :: parts). split.
    + cbn [concat]. rewrite <- Hp, Hw. by rewrite take_drop.
    + constructor; [by apply fold_rune_spells|done].
Qed.

Lemma isLoopbackHost_sound host : isLoopbackHost host = true -> loopback_host host.
Proof.
  unfold isLoopbackHost. destruct (EqualFold host (gostr "localhost")) eqn:E.
  - intros _. left. apply bool_decide_eq_true in E.
    rewrite (runes_ascii (gostr "localhost")) in E by reflexivity.
    change (map fold_rune (map byte_Z (gostr "localhost"))) with (map byte_Z (gostr "localhost")) in E.
    eapply (runes_spell (gostr "localhost") (length host)); [reflexivity|done|lia].
  - destruct (ParseIP host) as [ip|] eqn:Hp; [|done]. intros H. right. exists ip. split; [done|].
    unfold IsLoopback, To4 in H. case_bool_decide as Hpre; [|left; by apply bool_decide_eq_true in H].
    apply bool_decide_eq_true in H. right. exists (tail (drop 12 ip)).
    rewrite <- (take_drop 12 ip) at 1. rewrite Hpre. unfold v4InV6Prefix. rewrite <- app_assoc.
    by destruct (drop 12 ip) as [|x rest]; [|injection H as ->].
Qed.

Definition well_connected (options : list exporterOption) : Prop :=
  exists endpoint, WithEndpointURL endpoint ∈ options /\
    (WithInsecure ∈ options -> loopback_host (Hostname endpoint)) /\
    (WithInsecure ∉ options -> Scheme endpoint = endpointSchemeHTTPS).

Lemma parseEndpoint_secure raw endpoint :
  parseEndpoint raw = Ok endpoint ->
  Hostname endpoint <> [] /\
  (Scheme endpoint = endpointSchemeHTTPS \/
   (Scheme endpoint = endpointSchemeHTTP /\ isLoopbackHost (Hostname endpoint) = true)).
Proof.
  unfold parseEndpoint. destruct (ParseRequestURI raw) as [u|]; [|done].
  case_bool_decide; [done|].
  destruct (negb (bool_decide (Scheme u = _)) && _) eqn:E1; [done|].
  destruct (bool_decide _ && negb (isLoopbackHost _)) eqn:E2; [done|].
  intros [= <-]. split; [done|]. apply andb_false_iff in E1, E2.
  destruct E1 as [E1|E1]; prep_bool; [|by left]. right. split; [done|].
  destruct E2 as [E2|E2]; prep_bool; [done|done].
Qed.

Lemma exporter_options_connected raw endpoint :
  parseEndpoint raw = Ok endpoint ->
  well_connected (WithEndpointURL endpoint ::
    (if bool_decide (Scheme endpoint = endpointSchemeHTTP) then [WithInsecure] else [])).
Proof.
  intros [_ H]%parseEndpoint_secure. exists endpoint. split; [left|]. case_bool_decide as Hs.
  - split; [|intros Hn; exfalso; apply Hn; right; left]. intros _.
    destruct H as [H|[_ H]]; [|by apply isLoopbackHost_sound]. rewrite Hs in H. discriminate H.
  - split.
    + intros Hi. apply list_elem_of_singleton in Hi. discriminate Hi.
    + intros _. destruct H as [H|[H _]]; done.
Qed.

Ltac all_connected :=
  rewrite ?Forall_cons, ?Forall_nil; split_and?; try exact I; intros options; cbn -[well_connected];
  try discriminate; intros [= <-]; assumption.

(** What holds after telemetry was constructed. *)
Definition telemetry_post (cfg : config.Telemetry) (tr : list (observed effect))
    (res : result (list goerror) Telemetry_) : Prop :=
  live_exporters tr = (match res with Ok t => owned t | Err _ => [] end) /\
  match res with
  | Err errs => errs <> [] /\ config.Enabled cfg = true
  | Ok t =>
      if config.Enabled cfg then
        exists resource te me, tel_tracerProvider t = SdkTracerProvider resource te (config.TraceSampleRatio cfg) /\
          tel_meterProvider t = SdkMeterProvider resource me /\
          tel_shutdown t = ShutdownBoth (tel_meterProvider t) (tel_tracerProvider t)
      else tr = [] /\ t = MkTelemetry_ NoopTracerProvider NoopMeterProvider noOpShutdown
  end /\
  Forall (fun o => forall options, created_with o = Some options -> well_connected options) tr.

Lemma newTelemetry_post cfg tr res :
  executes (newTelemetry cfg defaultOptions) tr res -> telemetry_post cfg tr res.
Proof.
  unfold newTelemetry, telemetry_post. destruct (config.Enabled cfg); cbn [negb]; [|intros [-> ->]; split_and!; [done..|all_connected]].
  destruct (parseEndpoint (config.Endpoint cfg)) as [endpoint|err] eqn:Hp; [|intros [-> ->]; split_and!; [done..|all_connected]].
  pose proof (exporter_options_connected _ _ Hp) as Hw. cbn -[well_connected].
  intros (merged & t1 & -> & H). destruct merged as [resource|err]; cbn -[well_connected] in H.
  2: { destruct H as [-> ->]. split_and!; [done..|all_connected]. }
  destruct H as (te & t2 & -> & H). destruct te as [te|err]; cbn -[well_connected] in H.
  2: { destruct H as [-> ->]. split_and!; [done..|all_connected]. }
  destruct H as (me & t3 & -> & H). destruct me as [me|err]; cbn -[well_connected] in H.
  - destruct H as [-> ->]. split_and!; [done|by eexists _, _, _|all_connected].
  - destruct H as (serr & t4 & -> & -> & ->). split_and!; [|done..|all_connected].
    unfold live_exporters. cbn. rewrite decide_False by naive_solver. done.
Qed.

(** C24: telemetry resources. Constructing telemetry opens no exporter when it
    is disabled; when it fails, every exporter it had opened is shut down again
    and there is an error; when it succeeds, the open exporters are exactly those
    of the returned providers, which its shutdown function shuts down, and the
    tracer samples with the configured ratio. Every exporter is created for one
    endpoint, with TLS, or in plain text to a host that is an address ::1 or
    127.b.c.d (also mapped into IPv6) or a spelling of localhost. The spellings
    are not only those in other cases: the code folds, so the letter U+017F passes
    for the s, and a name with it need not be resolved to this machine
    ([long_s_loopback]). *)
Theorem newTelemetry_owns cfg tr res :
  executes (newTelemetry cfg defaultOptions) tr res ->
  live_exporters tr = (match res with Ok t => owned t | Err _ => [] end) /\
  match res with
  | Err errs => errs <> [] /\ config.Enabled cfg = true
  | Ok t =>
      if config.Enabled cfg then
        exists resource te me, tel_tracerProvider t = SdkTracerProvider resource te (config.TraceSampleRatio cfg) /\
          tel_meterProvider t = SdkMeterProvider resource me /\
          tel_shutdown t = ShutdownBoth (tel_meterProvider t) (tel_tracerProvider t)
      else tr = [] /\ t = MkTelemetry_ NoopTracerProvider NoopMeterProvider noOpShutdown
  end /\
  Forall (fun o => forall options, created_with o = Some options -> well_connected options) tr.
Proof. apply newTelemetry_post. Qed.
(** ** A reference instance *)

Definition ref_otel : Otel := {|
  TraceIDFromHex s :=
    if Nat.eqb (length s) 32 && forallb is_lower_hex s && negb (bool_decide (s = replicate 32 x30))
    then match DecodeString s with Some b => array_of 16 b | None => None end
    else None;
  TraceID_IsValid id := negb (bool_decide (arr_list id = replicate 16 x00));
  TraceID_String id := EncodeToString (arr_list id);
  SpanID_String id := EncodeToString (arr_list id);
  SpanContext_IsValid sc :=
    negb (bool_decide (arr_list (sc_TraceID sc) = replicate 16 x00)) &&
    negb (bool_decide (arr_list (sc_SpanID sc) = replicate 8 x00));
  TraceContextHeaderName := gostr "X-Cloud-Trace-Context"
|}.

Lemma lower_hex_digit b : is_lower_hex b = true ->
  exists d, hex_value b = Some d /\ hex_digit d = b /\ 0 <= d < 16.
Proof.
  intros H. assert (Hall : forall b, negb (is_lower_hex b) ||
    match hex_value b with
    | Some d => bool_decide (hex_digit d = b) && (0 <=? d) && (d <? 16)
    | None => false
    end = true) by (apply byte_cases; vm_compute; reflexivity).
  specialize (Hall b). rewrite H in Hall. cbn [negb orb] in Hall.
  destruct (hex_value b) as [d|]; [|done]. prep_bool. exists d. split_and!; [done|done|lia|lia].
Qed.

Lemma Encode_DecodeString n s :
  length s = (2 * n)%nat -> forallb is_lower_hex s = true ->
  exists l, DecodeString s = Some l /\ length l = n /\ EncodeToString l = s.
Proof.
  revert s. induction n as [|n IH]; intros s Hl Hs.
  - destruct s; [|discriminate Hl]. by exists [].
  - destruct s as [|a [|b s]]; [discriminate Hl|cbn in Hl; lia|]. cbn [forallb] in Hs. prep_bool.
    destruct (lower_hex_digit a H) as (x & Hx & Ha & Hxr), (lower_hex_digit b H0) as (y & Hy & Hb & Hyr).
    destruct (IH s) as (l & Hd & Hn & He); [cbn in Hl; lia|done|].
    exists (Z_byte (x * 16 + y) :: l). cbn [DecodeString]. rewrite Hx, Hy, Hd.
    split_and!; [done|cbn; lia|].
    change (EncodeToString (Z_byte (x * 16 + y) :: l)) with
      (hex_digit (byte_Z (Z_byte (x * 16 + y)) / 16) :: hex_digit (byte_Z (Z_byte (x * 16 + y)) mod 16)
       :: EncodeToString l).
    rewrite byte_Z_byte, He by lia.
    replace ((x * 16 + y) / 16) with x by (Z.to_euclidean_division_equations; lia).
    replace ((x * 16 + y) mod 16) with y by (Z.to_euclidean_division_equations; lia). by rewrite Ha, Hb.
Qed.

#[global] Instance ref_otel_ok : OtelOk (O := ref_otel).
Proof.
  split; cbn.
  - reflexivity.
  - intros s Hl Hs Hz. destruct (Encode_DecodeString 16 s Hl Hs) as (l & Hd & Hn & He).
    exists (copy_array 16 l). rewrite Hl, Hs, Hd, bool_decide_eq_false_2 by done. cbn [Nat.eqb andb negb].
    split_and!.
    + apply array_of_Some. by rewrite copy_array_list.
    + by rewrite copy_array_list.
    + rewrite copy_array_list by done. rewrite bool_decide_eq_false_2; [done|]. intros ->.
      apply Hz. by rewrite <- He.
  - done.
  - done.
  - intros sc. rewrite andb_true_iff, !negb_true_iff, !bool_decide_eq_false. done.
  - reflexivity.
  - reflexivity.
Qed.

(** ** Witnesses *)

Definition a_request : Request Context_ := {|
  req_Method := gostr "BREW"; req_URL := MkURL [] [] None (gostr "h") (gostr "/secret") false (gostr "q=1");
  req_Proto := gostr "HTTP/1.1"; req_ProtoMajor := 1; req_ProtoMinor := 1;
  req_Header := {[ gostr "Traceparent" := [gostr "00-1-2-01"]; gostr "Authorization" := [gostr "token"];
                   gostr "X-Cloud-Trace-Context" := [gostr "105445aa7843bc8bf206b12000100000/1;o=1"] ]};
  req_Body := gostr "body"; req_GetBody := None; req_ContentLength := 4; req_TransferEncoding := [];
  req_Close := false; req_Host := gostr "h"; req_Form := None; req_PostForm := None;
  req_MultipartForm := None; req_Trailer := None; req_RemoteAddr := gostr "10.0.0.1:9";
  req_RequestURI := gostr "/secret?q=1"; req_TLS := None; req_Cancel := None; req_Response := None;
  req_Pattern := []; req_ctx := MkContext (MkSpanContext (zero_array 16) (zero_array 8) false) None;
  req_pat := None; req_matches := []; req_otherValues := None
|}.

Definition some_fields : list gostring := map gostr ["X-Cloud-Trace-Context"; "traceparent"; "tracestate"; "baggage"]%string.

Lemma telemetryRequest_sanitizes_witness :
  NoDup (map CanonicalHeaderKey some_fields) /\
  let t := telemetryRequest (O := ref_otel) (req_ctx a_request) a_request some_fields in
  req_Header t !! gostr "Traceparent" = Some [gostr "00-1-2-01"] /\
  req_Header t !! gostr "Authorization" = None /\ req_URL t = MkURL [] [] None [] [] false [].
Proof.
  assert (Hnd : NoDup (map CanonicalHeaderKey some_fields)) by (apply (bool_decide_unpack _); vm_compute; exact I).
  split; [exact Hnd|]. split; [vm_compute; reflexivity|]. split; [vm_compute; reflexivity|].
  exact (proj1 (proj1 (proj2 (telemetryRequest_sanitizes (O := ref_otel) (req_ctx a_request) some_fields a_request Hnd)))).
Defined.

Definition enabled_telemetry : config.Telemetry :=
  config.MkTelemetry true f64_one (gostr "http://localhost:4317") [] config.EnvironmentLocal (gostr "api") [].

Definition failed_start : list (observed effect) :=
  let resource := MkResource serviceNamespace (gostr "api") [] config.EnvironmentLocal in
  let options := [WithEndpointURL (MkURL (gostr "http") [] None (gostr "localhost:4317") [] false []); WithInsecure] in
  [Observed _ (MergeResource resource) (Ok resource);
   Observed _ (NewTraceExporter options) (Ok 7%nat);
   Observed _ (NewMetricExporter options) (Err (Sentinel "no route"));
   Observed _ (ShutdownTraceExporter 7) None].

Lemma newTelemetry_owns_witness : live_exporters failed_start = [].
Proof.
  assert (H : executes (newTelemetry enabled_telemetry defaultOptions) failed_start
    (Err [Wrapped "create metric exporter" [] (Sentinel "no route")])).
  { unfold newTelemetry. replace (parseEndpoint (config.Endpoint enabled_telemetry)) with
      (Ok (E := goerror) (MkURL (gostr "http") [] None (gostr "localhost:4317") [] false [])) by (vm_compute; reflexivity).
    cbn. repeat first [split | eexists]. }
  exact (proj1 (newTelemetry_owns enabled_telemetry failed_start _ H)).
Defined.
Lemma validCloudTraceContext_spec_witness :
  validCloudTraceContext (O := ref_otel) (gostr "105445aa7843bc8bf206b12000100000/1;o=1") = true.
Proof.
  apply (proj2 (validCloudTraceContext_spec (O := ref_otel) (OK := ref_otel_ok)
    (gostr "105445aa7843bc8bf206b12000100000/1;o=1"))).
  exists (gostr "105445aa7843bc8bf206b12000100000"), (gostr "1"), (gostr ";o=1").
  split; [reflexivity|]. split; [reflexivity|]. split; [reflexivity|]. split; [discriminate|].
  split; [cbn; lia|]. split; [reflexivity|]. split; [split; reflexivity|].
  right. exists x31. split; [reflexivity|reflexivity].
Defined.
End observability.
