(* ===== verification/Logging.v ===== *)
(** * Logging and the instrumented handler

    [internal/observability/logging.go], and [New] and [WrapHTTP] of
    [runtime.go].  A handler is a program over the response writer that returns
    or panics; serving it with logging adds the clock and the logger.  zap and
    otelhttp are parameters: a call of the logger is an effect, what it writes is
    not modelled. *)

From S2P Require Import Prelude Float Text Strconv Regexp Net Config Proc Observability.

(** ** Response writers and handlers *)

Inductive writer : Type -> Type :=
  | HeaderSet (key value : gostring) : writer unit
  | HeaderDel (key : gostring) : writer unit
  | WriteHeader (status : Z) : writer unit
  | Write (data : gostring) : writer (Z * option goerror).

(** [panic(http.ErrAbortHandler)] and [panic] of another value, as it is printed. *)
Inductive panic_value := ErrAbortHandler | PanicOf (value : gostring).
Inductive ending := Returned | Panicked (value : panic_value).

Abbreviation HandlerFunc := (Request Context_ -> proc writer ending).

(** [http.Error]. *)
Definition http_Error (text : gostring) (code : Z) : proc writer unit :=
  _ <== perform (HeaderDel (gostr "Content-Length")) ;;
  _ <== perform (HeaderSet (gostr "Content-Type") (gostr "text/plain; charset=utf-8")) ;;
  _ <== perform (HeaderSet (gostr "X-Content-Type-Options") (gostr "nosniff")) ;;
  _ <== perform (WriteHeader code) ;;
  _ <== perform (Write (text ++ [x0a])) ;;
  Return tt.

Module logging.
Import observability.

Definition unsupportedLogLevelReason : string := "unsupported log level".
Definition httpServerDiagnosticMessage : string := "HTTP server diagnostic".
Definition requestCompletedMessage : string := "HTTP request completed".
Definition panicRecoveredMessage : string := "HTTP handler panic recovered".
Definition internalServerErrorMessage : string := "internal server error".
Definition cloudLoggingHTTPRequestKey : string := "httpRequest".
Definition latencySecondsPrecision : nat := 9.

(** ** Levels *)

(** [zapcore.Level]; other numbers are no level. *)
Inductive Level :=
  | DebugLevel | InfoLevel | WarnLevel | ErrorLevel | DPanicLevel | PanicLevel | FatalLevel
  | UnknownLevel (n : Z).

Definition parseLogLevel (level : gostring) : result goerror Level :=
  if bool_decide (level = config.LogLevelDebug) then Ok DebugLevel
  else if bool_decide (level = config.LogLevelInfo) then Ok InfoLevel
  else if bool_decide (level = config.LogLevelWarn) then Ok WarnLevel
  else if bool_decide (level = config.LogLevelError) then Ok ErrorLevel
  else Err (Errorf unsupportedLogLevelReason []).

(** The string that is appended. *)
Definition cloudLoggingLevelEncoder (level : Level) : string :=
  match level with
  | DebugLevel => "DEBUG"
  | InfoLevel => "INFO"
  | WarnLevel => "WARNING"
  | ErrorLevel => "ERROR"
  | DPanicLevel | PanicLevel | FatalLevel => "CRITICAL"
  | UnknownLevel _ => "ERROR"
  end.

(** ** The logger *)

(** What is changed of zap's production encoder. *)
Record EncoderConfig := MkEncoderConfig {
  TimeKey : string;
  MessageKey : string;
  LevelKey : string;
  EncodeTime : string;
  EncodeLevel : Level -> string
}.

(** Where entries go: standard output or the sink that was given. *)
Inductive Sink := Stdout | SinkOf (sink : nat).

Record Logger := MkLogger {
  lg_encoder : EncoderConfig;
  lg_sink : Sink;
  lg_level : Level;
  lg_caller : bool;
  lg_stacktrace : Level
}.

Definition newLogger (level : gostring) (sink : option nat) : result goerror Logger :=
  zapLevel <~ parseLogLevel level ;;
  let encoderConfig := {|
    TimeKey := "timestamp"; MessageKey := "message"; LevelKey := "severity";
    EncodeTime := "RFC3339Nano"; EncodeLevel := cloudLoggingLevelEncoder |} in
  let sink := match sink with None => Stdout | Some sink => SinkOf sink end in
  Ok (MkLogger encoderConfig sink zapLevel true ErrorLevel).

(** ** Serving *)

Inductive effect : Type -> Type :=
  | Writer {X} (w : writer X) : effect X
  | Now : effect Z
  | Log (level : Level) (message : string) (fields : list field) : effect unit.

(** [statusRecorder]: the status of the last [WriteHeader], which is passed on
    with everything else. *)
Definition record_status {X} (w : writer X) (status : Z) : Z :=
  match w with WriteHeader code => code | _ => status end.

Fixpoint recorded {A} (p : proc writer A) (status : Z) : proc effect (Z * A) :=
  match p with
  | Return a => Return (status, a)
  | Perform w k => x <== perform (Writer w) ;; recorded (k x) (record_status w status)
  end.

(** [Duration.Seconds] and [float64] of an [int64]. *)
Definition f64_of_int64 (n : Z) : float64 :=
  match n with
  | Zpos p => binary_round 53 1024 false p 0
  | Z0 => f64_zero
  | Zneg p => binary_round 53 1024 true p 0
  end.

Definition f64_add : float64 -> float64 -> float64 := SFadd 53 1024.
Definition f64_1e9 : float64 := S754_finite false 8388608000000000 (-23).

Definition Duration_Seconds (d : Z) : float64 :=
  f64_add (f64_of_int64 (Z.quot d Second)) (f64_div (f64_of_int64 (Z.rem d Second)) f64_1e9).

Definition formatLatencySeconds (elapsed : Z) : gostring :=
  fmt_f latencySecondsPrecision (Duration_Seconds elapsed) ++ gostr "s".

Section Runtime.
Context {O : Otel}.

Inductive Propagator := CloudTraceOneWayPropagator | TraceContext | Baggage.

Definition newPropagator : list Propagator := [CloudTraceOneWayPropagator; TraceContext; Baggage].

Record Runtime := MkRuntime {
  rt_logger : Logger;
  rt_tracerProvider : TracerProvider;
  rt_meterProvider : MeterProvider;
  rt_propagator : list Propagator;
  rt_shutdown : option Shutdown_;
  rt_projectID : gostring
}.

(** The error is a context and the errors joined in it. *)
Definition New (cfg : config.Config) (runtimeOptions : list (options -> options)) :
    proc observability.effect (result (string * list goerror) Runtime) :=
  let configuredOptions := foldl (fun o option => option o) defaultOptions runtimeOptions in
  match newLogger (config.LogLevel cfg) (opt_logSink configuredOptions) with
  | Err err => Return (Err ("create logger"%string, [err]))
  | Ok logger =>
      telemetry <== newTelemetry (config.cfg_Telemetry cfg) configuredOptions ;;
      match telemetry with
      | Err errs => Return (Err ("create telemetry"%string, errs))
      | Ok t =>
          Return (Ok (MkRuntime logger (tel_tracerProvider t) (tel_meterProvider t) newPropagator
            (Some (tel_shutdown t)) (config.ProjectID (config.cfg_Telemetry cfg))))
      end
  end.

(** Which providers [Shutdown] shuts down, the meter first. *)
Definition Shutdown (runtime : Runtime) : list (MeterProvider + TracerProvider) :=
  match rt_shutdown runtime with
  | None | Some noOpShutdown => []
  | Some (ShutdownBoth meter tracer) => [inl meter; inr tracer]
  end.

(** The fields of the entry for a served request. *)
Definition completed_fields (runtime : Runtime) (request : Request Context_) (status elapsed : Z) : list field :=
  zap_Dict (gostr cloudLoggingHTTPRequestKey) [
    zap_String (gostr "requestMethod") (boundedHTTPMethod (req_Method request));
    zap_Int (gostr "status") status;
    zap_String (gostr "latency") (formatLatencySeconds elapsed)]
  :: TraceFields (req_ctx request) (rt_projectID runtime).

Definition panic_fields (runtime : Runtime) (request : Request Context_) (value : gostring) : list field :=
  [zap_Any (gostr "error") value; zap_Stack (gostr "stack")]
  ++ TraceFields (req_ctx request) (rt_projectID runtime).

(** The deferred function runs when the handler returned or panicked. *)
Definition serveLogged (runtime : Runtime) (request : Request Context_) (handler : HandlerFunc) :
    proc effect ending :=
  started <== perform Now ;;
  served <== recorded (handler request) 200 ;;
  let '(status, result) := served in
  let log_completed (status : Z) : proc effect ending :=
    now <== perform Now ;;
    _ <== perform (Log InfoLevel requestCompletedMessage
                     (completed_fields runtime request status (now - started))) ;;
    Return Returned in
  match result with
  | Returned => log_completed status
  | Panicked ErrAbortHandler => Return (Panicked ErrAbortHandler)
  | Panicked (PanicOf value) =>
      _ <== perform (Log ErrorLevel panicRecoveredMessage (panic_fields runtime request value)) ;;
      answered <== recorded (http_Error (gostr internalServerErrorMessage) 500) status ;;
      log_completed answered.1
  end.

(** [httpServerLogWriter.Write]: what is logged and returned for a diagnostic. *)
Definition httpServerLogWriter_Write (diagnostic : gostring) : proc effect (Z * option goerror) :=
  _ <== perform (Log WarnLevel httpServerDiagnosticMessage []) ;;
  Return (len diagnostic, None).
End Runtime.

(** ** The instrumented handler *)

(** [otelhttp.NewHandler] with the providers and the propagators, and the header
    fields of the propagators. *)
Class Otelhttp := {
  NewHandler : TracerProvider -> MeterProvider -> list Propagator ->
    (Request Context_ -> proc effect ending) -> Request Context_ -> proc effect ending;
  Fields : list Propagator -> list gostring
}.

(** The documented behaviour: the handler is called with the request and the
    span in its context, and what it does is what is done. *)
Class OtelhttpOk {H : Otelhttp} : Prop := {
  handler_called tracer meter propagators handler request : exists span,
    NewHandler tracer meter propagators handler request =
      handler (WithContext request (MkContext span (ctx_original (req_ctx request))))
}.

Definition WrapHTTP {O : Otel} {H : Otelhttp} (runtime : Runtime) (handler : HandlerFunc) :
    Request Context_ -> proc effect ending :=
  let downstream (sanitizedRequest : Request Context_) :=
    let served :=
      match ctx_original (req_ctx sanitizedRequest) with
      | Some originalRequest => WithContext originalRequest (req_ctx sanitizedRequest)
      | None => sanitizedRequest
      end in
    serveLogged runtime served handler in
  let instrumented :=
    NewHandler (rt_tracerProvider runtime) (rt_meterProvider runtime) (rt_propagator runtime) downstream in
  fun request =>
    let ctx := MkContext (ctx_span (req_ctx request)) (Some request) in
    instrumented (telemetryRequest ctx request (Fields (rt_propagator runtime))).
(** * Properties *)

(** ** Traces of the response writer *)

Definition lift_writer (o : observed writer) : observed effect :=
  let '(Observed X w x) := o in Observed X (Writer w) x.

(** The status the recorder holds after a trace. *)
Definition recorded_status (status : Z) (wtr : list (observed writer)) : Z :=
  foldl (fun status o => record_status (obs_effect _ o) status) status wtr.

Lemma recorded_executes {A} (p : proc writer A) status tr st a :
  executes (recorded p status) tr (st, a) <->
    exists wtr, executes p wtr a /\ tr = map lift_writer wtr /\ st = recorded_status status wtr.
Proof.
  revert status tr. induction p as [b|X w k IH]; intros status tr; cbn.
  - split; [intros [-> [= -> ->]]; by exists []|]. by intros (wtr & [-> ->] & -> & ->).
  - split.
    + intros (x & tr' & -> & (wtr & Hp & -> & ->)%IH). exists (Observed X w x :: wtr).
      split; [by exists x, wtr|done].
    + intros (wtr & (x & wtr' & -> & Hp) & -> & ->). exists x, (map lift_writer wtr').
      split; [done|]. apply IH. by exists wtr'.
Qed.

(** What [http.Error] does, [reply] being that of the last write. *)
Definition error_trace (text : gostring) (code : Z) (reply : Z * option goerror) : list (observed writer) :=
  [Observed _ (HeaderDel (gostr "Content-Length")) tt;
   Observed _ (HeaderSet (gostr "Content-Type") (gostr "text/plain; charset=utf-8")) tt;
   Observed _ (HeaderSet (gostr "X-Content-Type-Options") (gostr "nosniff")) tt;
   Observed _ (WriteHeader code) tt;
   Observed _ (Write (text ++ [x0a])) reply].

Lemma http_Error_executes text code wtr u :
  executes (http_Error text code) wtr u <-> exists reply, wtr = error_trace text code reply.
Proof.
  destruct u. cbn. split.
  - intros ([] & t1 & -> & [] & t2 & -> & [] & t3 & -> & [] & t4 & -> & reply & t5 & -> & -> & _). by exists reply.
  - intros (reply & ->). repeat first [split | eexists].
Qed.

(** ** What is logged *)

Section Served.
Context {O : Otel} (runtime : Runtime) (request : Request Context_).

(** The effects after the handler ended. *)
Definition log_trace (started : Z) (wtr : list (observed writer)) (result : ending)
    (reply : Z * option goerror) (now : Z) : list (observed effect) :=
  let trace := TraceFields (req_ctx request) (rt_projectID runtime) in
  let method := if bool_decide (req_Method request ∈ httpMethods) then req_Method request else gostr "OTHER" in
  let completed (status : Z) := [
    Observed _ Now now;
    Observed _ (Log InfoLevel requestCompletedMessage
      (zap_Dict (gostr "httpRequest") [
         zap_String (gostr "requestMethod") method;
         zap_Int (gostr "status") status;
         zap_String (gostr "latency") (formatLatencySeconds (now - started))] :: trace)) tt] in
  match result with
  | Returned => completed (recorded_status 200 wtr)
  | Panicked ErrAbortHandler => []
  | Panicked (PanicOf value) =>
      [Observed _ (Log ErrorLevel panicRecoveredMessage
         (zap_Any (gostr "error") value :: zap_Stack (gostr "stack") :: trace)) tt] ++
      map lift_writer (error_trace (gostr internalServerErrorMessage) 500 reply) ++
      completed 500
  end.

(** C22: serving a request. Whatever the handler does, serving it performs the
    effects of the handler in their order; then, if it returned, logs one entry
    with the bounded method, the status it wrote last and the elapsed time; if it
    panicked, logs the panic, answers 500 and logs that; and only the panic that
    aborts the connection passes through, with nothing logged. No other panic
    escapes. *)
Theorem serveLogged_spec (handler : HandlerFunc) tr result :
  executes (serveLogged runtime request handler) tr result <->
    exists started wtr handled reply now,
      executes (handler request) wtr handled /\
      tr = Observed _ Now started :: map lift_writer wtr ++ log_trace started wtr handled reply now /\
      result = (match handled with Panicked ErrAbortHandler => Panicked ErrAbortHandler | _ => Returned end).
Proof.
  unfold serveLogged. cbn [proc_bind perform executes]. split.
  - intros (started & tr1 & -> & (tr2 & tr3 & [st handled] & -> & Hrec & Hrest)%executes_bind).
    apply recorded_executes in Hrec as (wtr & Hh & -> & ->).
    destruct handled as [|[|value]]; cbn [executes proc_bind perform] in Hrest.
    + destruct Hrest as (now & t1 & -> & [] & t2 & -> & -> & ->).
      by exists started, wtr, Returned, (0, None), now.
    + destruct Hrest as [-> ->]. by exists started, wtr, (Panicked ErrAbortHandler), (0, None), 0.
    + destruct Hrest as ([] & t1 & -> & (t2 & t3 & [st []] & -> & Hrec & Hrest)%executes_bind).
      apply recorded_executes in Hrec as (ewtr & (reply & ->)%http_Error_executes & -> & ->).
      cbn [executes proc_bind perform] in Hrest. destruct Hrest as (now & t4 & -> & [] & t5 & -> & -> & ->).
      by exists started, wtr, (Panicked (PanicOf value)), reply, now.
  - intros (started & wtr & handled & reply & now & Hh & -> & ->).
    exists started, (map lift_writer wtr ++ log_trace started wtr handled reply now). split; [done|].
    apply executes_bind. exists (map lift_writer wtr), (log_trace started wtr handled reply now).
    exists (recorded_status 200 wtr, handled). split; [done|]. split; [apply recorded_executes; by exists wtr|].
    destruct handled as [|[|value]]; cbn [executes proc_bind perform log_trace].
    + repeat first [split | eexists].
    + done.
    + eexists tt, _. split; [done|]. apply executes_bind.
      exists (map lift_writer (error_trace (gostr internalServerErrorMessage) 500 reply)).
      eexists _, (500, tt). split; [done|]. split.
      * apply recorded_executes. exists (error_trace (gostr internalServerErrorMessage) 500 reply).
        split; [apply http_Error_executes; by exists reply|done].
      * repeat first [split | eexists].
Qed.
End Served.

(** ** The status that was sent

    [net/http] sends the first final status: of the first [WriteHeader] that is
    not informational, or 200 with the first byte or at the end. *)

Definition informational (code : Z) : bool := (100 <=? code) && (code <=? 199) && negb (code =? 101).

Fixpoint sent_status (wtr : list (observed writer)) : Z :=
  match wtr with
  | [] => 200
  | Observed _ w _ :: rest =>
      match w with
      | WriteHeader code => if informational code then sent_status rest else code
      | Write _ => 200
      | _ => sent_status rest
      end
  end.

(** The answers of the API: a content type, a status and a body. *)
Definition respond (contentType : gostring) (status : Z) (body : gostring) : proc writer ending :=
  _ <== perform (HeaderSet (gostr "Content-Type") contentType) ;;
  _ <== perform (WriteHeader status) ;;
  _ <== perform (Write body) ;;
  Return Returned.

(** For an answer with a final status, the status logged is the status sent. *)
Lemma respond_logged contentType status body wtr e :
  informational status = false -> executes (respond contentType status body) wtr e ->
  e = Returned /\ recorded_status 200 wtr = status /\ sent_status wtr = status.
Proof.
  intros Hf H. cbn in H. destruct H as ([] & t1 & -> & [] & t2 & -> & reply & t3 & -> & -> & ->).
  cbn. by rewrite Hf.
Qed.

(** A handler that panics after it began to answer is logged as 500, though the
    client was sent the status before. *)
Example panic_logged_not_sent :
  let wtr := [Observed _ (WriteHeader 200) tt; Observed _ (Write (gostr "{")) (1, None)] in
  sent_status (wtr ++ error_trace (gostr internalServerErrorMessage) 500 (0, None)) = 200 /\
  recorded_status 200 (wtr ++ error_trace (gostr internalServerErrorMessage) 500 (0, None)) = 500.
Proof. done. Qed.

(** ** The handler behind the instrumentation *)

(** Instrumentation is transparent. The wrapped handler is served with
    exactly the request that came in, only its context replaced, while the
    instrumentation itself is given the sanitized request; what serving does is
    what is done. *)
Theorem WrapHTTP_transparent {O : Otel} {H : Otelhttp} {OK : OtelhttpOk} runtime (handler : HandlerFunc) request :
  exists span, WrapHTTP runtime handler request =
    serveLogged runtime (WithContext request (MkContext span (Some request))) handler.
Proof.
  unfold WrapHTTP. destruct (handler_called (rt_tracerProvider runtime) (rt_meterProvider runtime)
    (rt_propagator runtime) (fun sanitizedRequest => serveLogged runtime
      match ctx_original (req_ctx sanitizedRequest) with
      | Some originalRequest => WithContext originalRequest (req_ctx sanitizedRequest)
      | None => sanitizedRequest
      end handler)
    (telemetryRequest (MkContext (ctx_span (req_ctx request)) (Some request)) request (Fields (rt_propagator runtime))))
    as [span ->].
  by exists span.
Qed.

(** ** Levels and correlation *)

(** Every configuration that loads has a log level. *)
Lemma loaded_logger lookup v cfg sink :
  config.Load lookup v = Ok cfg -> exists logger, newLogger (config.LogLevel cfg) sink = Ok logger.
Proof.
  intros H. pose proof (config.co_level _ _ (config.Load_ok lookup v cfg H)) as Hl.
  unfold newLogger, parseLogLevel. rewrite !elem_of_cons in Hl.
  destruct Hl as [-> |[-> |[-> |[-> |Hn]]]]; [by eexists..|]. by apply not_elem_of_nil in Hn.
Qed.

(** Entries of a valid span carry its identifiers whenever a project is
    configured. *)
Lemma loaded_TraceFields {O : Otel} {OK : OtelOk} lookup v cfg ctx :
  config.Load lookup v = Ok cfg -> config.ProjectID (config.cfg_Telemetry cfg) <> [] ->
  SpanContext_IsValid (ctx_span ctx) = true ->
  TraceFields ctx (config.ProjectID (config.cfg_Telemetry cfg)) = [
    zap_String cloudLoggingTraceKey (gostr "projects/" ++ config.ProjectID (config.cfg_Telemetry cfg)
      ++ gostr "/traces/" ++ EncodeToString (arr_list (sc_TraceID (ctx_span ctx))));
    zap_String cloudLoggingSpanIDKey (EncodeToString (arr_list (sc_SpanID (ctx_span ctx))));
    zap_Bool cloudLoggingTraceSampledKey (sc_Sampled (ctx_span ctx))].
Proof.
  intros H Hp Hv. pose proof (config.co_project _ _ (config.Load_ok lookup v cfg H) Hp) as Hm.
  unfold TraceFields. rewrite Hv. change projectIDPattern with config.projectIDPattern. rewrite Hm.
  cbn [negb orb]. by rewrite trace_id_string, span_id_string.
Qed.
(** ** Witnesses *)

(** Instrumentation that starts a span and calls the handler. *)
Definition ref_otelhttp : Otelhttp := {|
  NewHandler _ _ _ handler request :=
    handler (WithContext request (MkContext (MkSpanContext (zero_array 16) (zero_array 8) true)
                                    (ctx_original (req_ctx request))));
  Fields _ := some_fields
|}.

Lemma ref_otelhttp_ok : OtelhttpOk (H := ref_otelhttp).
Proof. split. intros. by eexists. Qed.

Definition a_runtime : Runtime :=
  MkRuntime (MkLogger (MkEncoderConfig "timestamp" "message" "severity" "RFC3339Nano" cloudLoggingLevelEncoder)
      Stdout InfoLevel true ErrorLevel)
    NoopTracerProvider NoopMeterProvider newPropagator (Some noOpShutdown) [].

Lemma WrapHTTP_transparent_witness : exists span,
  WrapHTTP (O := ref_otel) (H := ref_otelhttp) a_runtime (fun _ => respond (gostr "text/plain") 204 []) a_request =
    serveLogged (O := ref_otel) a_runtime (WithContext a_request (MkContext span (Some a_request)))
      (fun _ => respond (gostr "text/plain") 204 []).
Proof.
  exact (WrapHTTP_transparent (O := ref_otel) (H := ref_otelhttp) (OK := ref_otelhttp_ok) a_runtime
    (fun _ => respond (gostr "text/plain") 204 []) a_request).
Defined.
End logging.
