(* ===== verification/Latency.v ===== *)
(** * The logged latency

    [formatLatencySeconds] of [internal/observability/logging.go] divides, adds and
    rounds in binary64 and prints nine decimals.  For every duration below
    [2 ^ 23] seconds, about 97 days, what it prints is the number of nanoseconds
    with the point moved: the errors of the division and of the sum stay below
    half a nanosecond. *)

From S2P Require Import Prelude Float Text Strconv Net Config Proc Observability Logging.

Module latency.
Import logging.

#[local] Abbreviation canonical64 := (canonical 53 1024).

(** [x] is the positive float of value [W * 2 ^ -82]. *)
Definition val (x : float64) (W : Z) : Prop :=
  exists m e, x = S754_finite false m e /\ canonical64 m e /\ -82 <= e <= 971 /\ W = Zpos m * 2 ^ (e + 82).

Lemma pow2_le a b : a <= b -> 2 ^ a <= 2 ^ b.
Proof. intros H. destruct (Z.le_gt_cases 0 a); [by apply Z.pow_le_mono_r|]. rewrite (Z.pow_neg_r 2 a) by lia. apply Z.pow_nonneg. lia. Qed.

(** Half a unit is the error of rounding. *)
Lemma round_at_error m k : 0 <= m -> 0 <= k -> 2 * Z.abs (round_at m k * 2 ^ k - m) <= 2 ^ k.
Proof.
  intros Hm Hk. destruct (div_mod_pow2 m k Hk) as [Hd Hr].
  destruct (round_at_cases m k Hm Hk) as [(-> & H & _)|(-> & _ & H & _)]; lia.
Qed.

Lemma round_at_nearest m k n : 0 <= m -> 0 <= k -> 2 * Z.abs (m - n * 2 ^ k) < 2 ^ k -> round_at m k = n.
Proof.
  intros Hm Hk H. pose proof (round_at_error m k Hm Hk) as He. pose proof (pow2_pos k Hk) as Hp.
  assert (Z.abs ((round_at m k - n) * 2 ^ k) < 2 ^ k) as Hx by lia.
  rewrite Z.abs_mul, (Z.abs_eq (2 ^ k)) in Hx by lia. nia.
Qed.

Lemma error_scale x y v u : 0 < u -> 2 * Z.abs (x - y) <= v <-> 2 * Z.abs (x * u - y * u) <= v * u.
Proof.
  intros Hu. rewrite <- Z.mul_sub_distr_r, Z.abs_mul, (Z.abs_eq u), Z.mul_assoc by lia.
  apply Z.mul_le_mono_pos_r. lia.
Qed.

(** A correctly rounded result of a value [S * 2 ^ -82] from [2 ^ -30] to [2 ^ j]. *)
Lemma rounds_value m e r S j :
  fits 53 1024 (Zpos m) e -> rounds_from 53 1024 (Zpos m) e r -> mag_eq (Zpos m) e S (-82) ->
  2 ^ 52 <= S < 2 ^ (j + 82) -> j <= 100 ->
  exists W E, val r W /\ -82 <= E <= j - 53 /\ (2 ^ (E + 82) | W) /\ 2 * Z.abs (W - S) <= 2 ^ (E + 82).
Proof.
  intros He (s & Hst & Hs) Hmag HS Hj. destruct Hs as [|Hs]; [done|subst s]. cbn [fits rnd fst snd] in He, Hst.
  set (E := exponent 53 1024 m e) in *. set (c := Z.min e (-82)).
  pose proof (Hmag c ltac:(lia) ltac:(lia)) as Hm. pose proof (mag_digits c m e ltac:(lia)) as Hd.
  pose proof (exponent_bounds 53 1024 m e) as (_ & HE1 & HE). fold E in HE, HE1. unfold SpecFloat.emin in HE.
  set (t := 2 ^ (-82 - c)). assert (Ht : 0 < t) by (apply pow2_pos; lia).
  assert (HmS : mag c S (-82) = S * t) by done. rewrite Hm, HmS in Hd.
  assert (Hlo : 2 ^ (52 + (-82 - c)) <= S * t) by (rewrite pow2_split by lia; fold t; nia).
  assert (Hhi : S * t < 2 ^ (j + 82 + (-82 - c))).
  { destruct (Z.le_gt_cases 0 (j + 82)); [rewrite pow2_split by lia; fold t; nia|].
    rewrite (Z.pow_neg_r 2 (j + 82)) in HS by lia. lia. }
  assert (52 + (-82 - c) < Zpos (digits2_pos m) + e - c) by (apply pow2_lt_inv; lia).
  assert (Zpos (digits2_pos m) - 1 + e - c < j + 82 + (-82 - c)) by (apply pow2_lt_inv; lia).
  assert (-82 <= E <= j - 53) as HEr by lia.
  set (R := rounded 53 1024 m e) in *.
  assert (Herr : 2 * Z.abs (R * 2 ^ (E + 82) - S) <= 2 ^ (E + 82)).
  { pose proof (round_at_error (Zpos m) (E - e) ltac:(lia) ltac:(lia)) as Hr. fold E in R. fold R in Hr.
    assert (Hu : 0 < 2 ^ (e - c)) by (apply pow2_pos; lia).
    apply (error_scale _ _ _ _ Hu) in Hr. apply (error_scale _ _ _ t Ht).
    unfold t. rewrite <- !Z.mul_assoc, <- !pow2_split in * by lia.
    replace (E + 82 + (-82 - c)) with (E - e + (e - c)) by lia. fold t. rewrite <- HmS, <- Hm. exact Hr. }
  exists (R * 2 ^ (E + 82)), E. split_and!; [|lia|lia|by eexists|exact Herr].
  destruct (rounded_bounds 53 1024 ltac:(lia) m e He) as [Hb Hn]. fold E R in Hb, Hn.
  specialize (Hn ltac:(unfold SpecFloat.emin; lia)).
  destruct Hst as [[Hz _]|(m2 & e2 & Hc & He2 & HR & ->)]; [rewrite Hz in Hn; lia|].
  assert (2 ^ (e2 - E) < 2 ^ 54).
  { pose proof (pow2_pos (e2 - E) ltac:(lia)). change (2 ^ 54) with (2 ^ 53 * 2). nia. }
  assert (e2 - E < 54) by (by apply pow2_lt_inv).
  exists m2, e2. change (1024 - 53) with 971. rewrite (proj2 (Z.leb_le e2 971)) by lia.
  split_and!; [done|done|lia|lia|]. rewrite HR, <- Z.mul_assoc, <- pow2_split by lia. do 2 f_equal. lia.
Qed.
(** Integers below [2 ^ 30] are exact. *)
Lemma of_int64_val n : 0 < n < 2 ^ 30 -> val (f64_of_int64 n) (n * 2 ^ 82).
Proof.
  intros Hn. destruct n as [|p|]; [lia| |lia]. cbn [f64_of_int64].
  destruct (binary_round_rounds 53 1024 ltac:(lia) p 0) as (m & e & F & R & Heq).
  destruct (rounds_value m e _ (Zpos p * 2 ^ 82) 30 F R) as (W & E & Hv & HE & [w Hw] & Herr).
  - intros b H1 H2. rewrite (Heq b) by lia. unfold mag. rewrite <- Z.mul_assoc, <- pow2_split by lia.
    do 2 f_equal. lia.
  - change (2 ^ (30 + 82)) with (2 ^ 30 * 2 ^ 82). lia.
  - lia.
  - assert (W = Zpos p * 2 ^ 82) as <-; [|done].
    set (u := 2 ^ (E + 82)) in *. assert (Hu : 0 < u) by (apply pow2_pos; lia).
    assert (Hp : Zpos p * 2 ^ 82 = Zpos p * 2 ^ (- E) * u).
    { unfold u. rewrite <- Z.mul_assoc, <- pow2_split by lia. do 2 f_equal. lia. }
    rewrite Hp in *. subst W. 
    assert (w = Zpos p * 2 ^ (- E)) as ->; [|done].
    rewrite <- Z.mul_sub_distr_r, Z.abs_mul, (Z.abs_eq u) in Herr by lia.
    set (k := Z.abs (w - Zpos p * 2 ^ (- E))) in *. assert (k = 0) by nia. lia.
Qed.

Lemma SFadd_finite m1 e1 m2 e2 :
  SFadd 53 1024 (S754_finite false m1 e1) (S754_finite false m2 e2) =
    binary_normalize 53 1024 (mag (Z.min e1 e2) (Zpos m1) e1 + mag (Z.min e1 e2) (Zpos m2) e2) (Z.min e1 e2) false.
Proof. cbn [SFadd cond_Zopp]. by rewrite !shl_align_mag by lia. Qed.

(** The sum of two numbers, of a value below [2 ^ 23]. *)
Lemma add_val x y A B :
  val x A -> val y B -> 2 ^ 52 <= A + B < 2 ^ 105 ->
  exists W, val (f64_add x y) W /\ 2 * Z.abs (W - (A + B)) <= 2 ^ 52.
Proof.
  intros (m1 & e1 & -> & _ & He1 & ->) (m2 & e2 & -> & _ & He2 & ->) HS. unfold f64_add. rewrite SFadd_finite.
  set (b := Z.min e1 e2). set (S := mag b (Zpos m1) e1 + mag b (Zpos m2) e2).
  assert (HSb : S * 2 ^ (b + 82) = Zpos m1 * 2 ^ (e1 + 82) + Zpos m2 * 2 ^ (e2 + 82)).
  { unfold S, mag. rewrite Z.mul_add_distr_r, <- !Z.mul_assoc, <- !pow2_split by lia.
    f_equal; do 2 f_equal; lia. }
  pose proof (pow2_pos (b + 82) ltac:(lia)) as Hp.
  destruct S as [|m|] eqn:ES; [lia| |lia]. cbn [binary_normalize].
  destruct (binary_round_rounds 53 1024 ltac:(lia) m b) as (m' & e' & F & R & Heq).
  destruct (rounds_value m' e' _ (Zpos m * 2 ^ (b + 82)) 23 F R) as (W & E & Hv & HE & _ & Herr).
  - intros c H1 H2. pose proof (Z.min_spec c b) as Hc.
    assert (Hcb : mag c (Zpos m' ) e' = mag c (Zpos m) b) by (apply Heq; lia). rewrite Hcb.
    unfold mag. rewrite <- Z.mul_assoc, <- pow2_split by lia. do 2 f_equal. lia.
  - rewrite HSb. exact HS.
  - lia.
  - exists W. split; [done|]. rewrite <- HSb. pose proof (pow2_le (E + 82) 52 ltac:(lia)). lia.
Qed.
(** Whatever the location, rounding gives a neighbour. *)
Lemma round_aux_neighbour q e l :
  2 ^ 52 <= q < 2 ^ 54 -> -1000 <= e ->
  exists k n, 0 <= k <= 1 /\ 2 ^ 52 <= q / 2 ^ k < 2 ^ 53 /\ q / 2 ^ k <= n <= q / 2 ^ k + 1 /\
    stands_for 53 1024 n (e + k) false (binary_round_aux 53 1024 false q e l).
Proof.
  intros Hq He. destruct q as [|m|]; [lia| |lia].
  set (k := Zpos (digits2_pos m) - 53).
  assert (Hk : 0 <= k <= 1 /\ 2 ^ 52 <= Zpos m / 2 ^ k < 2 ^ 53).
  { unfold k. destruct (Z.lt_ge_cases (Zpos m) (2 ^ 53)) as [H|H].
    - rewrite (digits_unique m 53) by (change (2 ^ (53 - 1)) with (2 ^ 52); lia). rewrite Z.div_1_r. lia.
    - rewrite (digits_unique m 54) by (change (2 ^ (54 - 1)) with (2 ^ 53); lia). change (2 ^ (54 - 53)) with 2.
      change (2 ^ 53) with (2 ^ 52 * 2) in *. change (2 ^ 54) with (2 ^ 52 * 2 * 2) in *.
      Z.to_euclidean_division_equations; lia. }
  assert (Hf : SpecFloat.fexp 53 1024 (Zdigits2 (Zpos m) + e) = e + k).
  { cbn [Zdigits2]. unfold SpecFloat.fexp, SpecFloat.emin, k. lia. }
  assert (Hs : exists mrs, shr_fexp 53 1024 (Zpos m) e l = (mrs, e + k) /\ shr_m mrs = Zpos m / 2 ^ k).
  { unfold shr_fexp. rewrite Hf. replace (e + k - e) with k by lia.
    assert (Hm : shr_m (shr_record_of_loc (Zpos m) l) = Zpos m) by (by destruct l as [|[]]).
    destruct (Z.eq_dec k 0) as [->|Hk0].
    - rewrite Z.div_1_r, Z.add_0_r. eexists. by split.
    - replace k with 1 by lia. destruct (shr_record_of_loc (Zpos m) l) as [m' r s]. cbn [shr_m] in Hm. subst m'.
      cbn [shr iter_pos]. rewrite shr_1_step by lia. by eexists. }
  destruct Hs as (mrs & Hs & Hm). unfold binary_round_aux. rewrite Hs.
  set (n := round_nearest_even (shr_m mrs) (loc_of_shr_record mrs)).
  assert (Hn : Zpos m / 2 ^ k <= n <= Zpos m / 2 ^ k + 1).
  { unfold n. rewrite Hm. destruct (loc_of_shr_record mrs) as [|[]]; cbn [round_nearest_even]; try lia.
    destruct (Z.even _); lia. }
  exists k, n. split; [lia|]. split; [lia|]. split; [done|].
  apply renormalize; [lia|lia|unfold SpecFloat.emin; lia|]. intros _. change (2 ^ (53 - 1)) with (2 ^ 52). lia.
Qed.
(** A positive normal number has 53 digits. *)
Lemma val_digits m e : canonical64 m e -> -82 <= e -> 2 ^ 52 <= Zpos m < 2 ^ 53 /\ Zpos (digits2_pos m) = 53.
Proof.
  intros Hc He. pose proof (canonical_mantissa_lt 53 1024 ltac:(lia) m e Hc).
  pose proof (canonical_normal 53 1024 m e Hc ltac:(unfold SpecFloat.emin; lia)) as Hl.
  change (53 - 1) with 52 in Hl. split; [lia|]. apply digits_unique. change (53 - 1) with 52. lia.
Qed.

(** The quotient [m1 * 2 ^ 53 / m2] of two mantissas, rounded. *)
Lemma div_finite m1 e1 m2 :
  canonical64 m1 e1 -> -82 <= e1 <= 971 -> 2 ^ 52 <= Zpos m2 < 2 ^ 53 ->
  exists k n, 0 <= k <= 1 /\ 2 ^ 52 <= n <= 2 ^ 53 /\
    Z.abs (n * Zpos m2 * 2 ^ k - Zpos m1 * 2 ^ 53) <= Zpos m2 * 2 ^ k /\
    stands_for 53 1024 n (e1 - 30 + k) false
      (f64_div (S754_finite false m1 e1) (S754_finite false m2 (-23))).
Proof.
  intros Hc He Hm2. destruct (val_digits m1 e1 Hc ltac:(lia)) as [Hm1 Hd1].
  unfold f64_div, SFdiv, SFdiv_core_binary. cbn [Zdigits2]. rewrite Hd1, (digits_unique m2 53) by (change (53 - 1) with 52; lia).
  replace (Z.min (SpecFloat.fexp 53 1024 (53 + e1 - (53 + -23))) (e1 - -23)) with (e1 - 30)
    by (unfold SpecFloat.fexp, SpecFloat.emin; lia).
  replace (e1 - -23 - (e1 - 30)) with 53 by lia.
  pose proof (Z_div_mod (Z.shiftl (Zpos m1) 53) (Zpos m2) ltac:(lia)) as Hqr.
  destruct (Z.div_eucl _ _) as [q r]. rewrite Z.shiftl_mul_pow2 in Hqr by lia. destruct Hqr as [Hq Hr].
  assert (Hqb : 2 ^ 52 <= q < 2 ^ 54).
  { change (2 ^ 53) with (2 ^ 52 * 2) in *. change (2 ^ 54) with (2 ^ 52 * 2 * 2) in *. nia. }
  destruct (round_aux_neighbour q (e1 - 30) (new_location (Zpos m2) r) Hqb ltac:(lia)) as (k & n & Hk & Hqk & Hn & Hst).
  exists k, n. split; [lia|]. split; [lia|]. split; [|exact Hst].
  destruct (div_mod_pow2 q k ltac:(lia)) as [Hqd Hqr]. rewrite Hq.
  set (u := 2 ^ k) in *. set (a := q / u) in *. set (b := q mod u) in *.
  assert (Hu : 0 < u) by (apply pow2_pos; lia).
  assert (Hrest : 0 <= Zpos m2 * b + r < Zpos m2 * u) by nia.
  replace (n * Zpos m2 * u - (Zpos m2 * q + r)) with ((n - a) * (Zpos m2 * u) - (Zpos m2 * b + r)) by (rewrite Hqd; ring).
  set (c := Zpos m2 * b + r) in *. set (P := Zpos m2 * u) in *.
  destruct (Z.eq_dec n a) as [->|]; [rewrite Z.sub_diag; lia|]. replace (n - a) with 1 by lia. lia.
Qed.

Lemma stands_for_val n E r :
  2 ^ 52 <= n <= 2 ^ 53 -> -82 <= E <= 900 -> stands_for 53 1024 n E false r -> val r (n * 2 ^ (E + 82)).
Proof.
  intros Hn HE [[Hz _]|(m & e & Hc & He & HR & ->)]; [lia|].
  assert (2 ^ (e - E) < 2 ^ 54).
  { pose proof (pow2_pos (e - E) ltac:(lia)). change (2 ^ 54) with (2 ^ 53 * 2). nia. }
  assert (e - E < 54) by (by apply pow2_lt_inv).
  exists m, e. change (1024 - 53) with 971. rewrite (proj2 (Z.leb_le e 971)) by lia.
  split_and!; [done|done|lia|lia|]. rewrite HR, <- Z.mul_assoc, <- pow2_split by lia. do 2 f_equal. lia.
Qed.

(** Nanoseconds as a fraction of a second, to [2 ^ -52]. *)
Lemma fraction_val n : 0 < n < 10 ^ 9 ->
  exists V, val (f64_div (f64_of_int64 n) f64_1e9) V /\ Z.abs (V * 10 ^ 9 - n * 2 ^ 82) <= 2 ^ 30 * 10 ^ 9.
Proof.
  intros Hn. destruct (of_int64_val n) as (m1 & e1 & -> & Hc & He & HW); [lia|].
  destruct (val_digits m1 e1 Hc ltac:(lia)) as [Hm1 _].
  assert (He1 : -53 < e1 < -22).
  { split.
    - assert (Hlt : 2 ^ 82 < 2 ^ (53 + (e1 + 82))).
      { rewrite pow2_split by lia. pose proof (pow2_pos (e1 + 82) ltac:(lia)). nia. }
      apply pow2_lt_inv in Hlt. lia.
    - assert (Hlt : 2 ^ (52 + (e1 + 82)) < 2 ^ 112).
      { rewrite pow2_split by lia. pose proof (pow2_pos (e1 + 82) ltac:(lia)). change (2 ^ 112) with (2 ^ 30 * 2 ^ 82). nia. }
      apply pow2_lt_inv in Hlt. lia. }
  destruct (div_finite m1 e1 8388608000000000 Hc ltac:(lia) ltac:(lia)) as (k & n' & Hk & Hn' & Herr & Hst).
  exists (n' * 2 ^ (e1 - 30 + k + 82)). split; [apply stands_for_val; [lia|lia|exact Hst]|].
  assert (Hp : 0 < 2 ^ (e1 + 52)) by (apply pow2_pos; lia).
  assert (H1 : n' * 2 ^ (e1 - 30 + k + 82) * 10 ^ 9 * 2 ^ 23 = n' * 8388608000000000 * 2 ^ k * 2 ^ (e1 + 52)).
  { replace (e1 - 30 + k + 82) with (k + (e1 + 52)) by lia. rewrite pow2_split by lia.
    change 8388608000000000 with (10 ^ 9 * 2 ^ 23). ring. }
  assert (H2 : n * 2 ^ 82 * 2 ^ 23 = Zpos m1 * 2 ^ 53 * 2 ^ (e1 + 52)).
  { rewrite HW, <- !Z.mul_assoc, <- !pow2_split by lia. do 2 f_equal. lia. }
  assert (H3 : 2 ^ k * 2 ^ (e1 + 52) <= 2 ^ 30).
  { rewrite <- pow2_split by lia. apply pow2_le. lia. }
  assert (Hx : Z.abs ((n' * 2 ^ (e1 - 30 + k + 82) * 10 ^ 9 - n * 2 ^ 82) * 2 ^ 23) <= 2 ^ 30 * 10 ^ 9 * 2 ^ 23).
  { rewrite Z.mul_sub_distr_r, H1, H2, <- Z.mul_sub_distr_r, Z.abs_mul, (Z.abs_eq (2 ^ (e1 + 52))) by lia.
    change (2 ^ 30 * 10 ^ 9 * 2 ^ 23) with (8388608000000000 * 2 ^ 30).
    etrans; [apply Z.mul_le_mono_nonneg_r; [lia|exact Herr]|]. rewrite <- Z.mul_assoc.
    by apply Z.mul_le_mono_nonneg_l. }
  rewrite Z.abs_mul, (Z.abs_eq (2 ^ 23)) in Hx by lia. lia.
Qed.
(** ** What is printed *)

(** The decimal text of a number of nanoseconds. *)
Definition decimal_seconds (nanoseconds : Z) : gostring :=
  fmt_d (nanoseconds / 10 ^ 9) ++ gostr "." ++
  replicate (9 - length (fmt_d (nanoseconds mod 10 ^ 9))) x30 ++ fmt_d (nanoseconds mod 10 ^ 9) ++ gostr "s".

Lemma fmt_val x W d :
  val x W -> 0 <= d -> W < 2 ^ 106 -> 2 * Z.abs (W * 10 ^ 9 - d * 2 ^ 82) < 2 ^ 82 ->
  fmt_f 9 x ++ gostr "s" = decimal_seconds d.
Proof.
  intros (m & e & -> & Hc & He & ->) Hd HW Herr. destruct (val_digits m e Hc ltac:(lia)) as [Hm _].
  assert (He0 : e < -28).
  { assert (Hlt : 2 ^ (52 + (e + 82)) < 2 ^ 106).
    { rewrite pow2_split by lia. pose proof (pow2_pos (e + 82) ltac:(lia)). nia. }
    apply pow2_lt_inv in Hlt. lia. }
  assert (Hr : round_at (Zpos m * 10 ^ Z.of_nat 9) (- e) = d).
  { apply round_at_nearest; [lia|lia|]. change (Z.of_nat 9) with 9.
    pose proof (pow2_pos (e + 82) ltac:(lia)) as Hp.
    assert (Hs : 2 ^ 82 = 2 ^ (- e) * 2 ^ (e + 82)) by (rewrite <- pow2_split by lia; f_equal; lia).
    rewrite Hs in Herr.
    replace (Zpos m * 2 ^ (e + 82) * 10 ^ 9 - d * (2 ^ (- e) * 2 ^ (e + 82)))
      with ((Zpos m * 10 ^ 9 - d * 2 ^ (- e)) * 2 ^ (e + 82)) in Herr by ring.
    rewrite Z.abs_mul, (Z.abs_eq (2 ^ (e + 82))), Z.mul_assoc in Herr by lia.
    by apply Z.mul_lt_mono_pos_r in Herr. }
  cbn [fmt_f Nat.eqb app]. rewrite (proj2 (Z.leb_gt 0 e)) by lia. rewrite Hr. change (Z.of_nat 9) with 9.
  unfold decimal_seconds, fmt_d. pose proof (Z.mod_pos_bound d (10 ^ 9) ltac:(lia)).
  pose proof (Z.div_pos d (10 ^ 9) Hd ltac:(lia)).
  rewrite !(proj2 (Z.ltb_ge _ 0)) by lia. by rewrite <- !app_assoc.
Qed.

(** C32: logged latencies are exact. For every duration from 0 to less than
    [2 ^ 23] seconds, the latency that is logged, computed in binary64 with a
    division and a sum that round, is exactly the number of nanoseconds in
    decimal: the seconds, a point, nine digits and "s". *)
Theorem formatLatencySeconds_exact d :
  0 <= d < 2 ^ 23 * 10 ^ 9 -> formatLatencySeconds d = decimal_seconds d.
Proof.
  intros Hd. unfold formatLatencySeconds, Duration_Seconds. change latencySecondsPrecision with 9%nat.
  change Second with (10 ^ 9). rewrite Z.quot_div_nonneg, Z.rem_mod_nonneg by lia.
  set (s := d / 10 ^ 9). set (n := d mod 10 ^ 9).
  pose proof (Z.div_mod d (10 ^ 9) ltac:(lia)) as Hdm. fold s n in Hdm.
  assert (Hn : 0 <= n < 10 ^ 9) by (apply Z.mod_pos_bound; lia).
  assert (Hs : 0 <= s < 2 ^ 23) by (unfold s; split; [apply Z.div_pos; lia|apply Z.div_lt_upper_bound; lia]).
  destruct (Z.eq_dec n 0) as [Hn0|Hn0].
  - rewrite Hn0 in *. change (f64_of_int64 0) with f64_zero. change (f64_div f64_zero f64_1e9) with f64_zero.
    destruct (Z.eq_dec s 0) as [Hs0|Hs0].
    + replace d with 0 by lia. rewrite Hs0. reflexivity.
    + pose proof (of_int64_val s ltac:(lia)) as Hv.
      assert (Hz : f64_add (f64_of_int64 s) f64_zero = f64_of_int64 s) by (by destruct Hv as (? & ? & -> & _)).
      rewrite Hz. apply (fmt_val _ _ d Hv); [lia|change (2 ^ 106) with (2 ^ 24 * 2 ^ 82); nia|lia].
  - destruct (fraction_val n ltac:(lia)) as (V & HV & Hf).
    destruct (Z.eq_dec s 0) as [Hs0|Hs0].
    + rewrite Hs0. change (f64_of_int64 0) with f64_zero.
      assert (Hz : forall y, val y V -> f64_add f64_zero y = y) by (by intros y (? & ? & -> & _)).
      rewrite (Hz _ HV). apply (fmt_val _ _ d HV); lia.
    + pose proof (of_int64_val s ltac:(lia)) as Hv.
      destruct (add_val _ _ _ _ Hv HV) as (W & HW & He); [lia|].
      apply (fmt_val _ _ d HW); lia.
Qed.

Lemma formatLatencySeconds_exact_witness : formatLatencySeconds 1234567890 = gostr "1.234567890s".
Proof. rewrite (formatLatencySeconds_exact 1234567890) by (split; [discriminate|reflexivity]). reflexivity. Defined.
(** From [2 ^ 23] seconds on, nanoseconds are no longer told apart. *)
Example latency_limit :
  formatLatencySeconds (2 ^ 23 * 10 ^ 9 + 1) = gostr "8388608.000000002s" /\
  formatLatencySeconds (2 ^ 23 * 10 ^ 9 - 1) = gostr "8388607.999999999s".
Proof. vm_compute. by split. Qed.
End latency.
