(* ===== verification/App.v ===== *)
(** * The application's lifecycle

    [internal/app/runtime.go] and [internal/app/server.go]: serve until
    cancelled or the server fails, then close what the process owns.  [Run] is a
    program over the effects of the process; what the server, the contexts and
    the resources answer is up to the environment. *)

From S2P Require Import Prelude Text Strconv Config Proc.

(** ** server.go *)

Module app.

Definition readHeaderTimeout : Z := 5 * Second.
Definition readTimeout : Z := 15 * Second.
Definition writeTimeout : Z := 30 * Second.
Definition idleTimeout : Z := 60 * Second.

(** The fields of [http.Server] that are set. *)
Record HTTPServer (H L : Type) := MkHTTPServer {
  Addr : gostring;
  Handler : H;
  ErrorLog : L;
  ReadHeaderTimeout : Z;
  ReadTimeout : Z;
  WriteTimeout : Z;
  IdleTimeout : Z
}.
Arguments MkHTTPServer {H L} _ _ _ _ _ _ _.

Definition NewHTTPServer {H L} (address : gostring) (handler : H) (errorLog : L) : HTTPServer H L :=
  MkHTTPServer address handler errorLog readHeaderTimeout readTimeout writeTimeout idleTimeout.

(** ** runtime.go *)

Definition telemetryShutdownReserve : Z := Second.

Definition errNilContext : goerror := Sentinel "run context is required".
Definition errInvalidShutdownTimeout : goerror :=
  Sentinel "shutdown timeout must exceed the telemetry reserve".
Definition errNilServer : goerror := Sentinel "HTTP server is required".
Definition errNilListener : goerror := Sentinel "HTTP listener is required".
Definition errNilTelemetryShutdown : goerror := Sentinel "telemetry shutdown is required".
Definition errNilLoggerSync : goerror := Sentinel "logger sync is required".

(** [http.ErrServerClosed]. *)
Definition ErrServerClosed : goerror := Sentinel "http: Server closed".

(** Which dependencies are given. *)
Record Dependencies := MkDependencies {
  dep_Server : bool;
  dep_Listener : bool;
  dep_ShutdownTelemetry : bool;
  dep_SyncLogger : bool
}.

(** The effects.  An error that is nil is [None]; a timeout is in nanoseconds.
    [Serve] starts the goroutine; the first [select] gives what it returned or
    that the context is done, the second what it returned or the error of the
    context whose deadline passed. *)
Inductive effect : Type -> Type :=
  | Serve : effect unit
  | SelectServeOrDone : effect (option (option goerror))
  | WithTimeout (timeout : Z) : effect unit
  | ShutdownServer (timeout : Z) : effect (option goerror)
  | SelectServeOrDeadline : effect (option goerror + goerror)
  | ShutdownTelemetry : effect (option goerror)
  | SyncLogger : effect (option goerror).

Definition validateRunInputs (ctx : bool) (shutdownTimeout : Z) (dependencies : Dependencies) :
    option goerror :=
  if negb ctx then Some errNilContext
  else if shutdownTimeout <=? telemetryShutdownReserve then Some errInvalidShutdownTimeout
  else if negb (dep_Server dependencies) then Some errNilServer
  else if negb (dep_Listener dependencies) then Some errNilListener
  else if negb (dep_ShutdownTelemetry dependencies) then Some errNilTelemetryShutdown
  else if negb (dep_SyncLogger dependencies) then Some errNilLoggerSync
  else None.

Definition normalizeServeError (err : option goerror) : option goerror :=
  match err with
  | None => None
  | Some err => if errors_Is err ErrServerClosed then None else Some (Wrapped "serve HTTP" [] err)
  end.

Definition wrapError (operation : string) (err : option goerror) : option goerror :=
  match err with
  | None => None
  | Some err => Some (Wrapped operation [] err)
  end.

(** [errors.Join]: the errors that are not nil; nil when there are none. *)
Definition Join (errs : list (option goerror)) : list goerror := omap id errs.

(** [Err] when the inputs are refused, otherwise the joined errors. *)
Definition Run (ctx : bool) (shutdownTimeout : Z) (dependencies : Dependencies) :
    proc effect (result goerror (list goerror)) :=
  match validateRunInputs ctx shutdownTimeout dependencies with
  | Some err => Return (Err err)
  | None =>
      _ <== perform Serve ;;
      served <== perform SelectServeOrDone ;;
      _ <== perform (WithTimeout shutdownTimeout) ;;
      httpShutdownErr <== perform (ShutdownServer (shutdownTimeout - telemetryShutdownReserve)) ;;
      serveErr <==
        (match served with
         | Some serveErr => Return serveErr
         | None =>
             waited <== perform SelectServeOrDeadline ;;
             match waited with
             | inl serveErr => Return serveErr
             | inr ctxErr => Return (Some (Wrapped "wait for HTTP server" [] ctxErr))
             end
         end) ;;
      telemetryShutdownErr <== perform ShutdownTelemetry ;;
      loggerSyncErr <== perform SyncLogger ;;
      Return (Ok (Join [
        normalizeServeError serveErr;
        wrapError "shut down HTTP server" httpShutdownErr;
        wrapError "shut down telemetry" telemetryShutdownErr;
        wrapError "sync logger" loggerSyncErr]))
  end.

(** ** Properties *)

(** What an execution that got past validation did, by what was answered: how
    serving ended, then the outcome of each step of the shutdown. *)
Definition lifecycle (shutdownTimeout : Z) (served : option (option goerror))
    (waited : option goerror + goerror) (http telemetry logger : option goerror) : list (observed effect) :=
  [Observed _ Serve tt;
   Observed _ SelectServeOrDone served;
   Observed _ (WithTimeout shutdownTimeout) tt;
   Observed _ (ShutdownServer (shutdownTimeout - telemetryShutdownReserve)) http] ++
  (match served with Some _ => [] | None => [Observed _ SelectServeOrDeadline waited] end) ++
  [Observed _ ShutdownTelemetry telemetry;
   Observed _ SyncLogger logger].

(** How serving ended. *)
Definition serve_outcome (served : option (option goerror)) (waited : option goerror + goerror) :
    option goerror :=
  match served, waited with
  | Some err, _ => err
  | None, inl err => err
  | None, inr ctxErr => Some (Wrapped "wait for HTTP server" [] ctxErr)
  end.

(** A clean end of serving. *)
Definition served_cleanly (err : option goerror) : Prop :=
  match err with None => True | Some err => errors_Is err ErrServerClosed = true end.

Lemma Join_nil errs : Join errs = [] <-> Forall (fun e => e = None) errs.
Proof.
  unfold Join. induction errs as [|[e|] errs IH]; cbn.
  - split; [constructor|done].
  - split; [done|]. intros H. by inversion H.
  - rewrite IH. split; [by constructor|]. intros H. by inversion H.
Qed.

Lemma Join_elem errs e : e ∈ Join errs <-> Some e ∈ errs.
Proof.
  unfold Join. rewrite list_elem_of_omap. split; [by intros (x & Hx & <-)|]. intros H. by exists (Some e).
Qed.

Lemma Run_executes ctx timeout deps tr res :
  validateRunInputs ctx timeout deps = None -> executes (Run ctx timeout deps) tr res ->
  exists served waited http telemetry logger,
    tr = lifecycle timeout served waited http telemetry logger /\
    res = Ok (Join [normalizeServeError (serve_outcome served waited);
      wrapError "shut down HTTP server" http; wrapError "shut down telemetry" telemetry;
      wrapError "sync logger" logger]).
Proof.
  intros Hv H. unfold Run in H. rewrite Hv in H. cbn in H.
  destruct H as ([] & t1 & -> & served & t2 & -> & [] & t3 & -> & http & t4 & -> & H).
  destruct served as [err|]; cbn in H.
  - destruct H as (telemetry & t5 & -> & logger & t6 & -> & -> & ->).
    by exists (Some err), (inl None), http, telemetry, logger.
  - destruct H as (waited & t5 & -> & H). destruct waited as [err|err]; cbn in H;
      destruct H as (telemetry & t6 & -> & logger & t7 & -> & -> & ->).
    + by exists None, (inl err), http, telemetry, logger.
    + by exists None, (inr err), http, telemetry, logger.
Qed.

(** C34: shutting down. When the inputs are accepted, every execution of [Run],
    however serving ends and whatever fails on the way, shuts down the HTTP
    server, then telemetry, then syncs the logger, each exactly once and in that
    order, with one second of the timeout left for telemetry; and it returns nil
    exactly when the server ended cleanly and all three steps succeeded,
    otherwise the error of every step that failed. *)
Theorem Run_lifecycle ctx timeout deps tr res :
  validateRunInputs ctx timeout deps = None -> executes (Run ctx timeout deps) tr res ->
  0 < timeout - telemetryShutdownReserve /\
  exists served waited http telemetry logger errs,
    tr = lifecycle timeout served waited http telemetry logger /\ res = Ok errs /\
    (errs = [] <-> served_cleanly (serve_outcome served waited) /\
       http = None /\ telemetry = None /\ logger = None) /\
    (forall err, (serve_outcome served waited = Some err /\ errors_Is err ErrServerClosed = false) \/
                 http = Some err \/ telemetry = Some err \/ logger = Some err ->
       exists e, e ∈ errs /\ errors_Is e err = true).
Proof.
  intros Hv H. split.
  { unfold validateRunInputs in Hv. destruct (negb ctx); [done|].
    destruct (Z.leb_spec timeout telemetryShutdownReserve); [done|]. lia. }
  destruct (Run_executes _ _ _ _ _ Hv H) as (served & waited & http & telemetry & logger & -> & ->).
  eexists served, waited, http, telemetry, logger, _. split; [done|]. split; [done|]. split.
  - rewrite Join_nil, !Forall_cons. unfold served_cleanly, normalizeServeError.
    destruct (serve_outcome served waited) as [err|], http, telemetry, logger; cbn; try case_match; naive_solver.
  - intros err Herr. setoid_rewrite Join_elem.
    destruct Herr as [[-> He]|[-> |[-> | ->]]]; cbn [normalizeServeError]; rewrite ?He;
      eexists; (split; [solve [repeat first [by left | right]]|apply errors_Is_wrapped, errors_Is_refl]).
Qed.

(** A loaded configuration can be run. With the timeout of any
    configuration that loads, [Run] refuses its inputs only for a dependency that
    is missing. *)
Theorem config_runs lookup v cfg ctx deps :
  config.Load lookup v = Ok cfg ->
  (validateRunInputs ctx (config.ShutdownTimeout cfg) deps = None <->
     ctx = true /\ deps = MkDependencies true true true true).
Proof.
  intros H. pose proof (config.Load_ok lookup v cfg H) as Hok. destruct (config.co_timeout _ _ Hok) as [Ht _].
  unfold validateRunInputs, telemetryShutdownReserve, config.minimumShutdownTimeout in *.
  destruct ctx; cbn; [|naive_solver]. rewrite (proj2 (Z.leb_gt _ _)) by done.
  destruct deps as [[] [] [] []]; cbn; naive_solver.
Qed.

(** ** Witnesses *)

Definition all_given : Dependencies := MkDependencies true true true true.

(** A run that is cancelled and ends cleanly. *)
Definition clean_run : list (observed effect) :=
  lifecycle (8 * Second) None (inl (Some ErrServerClosed)) None None None.

Lemma clean_run_executes : executes (Run true (8 * Second) all_given) clean_run (Ok []).
Proof. repeat first [split | eexists]. Qed.

Lemma Run_lifecycle_witness : 0 < 8 * Second - telemetryShutdownReserve /\
  exists served waited http telemetry logger,
    clean_run = lifecycle (8 * Second) served waited http telemetry logger.
Proof.
  destruct (Run_lifecycle true (8 * Second) all_given clean_run (Ok []) eq_refl clean_run_executes)
    as (H & sv & w & h & t & l & errs & Htr & _).
  exact (conj H (ex_intro _ sv (ex_intro _ w (ex_intro _ h (ex_intro _ t (ex_intro _ l Htr)))))).
Defined.

Lemma config_runs_witness : exists cfg, config.Load (fun _ => None) [] = Ok cfg /\
  validateRunInputs true (config.ShutdownTimeout cfg) all_given = None.
Proof.
  assert (H : exists cfg, config.Load (fun _ => None) [] = Ok cfg) by (eexists; reflexivity).
  destruct H as [cfg H]. exists cfg. split; [exact H|].
  apply (proj2 (config_runs (fun _ => None) [] cfg true all_given H)). split; reflexivity.
Defined.
End app.
