(* ===== verification/Providers.v ===== *)
(** * Shutting down the providers

    [shutdownProviders] of [internal/observability/runtime.go]: every provider
    is shut down by a goroutine of its own, which sends its result to a buffered
    channel; the caller collects the results until it has them all or its context
    is done.  The goroutines, the channel, the context and the caller are a
    transition system; what a shutdown returns is its outcome, when it returns is
    up to the scheduler, and it may never return. *)

From S2P Require Import Prelude App.

Lemma filter_id {A} (P : A -> Prop) `{!forall x, Decision (P x)} l : Forall P l -> filter P l = l.
Proof. induction 1; [done|]. rewrite filter_cons_True by done. by f_equal. Qed.

Module providers.

Section Shutdown.
(** The number of shutdown functions, and what each returns when it does. *)
Context (n : nat) (outcome : nat -> option goerror).

Record state := MkState {
  running : list nat;
  channel : list (nat * option goerror);
  errs : list (option goerror);
  received : nat;
  ctx_done : option goerror;
  returned : option (list goerror)
}.

(** After the loop that starts the goroutines. *)
Definition start : state := MkState (seq 0 n) [] (replicate n None) 0 None None.

Inductive step : state -> state -> Prop :=
  (* [results <- shutdownResult{index, shutdown(ctx)}] needs room in the buffer *)
  | step_send s i :
      i ∈ running s -> (length (channel s) < n)%nat ->
      step s (MkState (filter (fun j => j <> i) (running s)) (channel s ++ [(i, outcome i)])
                (errs s) (received s) (ctx_done s) (returned s))
  (* the deadline passes or the context is cancelled *)
  | step_done s err :
      ctx_done s = None ->
      step s (MkState (running s) (channel s) (errs s) (received s) (Some err) (returned s))
  (* [case result := <-results] *)
  | step_receive s i err rest :
      returned s = None -> (received s < n)%nat -> channel s = (i, err) :: rest ->
      step s (MkState (running s) rest (<[i := err]> (errs s)) (S (received s)) (ctx_done s) None)
  (* [case <-ctx.Done()] *)
  | step_timeout s err :
      returned s = None -> (received s < n)%nat -> ctx_done s = Some err ->
      step s (MkState (running s) (channel s) (errs s) (received s) (ctx_done s)
                (Some (app.Join (errs s ++ [Some err]))))
  (* the loop is over *)
  | step_return s :
      returned s = None -> received s = n ->
      step s (MkState (running s) (channel s) (errs s) (received s) (ctx_done s)
                (Some (app.Join (errs s)))).

Abbreviation reachable := (rtc step start).

(** ** Invariant *)

(** Every provider is in one place: still shutting down, in the channel, or
    collected, and a collected result stands at its index. *)
Definition pending (s : state) : list nat := running s ++ map fst (channel s).

Record inv (s : state) : Prop := {
  inv_nodup : NoDup (pending s);
  inv_range : Forall (fun i => (i < n)%nat) (pending s);
  inv_count : (length (running s) + length (channel s) + received s = n)%nat;
  inv_channel : Forall (fun '(i, err) => err = outcome i) (channel s);
  inv_errs : errs s = map (fun i => if decide (i ∈ pending s) then None else outcome i) (seq 0 n)
}.

Lemma inv_start : inv start.
Proof.
  split; unfold pending; cbn.
  - rewrite app_nil_r. apply NoDup_seq.
  - rewrite app_nil_r. apply Forall_forall. intros i Hi%elem_of_seq. lia.
  - rewrite length_seq. lia.
  - constructor.
  - apply list_eq. intros i. rewrite app_nil_r. destruct (decide (i < n)%nat) as [Hi|Hi].
    + rewrite lookup_replicate_2 by done. rewrite list_lookup_fmap, lookup_seq_lt by done. cbn.
      by rewrite decide_True by (apply elem_of_seq; lia).
    + rewrite !lookup_ge_None_2; [done| |]; rewrite ?length_fmap, ?length_seq, ?length_replicate; lia.
Qed.

(** The same providers are pending after a send. *)
Lemma pending_send s i :
  i ∈ running s -> NoDup (pending s) ->
  filter (fun j => j <> i) (running s) ++ map fst (channel s ++ [(i, outcome i)]) ≡ₚ pending s.
Proof.
  intros Hi Hnd. unfold pending in *. rewrite map_app. cbn [map fst].
  assert (Hp : filter (fun j => j <> i) (running s) ++ [i] ≡ₚ running s).
  { apply NoDup_app in Hnd as (Hr & _ & _). clear -Hi Hr. induction Hr as [|j l Hj Hr IH]; [by apply not_elem_of_nil in Hi|].
    rewrite filter_cons. apply elem_of_cons in Hi as [->|Hi].
    - rewrite decide_False by naive_solver. rewrite filter_id; [by rewrite Permutation_app_comm|].
      apply Forall_forall. by intros x Hx ->.
    - rewrite decide_True by (intros ->; done). cbn. by rewrite IH. }
  rewrite <- Hp at 2. rewrite <- !app_assoc. apply Permutation_app_head, Permutation_app_comm.
Qed.

Lemma inv_step s s' : inv s -> step s s' -> inv s'.
Proof.
  intros [Hnd Hr Hc Hch He] Hs. destruct Hs as [s i Hi Hlen|s err Hd|s i err rest Hret Hrec Hchan|s err|s];
    try by split.
  - pose proof (pending_send s i Hi Hnd) as Hp. split; unfold pending; cbn -[map].
    + by rewrite Hp.
    + by rewrite Hp.
    + apply Permutation_length in Hp. unfold pending in Hp.
      rewrite !length_app, !length_fmap, length_app in Hp. rewrite length_app. cbn in *. lia.
    + apply Forall_app. split; [done|]. by apply Forall_singleton.
    + rewrite He. apply list_fmap_ext. intros _ j _. by apply decide_ext; rewrite Hp.
  - unfold pending in Hnd, Hr. rewrite Hchan in *. cbn [map fst] in *.
    assert (Hp : running s ++ i :: map fst rest ≡ₚ i :: (running s ++ map fst rest))
      by (symmetry; apply Permutation_middle).
    rewrite Hp in Hnd, Hr. apply NoDup_cons in Hnd as [Hi Hnd]. apply Forall_cons in Hr as [Hin Hr].
    apply Forall_cons in Hch as [-> Hch]. split; unfold pending; cbn -[map]; try done.
    + cbn in Hc. lia.
    + rewrite He. apply list_eq. intros j. destruct (decide (j = i)) as [->|Hj].
      * rewrite list_lookup_insert_eq by (by rewrite length_fmap, length_seq).
        rewrite list_lookup_fmap, lookup_seq_lt by done. cbn. by rewrite decide_False.
      * rewrite list_lookup_insert_ne by done. rewrite !list_lookup_fmap.
        destruct (seq 0 n !! j) as [k|] eqn:Hk; [|done]. apply lookup_seq in Hk as [-> _]. cbn. f_equal.
        apply decide_ext. unfold pending. rewrite Hchan. cbn [map fst]. rewrite Hp, elem_of_cons. naive_solver.
Qed.

Lemma reachable_inv s : reachable s -> inv s.
Proof.
  intros H. pose proof inv_start as Hi. induction H as [|s1 s2 s3 Hs _ IH]; [done|].
  apply IH. by apply (inv_step s1).
Qed.
(** ** What is returned *)

(** All results, or those collected when the context was done. *)
Definition result_of (s : state) (r : list goerror) : Prop :=
  (received s = n /\ r = app.Join (map outcome (seq 0 n))) \/
  (exists err, (received s < n)%nat /\ ctx_done s = Some err /\
     r = app.Join (map (fun i => if decide (i ∈ pending s) then None else outcome i) (seq 0 n) ++ [Some err])).

(** The caller does not move after it returned. *)
Definition returned_inv (s : state) : Prop :=
  forall r, returned s = Some r ->
    (received s = n /\ r = app.Join (errs s)) \/
    (exists err, (received s < n)%nat /\ ctx_done s = Some err /\ r = app.Join (errs s ++ [Some err])).

Lemma returned_step s s' : returned_inv s -> step s s' -> returned_inv s'.
Proof.
  intros Hr Hs. destruct Hs as [s i Hi Hlen|s err Hd|s i err rest Hret Hrec Hchan|s err Hret Hrec Hd|s Hret Hrec];
    intros r; cbn; intros Hr'.
  - by apply Hr.
  - destruct (Hr r Hr') as [?|(e & _ & He & _)]; [by left|congruence].
  - done.
  - injection Hr' as <-. right. by exists err.
  - injection Hr' as <-. by left.
Qed.

Lemma reachable_returned s : reachable s -> returned_inv s.
Proof.
  intros H. assert (Hi : returned_inv start) by done. induction H as [|s1 s2 s3 Hs _ IH]; [done|].
  apply IH. by apply (returned_step s1).
Qed.

Lemma shutdown_result s r : reachable s -> returned s = Some r -> result_of s r.
Proof.
  intros H Hr. pose proof (reachable_inv s H) as [Hnd _ Hc _ He].
  destruct (reachable_returned s H r Hr) as [[Hn ->]|(err & Hn & Hd & ->)].
  - left. split; [done|]. rewrite He. f_equal. apply list_fmap_ext. intros _ i _.
    assert (running s = [] /\ channel s = []) as [Hrun Hch]
      by (split; apply nil_length_inv; lia).
    unfold pending. rewrite Hrun, Hch. by rewrite decide_False by apply not_elem_of_nil.
  - right. exists err. by rewrite He.
Qed.

(** ** Progress *)

(** Each step uses up one of at most [2 * n + 2]. *)
Definition steps_left (s : state) : nat :=
  2 * length (running s) + length (channel s) +
  (if decide (ctx_done s = None) then 1 else 0) + (if decide (returned s = None) then 1 else 0).

Lemma step_decreases s s' : inv s -> step s s' -> (steps_left s' < steps_left s)%nat.
Proof.
  intros Hi Hs. unfold steps_left.
  destruct Hs as [s i Hin Hlen|s err Hd|s i err rest Hret Hrec Hchan|s err Hret Hrec Hd|s Hret Hrec];
    cbn [running channel errs received ctx_done returned].
  - pose proof (pending_send s i Hin (inv_nodup s Hi)) as Hp. apply Permutation_length in Hp.
    unfold pending in Hp. rewrite !length_app, !length_fmap, length_app in Hp. rewrite length_app. cbn in *. lia.
  - rewrite Hd. rewrite (decide_True (P := None = None)), (decide_False (P := Some err = None)) by done. lia.
  - rewrite Hchan, Hret. cbn. lia.
  - rewrite Hret. rewrite (decide_True (P := None = None)), (decide_False (P := Some _ = None)) by done. lia.
  - rewrite Hret. rewrite (decide_True (P := None = None)), (decide_False (P := Some _ = None)) by done. lia.
Qed.

Lemma steps_bounded k s s' : inv s -> nsteps step k s s' -> (k + steps_left s' <= steps_left s)%nat.
Proof.
  intros Hi H. induction H as [|k s1 s2 s3 Hs _ IH]; [lia|].
  pose proof (step_decreases s1 s2 Hi Hs). specialize (IH (inv_step _ _ Hi Hs)). lia.
Qed.

(** The caller's own steps. *)
Definition alone (s s' : state) : Prop := running s' = running s /\ ctx_done s' = ctx_done s.

Lemma caller_returns s :
  inv s -> running s = [] \/ is_Some (ctx_done s) ->
  exists s' r, rtc step s s' /\ alone s s' /\ returned s' = Some r.
Proof.
  remember (n - received s)%nat as k eqn:Ek. revert s Ek. induction k as [|k IH]; intros s Ek Hi Hw;
    pose proof (inv_count s Hi) as Hc; (destruct (returned s) as [r|] eqn:Hr; [by exists s, r|]).
  - eexists _, _. split; [eapply rtc_once, step_return; [done|lia]|]. by split.
  - destruct (ctx_done s) as [err|] eqn:Hd.
    + eexists _, _. split; [eapply rtc_once, step_timeout; [done|lia|done]|]. by split.
    + destruct Hw as [Hrun|[? ?]]; [|done]. rewrite Hrun in Hc. cbn in Hc.
      destruct (channel s) as [|[i err] rest] eqn:Hch; [cbn in Hc; lia|].
      pose proof (step_receive s i err rest Hr ltac:(lia) Hch) as Hs.
      pose proof (inv_step _ _ Hi Hs) as Hi1.
      apply IH in Hi1 as (s' & r & Hrtc & [Ha1 Ha2] & Hr'); [|cbn [received]; lia|by left].
      exists s', r. split; [by eapply rtc_l|]. cbn in Ha1, Ha2. split; [|done]. by split; congruence.
Qed.

(** C18: shutting down the providers, under every schedule. A goroutine that is
    done can always hand over its result, so none is left behind blocked; what is
    returned is the errors of all providers in the order of the providers,
    whatever the order they finish in, or, if the context is done first, the
    errors collected so far and the error of the context; the caller returns on
    its own once every provider is done or the context is; and nothing takes more
    than [2 * n + 2] steps. *)
Theorem shutdownProviders_spec s :
  reachable s ->
  (forall i, i ∈ running s -> exists s', step s s' /\ i ∉ running s') /\
  (forall r, returned s = Some r -> result_of s r) /\
  (running s = [] \/ is_Some (ctx_done s) ->
     exists s' r, rtc step s s' /\ alone s s' /\ returned s' = Some r) /\
  (forall k s', nsteps step k start s' -> (k <= 2 * n + 2)%nat).
Proof.
  intros H. pose proof (reachable_inv s H) as Hi. split_and!.
  - intros i Hin. eexists. split.
    + apply (step_send s i Hin). pose proof (inv_count s Hi).
      assert (length (running s) <> 0%nat) by (destruct (running s); [by apply not_elem_of_nil in Hin|done]). lia.
    + cbn. rewrite list_elem_of_filter. naive_solver.
  - intros r. by apply shutdown_result.
  - by apply caller_returns.
  - intros k s' Hk. pose proof (steps_bounded k _ _ inv_start Hk) as Hb.
    unfold steps_left, start in Hb. cbn [running channel ctx_done returned length] in Hb.
    rewrite length_seq in Hb. rewrite !(decide_True (P := None = None)) in Hb by done. lia.
Qed.
End Shutdown.

(** ** Witness: two providers, the second one first *)

Definition two_outcomes (i : nat) : option goerror :=
  match i with O => Some (Sentinel "meter") | _ => None end.

Definition after_both : state :=
  MkState [] [] [Some (Sentinel "meter"); None] 2 None (Some [Sentinel "meter"]).

Lemma after_both_reachable : rtc (step 2 two_outcomes) (start 2) after_both.
Proof.
  eapply rtc_l; [apply (step_send 2 two_outcomes _ 1); [right; left|cbn; lia]|]. cbn.
  eapply rtc_l; [eapply step_receive; [done|cbn; lia|reflexivity]|]. cbn.
  eapply rtc_l; [apply (step_send 2 two_outcomes _ 0); [left|cbn; lia]|]. cbn.
  eapply rtc_l; [eapply step_receive; [done|cbn; lia|reflexivity]|]. cbn.
  eapply rtc_l; [apply step_return; done|]. cbn. apply rtc_refl.
Qed.

Lemma shutdownProviders_spec_witness : result_of 2 two_outcomes after_both [Sentinel "meter"].
Proof.
  exact (proj1 (proj2 (shutdownProviders_spec 2 two_outcomes after_both after_both_reachable))
    [Sentinel "meter"] eq_refl).
Defined.
End providers.
