(* ===== verification/Fallback.v ===== *)
(** * Reporting of last resort

    The pure parts of [cmd/chain-api/main.go]: which errors of syncing the
    logger are ignored, and the bounded line written to standard error when there
    is no logger. *)

From S2P Require Import Prelude Text Strconv Utf8.

(** ** Error values

    An error as [filterStandardStreamSyncErrors] tells them apart: by its type
    and by what its [Unwrap] method returns.  Nil is [None]; other errors are
    their text. *)
Inductive errtree :=
  | PathError (Op Path : gostring) (Err : option errtree)
  | Errno (errno : Z)
  | Unwraps (text : gostring) (err : option errtree)
  | UnwrapsMany (text : gostring) (errs : list (option errtree))
  | OtherError (text : gostring).

(** The text of an error number is the operating system's. *)
Class ErrnoText := { errno_text : Z -> gostring }.

Fixpoint Error_tree {T : ErrnoText} (err : errtree) : gostring :=
  match err with
  | PathError op path err =>
      op ++ gostr " " ++ path ++ gostr ": " ++ match err with Some e => Error_tree e | None => [] end
  | Errno errno => errno_text errno
  | Unwraps text _ | UnwrapsMany text _ | OtherError text => text
  end.

Module fallback.

Definition maximumFallbackErrorBytes : Z := 1024.
Definition fallbackPrefix : string := "chain-api: ".
Definition standardOutputPath : gostring := gostr "/dev/stdout".
Definition standardErrorPath : gostring := gostr "/dev/stderr".
Definition standardStreamSyncOperation : gostring := gostr "sync".

(** ** Sync errors *)

(** [syscall.EINVAL], [syscall.ENOTTY] and [syscall.EBADF]. *)
Definition unsupported_errnos : list Z := [22; 25; 9].

Definition isUnsupportedStandardStreamSyncError (err : errtree) : bool :=
  match err with
  | PathError op path cause =>
      if negb (bool_decide (op = standardStreamSyncOperation)) then false
      else if negb (bool_decide (path = standardOutputPath)) && negb (bool_decide (path = standardErrorPath))
      then false
      else match cause with Some (Errno errno) => bool_decide (errno ∈ unsupported_errnos) | _ => false end
  | _ => false
  end.

Section Filter.
Context {T : ErrnoText}.

(** [errors.Join] of errors that are not nil: their texts on lines. *)
Fixpoint join_lines (texts : list gostring) : gostring :=
  match texts with
  | [] => []
  | [t] => t
  | t :: rest => t ++ [x0a] ++ join_lines rest
  end.

Definition errors_Join (errs : list errtree) : option errtree :=
  match errs with
  | [] => None
  | _ => Some (UnwrapsMany (join_lines (map Error_tree errs)) (map Some errs))
  end.

(** The filtered error and whether anything was left out. *)
Fixpoint filterStandardStreamSyncErrors (err : errtree) : option errtree * bool :=
  if isUnsupportedStandardStreamSyncError err then (None, true)
  else
    match err with
    | UnwrapsMany _ children =>
        let filtered :=
          map (fun child => match child with
                            | Some child => filterStandardStreamSyncErrors child
                            | None => (None, false)
                            end) children in
        if negb (existsb snd filtered) then (Some err, false)
        else (errors_Join (omap fst filtered), true)
    | PathError _ _ (Some wrapped) | Unwraps _ (Some wrapped) =>
        let '(filtered, changed) := filterStandardStreamSyncErrors wrapped in
        if negb changed then (Some err, false) else (filtered, true)
    | _ => (Some err, false)
    end.

Definition normalizeStandardStreamSyncError (err : option errtree) : option errtree :=
  match err with
  | None => None
  | Some err => (filterStandardStreamSyncErrors err).1
  end.
End Filter.

(** ** The fallback message *)

(** The loop that drops the bytes of a rune cut in two. *)
Fixpoint drop_split_rune (n : nat) (bounded : gostring) : gostring :=
  match n with
  | O => bounded
  | S n' =>
      let '(lastRune, size) := decode_last_rune bounded in
      if negb (lastRune =? RuneError) || Nat.ltb 1 size then bounded
      else drop_split_rune n' (take (length bounded - 1) bounded)
  end.

Definition boundFallbackMessage (message : gostring) : gostring :=
  if len message <=? maximumFallbackErrorBytes then message
  else drop_split_rune 3 (take (Z.to_nat maximumFallbackErrorBytes) message).

(** What [writeFallback] writes for an error with the text [message]. *)
Definition fallback_line (message : gostring) : gostring :=
  gostr fallbackPrefix ++ boundFallbackMessage message ++ [x0a].

(** * Properties *)

(** ** Sync errors *)

Section FilterFacts.
Context {T : ErrnoText}.

(** Induction over errors and those they wrap. *)
Lemma errtree_nested (P : errtree -> Prop) :
  (forall op path err, (forall e, err = Some e -> P e) -> P (PathError op path err)) ->
  (forall n, P (Errno n)) ->
  (forall text err, (forall e, err = Some e -> P e) -> P (Unwraps text err)) ->
  (forall text errs, Forall (fun c => forall e, c = Some e -> P e) errs -> P (UnwrapsMany text errs)) ->
  (forall text, P (OtherError text)) ->
  forall err, P err.
Proof.
  intros Hp He Hu Hm Ho. fix IH 1. intros [op path [e|]|n|text [e|]|text errs|text].
  - apply Hp. intros e' [= <-]. apply IH.
  - apply Hp. discriminate.
  - apply He.
  - apply Hu. intros e' [= <-]. apply IH.
  - apply Hu. discriminate.
  - apply Hm. induction errs as [|c errs IHl]; [constructor|]. constructor; [|exact IHl].
    destruct c as [e|]; [|discriminate]. intros e' [= <-]. apply IH.
  - apply Ho.
Qed.

(** The errors an error stands for, each with the contexts around it removed;
    an error that only wraps nil stands for itself. *)
Fixpoint leaves (err : errtree) : list errtree :=
  if isUnsupportedStandardStreamSyncError err then [err]
  else
    match err with
    | UnwrapsMany _ children =>
        match concat (map (fun child => match child with Some e => leaves e | None => [] end) children) with
        | [] => [err]
        | l => l
        end
    | PathError _ _ (Some wrapped) | Unwraps _ (Some wrapped) => leaves wrapped
    | _ => [err]
    end.

Definition option_leaves (err : option errtree) : list errtree :=
  match err with Some e => leaves e | None => [] end.

Definition kept (err : errtree) : bool := negb (isUnsupportedStandardStreamSyncError err).

Lemma leaves_nonempty err : leaves err <> [].
Proof.
  induction err as [op path err IH|n|text err IH|text errs _|text] using errtree_nested; cbn [leaves].
  - destruct (isUnsupportedStandardStreamSyncError _); [done|]. destruct err; [by apply IH|done].
  - done.
  - destruct err; [by apply IH|done].
  - cbn [isUnsupportedStandardStreamSyncError]. by destruct (concat _).
  - done.
Qed.

(** What filtering promises. *)
Definition filters (err : errtree) : Prop :=
  let '(filtered, changed) := filterStandardStreamSyncErrors err in
  changed = negb (forallb kept (leaves err)) /\
  (changed = false -> filtered = Some err) /\
  option_leaves filtered = List.filter kept (leaves err).

Lemma filter_kept l : forallb kept l = true -> List.filter kept l = l.
Proof. induction l as [|e l IH]; [done|]. cbn. intros [-> ?]%andb_prop. by rewrite IH. Qed.

(** An error that stands for itself. *)
Lemma filters_self err :
  isUnsupportedStandardStreamSyncError err = false -> leaves err = [err] ->
  filterStandardStreamSyncErrors err = (Some err, false) -> filters err.
Proof.
  intros Hn Hl Hf. unfold filters. rewrite Hf, Hl. cbn. unfold kept. rewrite Hn. cbn. by rewrite Hl.
Qed.

(** An error that wraps another one. *)
Lemma filters_wrapped err wrapped :
  filters wrapped -> leaves err = leaves wrapped ->
  filterStandardStreamSyncErrors err =
    (let '(filtered, changed) := filterStandardStreamSyncErrors wrapped in
     if negb changed then (Some err, false) else (filtered, true)) ->
  filters err.
Proof.
  intros Hw Hl Hf. unfold filters in *. rewrite Hf, Hl.
  destruct (filterStandardStreamSyncErrors wrapped) as [f c]. destruct Hw as (-> & Hs & Ho).
  destruct (forallb kept (leaves wrapped)) eqn:Hk; cbn [negb]; [|done].
  split_and!; [done|done|]. cbn [option_leaves]. by rewrite Hl, filter_kept.
Qed.

Lemma join_leaves errs : option_leaves (errors_Join errs) = concat (map leaves errs).
Proof.
  destruct errs as [|e errs]; [done|]. cbn [errors_Join option_leaves leaves isUnsupportedStandardStreamSyncError].
  rewrite map_map. destruct (concat _) eqn:E; [|done].
  cbn in E. apply app_nil in E as [E _]. by apply leaves_nonempty in E.
Qed.

Definition filter_child (child : option errtree) : option errtree * bool :=
  match child with Some child => filterStandardStreamSyncErrors child | None => (None, false) end.

(** The children of a joined error, filtered. *)
Lemma filter_children children :
  Forall (fun c => forall e, c = Some e -> filters e) children ->
  let filtered := map filter_child children in
  let all := concat (map option_leaves children) in
  existsb snd filtered = negb (forallb kept all) /\
  concat (map leaves (omap fst filtered)) = List.filter kept all.
Proof.
  induction 1 as [|c children Hc _ IH]; [done|]. cbn zeta in IH |- *. destruct IH as [IH1 IH2].
  cbn [map concat]. rewrite forallb_app, List.filter_app, negb_andb, <- IH1, <- IH2.
  destruct c as [e|]; cbn [filter_child option_leaves existsb omap list_omap snd fst]; [|done].
  specialize (Hc e eq_refl). unfold filters in Hc.
  destruct (filterStandardStreamSyncErrors e) as [[f|] ch]; destruct Hc as (-> & _ & <-); done.
Qed.

Lemma filters_all err : filters err.
Proof.
  induction err as [op path err IH|n|text err IH|text errs IH|text] using errtree_nested.
  - destruct (isUnsupportedStandardStreamSyncError (PathError op path err)) eqn:Hu.
    + unfold filters. cbn [filterStandardStreamSyncErrors leaves]. rewrite Hu. cbn. unfold kept. by rewrite Hu.
    + destruct err as [e|].
      * apply (filters_wrapped _ e); [by apply IH| |]; cbn [filterStandardStreamSyncErrors leaves]; by rewrite Hu.
      * apply filters_self; [done| |]; cbn [filterStandardStreamSyncErrors leaves]; by rewrite Hu.
  - by apply filters_self.
  - destruct err as [e|]; [|by apply filters_self]. by apply (filters_wrapped _ e); [apply IH|..].
  - destruct (filter_children errs IH) as [Hc Hl]. cbn zeta in Hc, Hl.
    destruct (concat (map option_leaves errs)) as [|l0 ls] eqn:El.
    { apply filters_self; [done| |]; cbn [filterStandardStreamSyncErrors leaves isUnsupportedStandardStreamSyncError].
      - change (concat (map option_leaves errs)) with (concat (map (fun child : option errtree =>
          match child with Some e => leaves e | None => [] end) errs)) in El. by rewrite El.
      - change (map _ errs) with (map filter_child errs). by rewrite Hc. }
    assert (Hlv : leaves (UnwrapsMany text errs) = l0 :: ls).
    { cbn [leaves isUnsupportedStandardStreamSyncError].
      change (concat (map option_leaves errs)) with (concat (map (fun child : option errtree =>
        match child with Some e => leaves e | None => [] end) errs)) in El. by rewrite El. }
    unfold filters. rewrite Hlv. cbn [filterStandardStreamSyncErrors isUnsupportedStandardStreamSyncError].
    change (map _ errs) with (map filter_child errs). rewrite Hc.
    destruct (forallb kept (l0 :: ls)) eqn:Hk; cbn [negb].
    + split_and!; [done|done|]. cbn [option_leaves]. by rewrite Hlv, filter_kept.
    + split_and!; [done|done|]. by rewrite join_leaves.
  - by apply filters_self.
Qed.

Lemma unsupported_spec e :
  isUnsupportedStandardStreamSyncError e = true <->
    exists path errno, e = PathError (gostr "sync") path (Some (Errno errno)) /\
      (path = gostr "/dev/stdout" \/ path = gostr "/dev/stderr") /\ errno ∈ [22; 25; 9].
Proof.
  split.
  - destruct e as [op path [[]|]| | | |]; cbn [isUnsupportedStandardStreamSyncError]; intros H;
      repeat case_match; try done. prep_bool. eexists _, _. split; [by subst|]. split; [|done].
    match goal with H : _ && _ = false |- _ => apply andb_false_iff in H as [H|H] end; prep_bool; auto.
  - intros (path & errno & -> & Hp & He). cbn [isUnsupportedStandardStreamSyncError].
    rewrite (bool_decide_eq_true_2 (gostr "sync" = _)) by done. cbn [negb].
    destruct Hp as [-> | ->]; cbn; by apply bool_decide_eq_true.
Qed.

(** C23: ignored sync errors. Normalizing the error of a sync leaves out exactly
    the errors that say a standard stream cannot be synced, however deep they are
    wrapped or joined, and keeps all others in their order; nil is returned when
    nothing else is left, and an error without any of them is returned as it
    is. The errors left out are exactly those of a sync of the standard output or
    error that failed with EINVAL, ENOTTY or EBADF. *)
Theorem normalize_sync_spec err :
  option_leaves (normalizeStandardStreamSyncError (Some err)) = List.filter kept (leaves err) /\
  (normalizeStandardStreamSyncError (Some err) = None <->
     Forall (fun e => isUnsupportedStandardStreamSyncError e = true) (leaves err)) /\
  (Forall (fun e => isUnsupportedStandardStreamSyncError e = false) (leaves err) ->
     normalizeStandardStreamSyncError (Some err) = Some err) /\
  (forall e, isUnsupportedStandardStreamSyncError e = true <->
     exists path errno, e = PathError (gostr "sync") path (Some (Errno errno)) /\
       (path = gostr "/dev/stdout" \/ path = gostr "/dev/stderr") /\ errno ∈ [22; 25; 9]).
Proof.
  pose proof (filters_all err) as H. unfold filters in H. cbn [normalizeStandardStreamSyncError].
  destruct (filterStandardStreamSyncErrors err) as [f c]. destruct H as (Hc & Hs & Hl). cbn [fst].
  split; [done|]. split; [|split; [|apply unsupported_spec]].
  - split.
    + intros ->. cbn in Hl. apply Forall_forall. intros e He.
      destruct (isUnsupportedStandardStreamSyncError e) eqn:Hu; [done|].
      assert (In e (List.filter kept (leaves err))) as Hin.
      { apply filter_In. split; [by apply list_elem_of_In|]. unfold kept. by rewrite Hu. }
      by rewrite <- Hl in Hin.
    + intros Hall. destruct f as [e|]; [|done]. exfalso. cbn in Hl. apply (leaves_nonempty e). rewrite Hl.
      clear -Hall. induction Hall as [|x l Hx _ IH]; [done|]. cbn. unfold kept. by rewrite Hx.
  - intros Hall. apply Hs. rewrite Hc. apply negb_false_iff, forallb_forall. intros e He%list_elem_of_In.
    rewrite Forall_forall in Hall. unfold kept. by rewrite Hall.
Qed.
End FilterFacts.
(** ** Runes at the end of a text *)

Lemma valid_last p :
  utf8_valid p = true -> p <> [] -> exists p0 b conts, p = p0 ++ b :: conts /\ encoding b conts.
Proof.
  remember (length p) as n eqn:Hn. revert p Hn. induction n as [n IH] using lt_wf_ind. intros p -> Hv Hne.
  destruct (valid_first p Hv Hne) as (b & conts & rest & -> & He & Hr).
  destruct rest as [|c rest]; [exists [], b, conts; by rewrite app_nil_r|].
  destruct (IH (length (c :: rest)) ltac:(cbn; rewrite length_app; cbn; lia) (c :: rest) eq_refl Hr ltac:(done))
    as (p0 & b' & conts' & -> & He').
  exists (b :: conts ++ p0), b', conts'. split; [|done]. cbn. by rewrite <- app_assoc.
Qed.

Lemma back_conts steps cs b more :
  forallb is_continuation cs = true -> (length cs < steps)%nat -> RuneStart b = true ->
  back_to_start steps (cs ++ b :: more) = S (length cs).
Proof.
  revert steps. induction cs as [|c cs IH]; intros steps Hc Hl Hb; (destruct steps as [|steps]; [cbn in Hl; lia|]);
    cbn [app back_to_start]; [by rewrite Hb|]. cbn [forallb length] in *. prep_bool.
  destruct (continuation_not_start c H) as [-> _]. by rewrite IH by (done || lia).
Qed.

Lemma decode_last_snoc s b :
  decode_last_rune (s ++ [b]) =
    if in_range 0 127 b then (byte_Z b, 1%nat)
    else
      let start := (length s - back_to_start 3 (rev s))%nat in
      let '(r, size) := decode_rune (drop start (s ++ [b])) in
      if Nat.eqb (start + size) (S (length s)) then (r, size) else (RuneError, 1%nat).
Proof.
  unfold decode_last_rune. rewrite rev_app_distr. cbn [rev app]. rewrite length_rev, length_app.
  cbn [length]. by rewrite Nat.add_1_r.
Qed.

(** The bytes of an encoding after the first one, from the last. *)
Lemma decode_last_conts p b cs c tail :
  RuneStart b = true -> forallb is_continuation (cs ++ [c]) = true -> (length cs < 3)%nat ->
  tail = b :: cs ++ [c] ->
  decode_last_rune (p ++ tail) =
    let '(r, size) := decode_rune tail in
    if Nat.eqb size (length tail) then (r, size) else (RuneError, 1%nat).
Proof.
  intros Hb Hcs Hl ->. replace (p ++ b :: cs ++ [c]) with ((p ++ b :: cs) ++ [c])
    by (rewrite <- app_assoc; done). rewrite decode_last_snoc. rewrite forallb_app in Hcs. cbn [forallb] in Hcs.
  apply andb_prop in Hcs as [Hcs [Hc _]%andb_prop].
  destruct (continuation_not_start c Hc) as [_ ->]. cbv zeta.
  assert (Hback : back_to_start 3 (rev (p ++ b :: cs)) = S (length cs)).
  { rewrite rev_app_distr. cbn [rev]. rewrite <- app_assoc. cbn [app]. rewrite back_conts; try done.
    - by rewrite length_rev.
    - apply forallb_forall. intros x Hx. apply in_rev in Hx. by apply forallb_forall with (x := x) in Hcs.
    - by rewrite length_rev. }
  rewrite Hback, length_app. cbn [length].
  replace (length p + S (length cs) - S (length cs))%nat with (length p) by lia.
  rewrite <- app_assoc, drop_app_length. cbn [app].
  destruct (decode_rune (b :: cs ++ [c])) as [r size]. rewrite length_app. cbn [length].
  destruct (Nat.eqb_spec (length p + size) (S (length p + S (length cs))));
    destruct (Nat.eqb_spec size (S (length cs + 1))); (done || lia).
Qed.

Lemma last_whole p b conts :
  encoding b conts -> exists r, decode_last_rune (p ++ b :: conts) = (r, S (length conts)) /\
    (r <> RuneError \/ conts <> []).
Proof.
  intros He. destruct (enc_decode _ _ He) as (r & Hd & Hr). specialize (Hd []). rewrite app_nil_r in Hd.
  exists r. split; [|done]. destruct conts as [|c conts _] using rev_ind.
  - rewrite decode_last_snoc. pose proof (enc_ascii _ _ He) as Ha. rewrite bool_decide_eq_true_2 in Ha by done.
    rewrite Ha. unfold decode_rune in Hd. by rewrite Ha in Hd.
  - pose proof (enc_length _ _ He) as Hl. rewrite length_app in Hl. cbn in Hl.
    rewrite (decode_last_conts p b conts c _ (enc_start _ _ He) (enc_conts _ _ He)) by (done || lia).
    rewrite Hd. cbn [length]. by rewrite Nat.eqb_refl.
Qed.

Lemma decode_continuation c s : is_continuation c = true -> decode_rune (c :: s) = (RuneError, 1%nat).
Proof.
  intros Hc. cbn [decode_rune]. unfold is_continuation, in_range in Hc.
  assert (Hr : forall lo hi, (hi < 128 \/ 191 < lo) -> in_range lo hi c = false) by (unfold in_range; lia).
  by rewrite !Hr by lia.
Qed.

(** A rune cut short at the end is one invalid byte. *)
Lemma last_fragment p b conts k :
  utf8_valid p = true -> encoding b conts -> (k < length conts)%nat ->
  decode_last_rune (p ++ b :: take k conts) = (RuneError, 1%nat).
Proof.
  intros Hp He Hk. pose proof (enc_cut _ _ He k Hk) as Hcut. pose proof (enc_length _ _ He) as Hl.
  destruct (decide (k = 0%nat)) as [->|Hk0].
  - rewrite take_0 in *. rewrite decode_last_snoc.
    pose proof (enc_ascii _ _ He) as Ha. rewrite bool_decide_eq_false_2 in Ha by (intros ->; cbn in Hk; lia).
    rewrite Ha. cbv zeta. destruct p as [|x p'].
    { cbn [rev length back_to_start app Nat.sub]. rewrite drop_0, Hcut. done. }
    destruct (valid_last (x :: p') Hp ltac:(done)) as (p0 & b' & conts' & -> & He'). clear Hp.
    pose proof (enc_length _ _ He') as Hl'. pose proof (enc_conts _ _ He') as Hc'.
    assert (Hrev : forallb is_continuation (rev conts') = true).
    { apply forallb_forall. intros y Hy. apply in_rev in Hy. by apply forallb_forall with (x := y) in Hc'. }
    rewrite rev_app_distr. cbn [rev]. rewrite <- !app_assoc. cbn [app].
    destruct (decide (length conts' < 3)%nat) as [Hlt|Hge].
    + rewrite back_conts by (rewrite ?length_rev; done || apply (enc_start _ _ He')).
      rewrite length_rev, length_app. cbn [length].
      replace (length p0 + S (length conts') - S (length conts'))%nat with (length p0) by lia.
      rewrite drop_app_length. destruct (enc_decode _ _ He') as (r & Hd & _). rewrite Hd.
      by destruct (Nat.eqb_spec (length p0 + S (length conts')) (S (length p0 + S (length conts')))); [lia|].
    + destruct conts' as [|c1 [|c2 [|c3 [|? ?]]]]; try (cbn in Hge, Hl'; lia). cbn [rev app forallb] in *. prep_bool.
      cbn [back_to_start]. rewrite !(fun c H => proj1 (continuation_not_start c H)) by done.
      rewrite length_app. cbn [length]. replace (length p0 + 4 - 3)%nat with (length p0 + 1)%nat by lia.
      rewrite drop_app_add. change (drop 1 [b'; c1; c2; c3; b]) with [c1; c2; c3; b].
      rewrite decode_continuation by done.
      by destruct (Nat.eqb_spec (length p0 + 1 + 1) (S (length p0 + 4))); [lia|].
  - assert (Htk : length (take k conts) = k) by (rewrite length_take; lia).
    assert (Hne : take k conts <> []) by (intros E; rewrite E in Htk; cbn in Htk; lia).
    destruct (exists_last Hne) as (cs & c & Ecs). rewrite Ecs in *. rewrite length_app in Htk. cbn in Htk.
    rewrite (decode_last_conts p b cs c _ (enc_start _ _ He)); [|..|lia|done].
    + rewrite Hcut. cbn [length]. destruct (Nat.eqb_spec 1 (S (length (cs ++ [c])))); [|done].
      rewrite length_app in *. cbn in *. lia.
    + rewrite <- Ecs. apply forallb_forall. intros y Hy. pose proof (enc_conts _ _ He) as Hc.
      apply forallb_forall with (x := y) in Hc; [done|]. rewrite <- (take_drop k conts). apply in_or_app. by left.
Qed.
(** ** The bounded message *)

(** The whole runes at the start of [s] that fit in [limit] bytes. *)
Fixpoint whole_runes (fuel limit : nat) (s : gostring) : gostring :=
  match fuel, s with
  | O, _ | _, [] => []
  | S fuel', _ =>
      let w := (decode_rune s).2 in
      if Nat.leb w limit then take w s ++ whole_runes fuel' (limit - w) (drop w s) else []
  end.

Lemma whole_runes_split fuel limit s :
  (length s <= fuel)%nat -> utf8_valid s = true ->
  let p := whole_runes fuel limit s in
  utf8_valid p = true /\ (length p <= limit)%nat /\
  (s = p \/ exists b conts rest, encoding b conts /\ s = p ++ b :: conts ++ rest /\
     (limit < length p + S (length conts))%nat).
Proof.
  revert limit s. induction fuel as [|fuel IH]; intros limit s Hf Hv; cbv zeta.
  { destruct s; [|cbn in Hf; lia]. split_and!; [done|cbn; lia|by left]. }
  destruct s as [|b0 s0]; [split_and!; [done|cbn; lia|by left]|]. cbn [whole_runes]. cbv zeta.
  destruct (valid_first (b0 :: s0) Hv ltac:(done)) as (b & conts & rest & Hs & He & Hr). rewrite Hs in *.
  destruct (enc_decode _ _ He) as (r & Hd & _). rewrite Hd. cbn [snd].
  destruct (Nat.leb_spec (S (length conts)) limit) as [Hw|Hw].
  - cbn [skipn firstn]. rewrite drop_app_length, take_app_length.
    destruct (IH (limit - S (length conts))%nat rest) as (Hp & Hlen & Hrest); [|done|].
    { cbn in Hf. rewrite length_app in Hf. lia. }
    split_and!.
    + cbn [app]. by rewrite (enc_valid _ _ He).
    + cbn. rewrite length_app. lia.
    + destruct Hrest as [<-|(b' & conts' & rest' & He' & Hrest & Hgt)]; [by left|]. right.
      exists b', conts', rest'. split_and!; [done| |cbn; rewrite length_app; lia].
      rewrite Hrest at 1. cbn. by rewrite <- app_assoc.
  - split_and!; [done|cbn; lia|]. right. by exists b, conts, rest.
Qed.

Lemma drop_split_valid n p : utf8_valid p = true -> drop_split_rune n p = p.
Proof.
  intros Hp. destruct p as [|x p].
  { induction n as [|n IH]; [done|]. cbn. apply IH. }
  destruct n as [|n]; [done|]. destruct (valid_last (x :: p) Hp ltac:(done)) as (p0 & b & conts & -> & He).
  destruct (last_whole p0 b conts He) as (r & Hd & Hr). cbn [drop_split_rune]. rewrite Hd.
  destruct (negb (r =? RuneError) || Nat.ltb 1 (S (length conts))) eqn:E; [done|]. exfalso.
  apply orb_false_iff in E as [E1 E2]. prep_bool. apply Z.eqb_eq in E1. destruct Hr as [Hr|Hr]; [done|].
  apply Nat.ltb_ge in E2. destruct conts; [done|cbn in E2; lia].
Qed.

Lemma drop_split_fragment p b conts k n :
  utf8_valid p = true -> encoding b conts -> (k < length conts)%nat -> (S k <= n)%nat ->
  drop_split_rune n (p ++ b :: take k conts) = p.
Proof.
  intros Hp He. revert n. induction k as [|k IH]; intros n Hk Hn; (destruct n as [|n]; [lia|]);
    cbn [drop_split_rune]; rewrite last_fragment by (done || lia);
    change (negb (RuneError =? RuneError) || Nat.ltb 1 1) with false; cbn iota.
  - rewrite take_0. rewrite length_app. cbn [length]. rewrite Nat.add_sub, take_app_length. by apply drop_split_valid.
  - assert (Ht : take (length (p ++ b :: take (S k) conts) - 1) (p ++ b :: take (S k) conts) = p ++ b :: take k conts).
    { rewrite length_app. cbn [length]. rewrite length_take.
      replace (length p + S (S k `min` length conts) - 1)%nat with (length p + S k)%nat by lia.
      rewrite take_app_add. f_equal. cbn [firstn]. f_equal. rewrite take_take. f_equal. lia. }
    rewrite Ht. apply IH; lia.
Qed.

(** A message is cut to a prefix, and by at most three bytes more than needed. *)
Lemma drop_split_prefix n s :
  drop_split_rune n s `prefix_of` s /\ (length s <= length (drop_split_rune n s) + n)%nat.
Proof.
  revert s. induction n as [|n IH]; intros s; cbn [drop_split_rune]; [split; [done|lia]|].
  destruct (decode_last_rune s) as [r size]. destruct (_ || _); [split; [done|lia]|].
  destruct (IH (take (length s - 1) s)) as [Hp Hl]. split.
  - etrans; [exact Hp|]. apply prefix_take.
  - rewrite length_take in Hl. lia.
Qed.

(** C33: the fallback message. The message written without a logger is a prefix
    of the error's text of at most 1024 bytes, and of at least 1021 when the text
    is longer; of a text that is valid UTF-8 it is exactly the whole runes that
    fit: no rune is split, none that fits is lost, and the result is valid. *)
Theorem boundFallbackMessage_spec message :
  let bounded := boundFallbackMessage message in
  bounded `prefix_of` message /\ len bounded <= 1024 /\ Z.min (len message) 1021 <= len bounded /\
  (utf8_valid message = true ->
     bounded = whole_runes (length message) 1024 message /\ utf8_valid bounded = true).
Proof.
  intros bounded. unfold bounded, boundFallbackMessage, maximumFallbackErrorBytes.
  change (Z.to_nat 1024) with 1024%nat. unfold len.
  destruct (Z.leb_spec (Z.of_nat (length message)) 1024) as [Hle|Hgt].
  - split_and!; [done|done|lia|]. intros Hv. split; [|done].
    destruct (whole_runes_split (length message) 1024 message ltac:(lia) Hv) as (_ & _ & [H|(b & conts & rest & _ & H & Hl)]);
      [done|]. rewrite H in Hle at 1. rewrite length_app in Hle. cbn in Hle. rewrite length_app in Hle. lia.
  - assert (H1024 : length (take 1024 message) = 1024%nat) by (rewrite length_take; lia).
    destruct (drop_split_prefix 3 (take 1024 message)) as [Hp Hl].
    pose proof (prefix_length _ _ Hp) as Hlen. rewrite H1024 in Hl, Hlen.
    split_and!; [etrans; [exact Hp|apply prefix_take]|lia|lia|]. intros Hv.
    destruct (whole_runes_split (length message) 1024 message ltac:(lia) Hv) as (Hpv & Hpl & H).
    set (p := whole_runes _ _ _) in *.
    assert (Hcut : drop_split_rune 3 (take 1024 message) = p); [|by rewrite Hcut].
    destruct H as [H|(b & conts & rest & He & H & Hlim)]; [rewrite H in Hgt; lia|].
    pose proof (enc_length _ _ He) as Hc. rewrite H.
    destruct (decide (length p = 1024%nat)) as [Hfull|Hpart].
    + rewrite <- Hfull, take_app_length. by apply drop_split_valid.
    + replace 1024%nat with (length p + S (1023 - length p))%nat by lia. rewrite take_app_add. cbn [firstn].
      rewrite take_app_le by lia. apply drop_split_fragment; (done || lia).
Qed.

Example boundFallbackMessage_example :
  len (boundFallbackMessage (concat (replicate 400 [xe2; x82; xac]))) = 1023 /\
  len (boundFallbackMessage (replicate 1034 xff)) = 1021.
Proof. vm_compute. done. Qed.
End fallback.
