(* ===== verification/Main.v ===== *)
(** * The command

    [cmd/chain-api/main.go]: the process from its environment to its exit code,
    and the opening and closing of the store ([internal/ledgerstore/store.go]).
    What the database, the network, the exporters and the standard streams answer
    is up to the environment.  The handler given to the HTTP server, [NewHandler]
    of the API server behind [WrapHTTP], stands for that API server here. *)

From S2P Require Import Prelude Float Text Strconv Net Config Proc Ecdsa Effects Signer Admission HttpApi Observability Logging App Fallback.

(** The text of a library error is the library's. *)
Class ErrorText := { foreign_text : string -> list string -> gostring }.

Module command.

Definition exitSuccess : Z := 0.
Definition exitFailure : Z := 1.
Definition listenNetwork : string := "tcp".
Definition listenFailureMessage : string := "HTTP listener startup failed".
Definition runtimeFailureMessage : string := "application runtime failed".
Definition telemetryCleanupFailureMessage : string := "telemetry cleanup failed".

Section Command.
Context {K : Ecdsa} {T : ErrnoText} {ET : ErrorText}.

(** Pools, listeners and the like are known by a handle. *)
Inductive effect : Type -> Type :=
  | Telemetry {X} (e : observability.effect X) : effect X
  | ShutdownProviders (providers : list (observability.MeterProvider + observability.TracerProvider))
      (timeout : Z) : effect (list goerror)
  | ParseConfig (databaseURL : gostring) : effect (result goerror nat)
  | NewPool (config : nat) : effect (result goerror nat)
  | Ping (pool : nat) : effect (option goerror)
  | PoolClose (pool : nat) : effect unit
  | GenerateKey : effect (result goerror PrivateKey)
  | Listen (network : string) (address : gostring) : effect (result goerror nat)
  | NotifySignals : effect unit
  | StopSignals : effect unit
  | ServeHTTP (server : app.HTTPServer httpapi.Server unit) (listener : nat) : effect unit
  | Lifecycle {X} (e : app.effect X) : effect X
  | LogError (message : string) : effect unit
  | LoggerSync : effect (option errtree)
  | WriteStderr (line : gostring) : effect unit.

(** ** The store *)

Definition OpenWithConfig (config : option nat) : proc effect (result goerror nat) :=
  match config with
  | None => Return (Err (Errorf "pgxpool config cannot be nil" []))
  | Some config =>
      pool <== perform (NewPool config) ;;
      match pool with
      | Err err => Return (Err (Wrapped "create connection pool" [] err))
      | Ok pool =>
          pinged <== perform (Ping pool) ;;
          match pinged with
          | Some err =>
              _ <== perform (PoolClose pool) ;;
              Return (Err (Wrapped "ping database" [] err))
          | None => Return (Ok pool)
          end
      end
  end.

Definition Open (databaseURL : gostring) : proc effect (result goerror nat) :=
  config <== perform (ParseConfig databaseURL) ;;
  match config with
  | Err err => Return (Err (Wrapped "parse database url" [] err))
  | Ok config => OpenWithConfig (Some config)
  end.

Definition Close (store : nat) : proc effect unit := perform (PoolClose store).

(** ** Reporting *)

(** A format whose verbs are all [%d]. *)
Fixpoint sprintf_d (format : gostring) (args : list Z) : gostring :=
  match format, args with
  | x25 :: x64 :: rest, n :: args => fmt_d n ++ sprintf_d rest args
  | b :: rest, _ => b :: sprintf_d rest args
  | [], _ => []
  end.

Fixpoint Error (err : goerror) : gostring :=
  match err with
  | Sentinel name => gostr name
  | Errorf format args => sprintf_d (gostr format) args
  | Wrapped context args cause => sprintf_d (gostr context) args ++ gostr ": " ++ Error cause
  | Foreign type fields => foreign_text type fields
  end.

Definition writeFallback (message : gostring) : proc effect unit :=
  perform (WriteStderr (fallback.fallback_line message)).

Definition syncLogger : proc effect (option errtree) :=
  err <== perform LoggerSync ;;
  Return (fallback.normalizeStandardStreamSyncError err).

(** [Runtime.Shutdown]: no providers, nothing to do; [None] is nil. *)
Definition runtime_Shutdown (runtime : logging.Runtime) (timeout : Z) : proc effect (list goerror) :=
  match logging.Shutdown runtime with
  | [] => Return []
  | providers => perform (ShutdownProviders providers timeout)
  end.

Definition cleanupRuntimeAfterStartupFailure (cfg : config.Config) (runtime : logging.Runtime) :
    proc effect unit :=
  errs <== runtime_Shutdown runtime (config.ShutdownTimeout cfg) ;;
  _ <== (match errs with [] => Return tt | _ => perform (LogError telemetryCleanupFailureMessage) end) ;;
  synced <== syncLogger ;;
  match synced with
  | None => Return tt
  | Some err => writeFallback (gostr "sync logger after startup failure: " ++ Error_tree err)
  end.

(** ** Running *)

(** The errors of a call as one error. *)
Definition joined (errs : list goerror) : option goerror :=
  match errs with
  | [] => None
  | _ => Some (Foreign "errors.joinError" (map (fun e => String.string_of_list_byte (Error e)) errs))
  end.

(** The dependencies given to [app.Run]: the server, the shutdown of the runtime
    and the sync of the logger. *)
Definition dependencies (cfg : config.Config) (runtime : logging.Runtime)
    (server : app.HTTPServer httpapi.Server unit) (listener : nat) X (e : app.effect X) : proc effect X :=
  match e in app.effect Y return proc effect Y with
  | app.Serve => perform (ServeHTTP server listener)
  | app.ShutdownTelemetry =>
      errs <== runtime_Shutdown runtime (config.ShutdownTimeout cfg) ;; Return (joined errs)
  | app.SyncLogger =>
      synced <== syncLogger ;;
      Return (match synced with
              | None => None
              | Some err => Some (Foreign "sync" [String.string_of_list_byte (Error_tree err)])
              end)
  | e => perform (Lifecycle e)
  end.

(** From the listener on. *)
Definition serve (cfg : config.Config) (runtime : logging.Runtime) (apiServer : httpapi.Server) : proc effect Z :=
  listener <== perform (Listen listenNetwork (config.Address cfg)) ;;
  match listener with
  | Err err =>
      _ <== perform (LogError listenFailureMessage) ;;
      _ <== cleanupRuntimeAfterStartupFailure cfg runtime ;;
      Return exitFailure
  | Ok listener =>
      let server := app.NewHTTPServer (config.Address cfg) apiServer tt in
      _ <== perform NotifySignals ;;
      result <== interp (dependencies cfg runtime server listener)
        (app.Run true (config.ShutdownTimeout cfg) (app.MkDependencies true true true true)) ;;
      code <== (match result with
        | Ok [] => Return exitSuccess
        | _ =>
            _ <== perform (LogError runtimeFailureMessage) ;;
            synced <== syncLogger ;;
            _ <== (match synced with
                   | None => Return tt
                   | Some err => writeFallback (gostr "sync logger after runtime failure: " ++ Error_tree err)
                   end) ;;
            Return exitFailure
        end) ;;
      _ <== perform StopSignals ;;
      Return code
  end.

(** With a store, which is closed last. *)
Definition serve_with_store (cfg : config.Config) (runtime : logging.Runtime) (store : nat) : proc effect Z :=
  let failed (message : string) : proc effect Z :=
    _ <== perform (LogError message) ;;
    _ <== cleanupRuntimeAfterStartupFailure cfg runtime ;;
    Return exitFailure in
  code <==
    (generated <== perform GenerateKey ;;
     match signer.GenerateLocalSigner generated (config.SignerKeyReference cfg) with
     | Err _ => failed "generate system signer failed"
     | Ok localSigner =>
         match admission.New (Some tt) (Some (signer.local_signer localSigner)) [] with
         | Err _ => failed "initialize admission service failed"
         | Ok admissionSvc => serve cfg runtime (httpapi.NewServer (Some admissionSvc) (Some tt))
         end
     end) ;;
  _ <== Close store ;;
  Return code.

Definition start (cfg : config.Config) (runtime : logging.Runtime) : proc effect Z :=
  if bool_decide (config.DatabaseURL cfg = []) then serve cfg runtime (httpapi.NewServer None None)
  else
    store <== Open (config.DatabaseURL cfg) ;;
    match store with
    | Err err =>
        _ <== perform (LogError "connect to database failed") ;;
        _ <== cleanupRuntimeAfterStartupFailure cfg runtime ;;
        Return exitFailure
    | Ok store => serve_with_store cfg runtime store
    end.

Definition run (lookup : config.LookupEnv) (buildVersion : gostring) : proc effect Z :=
  match config.Load lookup buildVersion with
  | Err err =>
      _ <== writeFallback (gostr "load configuration: " ++ Error err) ;;
      Return exitFailure
  | Ok cfg =>
      constructed <== interp (fun X e => perform (Telemetry e)) (logging.New cfg []) ;;
      match constructed with
      | Err (context, errs) =>
          _ <== writeFallback (gostr "construct observability: " ++ gostr context ++ gostr ": "
                               ++ fallback.join_lines (map Error errs)) ;;
          Return exitFailure
      | Ok runtime => start cfg runtime
      end
  end.
End Command.
(** * Properties *)

(** ** What the process holds

    The resources of the process, and whether it served and whether it reported a
    failure. *)
Record holds := MkHolds {
  h_exporters : list observability.exporter;
  h_pool : option nat;
  h_signals : bool;
  h_served : bool;
  h_reported : bool
}.

Definition nothing : holds := MkHolds [] None false false false.

(** The exporters that shutting down a provider shuts down. *)
Definition exporters_of (provider : observability.MeterProvider + observability.TracerProvider) :
    list observability.exporter :=
  match provider with
  | inl (observability.SdkMeterProvider _ h) => [observability.MetricExporter h]
  | inr (observability.SdkTracerProvider _ h _) => [observability.TraceExporter h]
  | _ => []
  end.

Section Properties.
Context {K : Ecdsa} {T : ErrnoText} {ET : ErrorText}.

(** One effect; [None] when it must not happen: a pool that is opened while
    another one is, used or closed when it is not open, a provider that is shut
    down twice, signals that are handled twice, or serving without them. *)
Definition track1 (st : holds) (o : observed effect) : option holds :=
  match obs_effect _ o in effect Y return Y -> option holds with
  | Telemetry e => fun x =>
      Some (MkHolds (observability.opened (h_exporters st) (Observed _ e x)) (h_pool st) (h_signals st)
              (h_served st) (h_reported st))
  | ShutdownProviders providers _ => fun _ =>
      let shut := concat (map exporters_of providers) in
      if bool_decide (shut <> [] /\ shut ⊆ h_exporters st)
      then Some (MkHolds (filter (fun e => e ∉ shut) (h_exporters st)) (h_pool st) (h_signals st)
                   (h_served st) (h_reported st))
      else None
  | NewPool _ => fun r =>
      match r, h_pool st with
      | Ok p, None => Some (MkHolds (h_exporters st) (Some p) (h_signals st) (h_served st) (h_reported st))
      | Ok _, Some _ => None
      | Err _, _ => Some st
      end
  | Ping p => fun _ => if bool_decide (h_pool st = Some p) then Some st else None
  | PoolClose p => fun _ =>
      if bool_decide (h_pool st = Some p)
      then Some (MkHolds (h_exporters st) None (h_signals st) (h_served st) (h_reported st)) else None
  | NotifySignals => fun _ =>
      if h_signals st then None
      else Some (MkHolds (h_exporters st) (h_pool st) true (h_served st) (h_reported st))
  | StopSignals => fun _ =>
      if h_signals st then Some (MkHolds (h_exporters st) (h_pool st) false (h_served st) (h_reported st))
      else None
  | ServeHTTP _ _ => fun _ =>
      if h_signals st && negb (h_served st)
      then Some (MkHolds (h_exporters st) (h_pool st) true true (h_reported st)) else None
  | LogError _ | WriteStderr _ => fun _ =>
      Some (MkHolds (h_exporters st) (h_pool st) (h_signals st) (h_served st) true)
  | _ => fun _ => Some st
  end (obs_reply _ o).

Fixpoint track (st : holds) (tr : list (observed effect)) : option holds :=
  match tr with
  | [] => Some st
  | o :: rest => match track1 st o with Some st' => track st' rest | None => None end
  end.

Lemma track_app st tr1 tr2 :
  track st (tr1 ++ tr2) = match track st tr1 with Some st' => track st' tr2 | None => None end.
Proof.
  revert st. induction tr1 as [|o tr1 IH]; intros st; cbn; [done|]. destruct (track1 st o); [apply IH|done].
Qed.

(** Every execution of [p] from [st] is tracked, to a state and value in [Q]. *)
Definition moves {A} (p : proc effect A) (st : holds) (Q : A -> holds -> Prop) : Prop :=
  forall tr a, executes p tr a -> exists st', track st tr = Some st' /\ Q a st'.

Lemma moves_return {A} (a : A) st (Q : A -> holds -> Prop) : Q a st -> moves (Return a) st Q.
Proof. intros H tr b [-> ->]. by exists st. Qed.

Lemma moves_bind {A B} (p : proc effect A) (f : A -> proc effect B) st R (Q : B -> holds -> Prop) :
  moves p st R -> (forall a st', R a st' -> moves (f a) st' Q) -> moves (proc_bind p f) st Q.
Proof.
  intros Hp Hf tr b (tr1 & tr2 & a & -> & H1 & H2)%executes_bind.
  destruct (Hp tr1 a H1) as (st1 & Ht1 & HR). destruct (Hf a st1 HR tr2 b H2) as (st2 & Ht2 & HQ).
  exists st2. by rewrite track_app, Ht1.
Qed.

Lemma moves_perform {X} (e : effect X) st (Q : X -> holds -> Prop) :
  (forall x, exists st', track1 st (Observed X e x) = Some st' /\ Q x st') -> moves (perform e) st Q.
Proof.
  intros H tr x ->%executes_perform. destruct (H x) as (st' & Ht & HQ). exists st'. cbn [track]. by rewrite Ht.
Qed.

Lemma moves_step {X A} (e : effect X) (k : X -> proc effect A) st (Q : A -> holds -> Prop) :
  (forall x, exists st', track1 st (Observed X e x) = Some st' /\ moves (k x) st' Q) ->
  moves (Perform e k) st Q.
Proof.
  intros H tr a (x & tr' & -> & Hk). destruct (H x) as (st' & Ht & Hm).
  destruct (Hm tr' a Hk) as (st2 & Ht2 & HQ). exists st2. cbn [track]. by rewrite Ht.
Qed.

(** An effect that changes nothing of this. *)
Lemma moves_silent {X} (e : effect X) st (Q : X -> holds -> Prop) :
  (forall x, track1 st (Observed X e x) = Some st) -> (forall x, Q x st) -> moves (perform e) st Q.
Proof. intros H HQ. apply moves_perform. intros x. by exists st. Qed.

Lemma moves_consequence {A} (p : proc effect A) st (R Q : A -> holds -> Prop) :
  moves p st R -> (forall a st', R a st' -> Q a st') -> moves p st Q.
Proof. intros H HQ tr a He. destruct (H tr a He) as (st' & Ht & HR). eauto. Qed.
(** ** The parts of the process *)

(** The exporters of the runtime are open. *)
Definition runtime_holds (runtime : logging.Runtime) (l : list observability.exporter) : Prop :=
  (logging.Shutdown runtime = [] /\ l = []) \/
  (exists resource te me ratio,
     logging.Shutdown runtime =
       [inl (observability.SdkMeterProvider resource me); inr (observability.SdkTracerProvider resource te ratio)] /\
     l = [observability.TraceExporter te; observability.MetricExporter me]).

(** After the runtime was shut down; [reported] may only have been set. *)
Definition shut (st st' : holds) : Prop :=
  h_exporters st' = [] /\ h_pool st' = h_pool st /\ h_signals st' = h_signals st /\ h_served st' = h_served st /\
  (h_reported st = true -> h_reported st' = true).

Lemma shutdown_moves runtime timeout st :
  runtime_holds runtime (h_exporters st) ->
  moves (runtime_Shutdown runtime timeout) st (fun _ st' =>
    st' = MkHolds [] (h_pool st) (h_signals st) (h_served st) (h_reported st)).
Proof.
  intros [[Hs Hl]|(resource & te & me & ratio & Hs & Hl)]; unfold runtime_Shutdown; rewrite Hs.
  - apply moves_return. rewrite <- Hl. by destruct st.
  - apply moves_perform. intros errs. cbn [track1 obs_effect obs_reply map exporters_of concat app].
    rewrite Hl. rewrite bool_decide_eq_true_2.
    + eexists. split; [done|]. f_equal. rewrite !filter_cons, !decide_False, filter_nil by set_solver. done.
    + split; [done|]. set_solver.
Qed.

Lemma sync_moves st : moves syncLogger st (fun _ st' => st' = st).
Proof.
  unfold syncLogger. eapply moves_bind; [apply (moves_silent _ _ (fun _ st' => st' = st)); done|].
  intros err st' ->. by apply moves_return.
Qed.

Lemma report_moves message st :
  moves (perform (LogError message)) st (fun _ st' =>
    st' = MkHolds (h_exporters st) (h_pool st) (h_signals st) (h_served st) true).
Proof. apply moves_perform. intros []. by eexists. Qed.

Lemma fallback_moves message st :
  moves (writeFallback message) st (fun _ st' =>
    st' = MkHolds (h_exporters st) (h_pool st) (h_signals st) (h_served st) true).
Proof. apply moves_perform. intros []. by eexists. Qed.

Lemma cleanup_moves cfg runtime st :
  runtime_holds runtime (h_exporters st) ->
  moves (cleanupRuntimeAfterStartupFailure cfg runtime) st (fun _ st' => shut st st').
Proof.
  intros Hr. unfold cleanupRuntimeAfterStartupFailure.
  eapply moves_bind; [by apply shutdown_moves|]. intros errs st1 ->.
  eapply moves_bind with (R := fun _ st' => shut st st').
  { destruct errs; [by apply moves_return|]. eapply moves_consequence; [apply report_moves|].
    by intros [] st' ->. }
  intros [] st2 Hst. eapply moves_bind; [apply sync_moves|]. intros synced st3 ->.
  destruct synced; [|by apply moves_return]. eapply moves_consequence; [apply fallback_moves|].
  intros [] st' ->. destruct Hst as (? & ? & ? & ? & _). by repeat split.
Qed.

(** Failing after the runtime was built. *)
Lemma failed_moves cfg runtime message st :
  runtime_holds runtime (h_exporters st) ->
  moves (_ <== perform (LogError message) ;; _ <== cleanupRuntimeAfterStartupFailure cfg runtime ;;
         Return exitFailure) st
    (fun code st' => shut st st' /\ code = exitFailure /\ h_reported st' = true).
Proof.
  intros Hr. eapply moves_bind; [apply report_moves|]. intros [] st1 ->.
  eapply moves_bind; [by apply cleanup_moves|]. intros [] st2 (? & ? & ? & ? & Hrep). cbn in *.
  apply moves_return. split; [|by auto]. split_and!; auto.
Qed.

(** What [app.Run] does of this. *)
Lemma lifecycle_moves cfg runtime server listener st :
  app.validateRunInputs true (config.ShutdownTimeout cfg) (app.MkDependencies true true true true) = None ->
  runtime_holds runtime (h_exporters st) -> h_signals st = true -> h_served st = false ->
  moves (interp (dependencies cfg runtime server listener)
    (app.Run true (config.ShutdownTimeout cfg) (app.MkDependencies true true true true))) st
    (fun res st' => (exists errs, res = Ok errs) /\
       st' = MkHolds [] (h_pool st) true true (h_reported st)).
Proof.
  intros Hv Hr Hsig Hsrv. unfold app.Run. rewrite Hv. cbn [interp proc_bind perform dependencies].
  set (st1 := MkHolds (h_exporters st) (h_pool st) true true (h_reported st)).
  apply moves_step. intros []. exists st1. split; [cbn [track1 obs_effect obs_reply]; by rewrite Hsig, Hsrv|].
  apply moves_step. intros served. exists st1. split; [done|].
  apply moves_step. intros []. exists st1. split; [done|].
  apply moves_step. intros http. exists st1. split; [done|].
  assert (Hend : forall serveErr, moves (interp (dependencies cfg runtime server listener)
    (telemetryShutdownErr <== perform app.ShutdownTelemetry ;; loggerSyncErr <== perform app.SyncLogger ;;
     Return (Ok (E := goerror) (app.Join [app.normalizeServeError serveErr; app.wrapError "shut down HTTP server" http;
       app.wrapError "shut down telemetry" telemetryShutdownErr; app.wrapError "sync logger" loggerSyncErr])))) st1
    (fun res st' => (exists errs, res = Ok errs) /\ st' = MkHolds [] (h_pool st) true true (h_reported st))).
  { intros serveErr. cbn [interp proc_bind perform dependencies].
    eapply moves_bind with (R := fun _ st' => st' = MkHolds [] (h_pool st) true true (h_reported st)).
    { eapply moves_bind; [by apply shutdown_moves|]. intros errs st' ->. by apply moves_return. }
    intros telemetry st' ->. eapply moves_bind.
    { eapply moves_bind; [apply sync_moves|]. intros synced st' Hst.
      by apply (moves_return _ _ (fun _ st' => st' = MkHolds [] (h_pool st) true true (h_reported st))). }
    intros logger st' ->. apply moves_return. by eauto. }
  destruct served as [serveErr|]; [exact (Hend serveErr)|]. cbn [interp proc_bind perform dependencies].
  apply moves_step. intros [serveErr|ctxErr]; exists st1; (split; [done|]);
    [exact (Hend serveErr)|exact (Hend (Some (Wrapped "wait for HTTP server" [] ctxErr)))].
Qed.

(** How a part of the process ends: with the runtime shut down and no signals,
    and with 0 exactly when it served and reported nothing. *)
Definition ended (st : holds) (code : Z) (st' : holds) : Prop :=
  h_exporters st' = [] /\ h_pool st' = h_pool st /\ h_signals st' = false /\
  ((code = exitSuccess /\ h_reported st' = false /\ h_served st' = true) \/
   (code = exitFailure /\ h_reported st' = true)).

(** At the start of serving. *)
Definition ready (cfg : config.Config) (runtime : logging.Runtime) (st : holds) : Prop :=
  app.validateRunInputs true (config.ShutdownTimeout cfg) (app.MkDependencies true true true true) = None /\
  runtime_holds runtime (h_exporters st) /\ h_signals st = false /\ h_served st = false /\ h_reported st = false.

Lemma failed_ended st code st' :
  h_signals st = false -> shut st st' /\ code = exitFailure /\ h_reported st' = true -> ended st code st'.
Proof.
  intros Hs [(He & Hp & Hsig & _ & _) [-> Hr]]. split_and!; [done|done|congruence|by right].
Qed.

Lemma serve_moves cfg runtime apiServer st :
  ready cfg runtime st -> moves (serve cfg runtime apiServer) st (fun code st' => ended st code st').
Proof.
  intros (Hv & Hr & Hsig & Hsrv & Hrep). unfold serve.
  eapply moves_bind; [by apply (moves_silent _ _ (fun _ st' => st' = st))|]. intros listener st' ->.
  destruct listener as [listener|err].
  2: { eapply moves_consequence; [by apply failed_moves|]. intros code st' H. by apply failed_ended. }
  eapply moves_bind with (R := fun _ st' => st' = MkHolds (h_exporters st) (h_pool st) true false false).
  { apply moves_perform. intros []. cbn [track1 obs_effect obs_reply]. rewrite Hsig, Hsrv, Hrep. by eexists. }
  intros [] st' ->. eapply moves_bind; [by apply lifecycle_moves|]. cbn [h_pool h_reported].
  intros res st' [[errs ->] ->].
  eapply moves_bind with (R := fun code st' => h_exporters st' = [] /\ h_pool st' = h_pool st /\ h_signals st' = true /\
    ((code = exitSuccess /\ h_reported st' = false /\ h_served st' = true) \/ (code = exitFailure /\ h_reported st' = true))).
  { destruct errs as [|e errs]; [apply moves_return; split_and!; auto|].
    eapply moves_bind; [apply report_moves|]. intros [] st' ->. eapply moves_bind; [apply sync_moves|].
    intros synced st' ->. cbn [h_exporters h_pool h_signals h_served].
    eapply moves_bind with (R := fun _ st' => st' = MkHolds [] (h_pool st) true true true).
    { destruct synced; [|by apply moves_return]. eapply moves_consequence; [apply fallback_moves|]. by intros [] st' ->. }
    intros [] st' ->. apply moves_return. split_and!; auto. }
  intros code st' (He & Hp & Hs & Hc).
  eapply moves_bind with (R := fun _ st2 => st2 = MkHolds [] (h_pool st) false (h_served st') (h_reported st')).
  { apply moves_perform. intros []. cbn [track1 obs_effect obs_reply]. rewrite Hs, He, Hp. by eexists. }
  intros [] st2 ->. apply moves_return. by split_and!.
Qed.

Lemma store_moves cfg runtime store st :
  ready cfg runtime st -> h_pool st = Some store ->
  moves (serve_with_store cfg runtime store) st (fun code st' => ended st' code st' /\ h_pool st' = None).
Proof.
  intros Hready Hpool. pose proof Hready as (Hv & Hr & Hsig & Hsrv & Hrep). unfold serve_with_store.
  eapply moves_bind with (R := fun code st' => ended st code st').
  { eapply moves_bind; [by apply (moves_silent _ _ (fun _ st' => st' = st))|]. intros generated st' ->.
    assert (Hf : forall message, moves (_ <== perform (LogError message) ;;
      _ <== cleanupRuntimeAfterStartupFailure cfg runtime ;; Return exitFailure) st (fun code st' => ended st code st')).
    { intros message. eapply moves_consequence; [by apply failed_moves|]. intros code st' H. by apply failed_ended. }
    destruct (signer.GenerateLocalSigner _ _); [|apply Hf].
    destruct (admission.New _ _ _); [by apply serve_moves|apply Hf]. }
  intros code st' (He & Hp & Hs & Hc).
  eapply moves_bind with (R := fun _ st2 => st2 = MkHolds [] None false (h_served st') (h_reported st')).
  { apply moves_perform. intros []. cbn [track1 obs_effect obs_reply]. rewrite Hp, Hpool, bool_decide_eq_true_2 by done.
    rewrite He, Hs. by eexists. }
  intros [] st2 ->. apply moves_return. split; [|done]. by split_and!.
Qed.

(** Opening the store: the pool is held exactly when it is returned. *)
Lemma Open_moves databaseURL st :
  h_pool st = None ->
  moves (Open databaseURL) st (fun r st' =>
    st' = MkHolds (h_exporters st) (match r with Ok p => Some p | Err _ => None end) (h_signals st)
            (h_served st) (h_reported st)).
Proof.
  intros Hp. assert (Hst : st = MkHolds (h_exporters st) None (h_signals st) (h_served st) (h_reported st))
    by (rewrite <- Hp; by destruct st).
  unfold Open. eapply moves_bind; [by apply (moves_silent _ _ (fun _ st' => st' = st))|]. intros config st' ->.
  destruct config as [config|err]; [|by apply moves_return]. unfold OpenWithConfig.
  eapply moves_bind with (R := fun r st' => st' = MkHolds (h_exporters st)
    (match r with Ok p => Some p | Err _ => None end) (h_signals st) (h_served st) (h_reported st)).
  { apply moves_perform. intros [p|err]; cbn [track1 obs_effect obs_reply]; rewrite ?Hp; by eexists. }
  intros [p|err] st' ->; [|by apply moves_return]. eapply moves_bind.
  { apply (moves_silent _ _ (fun _ st' => st' = MkHolds (h_exporters st) (Some p) (h_signals st) (h_served st) (h_reported st)));
      [|done]. intros x. cbn [track1 obs_effect obs_reply h_pool]. by rewrite bool_decide_eq_true_2. }
  intros [err|] st' ->; [|by apply moves_return]. eapply moves_bind.
  { apply (moves_perform _ _ (fun _ st' => st' = MkHolds (h_exporters st) None (h_signals st) (h_served st) (h_reported st))).
    intros []. cbn [track1 obs_effect obs_reply h_pool]. rewrite bool_decide_eq_true_2 by done. by eexists. }
  intros [] st' ->. by apply moves_return.
Qed.
(** ** The whole process *)

Definition with_exporters (st : holds) (l : list observability.exporter) : holds :=
  MkHolds l (h_pool st) (h_signals st) (h_served st) (h_reported st).

Lemma telemetry_tracked etr tr : interp_trace (fun X e => perform (Telemetry e)) etr tr -> forall st,
  track st tr = Some (with_exporters st (foldl observability.opened (h_exporters st) etr)).
Proof.
  induction 1 as [|X e x etr tr1 tr2 H1 H2 IH]; intros st; [by destruct st|].
  apply executes_perform in H1 as ->. cbn [app track track1 obs_effect obs_reply foldl]. by rewrite IH.
Qed.

(** Constructing the runtime: it owns the exporters that are open. *)
Lemma New_moves cfg logger st :
  logging.newLogger (config.LogLevel cfg) None = Ok logger -> h_exporters st = [] ->
  moves (interp (fun X e => perform (Telemetry e)) (logging.New cfg [])) st (fun r st' =>
    exists l, st' = with_exporters st l /\
    match r with Ok runtime => runtime_holds runtime l | Err _ => l = [] end).
Proof.
  intros Hl Hst tr r (etr & He & Ht)%interp_executes. unfold logging.New in He. cbn [foldl] in He.
  change (observability.opt_logSink observability.defaultOptions) with (@None nat) in He. rewrite Hl in He.
  apply executes_bind in He as (etr1 & etr2 & t & -> & Hn & He).
  apply observability.newTelemetry_post in Hn as (Hlive & Hres & _).
  assert (etr2 = []) as -> by (destruct t; by destruct He). rewrite app_nil_r in Ht.
  exists (with_exporters st (observability.live_exporters etr1)). split.
  { rewrite (telemetry_tracked _ _ Ht), Hst. done. }
  exists (observability.live_exporters etr1). split; [done|]. rewrite Hlive.
  destruct t as [t|errs]; destruct He as [_ ->]; [|done].
  destruct (config.Enabled (config.cfg_Telemetry cfg)).
  - destruct Hres as (resource & te & me & Ht1 & Hm1 & Hs). right.
    exists resource, te, me, (config.TraceSampleRatio (config.cfg_Telemetry cfg)).
    unfold logging.Shutdown, observability.owned. cbn [logging.rt_shutdown]. by rewrite Hs, Ht1, Hm1.
  - destruct Hres as [_ ->]. by left.
Qed.

Lemma start_moves cfg runtime st :
  ready cfg runtime st -> h_pool st = None ->
  moves (start cfg runtime) st (fun code st' => ended st code st').
Proof.
  intros Hready Hpool. pose proof Hready as (Hv & Hr & Hsig & Hsrv & Hrep). unfold start.
  case_bool_decide; [by apply serve_moves|].
  eapply moves_bind; [by apply Open_moves|]. intros [store|err] st' ->.
  - eapply moves_consequence; [by apply store_moves|]. intros code st' [(? & _ & ? & ?) Hp].
    split_and!; try done. by rewrite Hp.
  - rewrite <- Hpool. assert (Hst : MkHolds (h_exporters st) (h_pool st) (h_signals st) (h_served st) (h_reported st) = st)
      by (by destruct st). rewrite Hst.
    eapply moves_consequence; [by apply failed_moves|]. intros code st' H'. by apply failed_ended.
Qed.

Lemma loaded_inputs lookup v cfg :
  config.Load lookup v = Ok cfg ->
  app.validateRunInputs true (config.ShutdownTimeout cfg) (app.MkDependencies true true true true) = None.
Proof.
  intros H. destruct (config.co_timeout _ _ (config.Load_ok lookup v cfg H)) as [Ht _].
  unfold app.validateRunInputs, app.telemetryShutdownReserve, config.minimumShutdownTimeout in *. cbn [negb].
  by rewrite (proj2 (Z.leb_gt _ _)).
Qed.

Lemma run_moves lookup v : moves (run lookup v) nothing (fun code st' => ended nothing code st').
Proof.
  unfold run. destruct (config.Load lookup v) as [cfg|err] eqn:Hload.
  2: { eapply moves_bind; [apply fallback_moves|]. intros [] st' ->. apply moves_return. split_and!; auto. }
  destruct (logging.loaded_logger lookup v cfg None Hload) as [logger Hl].
  eapply moves_bind; [by apply (New_moves cfg logger)|]. intros [runtime|[context errs]] st' (l & -> & Hr).
  - eapply moves_consequence; [apply start_moves; [|done]|done].
    split_and!; [by eapply loaded_inputs|done..].
  - subst l. eapply moves_bind; [apply fallback_moves|]. intros [] st' ->. apply moves_return. split_and!; auto.
Qed.

(** C13: nothing leaks. Whatever the environment answers, and whether the
    process fails while loading, constructing telemetry, connecting, generating
    its key, listening or serving: at its exit every exporter it opened was shut
    down, the database pool is closed and signals are no longer handled; no
    provider was shut down twice, no pool used or closed that was not open, and
    nothing was served before signals were handled. *)
Theorem run_releases lookup v tr code :
  executes (run lookup v) tr code ->
  exists st, track nothing tr = Some st /\
    h_exporters st = [] /\ h_pool st = None /\ h_signals st = false.
Proof.
  intros H. destruct (run_moves lookup v tr code H) as (st & Ht & He & Hp & Hs & _). by exists st.
Qed.

(** The exit code. The process exits with 0 or 1; with 0 exactly when it
    reported no failure, neither in the log nor on standard error, and then it
    did serve. *)
Theorem run_exit lookup v tr code :
  executes (run lookup v) tr code ->
  exists st, track nothing tr = Some st /\
    (code = exitSuccess \/ code = exitFailure) /\
    (code = exitSuccess <-> h_reported st = false) /\
    (code = exitSuccess -> h_served st = true).
Proof.
  intros H. destruct (run_moves lookup v tr code H) as (st & Ht & _ & _ & _ & Hc). exists st.
  split; [done|]. destruct Hc as [(-> & -> & ->)|[-> ->]]; split_and!; auto; done.
Qed.
End Properties.
(** ** Witnesses *)

Definition ref_errno : ErrnoText := {| errno_text errno := fmt_d errno |}.
Definition ref_text : ErrorText := {| foreign_text type _ := gostr type |}.

(** The database does not answer. *)
Definition unreachable : list (observed (effect (K := Toy.ecdsa))) :=
  [Observed _ (ParseConfig (gostr "postgres://db")) (Ok 3%nat);
   Observed _ (NewPool 3) (Ok 4%nat);
   Observed _ (Ping 4) (Some (Foreign "net.OpError" []));
   Observed _ (PoolClose 4) tt;
   Observed _ (LogError "connect to database failed") tt;
   Observed _ LoggerSync (Some (PathError fallback.standardStreamSyncOperation fallback.standardOutputPath
                                  (Some (Errno 25))))].

Lemma run_releases_witness :
  exists st, track nothing unreachable = Some st /\
    h_exporters st = [] /\ h_pool st = None /\ h_signals st = false.
Proof.
  apply (run_releases (K := Toy.ecdsa) (T := ref_errno) (ET := ref_text)
    (fun key => if String.eqb key "DATABASE_URL" then Some (gostr "postgres://db") else None) [] unreachable 1).
  repeat first [split | eexists].
Defined.

(** A process without a database that is told to stop. *)
Definition stopped : list (observed (effect (K := Toy.ecdsa))) :=
  [Observed _ (Listen "tcp" (gostr ":8080")) (Ok 5%nat);
   Observed _ NotifySignals tt;
   Observed _ (ServeHTTP (app.NewHTTPServer (gostr ":8080") (httpapi.NewServer None None) tt) 5) tt;
   Observed _ (Lifecycle app.SelectServeOrDone) None;
   Observed _ (Lifecycle (app.WithTimeout (8 * Second))) tt;
   Observed _ (Lifecycle (app.ShutdownServer (8 * Second - app.telemetryShutdownReserve))) None;
   Observed _ (Lifecycle app.SelectServeOrDeadline) (inl (Some app.ErrServerClosed));
   Observed _ LoggerSync None;
   Observed _ StopSignals tt].

Lemma run_exit_witness : exists st, track nothing stopped = Some st /\ h_served st = true /\ h_reported st = false.
Proof.
  destruct (run_exit (K := Toy.ecdsa) (T := ref_errno) (ET := ref_text) (fun _ => None) [] stopped 0)
    as (st & Ht & _ & Hr & Hs).
  { repeat first [split | eexists]. }
  exists st. split; [exact Ht|]. split; [exact (Hs eq_refl)|exact (proj1 Hr eq_refl)].
Defined.
End command.
