(* ===== verification/Golden.v ===== *)
(** * Conformance vectors

    [protocol/ledger/v1/testdata/genesis-v1.json], evaluated: the model with the
    reference codec and SHA-256 builds, byte for byte, the genesis event and
    record the repository publishes, and reads them back. *)

From S2P Require Import Prelude Text Sha256 Cbor CborRef LedgerCodec LedgerEvent LedgerRecord LedgerChain Ecdsa Identity.

Module vectors.

Definition hex (s : string) : bytes := default [] (DecodeString (gostr s)).

#[local] Open Scope string_scope.

Definition ledger_id : LedgerID := copy_array 32 (hex
  "000102030405060708090a0b0c0d0e0f101112131415161718191a1b1c1d1e1f").
Definition admitted_at_unix_ms : Z := 1735689600123.
Definition signer_key_reference : gostring := gostr (
  "projects/attribution-chain-505000/locations/global/keyRings/" ++
  "system-signing/cryptoKeys/ledger-admission/cryptoKeyVersions/1").
Definition signature : bytes := hex "3006020101020101".

Definition genesis_event_body : bytes := hex (
  "a80001015820000102030405060708090a0b0c0d0e0f101112131415161718191a1b1c1d1e1f020103f6041b" ++
  "000001941f297c7b050106010741a0").

Definition genesis_record_body : bytes := hex (
  "a8000101583ba80001015820000102030405060708090a0b0c0d0e0f101112131415161718191a1b1c1d1e1f" ++
  "020103f6041b000001941f297c7b050106010741a002677368612d32353603582026bab9e3db670d0bb9bb1b" ++
  "baff5fe975f19359c28409401abe6c316c82e9df7204787a70726f6a656374732f6174747269627574696f6e" ++
  "2d636861696e2d3530353030302f6c6f636174696f6e732f676c6f62616c2f6b657952696e67732f73797374" ++
  "656d2d7369676e696e672f63727970746f4b6579732f6c65646765722d61646d697373696f6e2f6372797074" ++
  "6f4b657956657273696f6e732f31057165636473612d703235362d736861323536066861736e312d64657207" ++
  "483006020101020101").

Definition genesis_ledger_record : bytes := hex (
  "a4000101590111a8000101583ba80001015820000102030405060708090a0b0c0d0e0f101112131415161718" ++
  "191a1b1c1d1e1f020103f6041b000001941f297c7b050106010741a002677368612d32353603582026bab9e3" ++
  "db670d0bb9bb1bbaff5fe975f19359c28409401abe6c316c82e9df7204787a70726f6a656374732f61747472" ++
  "69627574696f6e2d636861696e2d3530353030302f6c6f636174696f6e732f676c6f62616c2f6b657952696e" ++
  "67732f73797374656d2d7369676e696e672f63727970746f4b6579732f6c65646765722d61646d697373696f" ++
  "6e2f63727970746f4b657956657273696f6e732f31057165636473612d703235362d73686132353606686173" ++
  "6e312d6465720748300602010102010102677368612d3235360358203c9758df59d7a938da29f4cb5d82b7c9" ++
  "9a446cfad07e4d890dd3edfc8ab4f035").

Definition event_digest : bytes := hex
  "26bab9e3db670d0bb9bb1bbaff5fe975f19359c28409401abe6c316c82e9df72".
Definition record_digest : bytes := hex
  "3c9758df59d7a938da29f4cb5d82b7c99a446cfad07e4d890dd3edfc8ab4f035".

#[local] Close Scope string_scope.

(** The genesis event and record the constructors build. *)
Definition genesis_event : result ledger_error StructuralEvent :=
  NewGenesisEvent (C := Ref.codec) ledger_id admitted_at_unix_ms.

Definition genesis_record : result ledger_error StructuralRecord :=
  event <~ genesis_event ;; NewRecord (C := Ref.codec) event signer_key_reference signature.

(** Conformance. The genesis event and record built from the inputs of
    the published vector have the published bytes and digests, record body
    included. *)
Theorem genesis_vector :
  match genesis_event, genesis_record with
  | Ok e, Ok r =>
      ev_bytes e = genesis_event_body /\ arr_list (ev_digest e) = event_digest /\
      rec_bytes r = genesis_ledger_record /\ rec_recordBodyBytes r = genesis_record_body /\
      arr_list (rec_recordDigest r) = record_digest
  | _, _ => False
  end.
Proof. vm_compute. repeat split. Qed.

(** The published record is accepted, and starts a chain. *)
Example genesis_vector_accepted :
  match ValidateRecordStructure (C := Ref.codec) genesis_ledger_record with
  | Ok r => snd (ValidateChainConsistency (C := Ref.codec) zeroChainState r) = None
  | Err _ => False
  end.
Proof. vm_compute. reflexivity. Qed.

(** One flipped bit of the record digest is a digest mismatch, trailing data
    and a non-minimal integer are refused as CBOR. *)
Example genesis_vector_tampered :
  let flip := take 323 genesis_ledger_record ++ [x34] in
  ValidateRecordStructure (C := Ref.codec) flip
    = Err (WrappedError "ledger record" ErrDigestMismatch) /\
  ValidateEventStructure (C := Ref.codec) (genesis_event_body ++ [x00])
    = Err (WrappedError "event body" ErrMalformedCBOR) /\
  ValidateEventStructure (C := Ref.codec)
    ([xa8; x00; x18; x01] ++ drop 3 genesis_event_body)
    = Err (WrappedError "event body" ErrNonConformingCBOR).
Proof. vm_compute. repeat split. Qed.

End vectors.
