(* ===== verification/Vectors.v ===== *)
(** * The vector generator

    [protocol/ledger/v1/testdata/vectors_generate.go]: the script that writes the
    fixture files from the manifest of published vectors.  The file system is the
    environment; the text of the manifest is decoded by a parameter. *)

From stdpp Require Import fin_sets fin_map_dom.
From S2P Require Import Prelude Text Proc.

Module vectors_generate.

Definition fixtureDirectory : string := "protocol/ledger/v1/testdata".
Definition fixtureNames : list string :=
  ["genesis-payload.cbor"; "genesis-event-body.cbor"; "genesis-record-body.cbor"; "genesis-ledger-record.cbor"]%string.

Record vectorManifest := MkVectorManifest { Files : gmap string gostring }.

(** [json.Unmarshal] into the manifest. *)
Class ManifestJson := { Unmarshal : gostring -> result goerror vectorManifest }.

(** Paths are a directory and a name. *)
Inductive effect : Type -> Type :=
  | ReadFile (directory name : string) : effect (result goerror gostring)
  | WriteFile (directory name : string) (data : bytes) : effect (option goerror).

(** The last loop; an error is what [log.Fatal] ends the script with. *)
Fixpoint write_fixtures (manifest : vectorManifest) (names : list string) : proc effect (result goerror unit) :=
  match names with
  | [] => Return (Ok tt)
  | name :: names =>
      match Files manifest !! name with
      | None => Return (Err (Foreign "missing fixture name" [name]))
      | Some encodedHex =>
          match DecodeString encodedHex with
          | None => Return (Err (Foreign "decode" [name]))
          | Some encoded =>
              err <== perform (WriteFile fixtureDirectory name encoded) ;;
              match err with
              | Some err => Return (Err (Wrapped "write" [] err))
              | None => write_fixtures manifest names
              end
          end
      end
  end.

Definition main {J : ManifestJson} : proc effect (result goerror unit) :=
  manifestBytes <== perform (ReadFile fixtureDirectory "genesis-v1.json") ;;
  match manifestBytes with
  | Err err => Return (Err err)
  | Ok manifestBytes =>
      match Unmarshal manifestBytes with
      | Err err => Return (Err err)
      | Ok manifest =>
          if negb (Z.of_nat (size (Files manifest)) =? len fixtureNames)
          then Return (Err (Errorf "fixture entries = %d, want %d" [Z.of_nat (size (Files manifest)); len fixtureNames]))
          else if negb (forallb (fun name => bool_decide (name ∈ fixtureNames)) (map fst (map_to_list (Files manifest))))
          then Return (Err (Errorf "unexpected fixture name" []))
          else write_fixtures manifest fixtureNames
      end
  end.

(** * Properties *)

(** The writes of some names with the vectors of a manifest. *)
Definition writes (manifest : vectorManifest) (names : list string) (tr : list (observed effect)) : Prop :=
  Forall2 (fun name o => exists encodedHex encoded reply, Files manifest !! name = Some encodedHex /\
    DecodeString encodedHex = Some encoded /\
    o = Observed _ (WriteFile fixtureDirectory name encoded) reply) names tr.

Lemma write_fixtures_spec manifest names tr res :
  executes (write_fixtures manifest names) tr res ->
  exists done_, done_ `prefix_of` names /\ writes manifest done_ tr /\ (res = Ok tt -> done_ = names).
Proof.
  revert tr. induction names as [|name names IH]; intros tr H; cbn in H.
  - destruct H as [-> ->]. exists []. split_and!; [done|constructor|done].
  - destruct (Files manifest !! name) as [encodedHex|] eqn:Ef;
      [|destruct H as [-> ->]; exists []; split_and!; [apply prefix_nil|constructor|done]].
    destruct (DecodeString encodedHex) as [encoded|] eqn:Ed;
      [|destruct H as [-> ->]; exists []; split_and!; [apply prefix_nil|constructor|done]].
    cbn in H. destruct H as (reply & tr' & -> & H).
    assert (Hw : exists encodedHex encoded' reply', Files manifest !! name = Some encodedHex /\
      DecodeString encodedHex = Some encoded' /\
      Observed _ (WriteFile fixtureDirectory name encoded) reply = Observed _ (WriteFile fixtureDirectory name encoded') reply')
      by (by exists encodedHex, encoded, reply).
    destruct reply as [err|].
    + destruct H as [-> ->]. exists [name]. split_and!; [by apply prefix_cons, prefix_nil| |done].
      constructor; [exact Hw|constructor].
    + destruct (IH tr' H) as (done_ & Hp & Hs & Hr). exists (name :: done_).
      split_and!; [by apply prefix_cons|by constructor|]. intros ->. by rewrite Hr.
Qed.

(** What the script writes. It reads the manifest and then writes fixtures only,
    in their order and each with the decoding of its entry; nothing when the
    manifest does not name exactly the four of them; and all of them when it
    ends well. *)
Theorem main_writes {J : ManifestJson} tr res :
  executes main tr res ->
  exists reply rest, tr = Observed _ (ReadFile fixtureDirectory "genesis-v1.json") reply :: rest /\
    (rest = [] /\ res <> Ok tt \/
     exists text manifest done_, reply = Ok text /\ Unmarshal text = Ok manifest /\
       dom (Files manifest) = list_to_set fixtureNames /\
       done_ `prefix_of` fixtureNames /\ writes manifest done_ rest /\ (res = Ok tt -> done_ = fixtureNames)).
Proof.
  unfold main. cbn [proc_bind perform executes]. intros (reply & rest & -> & H). exists reply, rest. split; [done|].
  destruct reply as [text|err]; [|left; by destruct H as [-> ->]].
  destruct (Unmarshal text) as [manifest|err] eqn:Eu; [|left; by destruct H as [-> ->]].
  destruct (negb (_ =? _)) eqn:En; [left; by destruct H as [-> ->]|].
  destruct (negb (forallb _ _)) eqn:Ed; [left; by destruct H as [-> ->]|]. prep_bool.
  right. destruct (write_fixtures_spec _ _ _ _ H) as (done_ & Hp & Hw & Hr).
  exists text, manifest, done_. split_and!; try done.
  rewrite forallb_forall in Ed.
  apply set_subseteq_size_eq.
  - intros name Hn. apply elem_of_dom in Hn as [hex Hn]. apply elem_of_list_to_set.
    specialize (Ed name). apply bool_decide_eq_true in Ed; [done|]. apply list_elem_of_In, list_elem_of_fmap.
    exists (name, hex). by split; [|apply elem_of_map_to_list].
  - rewrite size_dom. change (len fixtureNames) with 4 in En.
    replace (size (list_to_set (C := gset string) fixtureNames)) with 4%nat by (vm_compute; reflexivity). lia.
Qed.
End vectors_generate.
